(* ===== verification/_CoqProject ===== *)
-Q . S2P
Prelude.v
Bytes.v
Slots.v
Prog.v
Model.v
StreamBlocks.v
Paging.v
Sdk.v
Tenant.v
JsText.v
HttpHeaders.v
Streamer.v
Listener.v
StreamerProps.v
ListenerProps.v
BlockMaintenance.v
Contract.v
Tar.v
PinDrift.v
Codec.v
Wire.v
Compaction.v
Timers.v
Inflight.v
Queue.v
RunRetention.v
Schema.v
Ending.v
Retention.v
Maintenance.v
Migrate.v
QueueProps.v
Dispatcher.v
Reconciliation.v
Backfill.v
Transport.v
Ownership.v
Handover.v
Config.v
Service.v
World.v
Sweeps.v
Events.v
StartHook.v
CreateRun.v
CreateStep.v
CreateHook.v
Reads.v
BootRecovery.v
CreateWorld.v
Create.v
StorageRel.v
StorageInv.v
Lifecycle.v
Demo.v
StorageProps.v
LogProps.v
RunProps.v
HookProps.v
AdmissionProps.v
HazardProps.v
DispatchProps.v
RetentionProps.v
ReconcileProps.v
BootProps.v
BackfillProps.v
ConfigProps.v
Cli.v
CompactionProps.v
WireProps.v
MaintenanceProps.v
MigrateProps.v
ServiceProps.v
WorldProps.v
SweepsProps.v
