(* ===== verification/Prelude.v ===== *)
(** * A verification of the Eveland workflow world

    The program under src/ is a multi-tenant "World" for a durable workflow
    runtime: an event log and its projections in Postgres, streams of chunks, a
    queue of deliveries over graphile-worker, and a platform dispatcher that
    claims the jobs of all tenants and posts them to the deployments that run
    the workflows. This library models its TypeScript in Rocq, part by part, and
    proves what each part owes the others. File and function names below are
    those of src/src/, the one of scripts/ excepted.

    ** The parts, and where they are

    Foundations. [Prelude] holds the outcomes ([result]), the tactics ([case_goal],
    [split_hyps], [bools]), the hint databases [wfw] and [wfw_rw], the order of
    texts and the lemmas on lists and maps that the components share. [Bytes] is
    Node's Buffer, [JsText] the texts and numbers of JavaScript, [HttpHeaders] the
    headers of a request as both ends build and read them, [Codec] base 64 and JSON (a class of two functions and a class of their laws), [Slots] the
    decimal slot ids, [Paging] the keyset pages of every listing. [Sdk] is the
    third-party code the World is written against: a class of its functions,
    another of their documented behaviour, and one concrete instance of both for
    the witnesses. [Prog] gives a small language of database programs - single
    statements, transactions with savepoints, steps on the process's memory - its
    sequential meaning, the interleaving of any number of programs, and the rule
    by which a relation every atomic step respects holds of every interleaving.

    Storage (storage.ts, start-hook.ts, delivery-liveness.ts, run-retention-*.ts,
    drizzle/schema.ts). [Model] is the data, [Schema] the tables with their
    constraints and triggers and one definition per kind of statement,
    [RunRetention] the retention policy and its resolution, [Events] slot
    allocation, the in-band fence and the retried insert, [StartHook] the
    admission of a run that starts with a hook, [CreateRun], [CreateStep] and
    [CreateHook] the branches of events.create, [Create] the checks before them,
    the generic insert behind them, the fence around them and the listings of
    events, [Reads] the reads of runs, steps and hooks. [Ending] is the contract of
    a run's end, which the ending events and the host's reconciliation are both
    proved against. [StorageRel] is the class a
    relation on databases has to be an instance of for every request, however it
    interleaves, to respect it; [StorageInv] and [Lifecycle] are its instances.

    Streams (streamer.ts, stream-blocks.ts, stream-block-maintenance.ts,
    stream-compaction.ts, util.ts). [StreamBlocks] packs chunks into blocks,
    [Streamer] writes, pages and reads live, [Listener] is the mutex per stream that
    announcements are read under and the connection they come over,
    [BlockMaintenance] packs ended streams, [Compaction] strips snapshots.

    Queue (queue.ts, message.ts, dispatch-contract.ts, queue-policy.ts, timers.ts,
    inflight.ts). [Contract] is what both ends agree on, [Wire] the JSON transport,
    [Timers] the deliveries that are not due, [Inflight] what a process remembers of
    executions and how those of one run take turns, [Queue] sending and executing,
    [World] the start and the close of the queue, with the runner it may have to
    wait for, and the close of the world around it, [CreateWorld] the making and
    the start of that world and what it declares to the runtime (index.ts).

    Dispatcher (dispatcher/). [Dispatcher] handles one job from claim to outcome, the
    filter of duplicates in front and the writing of a dead letter behind it
    (dispatcher.ts, runner.ts), [Sweeps] is the runner's intervals and its stop,
    [Transport] activation, lease and POST (activation-client.ts,
    static-activation.ts, lease.ts, vqs-client.ts), [BootRecovery] the recovery on
    start (boot-recovery.ts, recovery.ts), [Ownership] the session that owns the
    database (ownership.ts), [Handover] any number of such sessions with the server
    and the clock between them, [Config] the configuration and the secrets of both
    ends (config.ts, index.ts, dispatcher/config.ts, secrets.ts), [Service] the
    order all of it starts and stops in and the process around it (service.ts,
    main.ts), [Cli] the set-up of a database from the command line and what the
    processes say of themselves (cli.ts, build-info.ts, observability.ts).

    Upkeep. [Retention] (retention.ts), [Backfill] (retention-backfill.ts),
    [Reconciliation] (reconciliation.ts), [Maintenance] (storage-maintenance.ts) and
    [Migrate] (migrate.ts).

    Releases (scripts/eve-pin-drift.mjs). [PinDrift] compares the packages a newer
    eve installs with the ones this repository pins, [Tar] is the archive it reads
    some of them from.

    A component's state is a record, its data inductive types with the source's
    constructors, and every operation one definition with the source's name. Files
    ending in Props hold the theorems of the component they are called after, each
    with a witness at a concrete input; [Demo] is the small world the storage
    witnesses run in.

    ** What the theorems show

    - Storage, under any interleaving of any requests (StorageProps): the log of a
      run only grows and its slots stay 1, 2, 3, ...; a run has its first event;
      a token has one hook; a disposed hook gets no delivery; an ended step stays;
      tenants do not touch each other. Alone (LogProps, RunProps, HookProps, AdmissionProps): what
      an ending, a takeover, an accepted and a refused start do to every table,
      and what a stale or late writer is refused. HazardProps and RunProps
      also have the states the code does not recover from.
    - Streams: a live reader gets every chunk once and in order, pages and counts
      agree with what was written, packing and compaction change no page but for
      what they strip, blocks are read back as they were packed, and announcements
      come out in the order they were made in.
    - Queue: timers bring deliveries back as they would have been, a key is not
      executed twice at a time, the executions of a run take turns in the order they
      came in, messages are read back as sent, a world that is created has one
      tenant, one version and one namespace in all its parts, deployments accept
      the dispatcher that shares their environment, there is one runner and none
      once closed, and closing ends.
    - Dispatcher: no delivery is lost but for a dead letter that cannot be written;
      a lease is given up after as many failed renewals as fit, which is in time
      where renewals are answered; while the server ends sessions for being idle
      only, no two dispatchers own a database, whatever ends them the old owner
      stops within the budget, and what a dead one held is had by the next; boot
      recovery strands no run whose key is its own; an accepted configuration is
      coherent; nothing is begun before the database is owned, and all is given back.
      Where the code does not ensure a condition of a theorem, a lemma beside it
      shows what happens without it.
    - Upkeep: sweeps delete exactly what is due and never what a live or persistent
      lineage needs, backfill and reconciliation converge to what they promise,
      migrations serialize, partitions come and go with their tenant.
    - Releases: the drift that is reported is the earliest there is, and none is
      reported only when every newer release has the set of the pinned one; an
      archive is read back by name.

    ** How the code is modelled

    - A statement is atomic, and so is a transaction in an interleaving; a
      transaction that fails undoes its statements but not the steps on memory. The
      one race the code retries inside a transaction, two inserts for one slot, is
      an oracle ([m_collide]): how many attempts find their slot taken. Row
      locks of other transactions are parameters ([so_locked_runs], [locked]).
      Where the order of steps between calls matters outside the database (the
      queue's start and close, migrations of several boots, announcements, sweeps,
      maintenance passes, executions of one key) the calls are explicit in a state
      machine whose step goes from one await to the next.
    - Integers are Z or N with the source's bounds written out; numbers that may be
      NaN or infinite are [js_number]. Instants are milliseconds. Texts are the
      bytes of their UTF-8, ordered byte by byte, which is the collation the
      code's ids rely on. Maps keyed by primary key are gmaps; select without order
      by gives the rows in the map's order.
    - Third-party code is a class or an argument: the workflow SDK, graphile's job
      table as far as the code reads it, its addJob and forceUnlockWorkers (a class,
      with the laws graphile documents: a key names one job, which a later call
      replaces), JSON.parse and JSON.stringify, URL, digests,
      the SQL of the migration files ([exec]), fetch and the executor's answers, the
      host's callbacks. Each hypothesis on it is a field of a class with a concrete
      instance.
    - Fuel: the graph of a backfill takes the square of the number of runs plus one,
      a walk over pages one more than the rows, frames and blocks one more than the
      bytes, a tar archive one more than its blocks of 512 bytes, the causes of an error one more than the
      errors there are, a boot's migrations four more than the files; the theorems on each of
      them say that the result is reached.

    ** Not modelled, and why

    Most error texts, log lines and telemetry attributes; the deprecated JSON twins of the
    CBOR columns and the parsing of rows by the SDK's schemas, which are third-party
    code; base 64 and JSON of cursors; graphile-worker itself, its claims and its
    backoff; sockets and abort signals, but for what is decided on their outcome; the
    order in which concurrent reads of one request's two queries see the table; the
    columns of dead letters that nothing reads back; why the server
    ends a dispatcher's session besides the idle timeout (it is one event); how long
    a renewal or a setting takes, which only hypotheses bound; the
    scripts that import the command lines, re-exports, and the tests, the conformance
    suite, the end-to-end harness and the scripts of measurement, which run the
    program and are no part of it. *)
From Stdlib Require Export ZArith NArith Lia.
From stdpp Require Export base option list strings gmap fin_maps.

(** ** Notations of the development *)

#[export] Set Warnings "-clear-no-such-hyp".

Declare Scope wfw_scope.
Delimit Scope wfw_scope with wfw.

#[global] Open Scope wfw_scope.

(** ** Outcomes

    The code either returns a value or throws; [result] is that sum. *)

Inductive result (E A : Type) : Type :=
| Ok (a : A)
| Err (e : E).
Arguments Ok {E A} a.
Arguments Err {E A} e.

#[export] Instance result_eq_dec `{EqDecision E} `{EqDecision A} : EqDecision (result E A).
Proof. solve_decision. Defined.

Definition is_ok {E A} (r : result E A) : bool :=
  match r with Ok _ => true | Err _ => false end.

Definition ok_value {E A} (r : result E A) : option A :=
  match r with Ok a => Some a | Err _ => None end.

Definition result_bind {E A B} (r : result E A) (f : A -> result E B) : result E B :=
  match r with Ok a => f a | Err e => Err e end.

(** ** Tactics *)

(** Case analysis on the scrutinee of the first [match] or [if] of the goal. *)
Ltac case_goal :=
  match goal with
  | |- context [match ?x with _ => _ end] => destruct x eqn:?
  end.

(** Splits every existential and conjunction among the hypotheses. *)
Ltac split_hyps :=
  repeat match goal with
  | H : exists x, _ |- _ => destruct H as [? H]
  | H : _ /\ _ |- _ => destruct H as [? H]
  end.

(** Turns boolean tests into the propositions they decide. *)
Ltac bools :=
  repeat match goal with
  | H : _ && _ = true |- _ => apply andb_prop in H; destruct H
  | H : _ || _ = false |- _ => apply orb_false_elim in H; destruct H
  | H : negb _ = true |- _ => apply negb_true_iff in H
  | H : negb _ = false |- _ => apply negb_false_iff in H
  | H : bool_decide _ = true |- _ => apply bool_decide_eq_true in H
  | H : bool_decide _ = false |- _ => apply bool_decide_eq_false in H
  | H : (_ <? _)%Z = true |- _ => apply Z.ltb_lt in H
  | H : (_ <? _)%Z = false |- _ => apply Z.ltb_ge in H
  | H : (_ <=? _)%Z = true |- _ => apply Z.leb_le in H
  | H : (_ <=? _)%Z = false |- _ => apply Z.leb_gt in H
  | H : (_ =? _)%Z = true |- _ => apply Z.eqb_eq in H
  | H : (_ =? _)%Z = false |- _ => apply Z.eqb_neq in H
  | H : String.eqb _ _ = true |- _ => apply String.eqb_eq in H
  | H : String.eqb _ _ = false |- _ => apply String.eqb_neq in H
  end.

Create HintDb wfw discriminated.
Create Rewrite HintDb wfw_rw.

(** ** Strings *)

(** Ids are ordered the way [order by id] orders them: byte by byte. *)
Definition str_lt (a b : string) : bool := String.ltb a b.
Definition str_le (a b : string) : bool := String.leb a b.

Lemma str_compare_refl s : String.compare s s = Eq.
Proof. induction s as [|x s IH]; simpl; [done|]. unfold Ascii.compare. by rewrite N.compare_refl. Qed.

Lemma ascii_compare_lt_trans a b c :
  Ascii.compare a b = Lt -> Ascii.compare b c = Lt -> Ascii.compare a c = Lt.
Proof. unfold Ascii.compare. rewrite !N.compare_lt_iff. lia. Qed.

Lemma ascii_compare_eq a b : Ascii.compare a b = Eq -> a = b.
Proof. apply Ascii.compare_eq_iff. Qed.

Lemma str_compare_lt_trans a : forall b c,
  String.compare a b = Lt -> String.compare b c = Lt -> String.compare a c = Lt.
Proof.
  induction a as [|x a IH]; intros [|y b] [|z c]; simpl; try done.
  destruct (Ascii.compare x y) eqn:E1; try done; destruct (Ascii.compare y z) eqn:E2; try done.
  - apply ascii_compare_eq in E1, E2. subst. unfold Ascii.compare. rewrite N.compare_refl. apply IH.
  - apply ascii_compare_eq in E1. subst. by rewrite E2.
  - apply ascii_compare_eq in E2. subst. by rewrite E1.
  - by rewrite (ascii_compare_lt_trans _ _ _ E1 E2).
Qed.

Lemma str_lt_spec a b : str_lt a b = true <-> String.compare a b = Lt.
Proof. unfold str_lt, String.ltb. destruct (String.compare a b); split; congruence. Qed.

Lemma str_le_spec a b : str_le a b = true <-> a = b \/ String.compare a b = Lt.
Proof.
  unfold str_le, String.leb. destruct (String.compare a b) eqn:E.
  - apply String.compare_eq_iff in E. split; auto.
  - split; auto.
  - split; [done|]. intros [->|?]; [|done]. by rewrite str_compare_refl in E.
Qed.

Lemma str_lt_irrefl a : str_lt a a = false.
Proof. unfold str_lt, String.ltb. by rewrite str_compare_refl. Qed.

Lemma str_lt_trans a b c : str_lt a b = true -> str_lt b c = true -> str_lt a c = true.
Proof. rewrite !str_lt_spec. apply str_compare_lt_trans. Qed.

Lemma str_lt_not_le a b : str_lt a b = negb (str_le b a).
Proof.
  unfold str_lt, str_le, String.ltb, String.leb. rewrite (String.compare_antisym b a).
  by destruct (String.compare a b).
Qed.

Lemma str_lt_total a b : str_lt a b = true \/ a = b \/ str_lt b a = true.
Proof.
  rewrite !str_lt_spec.
  rewrite (String.compare_antisym b a).
  destruct (String.compare a b) eqn:E; simpl; auto.
  apply String.compare_eq_iff in E. auto.
Qed.

Lemma string_app_cons x a b : String x a +:+ b = String x (a +:+ b).
Proof. done. Qed.

Lemma string_app_nil_l a : "" +:+ a = a.
Proof. done. Qed.

Lemma string_app_nil_r a : a +:+ "" = a.
Proof. induction a as [|x a IH]; [done|]. by rewrite string_app_cons, IH. Qed.

Lemma string_length_app a b : String.length (a +:+ b) = String.length a + String.length b.
Proof. induction a as [|x a IH]; [done|]. rewrite string_app_cons. simpl. by rewrite IH. Qed.

Lemma string_app_assoc a b c : (a +:+ b) +:+ c = a +:+ b +:+ c.
Proof. induction a as [|x a IH]; [done|]. by rewrite !string_app_cons, IH. Qed.

Lemma string_app_inj_l p a b : p +:+ a = p +:+ b -> a = b.
Proof. induction p as [|x p IH]; [done|]. rewrite !string_app_cons. intros [= H]. auto. Qed.

Lemma string_app_split a b s t :
  String.length a = String.length b -> a +:+ s = b +:+ t -> a = b /\ s = t.
Proof.
  revert b. induction a as [|c a IH]; intros [|d b] E H; try done.
  rewrite !string_app_cons in H. injection H as -> H. injection E as E.
  by destruct (IH b E H) as [-> ->].
Qed.

Lemma str_compare_app_l p a b : String.compare (p +:+ a) (p +:+ b) = String.compare a b.
Proof.
  induction p as [|x p IH]; [done|]. rewrite !string_app_cons. simpl.
  unfold Ascii.compare. by rewrite N.compare_refl.
Qed.

Lemma substring_all s n : String.length s <= n -> String.substring 0 n s = s.
Proof.
  revert n. induction s as [|x s IH]; intros [|n] H; simpl in *; try done; [lia|].
  f_equal. apply IH. lia.
Qed.

Lemma substring_app_r p s n :
  String.substring (String.length p) n (p +:+ s) = String.substring 0 n s.
Proof. induction p as [|x p IH]; [done|]. rewrite string_app_cons. simpl. auto. Qed.

#[export] Hint Rewrite string_app_cons string_app_nil_l string_app_nil_r string_length_app
  string_app_assoc str_compare_app_l str_compare_refl : wfw_rw.
#[export] Hint Resolve str_lt_irrefl str_lt_trans : wfw.

(** ** Lists *)

Lemma filter_none {A} (p : A -> Prop) `{!forall x, Decision (p x)} (l : list A) :
  (forall x, x ∈ l -> ~ p x) -> filter p l = [].
Proof.
  induction l as [|x l IH]; intros Hl; [done|]. rewrite filter_cons_False; [|apply Hl; by left].
  apply IH. intros y Hy. apply Hl. by right.
Qed.

Lemma filter_all {A} (p : A -> Prop) `{!forall x, Decision (p x)} (l : list A) :
  (forall x, x ∈ l -> p x) -> filter p l = l.
Proof.
  induction l as [|x l IH]; intros Hl; [done|]. rewrite filter_cons_True; [|apply Hl; by left].
  f_equal. apply IH. intros y Hy. apply Hl. by right.
Qed.

Lemma sum_list_with_insert {A} (f : A -> nat) (l : list A) i x y : l !! i = Some x ->
  (sum_list_with f (<[i := y]> l) + f x = sum_list_with f l + f y)%nat.
Proof.
  revert i. induction l as [|z l IH]; intros [|i] H; simpl in *; simplify_eq; [lia|]. specialize (IH i H). lia.
Qed.

Lemma list_alter_insert {A} (f : A -> A) (l : list A) i x : l !! i = Some x -> alter f i l = <[i := f x]> l.
Proof. revert i. induction l as [|z l IH]; intros [|i] H; cbn in *; simplify_eq; [done|]. f_equal. by apply IH. Qed.

(** ** Maps *)

Lemma elem_of_values {A} (m : gmap (string * string) A) x : x ∈ (map_to_list m).*2 <-> exists k, m !! k = Some x.
Proof.
  rewrite list_elem_of_fmap. split.
  - intros ([k y] & -> & H). apply elem_of_map_to_list in H. eauto.
  - intros [k H]. exists (k, x). split; [done|by apply elem_of_map_to_list].
Qed.
