(* ===== verification/Bytes.v ===== *)
(** Node's [Buffer], as far as the code uses it: bytes, the big-endian integers
    it reads and writes, and the UTF-8 text a slice of it is read as. *)
From S2P Require Import Prelude.
From Stdlib Require Import Strings.Byte.
Local Open Scope Z_scope.

(** A buffer's contents. A text is the bytes of its UTF-8 encoding. *)
Notation bytes := (list Byte.byte).
#[export] Instance byte_eq_dec : EqDecision Byte.byte := Byte.byte_eq_dec.

Definition blen (b : bytes) : Z := Z.of_nat (length b).
Definition text_bytes (s : string) : bytes := String.list_byte_of_string s.
Definition byteLength (s : string) : Z := blen (text_bytes s).

(** ** Integers *)

Definition byte_val (b : Byte.byte) : Z := Z.of_N (Byte.to_N b).
Definition byte_of (n : Z) : Byte.byte := default Byte.x00 (Byte.of_N (Z.to_N (n mod 256))).

Lemma byte_val_range b : 0 <= byte_val b < 256.
Proof. unfold byte_val. pose proof (Byte.to_N_bounded b). lia. Qed.

Lemma byte_val_of n : byte_val (byte_of n) = n mod 256.
Proof.
  unfold byte_val, byte_of. pose proof (Z.mod_pos_bound n 256 ltac:(lia)) as H.
  destruct (Byte.of_N (Z.to_N (n mod 256))) as [b|] eqn:E.
  - simpl. apply Byte.to_of_N in E. rewrite E. lia.
  - apply Byte.of_N_None_iff in E. lia.
Qed.

Lemma byte_of_val b : byte_of (byte_val b) = b.
Proof.
  unfold byte_of, byte_val. pose proof (byte_val_range b) as H. unfold byte_val in H.
  rewrite Z.mod_small, N2Z.id by lia. by rewrite Byte.of_to_N.
Qed.

(** [writeUInt16BE], [writeUInt32BE]: out of range they throw, which [None] is. *)
Definition u16be (n : Z) : option bytes :=
  if (0 <=? n) && (n <=? 0xffff) then Some [byte_of (n / 256); byte_of n] else None.
Definition u32be (n : Z) : option bytes :=
  if (0 <=? n) && (n <=? 0xffffffff)
  then Some [byte_of (n / 16777216); byte_of (n / 65536); byte_of (n / 256); byte_of n] else None.

(** [readUInt16BE], [readUInt32BE] at the front of what is left. *)
Definition read16 (b : bytes) : option Z :=
  match b with x :: y :: _ => Some (byte_val x * 256 + byte_val y) | _ => None end.
Definition read32 (b : bytes) : option Z :=
  match b with
  | x :: y :: z :: w :: _ =>
      Some (((byte_val x * 256 + byte_val y) * 256 + byte_val z) * 256 + byte_val w)
  | _ => None
  end.

Lemma read16_write n w rest : u16be n = Some w -> read16 (w ++ rest) = Some n /\ length w = 2%nat.
Proof.
  unfold u16be. destruct (_ && _) eqn:E; [|done]. bools. intros [= <-]. cbn [app read16 length].
  rewrite !byte_val_of. split; [|done]. f_equal.
  pose proof (Z.div_mod n 256 ltac:(lia)). rewrite (Z.mod_small (n / 256)); [lia|].
  split; [apply Z.div_pos; lia|apply Z.div_lt_upper_bound; lia].
Qed.

Lemma read32_write n w rest : u32be n = Some w -> read32 (w ++ rest) = Some n /\ length w = 4%nat.
Proof.
  unfold u32be. destruct (_ && _) eqn:E; [|done]. bools. intros [= <-]. cbn [app read32 length].
  rewrite !byte_val_of. split; [|done]. f_equal.
  assert (n / 65536 = n / 256 / 256) as -> by (rewrite Z.div_div by lia; done).
  assert (n / 16777216 = n / 256 / 256 / 256) as -> by (rewrite !Z.div_div by lia; done).
  pose proof (Z.div_mod n 256 ltac:(lia)). pose proof (Z.div_mod (n / 256) 256 ltac:(lia)).
  pose proof (Z.div_mod (n / 256 / 256) 256 ltac:(lia)).
  rewrite (Z.mod_small (n / 256 / 256 / 256)); [lia|].
  rewrite !Z.div_div by lia. split; [apply Z.div_pos; lia|apply Z.div_lt_upper_bound; lia].
Qed.

(** ** UTF-8

    [toString("utf8")]: well-formed sequences are kept, the maximal part of an
    ill-formed one becomes U+FFFD. *)

Definition replacement : bytes := [Byte.xef; Byte.xbf; Byte.xbd].

(** How many bytes follow a lead byte, and the range of the first of them;
    [None] for a byte that leads nothing. *)
Definition utf8_lead (b : Z) : option (nat * Z * Z) :=
  if b <=? 0x7f then Some (0%nat, 0, 0)
  else if (0xc2 <=? b) && (b <=? 0xdf) then Some (1%nat, 0x80, 0xbf)
  else if b =? 0xe0 then Some (2%nat, 0xa0, 0xbf)
  else if b =? 0xed then Some (2%nat, 0x80, 0x9f)
  else if (0xe1 <=? b) && (b <=? 0xef) then Some (2%nat, 0x80, 0xbf)
  else if b =? 0xf0 then Some (3%nat, 0x90, 0xbf)
  else if b =? 0xf4 then Some (3%nat, 0x80, 0x8f)
  else if (0xf1 <=? b) && (b <=? 0xf3) then Some (3%nat, 0x80, 0xbf)
  else None.

(** [needed] more bytes, the first within [lower..upper], complete [seen]. *)
Fixpoint utf8_go (needed : nat) (lower upper : Z) (seen l : bytes) : bytes :=
  match l with
  | [] => match needed with O => [] | _ => replacement end
  | b :: l =>
      let start :=
        match utf8_lead (byte_val b) with
        | None => replacement ++ utf8_go 0 0 0 [] l
        | Some (O, _, _) => b :: utf8_go 0 0 0 [] l
        | Some (n, lo, up) => utf8_go n lo up [b] l
        end in
      match needed with
      | O => start
      | S n =>
          if (lower <=? byte_val b) && (byte_val b <=? upper) then
            match n with
            | O => seen ++ b :: utf8_go 0 0 0 [] l
            | _ => utf8_go n 0x80 0xbf (seen ++ [b]) l
            end
          else replacement ++ start
      end
  end.

Definition utf8_decode (b : bytes) : string := String.string_of_list_byte (utf8_go 0 0 0 [] b).

(** The texts of the language: decoding their bytes gives them back. *)
Definition well_formed_text (s : string) : Prop := utf8_decode (text_bytes s) = s.

Lemma text_bytes_inj s t : text_bytes s = text_bytes t -> s = t.
Proof.
  intros E. rewrite <- (String.string_of_list_byte_of_string s), <- (String.string_of_list_byte_of_string t).
  unfold text_bytes in E. by rewrite E.
Qed.

(** A text of ASCII characters is well formed. *)
Lemma ascii_well_formed s :
  forallb (fun b => byte_val b <=? 0x7f) (text_bytes s) = true -> well_formed_text s.
Proof.
  intros H. unfold well_formed_text, utf8_decode.
  assert (E : utf8_go 0 0 0 [] (text_bytes s) = text_bytes s).
  { revert H. generalize (text_bytes s). intros l. induction l as [|b l IH]; intros H; [done|].
    simpl in H. apply andb_prop in H as [Hb Hl]. simpl. unfold utf8_lead. rewrite Hb. by rewrite IH. }
  rewrite E. apply String.string_of_list_byte_of_string.
Qed.

Definition ascii_text (s : string) : bool := forallb (fun b => byte_val b <=? 0x7f) (text_bytes s).

Lemma text_bytes_cons c s : text_bytes (String c s) = Ascii.byte_of_ascii c :: text_bytes s.
Proof. done. Qed.

Lemma text_bytes_app s t : text_bytes (s +:+ t) = text_bytes s ++ text_bytes t.
Proof.
  induction s as [|c s IH]; [done|]. rewrite string_app_cons, !text_bytes_cons, IH. done.
Qed.

Lemma ascii_text_app s t : ascii_text (s +:+ t) = ascii_text s && ascii_text t.
Proof. unfold ascii_text. rewrite text_bytes_app. apply forallb_app. Qed.

Lemma byteLength_app s t : byteLength (s +:+ t) = byteLength s + byteLength t.
Proof. unfold byteLength, blen. rewrite text_bytes_app, length_app. lia. Qed.

Lemma byteLength_length s : byteLength s = Z.of_nat (String.length s).
Proof.
  unfold byteLength, blen. induction s as [|c s IH]; [done|]. rewrite text_bytes_cons. simpl length. simpl String.length. lia.
Qed.
