(* ===== verification/Slots.v ===== *)
(** Slot-numbered event ids: the decimal text and [lpad] of the SQL expression
    that [nextSlotId] (src/storage.ts) builds, and the facts that make ordering
    by id the same as ordering by slot number. *)
From S2P Require Import Prelude Bytes.
Local Open Scope N_scope.

(** ** Decimal text: SQL's [n::text] and [cast(s as bigint)] *)

Definition digit_char (d : N) : Ascii.ascii := Ascii.ascii_of_N (48 + d).

Definition char_digit (c : Ascii.ascii) : option N :=
  let n := Ascii.N_of_ascii c in
  if (48 <=? n) && (n <=? 57) then Some (n - 48) else None.

(** The decimal digits of [n], most significant first; [fuel] digits at most. *)
Fixpoint dec_go (fuel : nat) (n : N) (acc : string) : string :=
  match fuel with
  | O => acc
  | S fuel =>
      let acc := String (digit_char (n mod 10)) acc in
      if n <? 10 then acc else dec_go fuel (n / 10) acc
  end.

(** [n::text]. A number has no more decimal than binary digits, so the fuel is enough. *)
Definition dec_text (n : N) : string := dec_go (S (N.to_nat (N.log2 n))) n "".

(** The number a text of decimal digits denotes; [None] at any other character. *)
Fixpoint digits_value (s : string) : option N :=
  match s with
  | "" => Some 0
  | String c s =>
      d ← char_digit c; v ← digits_value s; Some (d * 10 ^ N.of_nat (String.length s) + v)
  end.

Definition BIGINT_MAX : N := 9223372036854775807.

(** [cast(s as bigint)] of an unsigned text: an error on the empty text, a
    character that is no digit, or a value out of range. *)
Definition cast_bigint (s : string) : option N :=
  match s with
  | "" => None
  | _ => v ← digits_value s; if v <=? BIGINT_MAX then Some v else None
  end.

(** SQL's [lpad(s, w, '0')]: fills on the left, and cuts [s] to its first [w]
    characters when it is longer. *)
Fixpoint zeros (n : nat) : string :=
  match n with O => "" | S n => String (digit_char 0) (zeros n) end.

Definition lpad0 (s : string) (w : nat) : string :=
  if (String.length s <=? w)%nat then zeros (w - String.length s) +:+ s
  else String.substring 0 w s.

(** A slot id: the prefix followed by the slot number, padded to [w] digits. *)
Definition slot_id (prefix : string) (w : nat) (n : N) : string :=
  prefix +:+ lpad0 (dec_text n) w.

(** ** Facts *)

Lemma char_digit_char d : d < 10 -> char_digit (digit_char d) = Some d.
Proof.
  intros H. unfold char_digit, digit_char. rewrite Ascii.N_ascii_embedding by lia.
  destruct (48 <=? 48 + d) eqn:E1; [|apply N.leb_gt in E1; lia].
  destruct (48 + d <=? 57) eqn:E2; [|apply N.leb_gt in E2; lia]. simpl. apply f_equal. lia.
Qed.

Lemma char_digit_bound c d : char_digit c = Some d -> d < 10.
Proof.
  unfold char_digit. destruct (_ && _) eqn:E; [|done]. apply andb_prop in E as [E1 E2].
  apply N.leb_le in E1, E2. intros [= <-]. lia.
Qed.

Lemma char_digit_compare a b m n :
  char_digit a = Some m -> char_digit b = Some n -> Ascii.compare a b = (m ?= n).
Proof.
  unfold char_digit, Ascii.compare. intros Ha Hb.
  destruct (_ && _) eqn:Ea in Ha; [|done]. destruct (_ && _) eqn:Eb in Hb; [|done].
  apply andb_prop in Ea as [Ea _], Eb as [Eb _]. apply N.leb_le in Ea, Eb. simplify_eq.
  destruct (N.compare_spec (Ascii.N_of_ascii a) (Ascii.N_of_ascii b));
    symmetry; [apply N.compare_eq_iff|apply N.compare_lt_iff|apply N.compare_gt_iff]; lia.
Qed.

Lemma digits_value_bound s v : digits_value s = Some v -> v < 10 ^ N.of_nat (String.length s).
Proof.
  revert v. induction s as [|c s IH]; intros v H; simpl in H.
  - simplify_eq. reflexivity.
  - destruct (char_digit c) as [d|] eqn:Ed; [|done]. simpl in H.
    destruct (digits_value s) as [u|]; [|done]. simplify_eq/=.
    specialize (IH u eq_refl). apply char_digit_bound in Ed.
    rewrite Nat2N.inj_succ, N.pow_succ_r'. nia.
Qed.

(** Texts of digits of one length compare as the numbers they denote. *)
Lemma digits_compare s t m n :
  digits_value s = Some m -> digits_value t = Some n -> String.length s = String.length t ->
  String.compare s t = (m ?= n).
Proof.
  revert t m n. induction s as [|a s IH]; intros [|b t] m n Hs Ht Hl; simpl in *; simplify_eq.
  { reflexivity. }
  destruct (char_digit a) as [da|] eqn:Ea; [|done]. destruct (char_digit b) as [db|] eqn:Eb; [|done].
  destruct (digits_value s) as [vs|] eqn:Es; [|done]. destruct (digits_value t) as [vt|] eqn:Et; [|done].
  simplify_eq/=. rewrite (char_digit_compare _ _ _ _ Ea Eb).
  apply digits_value_bound in Es as Bs, Et as Bt. rewrite <- Hl in Bt |- *.
  rewrite (IH _ _ _ eq_refl Et Hl). set (p := 10 ^ _) in *.
  destruct (N.compare_spec da db) as [<-|Hlt|Hgt]; symmetry.
  - destruct (N.compare_spec vs vt);
      [apply N.compare_eq_iff|apply N.compare_lt_iff|apply N.compare_gt_iff]; lia.
  - apply N.compare_lt_iff. nia.
  - apply N.compare_gt_iff. nia.
Qed.

Lemma digits_value_app s t m n :
  digits_value s = Some m -> digits_value t = Some n ->
  digits_value (s +:+ t) = Some (m * 10 ^ N.of_nat (String.length t) + n).
Proof.
  revert m. induction s as [|c s IH]; intros m Hs Ht.
  - simpl in Hs. simplify_eq. rewrite string_app_nil_l, Ht. apply f_equal. lia.
  - rewrite string_app_cons. simpl in *. destruct (char_digit c) as [d|]; [|done].
    destruct (digits_value s) as [u|]; [|done]. simplify_eq/=. rewrite (IH u eq_refl Ht).
    simpl. f_equal. rewrite string_length_app, Nat2N.inj_add, N.pow_add_r. lia.
Qed.

Lemma digits_value_zeros k : digits_value (zeros k) = Some 0.
Proof. induction k as [|k IH]; simpl; [done|]. by rewrite IH. Qed.

Lemma length_zeros k : String.length (zeros k) = k.
Proof. induction k; simpl; auto. Qed.

Lemma dec_go_value fuel n acc a :
  digits_value acc = Some a -> (N.to_nat (N.log2 n) < fuel)%nat ->
  digits_value (dec_go fuel n acc) = Some (n * 10 ^ N.of_nat (String.length acc) + a).
Proof.
  revert n acc a. induction fuel as [|fuel IH]; intros n acc a Ha Hf; [lia|].
  simpl. assert (Hd : digits_value (String (digit_char (n mod 10)) acc)
    = Some (n mod 10 * 10 ^ N.of_nat (String.length acc) + a)).
  { simpl. rewrite char_digit_char by (apply N.mod_lt; lia). simpl. by rewrite Ha. }
  destruct (n <? 10) eqn:E.
  - apply N.ltb_lt in E. rewrite Hd. by rewrite N.mod_small.
  - apply N.ltb_ge in E. rewrite (IH _ _ _ Hd).
    + simpl String.length. rewrite Nat2N.inj_succ, N.pow_succ_r'. f_equal.
      pose proof (N.div_mod n 10). nia.
    + assert (N.log2 (n / 10) < N.log2 n); [|lia].
      apply N.le_lt_trans with (N.log2 (n / 2)).
      * apply N.log2_le_mono. apply N.div_le_compat_l. lia.
      * rewrite <- N.div2_div, N.div2_spec, N.log2_shiftr.
        assert (0 < N.log2 n); [|lia]. apply N.log2_pos. lia.
Qed.

Lemma dec_text_value n : digits_value (dec_text n) = Some n.
Proof. unfold dec_text. rewrite (dec_go_value _ _ _ 0); [|done|lia]. simpl. apply f_equal. lia. Qed.

Lemma dec_go_length fuel n acc w :
  n < 10 ^ N.of_nat w -> (0 < w)%nat ->
  (String.length (dec_go fuel n acc) <= w + String.length acc)%nat.
Proof.
  revert n acc w. induction fuel as [|fuel IH]; intros n acc w Hn Hw; simpl; [lia|].
  destruct (n <? 10) eqn:E; simpl; [lia|]. apply N.ltb_ge in E.
  destruct w as [|w]; [lia|]. rewrite Nat2N.inj_succ, N.pow_succ_r' in Hn.
  assert (Hw' : (0 < w)%nat) by (destruct w; simpl in Hn; lia).
  specialize (IH (n / 10) (String (digit_char (n mod 10)) acc) w). simpl in IH.
  assert (n / 10 < 10 ^ N.of_nat w) by (apply N.Div0.div_lt_upper_bound; lia). specialize (IH H Hw'). lia.
Qed.

Lemma dec_text_length n w : n < 10 ^ N.of_nat w -> (0 < w)%nat -> (String.length (dec_text n) <= w)%nat.
Proof. intros H Hw. pose proof (dec_go_length (S (N.to_nat (N.log2 n))) n "" w H Hw). simpl in *. unfold dec_text. simpl. lia. Qed.

Lemma lpad0_spec n w : n < 10 ^ N.of_nat w -> (0 < w)%nat ->
  digits_value (lpad0 (dec_text n) w) = Some n /\ String.length (lpad0 (dec_text n) w) = w.
Proof.
  intros H Hw. pose proof (dec_text_length n w H Hw) as Hl. unfold lpad0.
  destruct (_ <=? _)%nat eqn:E; [|apply Nat.leb_gt in E; lia]. split.
  - rewrite (digits_value_app _ _ 0 n); [apply f_equal; lia|apply digits_value_zeros|apply dec_text_value].
  - rewrite string_length_app, length_zeros. lia.
Qed.

(** Ordering slot ids as text is ordering them as numbers. *)
Lemma slot_id_compare prefix w m n :
  m < 10 ^ N.of_nat w -> n < 10 ^ N.of_nat w -> (0 < w)%nat ->
  String.compare (slot_id prefix w m) (slot_id prefix w n) = (m ?= n).
Proof.
  intros Hm Hn Hw. unfold slot_id. rewrite str_compare_app_l.
  destruct (lpad0_spec m w Hm Hw) as [Vm Lm], (lpad0_spec n w Hn Hw) as [Vn Ln].
  apply digits_compare; congruence.
Qed.

Lemma slot_id_lt prefix w m n :
  m < 10 ^ N.of_nat w -> n < 10 ^ N.of_nat w -> (0 < w)%nat ->
  str_lt (slot_id prefix w m) (slot_id prefix w n) = true <-> m < n.
Proof. intros. rewrite str_lt_spec, slot_id_compare by done. apply N.compare_lt_iff. Qed.

Lemma slot_id_inj prefix w m n :
  m < 10 ^ N.of_nat w -> n < 10 ^ N.of_nat w -> (0 < w)%nat ->
  slot_id prefix w m = slot_id prefix w n -> m = n.
Proof.
  intros Hm Hn Hw E. apply N.compare_eq_iff. rewrite <- (slot_id_compare prefix w) by done.
  rewrite E. apply str_compare_refl.
Qed.

(** [cast(substring(id from prefix+1) as bigint)] reads the slot number back. *)
Lemma cast_slot_id prefix w n :
  n < 10 ^ N.of_nat w -> (0 < w)%nat -> n <= BIGINT_MAX ->
  cast_bigint (String.substring (String.length prefix) w (slot_id prefix w n)) = Some n.
Proof.
  intros Hn Hw Hb. unfold slot_id. rewrite substring_app_r.
  destruct (lpad0_spec n w Hn Hw) as [V L]. rewrite substring_all by lia.
  unfold cast_bigint. destruct (lpad0 _ _) as [|c s] eqn:E; [simpl in L; lia|].
  rewrite <- E in *. rewrite V. simpl. by apply N.leb_le in Hb as ->.
Qed.

(** One value has one text of a given length. *)
Lemma digits_eq s t v :
  digits_value s = Some v -> digits_value t = Some v -> String.length s = String.length t -> s = t.
Proof.
  intros Hs Ht Hl. apply String.compare_eq_iff. rewrite (digits_compare s t v v) by done.
  apply N.compare_refl.
Qed.

Lemma substring_app_l a b : String.substring 0 (String.length a) (a +:+ b) = a.
Proof. induction a as [|c a IH]; [by destruct b|]. rewrite string_app_cons. simpl. by rewrite IH. Qed.

(** The first number past the width is cut to one the width has already used. *)
Lemma lpad0_overflow w : (0 < w)%nat ->
  lpad0 (dec_text (10 ^ N.of_nat w)) w = lpad0 (dec_text (10 ^ N.of_nat (w - 1))) w.
Proof.
  intros Hw. set (p := 10 ^ N.of_nat (w - 1)).
  assert (Hp : 10 ^ N.of_nat w = p * 10).
  { unfold p. rewrite <- N.pow_succ_r', N.mul_comm || rewrite N.mul_comm, <- N.pow_succ_r'. f_equal. lia. }
  assert (Hp0 : 0 < p) by (apply N.neq_0_lt_0; unfold p; apply N.pow_nonzero; lia).
  assert (Hlt : p < 10 ^ N.of_nat w) by lia.
  destruct (lpad0_spec p w Hlt Hw) as [Vp Lp].
  assert (Hlen : String.length (dec_text (10 ^ N.of_nat w)) = S w).
  { assert (String.length (dec_text (10 ^ N.of_nat w)) <= S w)%nat.
    { apply dec_text_length; [|lia]. rewrite Nat2N.inj_succ, N.pow_succ_r'. lia. }
    pose proof (digits_value_bound _ _ (dec_text_value (10 ^ N.of_nat w))) as Hb.
    apply N.pow_lt_mono_r_iff in Hb; lia. }
  assert (E : dec_text (10 ^ N.of_nat w) = lpad0 (dec_text p) w +:+ String (digit_char 0) "").
  { apply (digits_eq _ _ (10 ^ N.of_nat w)); [apply dec_text_value|..].
    - rewrite (digits_value_app _ _ p 0) by done. f_equal. simpl String.length. change (10 ^ N.of_nat 1) with 10. lia.
    - rewrite Hlen, string_length_app, Lp. simpl. lia. }
  unfold lpad0 at 1. rewrite Hlen. destruct (S w <=? w)%nat eqn:E2; [apply Nat.leb_le in E2; lia|].
  rewrite E. rewrite <- Lp at 1. apply substring_app_l.
Qed.

(** Decimal digits are ASCII. *)
Lemma digits_ascii s v : digits_value s = Some v -> ascii_text s = true.
Proof.
  revert v. induction s as [|c s IH]; intros v H; [done|]. simpl in H.
  destruct (char_digit c) as [x|] eqn:Ec; [|done]. destruct (digits_value s) as [w|]; [|done].
  unfold ascii_text. rewrite text_bytes_cons. cbn [forallb]. apply andb_true_intro. split; [|by eapply IH].
  destruct c as [[] [] [] [] [] [] [] []]; try discriminate Ec; reflexivity.
Qed.
