(* ===== verification/Prog.v ===== *)
(** Programs over a SQL database, as the storage code drives it: single
    statements that commit on their own, transactions (a nested one is a
    savepoint), and steps on the process's memory. The file gives their
    sequential meaning, the interleaving of many of them, and the rule that a
    relation every atomic step respects is respected by every interleaving.

    The development is generic in the database state [S], the process memory
    [M] and the error type [E]. *)
From S2P Require Import Prelude.
From stdpp Require Import relations.

Section Prog.
Context {S M E : Type} (tx_aborted : E).

(** A statement reads and may change the database, or fails and changes nothing. *)
Definition stmt (X : Type) : Type := S -> result E (X * S).

(** [Js] runs on the process memory, which no rollback restores. [Stmt] and
    [Txn] hand the continuation the outcome, so that the program can catch it. *)
Inductive prog : Type -> Type :=
| Ret {A} (a : A) : prog A
| Throw {A} (e : E) : prog A
| Js {A X} (f : M -> X * M) (k : X -> prog A) : prog A
| Stmt {A X} (s : stmt X) (k : result E X -> prog A) : prog A
| Txn {A X} (q : prog X) (k : result E X -> prog A) : prog A.

Fixpoint bind {A B} (p : prog A) : (A -> prog B) -> prog B :=
  match p in prog A return (A -> prog B) -> prog B with
  | Ret a => fun f => f a
  | Throw e => fun _ => Throw e
  | Js g k => fun f => Js g (fun x => bind (k x) f)
  | Stmt s k => fun f => Stmt s (fun r => bind (k r) f)
  | Txn q k => fun f => Txn q (fun r => bind (k r) f)
  end.

(** [try p h f]: [h] answers a throw of [p], [f] its value. *)
Fixpoint try_catch {A B} (p : prog A) : (result E A -> prog B) -> prog B :=
  match p in prog A return (result E A -> prog B) -> prog B with
  | Ret a => fun f => f (Ok a)
  | Throw e => fun f => f (Err e)
  | Js g k => fun f => Js g (fun x => try_catch (k x) f)
  | Stmt s k => fun f => Stmt s (fun r => try_catch (k r) f)
  | Txn q k => fun f => Txn q (fun r => try_catch (k r) f)
  end.

(** A result re-thrown or returned. *)
Definition lift_result {A} (r : result E A) : prog A :=
  match r with Ok a => Ret a | Err e => Throw e end.

Definition sql {X} (s : stmt X) : prog X := Stmt s lift_result.
Definition transaction {X} (q : prog X) : prog X := Txn q lift_result.
Definition js {X} (f : M -> X * M) : prog X := Js f Ret.

(** ** Sequential meaning *)

(** The state of an open transaction: once a statement has failed, every later
    statement fails until a rollback to a savepoint. *)
Record txst := TxSt { tx_mem : M; tx_db : S; tx_failed : bool }.

Fixpoint run_tx {A} (p : prog A) : txst -> result E A * txst :=
  match p in prog A return txst -> result E A * txst with
  | Ret a => fun t => (Ok a, t)
  | Throw e => fun t => (Err e, t)
  | Js f k => fun t =>
      let '(x, m) := f (tx_mem t) in run_tx (k x) (TxSt m (tx_db t) (tx_failed t))
  | Stmt s k => fun t =>
      if tx_failed t then run_tx (k (Err tx_aborted)) t
      else match s (tx_db t) with
           | Ok (x, d) => run_tx (k (Ok x)) (TxSt (tx_mem t) d false)
           | Err e => run_tx (k (Err e)) (TxSt (tx_mem t) (tx_db t) true)
           end
  | Txn q k => fun t =>
      if tx_failed t then run_tx (k (Err tx_aborted)) t
      else match run_tx q t with
           | (Ok x, t') =>
               if tx_failed t' then run_tx (k (Err tx_aborted)) (TxSt (tx_mem t') (tx_db t) false)
               else run_tx (k (Ok x)) t'
           | (Err e, t') => run_tx (k (Err e)) (TxSt (tx_mem t') (tx_db t) false)
           end
  end.

(** A top-level transaction: all of its writes, or none. A COMMIT of a failed
    transaction rolls back without an error. *)
Definition atomically {X} (q : prog X) (m : M) (d : S) : result E X * M * S :=
  match run_tx q (TxSt m d false) with
  | (Ok x, t) => (Ok x, tx_mem t, if tx_failed t then d else tx_db t)
  | (Err e, t) => (Err e, tx_mem t, d)
  end.

Definition exec_stmt {X} (s : stmt X) (d : S) : result E X * S :=
  match s d with Ok (x, d') => (Ok x, d') | Err e => (Err e, d) end.

(** One atomic step of a program outside any transaction; [None] once it ended. *)
Definition step {A} (p : prog A) (m : M) (d : S) : option (prog A * M * S) :=
  match p in prog A return option (prog A * M * S) with
  | Ret _ | Throw _ => None
  | Js f k => let '(x, m') := f m in Some (k x, m', d)
  | Stmt s k => let '(r, d') := exec_stmt s d in Some (k r, m, d')
  | Txn q k => let '(r, m', d') := atomically q m d in Some (k r, m', d')
  end.

(** The program run alone to its end. *)
Fixpoint run {A} (p : prog A) : M -> S -> result E A * M * S :=
  match p in prog A return M -> S -> result E A * M * S with
  | Ret a => fun m d => (Ok a, m, d)
  | Throw e => fun m d => (Err e, m, d)
  | Js f k => fun m d => let '(x, m') := f m in run (k x) m' d
  | Stmt s k => fun m d => let '(r, d') := exec_stmt s d in run (k r) m d'
  | Txn q k => fun m d => let '(r, m', d') := atomically q m d in run (k r) m' d'
  end.

(** ** Interleaving: any number of programs, one atomic step at a time *)

Definition thread : Type := { A : Type & prog A }.
Definition Thread {A} (p : prog A) : thread := existT A p.

Inductive pool_step : list thread * M * S -> list thread * M * S -> Prop :=
| pool_step_at i A (p p' : prog A) ts m d m' d' :
    ts !! i = Some (Thread p) ->
    step p m d = Some (p', m', d') ->
    pool_step (ts, m, d) (<[i := Thread p']> ts, m', d').

(** ** Equations of the two meanings *)

Lemma run_bind {A B} (p : prog A) (f : A -> prog B) m d :
  run (bind p f) m d =
  match run p m d with
  | (Ok a, m', d') => run (f a) m' d'
  | (Err e, m', d') => (Err e, m', d')
  end.
Proof.
  revert m d. induction p as [A a|A e|A X g k IH|A X s k IH|A X q _ k IH]; intros m d; simpl; try done.
  - destruct (g m). apply IH.
  - destruct (exec_stmt s d). apply IH.
  - destruct (atomically q m d) as [[??]?]. apply IH.
Qed.

Lemma run_try {A B} (p : prog A) (f : result E A -> prog B) m d :
  run (try_catch p f) m d = let '(r, m', d') := run p m d in run (f r) m' d'.
Proof.
  revert m d. induction p as [A a|A e|A X g k IH|A X s k IH|A X q _ k IH]; intros m d; simpl; try done.
  - destruct (g m). apply IH.
  - destruct (exec_stmt s d). apply IH.
  - destruct (atomically q m d) as [[??]?]. apply IH.
Qed.

Lemma run_lift {A} (r : result E A) m d : run (lift_result r) m d = (r, m, d).
Proof. by destruct r. Qed.

Lemma run_sql {X} (s : stmt X) m d : run (sql s) m d = let '(r, d') := exec_stmt s d in (r, m, d').
Proof. simpl. destruct (exec_stmt s d). apply run_lift. Qed.

Lemma run_transaction {X} (q : prog X) m d : run (transaction q) m d = atomically q m d.
Proof. simpl. destruct (atomically q m d) as [[??]?]. apply run_lift. Qed.

Lemma run_tx_bind {A B} (p : prog A) (f : A -> prog B) t :
  run_tx (bind p f) t =
  match run_tx p t with
  | (Ok a, t') => run_tx (f a) t'
  | (Err e, t') => (Err e, t')
  end.
Proof.
  revert t. induction p as [A a|A e|A X g k IH|A X s k IH|A X q _ k IH]; intros t; simpl; try done.
  - destruct (g _). apply IH.
  - destruct (tx_failed t); [apply IH|]. destruct (s _) as [[??]|]; apply IH.
  - destruct (tx_failed t); [apply IH|]. destruct (run_tx q t) as [[?|?] t']; [|apply IH].
    destruct (tx_failed t'); apply IH.
Qed.

Lemma run_tx_try {A B} (p : prog A) (f : result E A -> prog B) t :
  run_tx (try_catch p f) t = let '(r, t') := run_tx p t in run_tx (f r) t'.
Proof.
  revert t. induction p as [A a|A e|A X g k IH|A X s k IH|A X q _ k IH]; intros t; simpl; try done.
  - destruct (g _). apply IH.
  - destruct (tx_failed t); [apply IH|]. destruct (s _) as [[??]|]; apply IH.
  - destruct (tx_failed t); [apply IH|]. destruct (run_tx q t) as [[?|?] t']; [|apply IH].
    destruct (tx_failed t'); apply IH.
Qed.

Lemma run_tx_sql {X} (s : stmt X) t :
  tx_failed t = false ->
  run_tx (sql s) t =
  match s (tx_db t) with
  | Ok (x, d) => (Ok x, TxSt (tx_mem t) d false)
  | Err e => (Err e, TxSt (tx_mem t) (tx_db t) true)
  end.
Proof. intros Ht. simpl. rewrite Ht. by destruct (s (tx_db t)) as [[??]|]. Qed.

Lemma run_tx_lift {A} (r : result E A) t : run_tx (lift_result r) t = (r, t).
Proof. by destruct r. Qed.

(** ** Relations that every atomic step respects *)

(** Every value the program can return, whatever the outcomes, satisfies [F]. *)
Fixpoint returns {A} (p : prog A) : (A -> Prop) -> Prop :=
  match p in prog A return (A -> Prop) -> Prop with
  | Ret a => fun F => F a
  | Throw _ => fun _ => True
  | Js _ k => fun F => forall x, returns (k x) F
  | Stmt _ k => fun F => forall r, returns (k r) F
  | Txn _ k => fun F => forall r, returns (k r) F
  end.

Lemma returns_true {A} (p : prog A) : returns p (fun _ => True).
Proof. induction p; simpl; auto. Qed.

Lemma returns_bind {A B} (p : prog A) (f : A -> prog B) F G :
  returns p F -> (forall a, F a -> returns (f a) G) -> returns (bind p f) G.
Proof. revert F f. induction p; simpl in *; intros; eauto. Qed.

Lemma returns_bind_any {A B} (p : prog A) (f : A -> prog B) G :
  (forall a, returns (f a) G) -> returns (bind p f) G.
Proof. intros Hf. apply (returns_bind p f (fun _ => True)); [apply returns_true|auto]. Qed.

Section Respects.
Context (R : S -> S -> Prop).

Definition stmt_ok {X} (s : stmt X) : Prop := forall d x d', s d = Ok (x, d') -> R d d'.

(** A program run inside an open transaction takes the state from one to a
    related one, unless the transaction has failed by its end. *)
Definition frag_ok {A} (p : prog A) : Prop := forall t r t',
  tx_failed t = false -> run_tx p t = (r, t') -> tx_failed t' = false -> R (tx_db t) (tx_db t').

(** Every statement outside, and every transaction as a whole, respects [R],
    whatever the outcomes before it. *)
Fixpoint respects {A} (p : prog A) : Prop :=
  match p with
  | Ret _ | Throw _ => True
  | Js _ k => forall x, respects (k x)
  | Stmt s k => stmt_ok s /\ forall r, respects (k r)
  | Txn q k => frag_ok q /\ forall r, respects (k r)
  end.

Lemma respects_bind {A B} (p : prog A) (f : A -> prog B) :
  respects p -> (forall a, respects (f a)) -> respects (bind p f).
Proof. intros Hp Hf. induction p; simpl in *; naive_solver. Qed.

Lemma respects_bind_returns {A B} (p : prog A) (f : A -> prog B) F :
  respects p -> returns p F -> (forall a, F a -> respects (f a)) -> respects (bind p f).
Proof. revert F f. induction p; simpl in *; naive_solver. Qed.

Lemma respects_try {A B} (p : prog A) (f : result E A -> prog B) :
  respects p -> (forall a, respects (f a)) -> respects (try_catch p f).
Proof. intros Hp Hf. induction p; simpl in *; naive_solver. Qed.

Lemma respects_ret {A} (a : A) : respects (Ret a).
Proof. done. Qed.

Lemma respects_throw {A} e : respects (@Throw A e).
Proof. done. Qed.

Lemma respects_lift {A} (r : result E A) : respects (lift_result r).
Proof. by destruct r. Qed.

Lemma respects_sql {X} (s : stmt X) : stmt_ok s -> respects (sql s).
Proof. intros H. split; [done|]. intros r. apply respects_lift. Qed.

Lemma respects_js {X} (f : M -> X * M) : respects (js f).
Proof. by intros x. Qed.

Lemma respects_transaction {X} (q : prog X) : frag_ok q -> respects (transaction q).
Proof. intros H. split; [done|]. intros r. apply respects_lift. Qed.

(** A failed transaction stays so, and its state does not move. *)
Lemma run_tx_failed {A} (p : prog A) t r t' :
  tx_failed t = true -> run_tx p t = (r, t') -> tx_failed t' = true /\ tx_db t' = tx_db t.
Proof.
  revert t r t'. induction p as [A a|A e|A X f k IH|A X s k IH|A X q _ k IH];
    intros t r t' Ht Hr; simpl in *; simplify_eq; try done.
  - destruct (f (tx_mem t)) as [x m]. by apply IH in Hr.
  - rewrite Ht in Hr. by apply IH in Hr.
  - rewrite Ht in Hr. by apply IH in Hr.
Qed.

Lemma run_tx_not_failed {A} (p : prog A) t r t' :
  run_tx p t = (r, t') -> tx_failed t' = false -> tx_failed t = false.
Proof.
  intros Hr Ht. destruct (tx_failed t) eqn:E1; [|done].
  destruct (run_tx_failed _ _ _ _ E1 Hr). congruence.
Qed.

Context `{!PreOrder R}.

Lemma respects_frag {A} (p : prog A) : respects p -> frag_ok p.
Proof.
  unfold frag_ok. induction p as [A a|A e|A X f k IH|A X s k IH|A X q IHq k IH];
    intros Hp t r t' Ht Hr Ht'; simpl in *; simplify_eq; try reflexivity.
  - destruct (f (tx_mem t)) as [x m]. by eapply (IH x) in Hr.
  - destruct Hp as [Hs Hk]. rewrite Ht in Hr. destruct (s (tx_db t)) as [[x d]|e] eqn:E1.
    + eapply IH in Hr; [|done..]. transitivity d; [by eapply Hs|done].
    + by eapply run_tx_failed in Hr as [??]; [congruence|].
  - destruct Hp as [Hq Hk]. rewrite Ht in Hr. destruct (run_tx q t) as [[x|e] t1] eqn:E1;
      [destruct (tx_failed t1) eqn:E2|].
    + by eapply IH in Hr.
    + eapply IH in Hr; [|done..]. transitivity (tx_db t1); [by eapply Hq|done].
    + by eapply IH in Hr.
Qed.

Lemma frag_bind {A B} (p : prog A) (f : A -> prog B) :
  frag_ok p -> (forall a, frag_ok (f a)) -> frag_ok (bind p f).
Proof.
  intros Hp Hf t r t' Ht Hr Ht'. rewrite run_tx_bind in Hr.
  destruct (run_tx p t) as [[a|e] t1] eqn:E1.
  - assert (tx_failed t1 = false) by by eapply run_tx_not_failed.
    transitivity (tx_db t1); [by eapply Hp|by eapply Hf].
  - simplify_eq. by eapply Hp.
Qed.

Lemma respects_transaction' {X} (q : prog X) : respects q -> respects (transaction q).
Proof. intros H. by apply respects_transaction, respects_frag. Qed.

Lemma atomically_frag {X} (q : prog X) m d r m' d' :
  frag_ok q -> atomically q m d = (r, m', d') -> R d d'.
Proof.
  unfold atomically. intros Hq H. destruct (run_tx q _) as [[x|e] t] eqn:E1; simplify_eq; [|reflexivity].
  destruct (tx_failed t) eqn:E2; [reflexivity|]. by eapply (Hq (TxSt m d false)).
Qed.

Lemma exec_stmt_ok {X} (s : stmt X) d r d' : stmt_ok s -> exec_stmt s d = (r, d') -> R d d'.
Proof.
  unfold exec_stmt. intros Hs H. destruct (s d) as [[x d1]|e] eqn:E1; simplify_eq; [|reflexivity].
  by eapply Hs.
Qed.

Lemma step_respects {A} (p p' : prog A) m d m' d' :
  respects p -> step p m d = Some (p', m', d') -> R d d' /\ respects p'.
Proof.
  destruct p as [A a|A e|A X f k|A X s k|A X q k]; simpl; intros Hp H; try done.
  - destruct (f m). simplify_eq. by split.
  - destruct Hp, (exec_stmt s d) eqn:E1. simplify_eq. split; [by eapply exec_stmt_ok|done].
  - destruct Hp, (atomically q m d) as [[] ] eqn:E1. simplify_eq.
    split; [by eapply atomically_frag|done].
Qed.

Definition thread_ok (t : thread) : Prop := respects (projT2 t).

(** Every interleaving of programs that respect [R] respects [R]. *)
Theorem pool_respects c c' :
  rtc pool_step c c' -> Forall thread_ok (c.1.1) -> R c.2 c'.2 /\ Forall thread_ok (c'.1.1).
Proof.
  induction 1 as [c|c1 c2 c3 H12 H23 IH]; intros Hc; [split; [reflexivity|done]|].
  destruct H12 as [i A p p' ts m d m' d' Hi Hs]. simpl in *.
  pose proof (Forall_lookup_1 _ _ _ _ Hc Hi) as Hp. unfold thread_ok in Hp. simpl in Hp.
  destruct (step_respects _ _ _ _ _ _ Hp Hs) as [Hd Hp'].
  destruct IH as [H3 HF]; [by apply Forall_insert|]. split; [by transitivity d'|done].
Qed.

Lemma run_respects {A} (p : prog A) m d r m' d' : respects p -> run p m d = (r, m', d') -> R d d'.
Proof.
  revert m d r m' d'. induction p as [A a|A e|A X f k IH|A X s k IH|A X q _ k IH];
    intros m d r m' d' Hp Hr; simpl in *; simplify_eq; try reflexivity.
  - destruct (f m) as [x m1]. by eapply (IH x) in Hr.
  - destruct Hp as [Hs Hk], (exec_stmt s d) as [r1 d1] eqn:E1. eapply IH in Hr; [|done].
    transitivity d1; [by eapply exec_stmt_ok|done].
  - destruct Hp as [Hq Hk], (atomically q m d) as [[r1 m1] d1] eqn:E1. eapply IH in Hr; [|done].
    transitivity d1; [by eapply atomically_frag|done].
Qed.
End Respects.

(** A schedule, executed: the thread that moves at each step. *)
Definition step_thread (t : thread) (m : M) (d : S) : option (thread * M * S) :=
  match t with
  | existT A p =>
      match step p m d with Some (p', m', d') => Some (Thread p', m', d') | None => None end
  end.

Fixpoint schedule (l : list nat) (c : list thread * M * S) : option (list thread * M * S) :=
  match l with
  | [] => Some c
  | i :: l =>
      let '(ts, m, d) := c in
      match ts !! i with
      | Some t =>
          match step_thread t m d with
          | Some (t', m', d') => schedule l (<[i := t']> ts, m', d')
          | None => None
          end
      | None => None
      end
  end.

Lemma schedule_sound l c c' : schedule l c = Some c' -> rtc pool_step c c'.
Proof.
  revert c. induction l as [|i l IH]; intros c H; simpl in H; [by simplify_eq|].
  destruct c as [[ts m] d]. destruct (ts !! i) as [[A p]|] eqn:Ei; [|done]. simpl in H.
  destruct (step p m d) as [[[p' m'] d']|] eqn:Ep; [|done].
  eapply rtc_l; [by eapply pool_step_at|by apply IH].
Qed.

(** A program run alone is one of the interleavings. *)
Lemma run_pool {A} (p : prog A) m d r m' d' :
  run p m d = (r, m', d') ->
  exists p', rtc pool_step ([Thread p], m, d) ([Thread p'], m', d') /\ p' = lift_result r.
Proof.
  revert m d r m' d'. induction p as [A a|A e|A X f k IH|A X s k IH|A X q _ k IH];
    intros m d r m' d' Hr; simpl in Hr; simplify_eq.
  - by exists (Ret a).
  - by exists (Throw e).
  - destruct (f m) as [x m1] eqn:E1. apply IH in Hr as (p' & Hs & ->). eexists. split; [|done].
    eapply rtc_l; [|exact Hs]. apply (pool_step_at 0 A (Js f k) (k x)); [done|]. simpl. by rewrite E1.
  - destruct (exec_stmt s d) as [x d1] eqn:E1. apply IH in Hr as (p' & Hs & ->). eexists. split; [|done].
    eapply rtc_l; [|exact Hs]. apply (pool_step_at 0 A (Stmt s k) (k x)); [done|]. simpl. by rewrite E1.
  - destruct (atomically q m d) as [[x m1] d1] eqn:E1. apply IH in Hr as (p' & Hs & ->). eexists. split; [|done].
    eapply rtc_l; [|exact Hs]. apply (pool_step_at 0 A (Txn q k) (k x)); [done|]. simpl. by rewrite E1.
Qed.
End Prog.
