(* ===== verification/Model.v ===== *)
(** The data of the World: the statuses, the events and the rows of the tables
    (src/drizzle/schema.ts), the errors the code throws, and the request that
    [events.create] answers (src/storage.ts). Serialized payloads are opaque
    texts; instants are milliseconds; the deprecated JSON twins of the CBOR
    columns, and error messages, are left out. *)
From S2P Require Import Prelude.

(** A serialized payload: the code stores and returns it verbatim. *)
Definition payload : Type := string.
(** Milliseconds since the epoch. *)
Definition instant : Type := Z.

Module RunStatus.
Inductive t := pending | running | completed | failed | cancelled.
#[export] Instance t_eq_dec : EqDecision t.
Proof. solve_decision. Defined.
End RunStatus.
Export (hints) RunStatus.

Module StepStatus.
Inductive t := pending | running | completed | failed | cancelled.
#[export] Instance t_eq_dec : EqDecision t.
Proof. solve_decision. Defined.
End StepStatus.
Export (hints) StepStatus.

Module WaitStatus.
Inductive t := waiting | completed.
#[export] Instance t_eq_dec : EqDecision t.
Proof. solve_decision. Defined.
End WaitStatus.
Export (hints) WaitStatus.

(** The event types of the log; [hook_conflict] is only ever written by the World. *)
Inductive event_type :=
| run_created | run_started | run_completed | run_failed | run_cancelled
| step_created | step_started | step_completed | step_failed | step_retrying
| hook_created | hook_received | hook_disposed | hook_conflict
| wait_created | wait_completed | attr_set.
#[export] Instance event_type_eq_dec : EqDecision event_type.
Proof. solve_decision. Defined.

(** ** Event data *)

Record start_hook := StartHook {
  sh_token : string;
  sh_tokenRetentionUntil : option instant;
  sh_metadata : option payload;
  sh_hookId : option string
}.

(** What a creating write carries: [run_created], or the queued copy's
    resilient [run_started]. *)
Record run_input := RunInput {
  ri_deploymentId : option string;
  ri_workflowName : option string;
  ri_input : option payload;
  ri_executionContext : option payload;
  ri_attributes : option (list (string * string));
  ri_allowReservedAttributes : bool;
  ri_encryptionPublicKey : option string;
  ri_retentionClass : option string;
  ri_startHook : option start_hook
}.

(** Step creation data; on a [step_started] it makes the start a lazy one. *)
Record step_data := StepData {
  sd_stepName : option string;
  sd_input : option payload;
  sd_ownerMessageId : option string
}.

(** The run a forced creation took a token from; the wake-targeting fields only
    for a run that was still live. *)
Record claimed_from := ClaimedFrom {
  cf_runId : string;
  cf_hookId : string;
  cf_workflowName : option string;
  cf_deploymentId : option string;
  cf_runSpecVersion : option Z
}.

Record hook_data := HookData {
  hd_token : string;
  hd_metadata : option payload;
  hd_isWebhook : option bool;
  hd_isSystem : option bool;
  hd_tokenRetentionUntil : option instant;
  hd_force : bool;
  hd_forceClaimedFrom : option claimed_from
}.

(** [{ token, forceClaimedBy }] of a disposal. *)
Record dispose_data := DisposeData {
  dd_token : option string;
  dd_forceClaimedBy : option (string * string)
}.

Record conflict_data := ConflictData {
  cd_token : string;
  cd_conflictingRunId : option string;
  cd_victimSpecVersion : bool  (** [forceRefusedReason: "victim-spec-version"] *)
}.

(** A key set, or removed where the value is [None] (JS [null]). *)
Record attr_change := AttrChange { ac_key : string; ac_value : option string }.

Record attr_data := AttrData {
  at_changes : list attr_change;
  at_writerIsWorkflow : bool;
  at_allowReservedAttributes : bool
}.

(** The event type with its [eventData]; an absent [eventData] is [None]. *)
Inductive body :=
| RunCreated (d : run_input)
| RunStarted (d : option run_input)
| RunCompleted (output : option payload)
| RunFailed (error : option payload) (errorCode : option string)
| RunCancelled
| StepCreated (d : step_data)
| StepStarted (d : option step_data)
| StepCompleted (result : option payload)
| StepFailed (error : option payload)
| StepRetrying (error : option payload) (retryAfter : option instant)
| HookCreated (d : hook_data)
| HookReceived (token : option string) (data : option payload)
| HookDisposed (d : option dispose_data)
| HookConflicted (d : conflict_data)
| WaitCreated (resumeAt : option instant)
| WaitCompleted
| AttrSet (d : attr_data).

Definition type_of (b : body) : event_type :=
  match b with
  | RunCreated _ => run_created | RunStarted _ => run_started
  | RunCompleted _ => run_completed | RunFailed _ _ => run_failed
  | RunCancelled => run_cancelled
  | StepCreated _ => step_created | StepStarted _ => step_started
  | StepCompleted _ => step_completed | StepFailed _ => step_failed
  | StepRetrying _ _ => step_retrying
  | HookCreated _ => hook_created | HookReceived _ _ => hook_received
  | HookDisposed _ => hook_disposed | HookConflicted _ => hook_conflict
  | WaitCreated _ => wait_created | WaitCompleted => wait_completed
  | AttrSet _ => attr_set
  end.

(** An event request ([AnyEventRequest]). *)
Record request := Request {
  rq_body : body;
  rq_correlationId : option string;
  rq_specVersion : option Z
}.

Definition eventType (rq : request) : event_type := type_of (rq_body rq).

(** [resolveData]: how much of an event or entity a response carries. *)
Inductive resolve_data := ResolveAll | ResolveNone | SkipStepInputs.

(** A JavaScript number: a fraction, or one of the values that are none. *)
Inductive js_number := JsNaN | JsInfinite (negative : bool) | JsFinite (n : Z) (d : positive).

(** The integer a number is, if it is one ([Number.isInteger]). *)
Definition js_integer (x : js_number) : option Z :=
  match x with
  | JsFinite n d => if (n mod Zpos d =? 0)%Z then Some (n / Zpos d)%Z else None
  | _ => None
  end.
Definition isSafeInteger (x : js_number) : bool :=
  match js_integer x with Some n => (Z.abs n <=? 9007199254740991)%Z | None => false end.

(** [CreateEventParams]; [cp_occurredAt] is [new Date(...)] of the field, with
    [None] inside for an invalid date. *)
Record create_params := CreateParams {
  cp_resolveData : option resolve_data;
  cp_eventCount : option N;
  cp_sinceCursor : option string;
  cp_skipPreload : bool;
  cp_inBand : bool;
  cp_expectedSeqInBand : option js_number;
  cp_occurredAt : option (option instant)
}.
Definition no_params : create_params := CreateParams None None None false false None None.

(** ** Rows *)

Record run_row := RunRow {
  run_tenant : string;
  run_id : string;
  run_deploymentId : string;
  run_workflowName : string;
  run_status : RunStatus.t;
  run_queueNamespace : option string;
  run_specVersion : option Z;
  run_input_ : option payload;
  run_output : option payload;
  run_error : option payload;
  run_errorCode : option string;
  run_executionContext : option payload;
  run_encryptionPublicKey : option string;
  run_attributes : gmap string string;
  run_createdAt : instant;
  run_updatedAt : instant;
  run_startedAt : option instant;
  run_completedAt : option instant;
  run_retentionClass : string;
  run_retentionRootRunId : string;
  run_compactAfter : option instant;
  run_expireAfter : option instant;
  run_detailExpireAfter : option instant;
  run_startHook : option start_hook
}.

Record event_row := EventRow {
  ev_tenant : string;
  ev_run : string;
  ev_id : string;
  ev_body : body;
  ev_correlationId : option string;
  ev_specVersion : option Z;
  ev_createdAt : instant
}.

Definition ev_type (e : event_row) : event_type := type_of (ev_body e).

Record step_row := StepRow {
  st_tenant : string;
  st_run : string;
  st_id : string;
  st_name : string;
  st_status : StepStatus.t;
  st_input : option payload;
  st_output : option payload;
  st_error : option payload;
  st_attempt : Z;
  st_startedAt : option instant;
  st_completedAt : option instant;
  st_createdAt : instant;
  st_retryAfter : option instant;
  st_specVersion : option Z;
  st_ownerMessageId : option string
}.

Record hook_row := HookRow {
  hk_tenant : string;
  hk_run : string;
  hk_id : string;
  hk_token : string;
  hk_tokenRetentionUntil : option instant;
  hk_metadata : option payload;
  hk_specVersion : option Z;
  hk_isWebhook : option bool;
  hk_isSystem : option bool;
  hk_claimedFrom : option claimed_from;
  hk_claimsToken : bool
}.

Record wait_row := WaitRow {
  wt_tenant : string;
  wt_id : string;
  wt_run : string;
  wt_status : WaitStatus.t;
  wt_resumeAt : option instant;
  wt_completedAt : option instant;
  wt_specVersion : option Z
}.

(** [workflow_start_hook_admissions]: the [decision] with the
    [conflicting_run_id] of a rejection. *)
Inductive admission_decision := Accepted | Rejected (conflictingRunId : option string).

Record admission_row := AdmissionRow {
  ad_tenant : string;
  ad_run : string;
  ad_token : string;
  ad_decision : admission_decision;
  ad_createdAt : instant
}.

(** The columns of [dispatch_dead_letters] that the terminal-run trigger uses. *)
Record dead_letter := DeadLetter {
  dl_tenant : string;
  dl_run : option string;
  dl_resolvedAt : option instant
}.

(** A page of a listing. *)
Record page (A : Type) := Page { pg_data : list A; pg_cursor : option string; pg_hasMore : bool }.
Arguments Page {A}.
Arguments pg_data {A}.
Arguments pg_cursor {A}.
Arguments pg_hasMore {A}.

(** [EventResult]. *)
Record event_result := EventResult {
  er_event : option event_row;
  er_run : option run_row;
  er_step : option step_row;
  er_hook : option hook_row;
  er_wait : option wait_row;
  er_stepCreated : bool;
  er_maxEvents : option Z;
  er_events : option (page event_row)
}.

(** ** Errors *)

(** [WorldError] is [WorkflowWorldError] with its status and, for a refused
    start Hook candidate, the reason next to [START_HOOK_ADMISSION_REJECTED].
    The last six are the driver's. *)
Inductive werror :=
| EntityConflict
| RunExpired
| RunNotSupported
| RunNotFound (runId : string)
| HookNotFound (hookId : string)
| HookForceClaimed (token runId hookId : string)
| HookConflict (token runId : string)
| WorldError (status : option Z) (rejected : option string)
| TooEarly (retryAfter : Z)
| AttributeInvalid
| InBandSuperseded (seqInBand : Z)
| InvalidType
| PlainError
| OwnerChanged
| UniqueViolation (constraint : string)
| NotNullViolation (column : string)
| BadSql
| TxAborted.
#[export] Instance werror_eq_dec : EqDecision werror.
Proof. solve_decision. Defined.

(** JavaScript's truthiness of an optional text. *)
Definition truthy (o : option string) : bool :=
  match o with Some s => negb (String.eqb s "") | None => false end.
