(* ===== verification/StreamBlocks.v ===== *)
(** The packed blocks of stream chunks (src/stream-blocks.ts): several logical
    chunks in one physical row, each under a six byte header with the lengths
    of its id and its data. *)
From S2P Require Import Prelude Model Bytes.
Local Open Scope Z_scope.

(** What the stream code throws: a [TypeError], a [RangeError] of a buffer
    write, a malformed block, an unknown codec, and the database's refusal of a
    row under a taken key. *)
Inductive serror := STypeError | SRangeError | SMalformed | SUnsupportedCodec (version : Z) | SDuplicateKey.
#[export] Instance serror_eq_dec : EqDecision serror.
Proof. solve_decision. Defined.

Definition PACKED_STREAM_CODEC_VERSION : Z := 2.
Definition DEFAULT_STREAM_BLOCK_CHUNKS : Z := 64.
Definition DEFAULT_STREAM_BLOCK_BYTES : Z := 256 * 1024.
Definition ENTRY_HEADER_BYTES : Z := 6.

(** [LogicalStreamChunk] *)
Record chunk := Chunk { ck_id : string; ck_data : bytes }.
(** [PackedStreamBlock]; its codec version is always [PACKED_STREAM_CODEC_VERSION]. *)
Record block := Block { bk_first : string; bk_last : string; bk_count : Z; bk_data : bytes }.
(** [PhysicalStreamRow] *)
Record phys_row := PhysRow {
  ph_id : string;
  ph_last : option string;
  ph_count : option Z;
  ph_codec : option Z;
  ph_data : bytes;
  ph_eof : bool
}.

(** [assertPositiveInteger] *)
Definition assertPositiveInteger (value : js_number) : result serror Z :=
  if isSafeInteger value then
    match js_integer value with
    | Some n => if n <=? 0 then Err STypeError else Ok n
    | None => Err STypeError
    end
  else Err STypeError.

(** ** Packing *)

Definition encodedBytes (c : chunk) : Z := ENTRY_HEADER_BYTES + byteLength (ck_id c) + blen (ck_data c).

(** One entry, as [encodeBlock] writes it. *)
Definition encode_entry (c : chunk) : option bytes :=
  l1 ← u16be (byteLength (ck_id c));
  l2 ← u32be (blen (ck_data c));
  Some (l1 ++ l2 ++ text_bytes (ck_id c) ++ ck_data c).

Fixpoint encode_entries (cs : list chunk) : option bytes :=
  match cs with
  | [] => Some []
  | c :: cs => e ← encode_entry c; l ← encode_entries cs; Some (e ++ l)
  end.

(** [encodeBlock], into a buffer of [byteLength] bytes: a write past its end
    throws. (Fewer bytes than allocated, which would leave some uninitialized,
    count as such a failure too: neither happens, [pack_go_ok].) *)
Definition encodeBlock (cs : list chunk) (byteLength : Z) : result serror block :=
  match encode_entries cs, head cs, last cs with
  | Some data, Some f, Some l =>
      if blen data =? byteLength then Ok (Block (ck_id f) (ck_id l) (Z.of_nat (length cs)) data)
      else Err SRangeError
  | _, _, _ => Err SRangeError
  end.

Fixpoint pack_go (maxChunks maxBytes : Z) (chunks pending : list chunk) (pendingBytes : Z) :
    result serror (list block) :=
  let flush := match pending with
    | [] => Ok []
    | _ => result_bind (encodeBlock pending pendingBytes) (fun b => Ok [b])
    end in
  match chunks with
  | [] => flush
  | c :: cs =>
      if 0xffff <? byteLength (ck_id c) then Err STypeError else
      if negb (bool_decide (pending = [])) &&
         ((maxChunks <=? Z.of_nat (length pending)) || (maxBytes <? pendingBytes + encodedBytes c))
      then
        result_bind flush (fun done =>
        result_bind (pack_go maxChunks maxBytes cs [c] (encodedBytes c)) (fun rest => Ok (done ++ rest)))
      else pack_go maxChunks maxBytes cs (pending ++ [c]) (pendingBytes + encodedBytes c)
  end.

Definition packStreamChunks (chunks : list chunk) (maxChunks maxBytes : option js_number) :
    result serror (list block) :=
  result_bind (assertPositiveInteger (default (JsFinite DEFAULT_STREAM_BLOCK_CHUNKS 1) maxChunks)) (fun maxChunks =>
  result_bind (assertPositiveInteger (default (JsFinite DEFAULT_STREAM_BLOCK_BYTES 1) maxBytes)) (fun maxBytes =>
  pack_go maxChunks maxBytes chunks [] 0)).

(** ** Unpacking *)

Definition chunk_prefix : string := "chnk_".

(** The entries of what is left of the data. Each takes six bytes or more, so
    fuel for one more step than there are bytes is never used up. *)
Fixpoint unpack_entries (fuel : nat) (data : bytes) : result serror (list chunk) :=
  match fuel with
  | O => Err SMalformed
  | S fuel =>
      match data with
      | [] => Ok []
      | _ =>
          if blen data <? ENTRY_HEADER_BYTES then Err SMalformed else
          match read16 data, read32 (drop 2 data) with
          | Some idLength, Some dataLength =>
              if blen data <? ENTRY_HEADER_BYTES + idLength + dataLength then Err SMalformed else
              let body := drop 6 data in
              let id := utf8_decode (take (Z.to_nat idLength) body) in
              if negb (String.prefix chunk_prefix id) then Err SMalformed else
              let after := drop (Z.to_nat idLength) body in
              result_bind (unpack_entries fuel (drop (Z.to_nat dataLength) after)) (fun cs =>
              Ok (Chunk id (take (Z.to_nat dataLength) after) :: cs))
          | _, _ => Err SMalformed
          end
      end
  end.

Definition unpackStreamRow (row : phys_row) : result serror (list chunk) :=
  if ph_eof row then Ok [] else
  match ph_codec row with
  | None => Ok [Chunk (ph_id row) (ph_data row)]
  | Some v =>
      if v =? 1 then Ok [Chunk (ph_id row) (ph_data row)]
      else if negb (v =? PACKED_STREAM_CODEC_VERSION) then Err (SUnsupportedCodec v)
      else match ph_count row with
      | None => Err SMalformed
      | Some expectedCount =>
          if negb (Z.abs expectedCount <=? 9007199254740991) || (expectedCount <=? 0) then Err SMalformed else
          result_bind (unpack_entries (S (length (ph_data row))) (ph_data row)) (fun chunks =>
          if negb (Z.of_nat (length chunks) =? expectedCount) ||
             negb (bool_decide (option_map ck_id (head chunks) = Some (ph_id row))) ||
             negb (bool_decide (option_map ck_id (last chunks) = ph_last row))
          then Err SMalformed else Ok chunks)
      end
  end.

(** The row a block is stored as. *)
Definition block_row (b : block) : phys_row :=
  PhysRow (bk_first b) (Some (bk_last b)) (Some (bk_count b)) (Some PACKED_STREAM_CODEC_VERSION) (bk_data b) false.

(** The chunks of several rows. *)
Fixpoint unpack_rows (rows : list phys_row) : result serror (list chunk) :=
  match rows with
  | [] => Ok []
  | r :: rows => result_bind (unpackStreamRow r) (fun l => result_bind (unpack_rows rows) (fun k => Ok (l ++ k)))
  end.

(** ** What can be packed *)

(** A chunk the format can hold. *)
Record packable (c : chunk) : Prop := Packable {
  pk_id : byteLength (ck_id c) <= 0xffff;
  pk_text : well_formed_text (ck_id c);
  pk_prefix : String.prefix chunk_prefix (ck_id c) = true;
  pk_data : blen (ck_data c) <= 0xffffffff
}.

Lemma blen_app a b : blen (a ++ b) = blen a + blen b.
Proof. unfold blen. rewrite length_app. lia. Qed.

Lemma encode_entry_ok c : byteLength (ck_id c) <= 0xffff -> blen (ck_data c) <= 0xffffffff ->
  exists e, encode_entry c = Some e /\ blen e = encodedBytes c.
Proof.
  intros H1 H2. unfold encode_entry.
  destruct (u16be (byteLength (ck_id c))) as [l1|] eqn:E1.
  2: { unfold u16be in E1. destruct (_ && _) eqn:E; [done|]. apply andb_false_iff in E. unfold byteLength, blen in *.
       destruct E as [E|E]; apply Z.leb_gt in E; lia. }
  destruct (u32be (blen (ck_data c))) as [l2|] eqn:E2.
  2: { unfold u32be in E2. destruct (_ && _) eqn:E; [done|]. apply andb_false_iff in E. unfold blen in *.
       destruct E as [E|E]; apply Z.leb_gt in E; lia. }
  simpl. eexists. split; [done|]. rewrite !blen_app.
  destruct (read16_write _ _ [] E1) as [_ L1]. destruct (read32_write _ _ [] E2) as [_ L2].
  unfold encodedBytes, ENTRY_HEADER_BYTES, byteLength. unfold blen at 1 2. rewrite L1, L2. lia.
Qed.

(** Reading an entry back, at the front of any data. *)
Lemma unpack_entry c e rest fuel :
  packable c -> encode_entry c = Some e ->
  unpack_entries (S fuel) (e ++ rest) = result_bind (unpack_entries fuel rest) (fun cs => Ok (c :: cs)).
Proof.
  intros [_ Htext Hpre _] He. unfold encode_entry in He.
  destruct (u16be (byteLength (ck_id c))) as [l1|] eqn:E1; [|done].
  destruct (u32be (blen (ck_data c))) as [l2|] eqn:E2; [|done]. simpl in He. injection He as <-.
  rewrite <- !app_assoc.
  destruct (read16_write _ _ (l2 ++ text_bytes (ck_id c) ++ ck_data c ++ rest) E1) as [R1 L1].
  destruct (read32_write _ _ (text_bytes (ck_id c) ++ ck_data c ++ rest) E2) as [R2 L2].
  set (all := l1 ++ l2 ++ text_bytes (ck_id c) ++ ck_data c ++ rest) in *.
  assert (Hlen : blen all = 6 + byteLength (ck_id c) + blen (ck_data c) + blen rest).
  { unfold all. rewrite !blen_app. unfold byteLength. unfold blen at 1 2. rewrite L1, L2. lia. }
  assert (0 <= blen rest /\ 0 <= byteLength (ck_id c) /\ 0 <= blen (ck_data c)) by (unfold byteLength, blen; lia).
  assert (Hd2 : drop 2 all = l2 ++ text_bytes (ck_id c) ++ ck_data c ++ rest).
  { unfold all. by rewrite drop_app_length' by done. }
  assert (Hd6 : drop 6 all = text_bytes (ck_id c) ++ ck_data c ++ rest).
  { change 6%nat with (2 + 4)%nat. rewrite <- drop_drop, Hd2. by rewrite drop_app_length' by done. }
  assert (Hcons : exists x l, all = x :: l) by (unfold all; destruct l1; [done|by eexists _, _]).
  destruct Hcons as (x & l & Hcons). cbn [unpack_entries]. rewrite Hcons at 1. rewrite Hlen, Hd2, R1, R2.
  destruct (Z.ltb_spec (6 + byteLength (ck_id c) + blen (ck_data c) + blen rest) ENTRY_HEADER_BYTES);
    [unfold ENTRY_HEADER_BYTES in *; lia|].
  destruct (Z.ltb_spec (6 + byteLength (ck_id c) + blen (ck_data c) + blen rest)
    (ENTRY_HEADER_BYTES + byteLength (ck_id c) + blen (ck_data c))); [unfold ENTRY_HEADER_BYTES in *; lia|].
  rewrite Hd6. assert (Z.to_nat (byteLength (ck_id c)) = length (text_bytes (ck_id c))) as ->.
  { unfold byteLength, blen. lia. }
  rewrite take_app_length, drop_app_length. unfold well_formed_text in Htext. rewrite Htext, Hpre. cbn [negb].
  assert (Z.to_nat (blen (ck_data c)) = length (ck_data c)) as -> by (unfold blen; lia).
  rewrite take_app_length, drop_app_length. by destruct c.
Qed.

Lemma encode_entries_ok cs : Forall packable cs ->
  exists data, encode_entries cs = Some data /\
    forall fuel, (length cs < fuel)%nat -> unpack_entries fuel data = Ok cs.
Proof.
  induction 1 as [|c cs Hc Hcs (data & Hd & Hu)].
  - exists []. split; [done|]. intros [|fuel] Hf; [simpl in Hf; lia|done].
  - destruct (encode_entry_ok c (pk_id c Hc) (pk_data c Hc)) as (e & He & _).
    exists (e ++ data). simpl. rewrite He, Hd. split; [done|]. intros [|fuel] Hf; [simpl in Hf; lia|].
    rewrite (unpack_entry c e) by done. rewrite Hu by (simpl in Hf; lia). done.
Qed.

Lemma encode_entries_length cs data : Forall packable cs -> encode_entries cs = Some data ->
  blen data = foldr (fun c n => encodedBytes c + n) 0 cs /\ (length cs <= length data)%nat.
Proof.
  intros Hcs. revert data. induction Hcs as [|c cs Hc Hcs IH]; intros data Hd; simpl in Hd.
  - by injection Hd as <-.
  - destruct (encode_entry_ok c (pk_id c Hc) (pk_data c Hc)) as (e & He & Le). rewrite He in Hd. simpl in Hd.
    destruct (encode_entries cs) as [l|]; [|done]. simpl in Hd. injection Hd as <-.
    destruct (IH l eq_refl) as [IH1 IH2]. rewrite blen_app, Le, IH1. split; [done|].
    assert (1 <= blen e) by (rewrite Le; unfold encodedBytes, ENTRY_HEADER_BYTES, byteLength, blen; lia).
    rewrite length_app. unfold blen in *. simpl. lia.
Qed.

(** The size of the entries of some chunks. *)
Definition entries_size (cs : list chunk) : Z := foldr (fun c n => encodedBytes c + n) 0 cs.

Lemma entries_size_app a b : entries_size (a ++ b) = entries_size a + entries_size b.
Proof. unfold entries_size. induction a as [|c a IH]; simpl; [done|]. rewrite IH. lia. Qed.

(** What holds of a block cut from [cs]. *)
Definition block_ok (maxChunks maxBytes : Z) (b : block) (cs : list chunk) : Prop :=
  unpackStreamRow (block_row b) = Ok cs /\ cs <> [] /\ bk_count b = Z.of_nat (length cs) /\
  Z.of_nat (length cs) <= maxChunks /\ (blen (bk_data b) <= maxBytes \/ length cs = 1%nat).

Lemma encodeBlock_ok cs maxChunks maxBytes : Forall packable cs -> cs <> [] ->
  Z.of_nat (length cs) <= maxChunks -> maxChunks <= 9007199254740991 ->
  (entries_size cs <= maxBytes \/ length cs = 1%nat) ->
  exists b, encodeBlock cs (entries_size cs) = Ok b /\ block_ok maxChunks maxBytes b cs.
Proof.
  intros Hcs Hne Hc Hmax Hb. destruct (encode_entries_ok cs Hcs) as (data & Hd & Hu).
  destruct (encode_entries_length cs data Hcs Hd) as [Hl1 Hl2].
  destruct (head cs) as [f|] eqn:Ef; [|by destruct cs]. destruct (last cs) as [l|] eqn:El; [|by apply last_None in El].
  exists (Block (ck_id f) (ck_id l) (Z.of_nat (length cs)) data). unfold encodeBlock. rewrite Hd, Ef, El.
  fold (entries_size cs) in Hl1. rewrite Hl1, Z.eqb_refl. split; [done|]. split; [|split; [done|split; [done|split; [done|]]]].
  - unfold unpackStreamRow, block_row. cbn [ph_eof ph_codec ph_count ph_data ph_id ph_last bk_first bk_last bk_count bk_data].
    change (PACKED_STREAM_CODEC_VERSION =? 1) with false. rewrite Z.eqb_refl. cbn [negb].
    assert (0 < Z.of_nat (length cs)) by (destruct cs; simpl; [done|lia]).
    destruct (Z.leb_spec (Z.abs (Z.of_nat (length cs))) 9007199254740991); [|lia].
    destruct (Z.leb_spec (Z.of_nat (length cs)) 0); [lia|]. cbn [negb orb].
    rewrite Hu by lia. cbn [result_bind]. by rewrite Z.eqb_refl, Ef, El, !bool_decide_true.
  - cbn [bk_data]. by rewrite Hl1.
Qed.

Lemma pack_go_ok maxChunks maxBytes : 1 <= maxChunks <= 9007199254740991 -> forall cs pending,
  Forall packable (pending ++ cs) -> Z.of_nat (length pending) <= maxChunks ->
  (entries_size pending <= maxBytes \/ (length pending <= 1)%nat) ->
  exists blocks, pack_go maxChunks maxBytes cs pending (entries_size pending) = Ok blocks /\
    exists css, Forall2 (block_ok maxChunks maxBytes) blocks css /\ concat css = pending ++ cs.
Proof.
  intros Hmax cs. induction cs as [|c cs IH]; intros pending Hpk Hlen Hsize.
  - rewrite app_nil_r in *. destruct pending as [|p l] eqn:Ep.
    + exists []. split; [done|]. exists []. by split.
    + cbn [pack_go]. rewrite <- Ep in *. destruct (encodeBlock_ok pending maxChunks maxBytes) as (b & Hb & Hok); [done|by rewrite Ep|done|lia|..].
      { destruct Hsize as [?|Hs]; [by left|right]. rewrite Ep in *. simpl in *. lia. }
      exists [b]. rewrite Hb. split; [done|]. exists [pending]. split; [constructor; [done|constructor]|]. simpl. by rewrite app_nil_r.
  - cbn [pack_go]. apply Forall_app in Hpk as [Hp Hcs]. inversion_clear Hcs as [|? ? Hc Hcs'].
    destruct (Z.ltb_spec 65535 (byteLength (ck_id c))) as [Hlong|_]; [pose proof (pk_id c Hc); lia|].
    destruct (negb (bool_decide (pending = [])) && _) eqn:E.
    + apply andb_prop in E as [Hne _]. apply negb_true_iff, bool_decide_eq_false in Hne.
      destruct (encodeBlock_ok pending maxChunks maxBytes) as (b & Hb & Hok); [done|done|done|lia|..].
      { destruct Hsize as [?|Hs]; [by left|right]. destruct pending; [done|]. simpl in *. lia. }
      destruct pending as [|p l] eqn:Ep; [done|]. rewrite <- Ep in *. rewrite Hb. cbn [result_bind].
      destruct (IH [c]) as (blocks & Hgo & css & Hf & Hcat); [by constructor|simpl; lia|right; simpl; lia|].
      assert (Es : entries_size [c] = encodedBytes c) by (unfold entries_size; simpl; lia).
      rewrite Es in Hgo. rewrite Hgo. exists (b :: blocks). split; [done|]. exists (pending :: css).
      split; [by constructor|]. simpl. by rewrite Hcat.
    + assert (Es : entries_size pending + encodedBytes c = entries_size (pending ++ [c])).
      { rewrite entries_size_app. unfold entries_size at 3. simpl. lia. }
      rewrite Es. destruct (IH (pending ++ [c])) as (blocks & Hgo & css & Hf & Hcat).
      * rewrite <- app_assoc. apply Forall_app. split; [done|]. by constructor.
      * rewrite length_app. simpl. apply andb_false_iff in E as [E|E].
        -- apply negb_false_iff, bool_decide_eq_true in E. subst. simpl. lia.
        -- apply orb_false_iff in E as [E _]. apply Z.leb_gt in E. lia.
      * apply andb_false_iff in E as [E|E].
        -- apply negb_false_iff, bool_decide_eq_true in E. subst. right. simpl. lia.
        -- apply orb_false_iff in E as [_ E]. apply Z.ltb_ge in E. left. lia.
      * exists blocks. split; [done|]. exists css. split; [done|]. by rewrite Hcat, <- app_assoc.
Qed.

Lemma unpack_blocks maxChunks maxBytes blocks css :
  Forall2 (block_ok maxChunks maxBytes) blocks css -> unpack_rows (map block_row blocks) = Ok (concat css).
Proof. induction 1 as [|b cs blocks css [Hb _] _ IH]; simpl; [done|]. rewrite Hb. cbn [result_bind]. by rewrite IH. Qed.

Lemma assertPositiveInteger_ok x n : assertPositiveInteger x = Ok n -> 1 <= n <= 9007199254740991.
Proof.
  unfold assertPositiveInteger, isSafeInteger. destruct (js_integer x) as [k|]; [|done].
  destruct (Z.leb_spec (Z.abs k) 9007199254740991); [|done]. destruct (Z.leb_spec k 0); [done|]. intros [= <-]. lia.
Qed.

(** C25 Packing loses nothing: chunks the format can hold are packed, and
    unpacking the rows of the blocks, one after another, gives the chunks back;
    no block has more chunks than allowed, nor more bytes unless it holds one
    chunk only. *)
Theorem pack_unpack cs maxChunks maxBytes mc mb :
  Forall packable cs ->
  assertPositiveInteger (default (JsFinite DEFAULT_STREAM_BLOCK_CHUNKS 1) maxChunks) = Ok mc ->
  assertPositiveInteger (default (JsFinite DEFAULT_STREAM_BLOCK_BYTES 1) maxBytes) = Ok mb ->
  exists blocks, packStreamChunks cs maxChunks maxBytes = Ok blocks /\
    unpack_rows (map block_row blocks) = Ok cs /\
    Forall (fun b => 1 <= bk_count b <= mc /\ (blen (bk_data b) <= mb \/ bk_count b = 1)) blocks.
Proof.
  intros Hcs Hmc Hmb. unfold packStreamChunks. rewrite Hmc, Hmb. cbn [result_bind].
  pose proof (assertPositiveInteger_ok _ _ Hmc) as Hr.
  destruct (pack_go_ok mc mb Hr cs []) as (blocks & Hgo & css & Hf & Hcat); [done|simpl; lia|right; simpl; lia|].
  exists blocks. split; [exact Hgo|]. rewrite (unpack_blocks _ _ _ _ Hf), Hcat. split; [done|].
  clear Hgo Hcat. induction Hf as [|b l blocks css (Hu & Hne & E & Hlen & Hb) _ IH]; constructor; [|done].
  rewrite E. destruct l; [done|]. simpl in *. split; [lia|]. destruct Hb as [?|Hb]; [by left|right]. lia.
Qed.

Definition demo_chunks : list chunk :=
  [Chunk "chnk_01" (text_bytes "one"); Chunk "chnk_02" []; Chunk "chnk_03" (text_bytes "three")].

Lemma demo_packable : Forall packable demo_chunks.
Proof. repeat constructor; try (vm_compute; done); by apply ascii_well_formed. Qed.

Lemma pack_unpack_witness :
  exists blocks, packStreamChunks demo_chunks (Some (JsFinite 2 1)) None = Ok blocks /\ length blocks = 2%nat /\
    unpack_rows (map block_row blocks) = Ok demo_chunks.
Proof.
  destruct (pack_unpack demo_chunks (Some (JsFinite 2 1)) None 2 262144 demo_packable eq_refl eq_refl)
    as (blocks & Hp & Hu & _).
  assert (E : result_bind (packStreamChunks demo_chunks (Some (JsFinite 2 1)) None) (fun b => Ok (length b)) = Ok 2%nat)
    by (vm_compute; reflexivity).
  exists blocks. split; [exact Hp|]. split; [|exact Hu]. rewrite Hp in E. by injection E.
Defined.
