(* ===== verification/Paging.v ===== *)
(** Keyset pagination, as every listing of the storage does it: rows ordered by
    a text key, those behind a cursor, one more than the limit, which tells
    whether there is more (src/storage.ts, [list] of runs, events, hooks and
    steps). *)
From S2P Require Import Prelude Model.
From Stdlib Require Import Sorting.Sorted.
From stdpp Require Import sorting.

Inductive sort_order := Asc | Desc.

Section Paging.
Context {A : Type} (key : A -> string).

(** [order by key] *)
Fixpoint insert_by (e : A) (l : list A) : list A :=
  match l with
  | [] => [e]
  | x :: l' => if str_le (key e) (key x) then e :: l else x :: insert_by e l'
  end.
Definition sort_by (l : list A) : list A := fold_right insert_by [] l.

Definition ordered (order : sort_order) (l : list A) : list A :=
  match order with Asc => sort_by l | Desc => rev (sort_by l) end.

Definition before (order : sort_order) (a b : string) : bool :=
  match order with Asc => str_lt a b | Desc => str_lt b a end.

(** [map(cursor, (c) => order.compare(key, c))]: an empty cursor is none. *)
Definition beyond (order : sort_order) (cursor : option string) (e : A) : bool :=
  if truthy cursor then before order (default "" cursor) (key e) else true.

(** The rows of a page, with the cursor behind them and whether there is more. *)
Definition key_page (limit : nat) (order : sort_order) (cursor : option string) (rows : list A) : page A :=
  let all := take (limit + 1) (ordered order (filter (fun e => beyond order cursor e = true) rows)) in
  let values := take limit all in
  Page values (option_map key (last values)) (limit <? length all)%nat.

(** What a client reads that follows the cursors from the first page on. *)
Fixpoint read_pages (fuel : nat) (next : option string -> page A) (cursor : option string) : option (list A) :=
  match fuel with
  | O => None
  | S fuel =>
      let p := next cursor in
      if pg_hasMore p then option_map (app (pg_data p)) (read_pages fuel next (pg_cursor p))
      else Some (pg_data p)
  end.

(** ** Ordering *)

Definition key_le (a b : A) : Prop := str_le (key a) (key b) = true.
Definition key_before (order : sort_order) (a b : A) : Prop := before order (key a) (key b) = true.

Lemma str_le_trans a b c : str_le a b = true -> str_le b c = true -> str_le a c = true.
Proof.
  rewrite !str_le_spec. intros [->|H1] [->|H2]; auto. right. by eapply str_compare_lt_trans.
Qed.

Lemma str_le_total a b : str_le a b = false -> str_le b a = true.
Proof.
  intros H. destruct (str_le b a) eqn:E; [done|]. pose proof (str_lt_not_le a b) as H1.
  rewrite E in H1. simpl in H1. apply str_lt_spec in H1.
  assert (str_le a b = true) by (apply str_le_spec; by right). congruence.
Qed.

Lemma elem_insert_by x e l : x ∈ insert_by e l <-> x = e \/ x ∈ l.
Proof.
  induction l as [|y l IH]; simpl.
  - rewrite list_elem_of_singleton. split; [auto|]. intros [?|H]; [done|by apply elem_of_nil in H].
  - destruct (str_le _ _); rewrite !elem_of_cons; [done|]. rewrite IH. tauto.
Qed.

Lemma elem_sort_by x l : x ∈ sort_by l <-> x ∈ l.
Proof. induction l as [|y l IH]; simpl; [done|]. by rewrite elem_insert_by, IH, elem_of_cons. Qed.

Lemma insert_by_sorted e l : StronglySorted key_le l -> StronglySorted key_le (insert_by e l).
Proof.
  induction 1 as [|y l Hl IH Hy]; simpl; [by repeat constructor|].
  destruct (str_le (key e) (key y)) eqn:E.
  - constructor; [by constructor|]. constructor; [done|]. rewrite Forall_forall in *.
    intros z Hz. eapply str_le_trans; [exact E|by apply Hy].
  - constructor; [done|]. rewrite Forall_forall in *. intros z Hz.
    apply elem_insert_by in Hz as [->|Hz]; [by apply str_le_total|by apply Hy].
Qed.

Lemma sort_by_sorted l : StronglySorted key_le (sort_by l).
Proof. induction l as [|x l IH]; simpl; [constructor|by apply insert_by_sorted]. Qed.

Lemma insert_by_perm e l : insert_by e l ≡ₚ e :: l.
Proof.
  induction l as [|y l IH]; simpl; [done|]. destruct (str_le _ _); [done|].
  rewrite IH. apply Permutation_swap.
Qed.

Lemma sort_by_perm l : sort_by l ≡ₚ l.
Proof. induction l as [|x l IH]; simpl; [done|]. by rewrite insert_by_perm, IH. Qed.

Lemma insert_by_front e l : Forall (key_le e) l -> insert_by e l = e :: l.
Proof. destruct 1 as [|y l Hy _]; simpl; [done|]. unfold key_le in Hy. by rewrite Hy. Qed.

Context (p : A -> Prop) `{!forall x, Decision (p x)}.

Lemma filter_insert_by e l : StronglySorted key_le l ->
  filter p (insert_by e l) = if decide (p e) then insert_by e (filter p l) else filter p l.
Proof.
  induction 1 as [|y l Hl IH Hy]; simpl insert_by.
  - rewrite filter_cons. by destruct (decide (p e)).
  - destruct (str_le (key e) (key y)) eqn:E.
    + rewrite filter_cons. destruct (decide (p e)); [|done]. symmetry. apply insert_by_front.
      rewrite Forall_forall in *. intros z [_ [->|Hz]%elem_of_cons]%list_elem_of_filter; [done|].
      eapply str_le_trans; [exact E|by apply Hy].
    + rewrite !filter_cons, IH. destruct (decide (p e)), (decide (p y)); simpl; try done. by rewrite E.
Qed.

Lemma filter_sort_by l : sort_by (filter p l) = filter p (sort_by l).
Proof.
  induction l as [|x l IH]; simpl; [done|].
  rewrite filter_insert_by by apply sort_by_sorted. rewrite filter_cons, <- IH.
  by destruct (decide (p x)).
Qed.

Lemma filter_rev l : filter p (rev l) = rev (filter p l).
Proof.
  induction l as [|x l IH]; simpl; [done|]. rewrite filter_app, IH, !filter_cons, filter_nil.
  destruct (decide (p x)); simpl; [done|]. by rewrite app_nil_r.
Qed.

Lemma filter_ordered order l : ordered order (filter p l) = filter p (ordered order l).
Proof. destruct order; simpl; rewrite filter_sort_by; [done|]. by rewrite filter_rev. Qed.
End Paging.

(** ** Pages *)

Section Pages.
Context {A : Type} (key : A -> string).

Lemma before_irrefl o a : before o a a = false.
Proof. destruct o; apply str_lt_irrefl. Qed.

Lemma before_trans o a b c : before o a b = true -> before o b c = true -> before o a c = true.
Proof. destruct o; simpl; eauto using str_lt_trans. Qed.

Lemma StronglySorted_snoc {B} (R : B -> B -> Prop) l x :
  StronglySorted R l -> Forall (fun y => R y x) l -> StronglySorted R (l ++ [x]).
Proof.
  induction 1 as [|y l Hl IH Hy]; intros Hx; simpl; [by repeat constructor|].
  inversion_clear Hx. constructor; [auto|]. apply Forall_app. by repeat constructor.
Qed.

Lemma StronglySorted_rev {B} (R : B -> B -> Prop) l :
  StronglySorted R l -> StronglySorted (fun a b => R b a) (rev l).
Proof.
  induction 1 as [|y l Hl IH Hy]; simpl; [constructor|].
  apply StronglySorted_snoc; [done|]. by apply List.Forall_rev.
Qed.

(** Rows of distinct keys come out in the strict order of their keys. *)
Lemma ordered_sorted o l : NoDup (map key l) -> StronglySorted (key_before key o) (ordered key o l).
Proof.
  intros Hd. assert (Hs : StronglySorted (key_before key Asc) (sort_by key l)).
  { assert (Hd' : NoDup (map key (sort_by key l))).
    { by rewrite sort_by_perm. }
    revert Hd'. induction (sort_by_sorted key l) as [|y k Hk IH Hy]; intros Hd'; [constructor|].
    simpl in Hd'. inversion_clear Hd' as [|? ? Hn Hd1]. constructor; [auto|].
    rewrite Forall_forall in *. intros z Hz. apply Hy in Hz as Hle. unfold key_le in Hle.
    apply str_le_spec in Hle as [E|E]; [|by apply str_lt_spec].
    destruct Hn. rewrite E. apply list_elem_of_In, in_map. by apply list_elem_of_In. }
  destruct o; simpl; [done|]. by apply StronglySorted_rev in Hs.
Qed.

Lemma elem_ordered o l x : x ∈ ordered key o l <-> x ∈ l.
Proof.
  destruct o; simpl; [apply elem_sort_by|]. rewrite <- (elem_sort_by key x l), !list_elem_of_In.
  split; [by intros H%in_rev|]. intros H. by apply -> in_rev.
Qed.

(** Behind the key of one of them lie the rows that follow it. *)
Lemma filter_beyond o l1 x l2 :
  StronglySorted (key_before key o) (l1 ++ x :: l2) -> key x <> "" ->
  filter (fun e => beyond key o (Some (key x)) e = true) (l1 ++ x :: l2) = l2.
Proof.
  intros Hs Hx. unfold beyond. simpl. rewrite (proj2 (String.eqb_neq _ _) Hx). simpl.
  rewrite filter_app. rewrite (filter_cons_False _ _ l2) by by rewrite before_irrefl.
  induction l1 as [|y l1 IH]; simpl in *.
  - inversion_clear Hs as [|? ? _ Hf]. clear -Hf.
    induction Hf as [|z l Hz Hf IH]; [done|]. rewrite filter_cons_True by exact Hz. by f_equal.
  - inversion_clear Hs as [|? ? Hs' Hf]. rewrite filter_cons_False; [by apply IH|].
    apply Forall_app in Hf as [_ Hf]. apply Forall_cons in Hf as [Hyx _]. intros Hxy.
    pose proof (before_trans o _ _ _ Hyx Hxy) as H. by rewrite before_irrefl in H.
Qed.

Section Read.
Context (limit : nat) (o : sort_order) (rows : list A).
Context (Hlimit : (0 < limit)%nat) (Hdistinct : NoDup (map key rows)) (Hkeys : Forall (fun x => key x <> "") rows).

(** A page behind a row is the next [limit] rows that follow it. *)
Lemma key_page_behind l1 l2 :
  ordered key o rows = l1 ++ l2 ->
  key_page key limit o (option_map key (last l1)) rows =
    Page (take limit l2) (option_map key (last (take limit l2))) (limit <? length l2)%nat.
Proof.
  intros E. unfold key_page. rewrite filter_ordered.
  assert (Hf : filter (fun e => beyond key o (option_map key (last l1)) e = true) (ordered key o rows) = l2).
  { rewrite E. destruct l1 as [|x l1 _] using rev_ind; simpl.
    - unfold beyond. simpl. clear. induction l2 as [|x l IH]; [done|]. rewrite filter_cons_True by done. by f_equal.
    - rewrite last_snoc. simpl. rewrite <- app_assoc. apply filter_beyond.
      + rewrite <- (app_assoc l1 [x] l2) in E. simpl in E |- *. rewrite <- E. by apply ordered_sorted.
      + rewrite Forall_forall in Hkeys. apply Hkeys. rewrite <- (elem_ordered o), E.
        rewrite !elem_of_app, list_elem_of_singleton. auto. }
  rewrite Hf, take_take, Nat.min_l, length_take by lia. f_equal.
  destruct (Nat.ltb_spec limit (length l2)), (Nat.ltb_spec limit ((limit + 1) `min` length l2)); try done; lia.
Qed.

Lemma read_pages_S fuel (next : option string -> page A) cursor :
  read_pages (S fuel) next cursor =
  if pg_hasMore (next cursor)
  then option_map (app (pg_data (next cursor))) (read_pages fuel next (pg_cursor (next cursor)))
  else Some (pg_data (next cursor)).
Proof. done. Qed.

Lemma read_pages_behind fuel : forall l1 l2,
  ordered key o rows = l1 ++ l2 -> (length l2 <= fuel)%nat ->
  read_pages (S fuel) (fun c => key_page key limit o c rows) (option_map key (last l1)) = Some l2.
Proof.
  induction fuel as [|fuel IH]; intros l1 l2 E Hf; rewrite read_pages_S, (key_page_behind l1 l2 E);
    cbn [pg_hasMore pg_data pg_cursor]; destruct (Nat.ltb_spec limit (length l2)) as [Hl|Hl]; try lia;
    try (by rewrite take_ge by lia).
  assert (Hlast : option_map key (last (take limit l2)) = option_map key (last (l1 ++ take limit l2))).
  { rewrite last_app. destruct (last (take limit l2)) eqn:El; [done|].
    apply last_None in El. apply (f_equal length) in El. rewrite length_take in El. simpl in El. lia. }
  rewrite Hlast, (IH _ (drop limit l2)); [simpl; by rewrite take_drop| |rewrite length_drop; lia].
  by rewrite <- app_assoc, take_drop.
Qed.

(** Following the cursors reads every row once, in order. *)
Lemma read_pages_all :
  read_pages (S (length rows)) (fun c => key_page key limit o c rows) None = Some (ordered key o rows).
Proof.
  apply (read_pages_behind (length rows) [] (ordered key o rows)); [done|].
  destruct o; simpl; [|rewrite length_rev]; by rewrite sort_by_perm.
Qed.
End Read.
End Pages.

(** ** Ordering by several columns *)

Definition lex (c : comparison) (rest : comparison) : comparison := match c with Eq => rest | _ => c end.
Definition le_of (c : comparison) : bool := match c with Gt => false | _ => true end.

Definition at_most {A} (order : A -> A -> comparison) (a b : A) : Prop := le_of (order a b) = true.
#[export] Instance at_most_dec {A} (order : A -> A -> comparison) : RelDecision (at_most order).
Proof. intros a b. unfold at_most. apply _. Defined.

(** [order by] the columns of a comparison. *)
Definition sort_with {A} (order : A -> A -> comparison) (l : list A) : list A := merge_sort (at_most order) l.

Lemma sort_with_perm {A} (order : A -> A -> comparison) l : sort_with order l ≡ₚ l.
Proof. apply merge_sort_Permutation. Qed.
