(* ===== verification/Sdk.v ===== *)
(** The third-party code the World is written against: the constants and
    functions it imports from [@workflow/world], [ulid] and Postgres's digest
    functions, as the fields of a class, and their documented behaviour as the
    fields of another. A concrete instance of both, for the witnesses, ends the
    file. *)
From S2P Require Import Prelude Bytes Slots Model.

Class WorldSdk := {
  (* event ids *)
  EVENT_ID_PREFIX : string;
  EVENT_ID_BODY_LENGTH : nat;
  FIRST_EVENT_SLOT : N;
  slotToEventId : N -> string;
  eventIdToSlot : string -> option N;
  ulidOf : N -> string;  (** the [n]-th text of a [monotonicFactory] *)
  (* statuses and versions *)
  TERMINAL_WORKFLOW_RUN_STATUSES : list RunStatus.t;
  isTerminalWorkflowRunStatus : RunStatus.t -> bool;
  TERMINAL_STEP_STATUSES : list StepStatus.t;
  isTerminalStepStatus : StepStatus.t -> bool;
  isLegacySpecVersion : option Z -> bool;
  requiresNewerWorld : option Z -> bool;
  SPEC_VERSION_LEGACY : Z;
  SPEC_VERSION_SINGLE_ORCHESTRATOR : Z;
  SPEC_VERSION_SUPPORTS_HOOK_FORCE_CLAIM : Z;
  (* classification of events *)
  isChildEntityCreationEvent : request -> bool;
  isChildEntityCreationEventType : event_type -> bool;
  isTerminalRunEventType : event_type -> bool;
  isHookEventRequiringExistence : event_type -> bool;
  stripEventDataRefs : event_row -> resolve_data -> event_row;
  (* start hooks *)
  startHookId : string -> string;
  isStartHookId : string -> string -> bool;
  START_HOOK_CANDIDATE_MAX_AGE_MS : Z;
  ulidToDate : string -> option instant;
  validateUlidTimestamp : instant -> string -> bool;  (** [true] when there is no error *)
  (* attributes *)
  ATTRIBUTE_MAX_PER_RUN : nat;
  validateAttributeChanges : list attr_change -> list string -> bool -> bool;
  (* Postgres *)
  md5 : string -> string;
  sha256_hex : string -> string;
  hook_token_digest : string -> string
}.

Class WorldSdkLaws `{WorldSdk} := {
  sdk_width : (0 < EVENT_ID_BODY_LENGTH <= 18)%nat;
  sdk_first : FIRST_EVENT_SLOT = 1%N;
  sdk_slotToEventId n : slotToEventId n = slot_id EVENT_ID_PREFIX EVENT_ID_BODY_LENGTH n;
  sdk_eventIdToSlot id n :
    eventIdToSlot id = Some n <->
    id = slot_id EVENT_ID_PREFIX EVENT_ID_BODY_LENGTH n /\ (n < 10 ^ N.of_nat EVENT_ID_BODY_LENGTH)%N;
  (** An id of the older scheme is no slot id, and no number follows where a
      slot id has its digits: a ULID is 26 characters of base 32. *)
  sdk_legacy_id u : eventIdToSlot ("wevt_" +:+ u) = None;
  sdk_legacy_number n : cast_bigint (String.substring (String.length EVENT_ID_PREFIX)
    (String.length ("wevt_" +:+ ulidOf n) - String.length EVENT_ID_PREFIX) ("wevt_" +:+ ulidOf n)) = None;
  (** A [monotonicFactory] only counts up, until its 80 bits run out. *)
  sdk_ulid_monotone n m : (n < m < 2 ^ 80)%N -> str_lt (ulidOf n) (ulidOf m) = true;
  sdk_ulid_text n : (n < 2 ^ 80)%N -> String.length (ulidOf n) = 26%nat /\ ascii_text (ulidOf n) = true;
  sdk_terminal_runs s : s ∈ TERMINAL_WORKFLOW_RUN_STATUSES <->
    s = RunStatus.completed \/ s = RunStatus.failed \/ s = RunStatus.cancelled;
  sdk_terminal_run s : isTerminalWorkflowRunStatus s = true <-> s ∈ TERMINAL_WORKFLOW_RUN_STATUSES;
  sdk_terminal_steps s : s ∈ TERMINAL_STEP_STATUSES <->
    s = StepStatus.completed \/ s = StepStatus.failed \/ s = StepStatus.cancelled;
  sdk_terminal_step s : isTerminalStepStatus s = true <-> s ∈ TERMINAL_STEP_STATUSES;
  sdk_terminal_event t : isTerminalRunEventType t = true <->
    t = run_completed \/ t = run_failed \/ t = run_cancelled;
  sdk_hook_event t : isHookEventRequiringExistence t = true <-> t = hook_received \/ t = hook_disposed;
  (** Only the event's data is cut. *)
  sdk_strip e r : ev_id (stripEventDataRefs e r) = ev_id e;
  sdk_start_hook r h : isStartHookId r h = String.eqb h (startHookId r)
}.

(** ** A concrete SDK *)

Definition demo_eventIdToSlot (id : string) : option N :=
  n ← cast_bigint (String.substring 5 12 id);
  if String.eqb id (slot_id "evnt_" 12 n) && (n <? 10 ^ 12)%N then Some n else None.

Definition demo_terminal_run (s : RunStatus.t) : bool :=
  match s with RunStatus.completed | RunStatus.failed | RunStatus.cancelled => true | _ => false end.

Definition demo_terminal_step (s : StepStatus.t) : bool :=
  match s with StepStatus.completed | StepStatus.failed | StepStatus.cancelled => true | _ => false end.

Definition demo_creates_child (rq : request) : bool :=
  match rq_body rq with
  | StepCreated _ | HookCreated _ | WaitCreated _ => true
  | StepStarted (Some d) => bool_decide (is_Some (sd_stepName d) /\ is_Some (sd_input d))
  | _ => false
  end.

#[export] Instance demo_sdk : WorldSdk := {
  EVENT_ID_PREFIX := "evnt_";
  EVENT_ID_BODY_LENGTH := 12;
  FIRST_EVENT_SLOT := 1;
  slotToEventId := slot_id "evnt_" 12;
  eventIdToSlot := demo_eventIdToSlot;
  ulidOf n := "K" +:+ lpad0 (dec_text n) 25;
  TERMINAL_WORKFLOW_RUN_STATUSES := [RunStatus.completed; RunStatus.failed; RunStatus.cancelled];
  isTerminalWorkflowRunStatus := demo_terminal_run;
  TERMINAL_STEP_STATUSES := [StepStatus.completed; StepStatus.failed; StepStatus.cancelled];
  isTerminalStepStatus := demo_terminal_step;
  isLegacySpecVersion v := match v with Some v => (v <? 2)%Z | None => true end;
  requiresNewerWorld v := match v with Some v => (9 <? v)%Z | None => false end;
  SPEC_VERSION_LEGACY := 1;
  SPEC_VERSION_SINGLE_ORCHESTRATOR := 9;
  SPEC_VERSION_SUPPORTS_HOOK_FORCE_CLAIM := 7;
  isChildEntityCreationEvent := demo_creates_child;
  isChildEntityCreationEventType t := bool_decide (t ∈ [step_created; hook_created; wait_created]);
  isTerminalRunEventType t := bool_decide (t ∈ [run_completed; run_failed; run_cancelled]);
  isHookEventRequiringExistence t := bool_decide (t ∈ [hook_received; hook_disposed]);
  stripEventDataRefs e _ := e;
  startHookId r := "hook_start_" +:+ r;
  isStartHookId r h := String.eqb h ("hook_start_" +:+ r);
  START_HOOK_CANDIDATE_MAX_AGE_MS := 86400000;
  ulidToDate _ := None;
  validateUlidTimestamp _ _ := true;
  ATTRIBUTE_MAX_PER_RUN := 3;
  validateAttributeChanges cs keys _ := true;
  md5 s := String.substring 0 4 s;
  sha256_hex s := lpad0 (dec_text (N.of_nat (String.length s))) 8;
  hook_token_digest s := s
}.

#[export] Instance demo_sdk_laws : WorldSdkLaws.
Proof.
  split; simpl.
  - lia.
  - done.
  - done.
  - intros id n. unfold demo_eventIdToSlot. split.
    + destruct (cast_bigint _) as [k|]; [simpl|done].
      destruct (String.eqb _ _) eqn:E1; [|done]. destruct (k <? _)%N eqn:E2; [|done]. simpl.
      intros [= ->]. apply String.eqb_eq in E1. by apply N.ltb_lt in E2.
    + intros [-> Hn]. change 5%nat with (String.length "evnt_").
      assert (n < 1000000000000)%N as Hn2 by exact Hn.
      rewrite cast_slot_id; [|exact Hn|lia|unfold BIGINT_MAX; lia]. simpl.
      rewrite String.eqb_refl. apply N.ltb_lt in Hn2. simpl. change (10 ^ 12)%N with 1000000000000%N. by rewrite Hn2.
  - intros u. unfold demo_eventIdToSlot. destruct (cast_bigint _); [simpl|done]. done.
  - done.
  - intros n m Hnm. change ("K" +:+ lpad0 (dec_text n) 25) with (slot_id "K" 25 n).
    change ("K" +:+ lpad0 (dec_text m) 25) with (slot_id "K" 25 m).
    assert (2 ^ 80 < 10 ^ N.of_nat 25)%N by reflexivity. apply slot_id_lt; lia.
  - intros n Hn. assert (2 ^ 80 < 10 ^ N.of_nat 25)%N by reflexivity.
    destruct (lpad0_spec n 25 ltac:(lia) ltac:(lia)) as [Hv Hl]. rewrite string_length_app, Hl. split; [done|].
    rewrite ascii_text_app. by rewrite (digits_ascii _ _ Hv).
  - intros s. destruct s; set_unfold; naive_solver.
  - intros s. destruct s; set_unfold; naive_solver.
  - intros s. destruct s; set_unfold; naive_solver.
  - intros s. destruct s; set_unfold; naive_solver.
  - intros t. rewrite bool_decide_eq_true. destruct t; set_unfold; naive_solver.
  - intros t. rewrite bool_decide_eq_true. destruct t; set_unfold; naive_solver.
  - done.
  - done.
Qed.
