(* ===== verification/Tenant.v ===== *)
(** Tenant ids and the database names derived from them (src/tenant.ts). *)
From S2P Require Import Prelude.

(** ASCII [toLowerCase], on one character. *)
Definition char_lower (c : Ascii.ascii) : Ascii.ascii :=
  let n := Ascii.N_of_ascii c in
  if ((65 <=? n) && (n <=? 90))%N then Ascii.ascii_of_N (n + 32) else c.

Definition is_lower_alnum (c : Ascii.ascii) : bool :=
  let n := Ascii.N_of_ascii c in
  ((97 <=? n) && (n <=? 122) || (48 <=? n) && (n <=? 57) || (n =? 95))%N.

(** [/[A-Za-z0-9_-]/] *)
Definition is_id_char (c : Ascii.ascii) : bool :=
  let n := Ascii.N_of_ascii c in
  is_lower_alnum c || ((65 <=? n) && (n <=? 90) || (n =? 45))%N.

Definition underscore : Ascii.ascii := Ascii.ascii_of_N 95.

Fixpoint map_string (f : Ascii.ascii -> Ascii.ascii) (s : string) : string :=
  match s with "" => "" | String c s => String (f c) (map_string f s) end.

Fixpoint all_chars (p : Ascii.ascii -> bool) (s : string) : bool :=
  match s with "" => true | String c s => p c && all_chars p s end.

Definition TENANT_COLUMN : string := "tenant_id".

Section Tenant.
(** The hex digest of Node's [createHash("sha256")]. *)
Context (sha256_hex : string -> string).

Definition derivePartitionName (table tenantId : string) : string :=
  let safe := String.substring 0 24
    (map_string (fun c => if is_lower_alnum c then c else underscore) (map_string char_lower tenantId)) in
  let digest := String.substring 0 8 (sha256_hex tenantId) in
  table +:+ "_t_" +:+ safe +:+ "_" +:+ digest.

(** [true] when the id is accepted. *)
Definition assertValidTenantId (tenantId : string) : bool :=
  negb ((String.length tenantId =? 0)%nat || (128 <? String.length tenantId)%nat)
  && all_chars is_id_char tenantId.

Definition tenantStreamChannel (tenantId : string) : string := derivePartitionName "wf_stream" tenantId.

Definition dedupIndexName (tenantId : string) : string := derivePartitionName "wf_events_dedup" tenantId.

(** ** Facts *)

Lemma all_chars_app p s t : all_chars p (s +:+ t) = all_chars p s && all_chars p t.
Proof. induction s as [|c s IH]; [done|]. rewrite string_app_cons. simpl. rewrite IH. by destruct (p c). Qed.

Lemma all_chars_substring p n m s : all_chars p s = true -> all_chars p (String.substring n m s) = true.
Proof.
  revert n m. induction s as [|c s IH]; intros [|n] [|m] H; simpl in *; try done;
    apply andb_prop in H as [H1 H2]; [by rewrite H1, IH|by apply IH..].
Qed.

Lemma all_chars_map p f s : (forall c, p (f c) = true) -> all_chars p (map_string f s) = true.
Proof. intros H. induction s as [|c s IH]; simpl; [done|]. by rewrite H, IH. Qed.

Lemma length_substring n m s : (String.length (String.substring n m s) <= m)%nat.
Proof.
  revert n m. induction s as [|c s IH]; intros [|n] [|m]; simpl; try lia.
  - specialize (IH 0%nat m). lia.
  - specialize (IH n 0%nat). lia.
  - specialize (IH n (S m)). lia.
Qed.

(** A derived name starts with the table's name and the tenant's digest tells
    two tenants apart. *)
Lemma derivePartitionName_inj table t1 t2 :
  (forall t, String.length (String.substring 0 8 (sha256_hex t)) = 8%nat) ->
  derivePartitionName table t1 = derivePartitionName table t2 ->
  String.substring 0 8 (sha256_hex t1) = String.substring 0 8 (sha256_hex t2).
Proof.
  intros Hlen H. unfold derivePartitionName in H. apply string_app_inj_l in H.
  apply (f_equal String.length) in H as L. autorewrite with wfw_rw in L. rewrite !Hlen in L.
  apply (string_app_inj_l "_t_") in H.
  apply string_app_split in H as [_ H]; [|lia]. by apply (string_app_inj_l "_").
Qed.
End Tenant.
