(* ===== verification/JsText.v ===== *)
(** What the source uses of JavaScript's texts: white space and [trim], the
    number [Number.parseInt] reads, and the pieces a text is split into. A text
    is the bytes of its UTF-8 encoding. *)
From S2P Require Import Prelude Model Slots Tenant.
From Stdlib Require Import Strings.Ascii.
Local Open Scope Z_scope.

(** ** White space *)

Definition byte_char (n : N) : Ascii.ascii := Ascii.ascii_of_N n.
Definition text_of_codes (l : list N) : string := fold_right (fun n s => String (byte_char n) s) "" l.

(** The white space and line terminators of the language. *)
Definition white_space : list string := text_of_codes <$>
  ([[9]; [10]; [11]; [12]; [13]; [32]; [0xc2; 0xa0]; [0xe1; 0x9a; 0x80];
    [0xe2; 0x80; 0x80]; [0xe2; 0x80; 0x81]; [0xe2; 0x80; 0x82]; [0xe2; 0x80; 0x83]; [0xe2; 0x80; 0x84];
    [0xe2; 0x80; 0x85]; [0xe2; 0x80; 0x86]; [0xe2; 0x80; 0x87]; [0xe2; 0x80; 0x88]; [0xe2; 0x80; 0x89];
    [0xe2; 0x80; 0x8a]; [0xe2; 0x80; 0xa8]; [0xe2; 0x80; 0xa9]; [0xe2; 0x80; 0xaf]; [0xe2; 0x81; 0x9f];
    [0xe3; 0x80; 0x80]; [0xef; 0xbb; 0xbf]])%N.

(** What is left of a text behind a prefix of it. *)
Fixpoint behind (prefix s : string) : option string :=
  match prefix, s with
  | "", _ => Some s
  | String c p, String d s => if Ascii.eqb c d then behind p s else None
  | _, "" => None
  end.

Definition skip_space (s : string) : option string := head (omap (fun w => behind w s) white_space).

Fixpoint trim_fuel (fuel : nat) (s : string) : string :=
  match fuel with
  | O => s
  | S fuel => match skip_space s with Some s => trim_fuel fuel s | None => s end
  end.

Definition trimStart (s : string) : string := trim_fuel (String.length s) s.
(** [s.trim().length === 0] *)
Definition blank (s : string) : bool := String.eqb (trimStart s) "".

Fixpoint trimEnd (s : string) : string :=
  match s with
  | "" => ""
  | String c t => if blank s then "" else String c (trimEnd t)
  end.

Definition trim (s : string) : string := trimEnd (trimStart s).

(** ** Numbers *)

(** The double nearest to a natural number, ties to the even one. *)
Definition to_double (n : Z) : js_number :=
  if n <? 2 ^ 53 then JsFinite n 1 else
  let unit := 2 ^ (Z.log2 n - 52) in
  let q := n / unit in
  let r := n mod unit in
  let q := if (unit <? 2 * r) || ((2 * r =? unit) && Z.odd q) then q + 1 else q in
  let d := q * unit in
  if d <? 2 ^ 1024 then JsFinite d 1 else JsInfinite false.

Definition js_negate (x : js_number) : js_number :=
  match x with JsFinite n d => JsFinite (- n) d | JsInfinite b => JsInfinite (negb b) | JsNaN => JsNaN end.

(** The digits at the front of a text, put to the number before them. *)
Fixpoint leading_digits (acc : option N) (s : string) : option N :=
  match s with
  | String c s' =>
      match char_digit c with
      | Some n => leading_digits (Some (10 * default 0 acc + n)%N) s'
      | None => acc
      end
  | "" => acc
  end.

(** [Number.parseInt(s, 10)] *)
Definition parseInt (s : string) : js_number :=
  let numeral digits := match leading_digits None digits with Some n => to_double (Z.of_N n) | None => JsNaN end in
  match trimStart s with
  | String "-"%char t => js_negate (numeral t)
  | String "+"%char t => numeral t
  | t => numeral t
  end.

(** The integer that [parsed] is, behind [Number.isFinite(parsed)]. *)
Definition finite_integer (x : js_number) : option Z := match x with JsFinite n 1 => Some n | _ => None end.

(** ** Pieces *)

(** [s.split(separator)] by one character. *)
Fixpoint split_on (separator : Ascii.ascii) (s : string) : list string :=
  match s with
  | "" => [""]
  | String c s => match split_on separator s with
                  | [] => []
                  | piece :: pieces => if Ascii.eqb c separator then "" :: piece :: pieces else String c piece :: pieces
                  end
  end.

(** A text cut at the first occurrence of a character: before and behind it. *)
Fixpoint cut_at (separator : Ascii.ascii) (s : string) : option (string * string) :=
  match s with
  | "" => None
  | String c s => if Ascii.eqb c separator then Some ("", s) else (fun p => (String c p.1, p.2)) <$> cut_at separator s
  end.

(** [l.join(sep)] *)
Fixpoint join_with (sep : string) (l : list string) : string :=
  match l with [] => "" | [x] => x | x :: l => x +:+ sep +:+ join_with sep l end.

(** [s.includes(needle)] *)
Fixpoint includes (needle s : string) : bool :=
  match behind needle s, s with
  | Some _, _ => true
  | None, String _ t => includes needle t
  | None, "" => false
  end.

(** The names every object has from [Object.prototype], which [in] sees. *)
Definition object_prototype_names : list string :=
  ["constructor"; "hasOwnProperty"; "isPrototypeOf"; "propertyIsEnumerable"; "toLocaleString"; "toString"; "valueOf";
   "__proto__"; "__defineGetter__"; "__defineSetter__"; "__lookupGetter__"; "__lookupSetter__"].

(** ** Their lemmas *)

Lemma to_double_small n : 0 <= n < 2 ^ 53 -> to_double n = JsFinite n 1.
Proof. intros H. unfold to_double. by rewrite (proj2 (Z.ltb_lt n (2 ^ 53))) by lia. Qed.

Lemma to_double_positive n : 0 < n -> to_double n = JsInfinite false \/ exists m, to_double n = JsFinite m 1 /\ 0 < m.
Proof.
  intros Hn. unfold to_double. destruct (Z.ltb_spec n (2 ^ 53)); [right; exists n; by split; [|lia]|].
  cbv zeta. set (unit := 2 ^ (Z.log2 n - 52)). destruct (_ <? 2 ^ 1024); [|by left]. right. eexists. split; [done|].
  assert (Hl : 53 <= Z.log2 n) by (apply Z.log2_le_pow2; lia).
  assert (Hu : 0 < unit) by (apply Z.pow_pos_nonneg; lia).
  assert (Hq : 1 <= n / unit).
  { apply Z.div_le_lower_bound; [done|]. rewrite Z.mul_1_r. unfold unit.
    transitivity (2 ^ Z.log2 n); [apply Z.pow_le_mono_r; lia|by apply Z.log2_spec]. }
  destruct (_ || _); nia.
Qed.

Lemma split_on_cons separator s : split_on separator s <> [].
Proof. induction s as [|c s IH]; cbn; [done|]. destruct (split_on separator s); [done|]. by destruct (Ascii.eqb c separator). Qed.

Fixpoint join_on (separator : Ascii.ascii) (l : list string) : string :=
  match l with [] => "" | [s] => s | s :: l => s +:+ String separator (join_on separator l) end.

Lemma join_on_cons separator c p ps : join_on separator (String c p :: ps) = String c (join_on separator (p :: ps)).
Proof. by destruct ps. Qed.

(** Splitting loses nothing but the separators. *)
Lemma split_join separator s : join_on separator (split_on separator s) = s.
Proof.
  induction s as [|c s IH]; [done|]. cbn. destruct (split_on separator s) as [|p ps] eqn:E; [by destruct (split_on_cons separator s)|].
  destruct (Ascii.eqb_spec c separator) as [->|]; [|rewrite join_on_cons; by f_equal].
  change (join_on separator ("" :: p :: ps)) with (String separator (join_on separator (p :: ps))). by f_equal.
Qed.

(** [parseInt] reads back the decimal text of a number, whatever follows it that
    is no digit. *)
Lemma leading_digits_value s v acc : digits_value s = Some v -> s <> "" ->
  leading_digits acc s = Some (default 0 acc * 10 ^ N.of_nat (String.length s) + v)%N.
Proof.
  revert v acc. induction s as [|c s IH]; intros v acc Hv Hs; [done|]. cbn [digits_value leading_digits String.length] in *.
  destruct (char_digit c) as [d|]; [|done]. cbn in Hv. destruct (digits_value s) as [u|] eqn:Eu; [|done].
  injection Hv as <-. rewrite Nat2N.inj_succ, N.pow_succ_r'. destruct s as [|c' s].
  - injection Eu as <-. cbn. f_equal. lia.
  - rewrite (IH u) by done. cbn [default]. f_equal. unfold id. lia.
Qed.

Lemma char_digit_inv c d : char_digit c = Some d -> c = digit_char d.
Proof.
  unfold char_digit. destruct (_ && _) eqn:E; [|done]. apply andb_prop in E as [E _]. apply N.leb_le in E. intros [= <-].
  unfold digit_char. replace (48 + (Ascii.N_of_ascii c - 48))%N with (Ascii.N_of_ascii c) by lia.
  by rewrite Ascii.ascii_N_embedding.
Qed.

(** Ten characters are left to look at once a text is known to start with a digit. *)
Lemma digit_first (P : Ascii.ascii -> Prop) :
  P "0"%char -> P "1"%char -> P "2"%char -> P "3"%char -> P "4"%char -> P "5"%char -> P "6"%char -> P "7"%char ->
  P "8"%char -> P "9"%char -> forall c d, char_digit c = Some d -> P c.
Proof.
  intros H0 H1 H2 H3 H4 H5 H6 H7 H8 H9 c d Hc. pose proof (char_digit_bound _ _ Hc) as Hd.
  rewrite (char_digit_inv _ _ Hc).
  assert (d = 0 \/ d = 1 \/ d = 2 \/ d = 3 \/ d = 4 \/ d = 5 \/ d = 6 \/ d = 7 \/ d = 8 \/ d = 9)%N as Hin by lia.
  repeat destruct Hin as [->|Hin]; [assumption..|]. by subst d.
Qed.

Lemma skip_space_digit c d s : char_digit c = Some d -> skip_space (String c s) = None.
Proof. revert c d. apply (digit_first (fun c => skip_space (String c s) = None)); reflexivity. Qed.

Lemma parseInt_digits s v : digits_value s = Some v -> s <> "" -> parseInt s = to_double (Z.of_N v).
Proof.
  intros Hv Hs. destruct s as [|c s]; [done|]. pose proof Hv as Hc. cbn in Hc.
  destruct (char_digit c) as [d|] eqn:Ec; [|done]. unfold parseInt, trimStart. cbn [String.length trim_fuel].
  rewrite (skip_space_digit _ _ _ Ec).
  assert (E : leading_digits None (String c s) = Some v).
  { by rewrite (leading_digits_value _ v). }
  clear Hv Hc Hs. revert E. revert c d Ec. refine (digit_first _ _ _ _ _ _ _ _ _ _ _); intros E; by rewrite E.
Qed.
