(* ===== verification/HttpHeaders.v ===== *)
(** The headers of a request, as the source builds them: an object whose later
    properties overwrite its earlier ones, given to [new Headers], which knows
    names without their case and joins the values of one name. Both ends of a
    delivery use them (src/queue.ts, src/dispatcher/vqs-client.ts). *)
From S2P Require Import Prelude Tenant.
From Stdlib Require Import Strings.Ascii.
Local Open Scope N_scope.

(** ** An object with texts for properties *)

Notation entries := (list (string * string)).

(** [o[k] = v]: in its place if it is there, else behind the others. *)
Fixpoint assign (k v : string) (o : entries) : entries :=
  match o with
  | [] => [(k, v)]
  | (k', v') :: o => if String.eqb k' k then (k, v) :: o else (k', v') :: assign k v o
  end.

(** [{ ...o, ...l }] *)
Definition spread (o l : entries) : entries := foldl (fun o p => assign p.1 p.2 o) o l.

(** ** [Headers] *)

Definition header_name (name : string) : string := map_string char_lower name.

(** White space of HTTP, which is taken off both ends of a value. *)
Definition is_http_space (c : Ascii.ascii) : bool :=
  let n := Ascii.N_of_ascii c in (n =? 9) || (n =? 10) || (n =? 13) || (n =? 32).

Fixpoint skip_http_space (s : string) : string :=
  match s with String c t => if is_http_space c then skip_http_space t else s | "" => "" end.

Fixpoint drop_http_space (s : string) : string :=
  match s with
  | "" => ""
  | String c t => if all_chars is_http_space s then "" else String c (drop_http_space t)
  end.

Definition normalize (value : string) : string := drop_http_space (skip_http_space value).

(** A character of a token. *)
Definition is_token_char (c : Ascii.ascii) : bool :=
  let n := Ascii.N_of_ascii c in
  is_lower_alnum c || ((65 <=? n) && (n <=? 90)) ||
  bool_decide (n ∈ [33; 35; 36; 37; 38; 39; 42; 43; 45; 46; 94; 96; 124; 126]).

Definition name_ok (name : string) : bool := negb (String.eqb name "") && all_chars is_token_char name.

(** A byte of a value: none of NUL, CR and LF, and of no character above 255,
    which in UTF-8 starts with a byte above [0xc3]. *)
Definition is_value_byte (c : Ascii.ascii) : bool :=
  let n := Ascii.N_of_ascii c in negb ((n =? 0) || (n =? 10) || (n =? 13)) && (n <? 0xc4).

Definition entry_ok (p : string * string) : bool := name_ok p.1 && all_chars is_value_byte (normalize p.2).

Definition join_value (old : option string) (v : string) : option string :=
  Some (match old with Some u => u +:+ ", " +:+ v | None => v end).

(** [append]; [None] where it throws. *)
Definition headers_append (h : option (gmap string string)) (p : string * string) : option (gmap string string) :=
  h ← h; if entry_ok p then Some (partial_alter (fun old => join_value old (normalize p.2)) (header_name p.1) h) else None.

(** [new Headers(o)] and [get]. *)
Definition new_headers (o : entries) : option (gmap string string) := foldl headers_append (Some ∅) o.
Definition headers_get (h : gmap string string) (name : string) : option string := h !! header_name name.

(** ** What an object holds *)

Definition prop (o : entries) (k : string) : option string := snd <$> find (fun p => String.eqb p.1 k) o.

Lemma prop_assign k v o k' : prop (assign k v o) k' = if String.eqb k k' then Some v else prop o k'.
Proof.
  unfold prop. induction o as [|[a b] o IH]; simpl; [by destruct (String.eqb k k')|].
  destruct (String.eqb_spec a k) as [->|Ha]; simpl; [by destruct (String.eqb k k')|].
  destruct (String.eqb_spec a k') as [->|Hk]; simpl; [|done]. by rewrite (proj2 (String.eqb_neq k k')) by congruence.
Qed.

Lemma keys_assign k v o a : a ∈ (assign k v o).*1 <-> a = k \/ a ∈ o.*1.
Proof.
  induction o as [|[b c] o IH]; simpl; [by rewrite list_elem_of_singleton, elem_of_nil; tauto|].
  destruct (String.eqb_spec b k) as [->|Hb]; simpl; rewrite !elem_of_cons, ?IH; tauto.
Qed.

Lemma assign_nodup k v o : NoDup o.*1 -> NoDup (assign k v o).*1.
Proof.
  induction o as [|[a b] o IH]; simpl; intros Hn; [by apply NoDup_singleton|]. apply NoDup_cons in Hn as [Ha Hn].
  destruct (String.eqb_spec a k) as [->|Hk]; simpl; apply NoDup_cons; [done|]. rewrite keys_assign. split; [|by apply IH]. by intros [|].
Qed.

Lemma keys_spread l : forall o a, a ∈ (spread o l).*1 -> a ∈ o.*1 \/ a ∈ l.*1.
Proof.
  induction l as [|[k v] l IH]; intros o a; simpl; [by left|]. intros [H|H]%IH; [|by rewrite elem_of_cons; tauto].
  apply keys_assign in H as [->|H]; rewrite ?elem_of_cons; tauto.
Qed.

Lemma spread_nodup l : forall o, NoDup o.*1 -> NoDup (spread o l).*1.
Proof. induction l as [|[k v] l IH]; intros o Hn; [done|]. apply IH, assign_nodup, Hn. Qed.

Lemma prop_spread_other l : forall o k, k ∉ l.*1 -> prop (spread o l) k = prop o k.
Proof.
  induction l as [|[a b] l IH]; intros o k Hk; [done|]. simpl in *. rewrite not_elem_of_cons in Hk.
  rewrite IH, prop_assign by tauto. by rewrite (proj2 (String.eqb_neq a k)) by (destruct Hk; congruence).
Qed.

(** What is spread last holds, whatever the object held. *)
Lemma prop_spread l : forall o k v, NoDup l.*1 -> (k, v) ∈ l -> prop (spread o l) k = Some v.
Proof.
  induction l as [|[a b] l IH]; intros o k v Hn Hin; [by apply elem_of_nil in Hin|]. simpl in Hn. apply NoDup_cons in Hn as [Ha Hn].
  apply elem_of_cons in Hin as [[= -> ->]|Hin]; [|by apply IH]. simpl. rewrite prop_spread_other, prop_assign by done.
  by rewrite String.eqb_refl.
Qed.

Lemma forall_assign (P : string * string -> Prop) k v o : P (k, v) -> Forall P o -> Forall P (assign k v o).
Proof.
  intros Hp. induction 1 as [|[a b] o Ha Ho IH]; simpl; [by constructor|]. destruct (String.eqb a k); by constructor.
Qed.

Lemma forall_spread (P : string * string -> Prop) l : forall o, Forall P o -> Forall P l -> Forall P (spread o l).
Proof.
  induction l as [|[k v] l IH]; intros o Ho Hl; [done|]. apply Forall_cons in Hl as [Hp Hl]. apply IH; [|done]. by apply forall_assign.
Qed.

(** ** What [Headers] makes of it *)

(** The values of a name, in order. *)
Definition values_of (n : string) (o : entries) : list string :=
  (fun p => normalize p.2) <$> filter (fun p => header_name p.1 = n) o.

Lemma append_values o : forall h, Forall (fun p => entry_ok p = true) o ->
  exists h', foldl headers_append (Some h) o = Some h' /\ forall n, h' !! n = foldl join_value (h !! n) (values_of n o).
Proof.
  induction o as [|[k v] o IH]; intros h Ho; [by exists h|]. apply Forall_cons in Ho as [Hp Ho].
  cbn [foldl]. unfold headers_append at 2. cbn [mbind option_bind]. rewrite Hp.
  destruct (IH (partial_alter (fun old => join_value old (normalize v)) (header_name k) h) Ho) as (h' & E & Hh). exists h'. split; [exact E|].
  intros n. rewrite Hh. unfold values_of. rewrite filter_cons. cbn [fst]. destruct (decide (header_name k = n)) as [<-|Hn].
  - by rewrite lookup_partial_alter_eq.
  - by rewrite lookup_partial_alter_ne.
Qed.

Lemma prop_nil_values n o : (forall k, k ∈ o.*1 -> header_name k <> n) -> values_of n o = [].
Proof.
  intros Hk. unfold values_of. induction o as [|[a b] o IH]; [done|]. rewrite filter_cons. cbn [fst].
  rewrite decide_False by (apply Hk; by left). apply IH. intros k H. apply Hk. by right.
Qed.

(** A name no other spelling of which is a property has one value. *)
Lemma values_single n o v : NoDup o.*1 -> (forall k, k ∈ o.*1 -> header_name k = n -> k = n) -> header_name n = n ->
  prop o n = Some v -> values_of n o = [normalize v].
Proof.
  intros Hn Hk Hlow. unfold prop. induction o as [|[a b] o IH]; intros Hp; [done|]. simpl in Hn, Hp.
  apply NoDup_cons in Hn as [Ha Hn]. unfold values_of. rewrite filter_cons. cbn [fst].
  destruct (String.eqb_spec a n) as [->|Hne].
  - injection Hp as <-. rewrite decide_True by done. rewrite fmap_cons. cbn [snd]. f_equal. apply (prop_nil_values n o).
    intros k Hin E. apply Ha. rewrite <- (Hk k); [done|by right|done].
  - rewrite decide_False; [|intros E; apply Hne, Hk; [by left|done]]. apply IH; [done| |done].
    intros k Hin. apply Hk. by right.
Qed.

Lemma headers_single o h n v : new_headers o = Some h -> Forall (fun p => entry_ok p = true) o -> NoDup o.*1 ->
  (forall k, k ∈ o.*1 -> header_name k = n -> k = n) -> header_name n = n -> prop o n = Some v ->
  headers_get h n = Some (normalize v).
Proof.
  intros E Ho Hn Hk Hlow Hp. destruct (append_values o ∅ Ho) as (h' & E' & Hh). unfold new_headers in E. rewrite E' in E. injection E as <-.
  unfold headers_get. rewrite Hlow, Hh, (values_single n o v) by done. by rewrite lookup_empty.
Qed.
