(* ===== verification/Streamer.v ===== *)
(** The streamer (src/streamer.ts): chunks of named streams written as rows of
    one table, announced on the tenant's channel, and read back in pages or by
    a live reader that joins the rows it finds with the rows announced to it. *)
From S2P Require Import Prelude Model Bytes Paging Sdk Tenant StreamBlocks.
Local Open Scope Z_scope.

(** A row of [workflow_stream_chunks]. *)
Record stream_row := StreamRow {
  sr_tenant : string;
  sr_stream : string;
  sr_run : option string;
  sr_phys : phys_row
}.

Definition sr_id (r : stream_row) : string := ph_id (sr_phys r).

Definition same_row_key (a b : stream_row) : bool :=
  String.eqb (sr_tenant a) (sr_tenant b) && String.eqb (sr_stream a) (sr_stream b) &&
  String.eqb (sr_id a) (sr_id b).

(** One [INSERT] of some rows: all of them or, when a key is taken, none. *)
Fixpoint insert_rows (rows table : list stream_row) : result serror (list stream_row) :=
  match rows with
  | [] => Ok table
  | r :: rows =>
      if existsb (same_row_key r) table then Err SDuplicateKey else insert_rows rows (table ++ [r])
  end.

(** The payload of a notification. *)
Record notice := Notice { nt_stream : string; nt_chunk : string }.

(** The table, and the count of ids this process has generated. *)
Record stream_state := StreamState { ss_rows : list stream_row; ss_ulids : N }.

(** [StreamChunkEvent] *)
Record sevent := SEvent { se_id : string; se_data : bytes; se_eof : bool }.

Section Streamer.
Context `{WorldSdk} (tenantId : string).
(** [compact]: what is done to each chunk's bytes ahead of the insert; the
    identity with [compactSnapshots: false]. *)
Context (compact : bytes -> bytes).

Definition STREAM_TOPIC : string := tenantStreamChannel sha256_hex tenantId.

Definition chunk_id_of (n : N) : string := chunk_prefix +:+ ulidOf n.
Definition genChunkId (st : stream_state) : string * stream_state :=
  (chunk_id_of (ss_ulids st), StreamState (ss_rows st) (ss_ulids st + 1)).

(** ** Writing: the notifications sent, in order, and the state *)

Definition stream_write (runId name : string) (data : bytes) (st : stream_state) :
    result serror (list notice) * stream_state :=
  let '(chunkId, st) := genChunkId st in
  match insert_rows [StreamRow tenantId name (Some runId)
          (PhysRow chunkId (Some chunkId) (Some 1) (Some 1) (compact data) false)] (ss_rows st) with
  | Ok rows => (Ok [Notice name chunkId], StreamState rows (ss_ulids st))
  | Err e => (Err e, st)
  end.

Fixpoint genChunkIds (n : nat) (st : stream_state) : list string * stream_state :=
  match n with
  | O => ([], st)
  | S n => let '(i, st) := genChunkId st in let '(l, st) := genChunkIds n st in (i :: l, st)
  end.

Definition block_stream_row (runId name : string) (b : block) : stream_row :=
  StreamRow tenantId name (Some runId) (block_row b).

Definition stream_writeMulti (runId name : string) (chunks : list bytes) (st : stream_state) :
    result serror (list notice) * stream_state :=
  match chunks with
  | [] => (Ok [], st)
  | _ =>
      let '(ids, st) := genChunkIds (length chunks) st in
      match packStreamChunks (zip_with (fun i data => Chunk i (compact data)) ids chunks) None None with
      | Err e => (Err e, st)
      | Ok blocks =>
          match insert_rows (map (block_stream_row runId name) blocks) (ss_rows st) with
          | Ok rows => (Ok (map (fun b => Notice name (bk_first b)) blocks), StreamState rows (ss_ulids st))
          | Err e => (Err e, st)
          end
      end
  end.

Definition stream_close (runId name : string) (st : stream_state) : result serror (list notice) * stream_state :=
  let '(chunkId, st) := genChunkId st in
  match insert_rows [StreamRow tenantId name (Some runId) (PhysRow chunkId None None None [] true)] (ss_rows st) with
  | Ok rows => (Ok [Notice name chunkId], StreamState rows (ss_ulids st))
  | Err e => (Err e, st)
  end.

(** ** Reading *)

(** The stream's rows, in no order. *)
Definition stream_rows (name : string) (table : list stream_row) : list phys_row :=
  sr_phys <$> filter (fun r => sr_tenant r = tenantId /\ sr_stream r = name) table.

Definition findFirstEofChunkId (rows : list phys_row) : option string :=
  option_map ph_id (head (sort_by ph_id (filter (fun r => ph_eof r = true) rows))).

(** A cursor: the fields [c] and [i] of the object its text decodes to. *)
Record stream_cursor := StreamCursor { cu_c : option string; cu_i : option js_number }.

(** [GetChunksOptions]; a cursor text that decodes to no object is [Some None]. *)
Record chunk_page := ChunkPage {
  cp_data : list (Z * bytes);
  cp_cursor : option stream_cursor;
  cp_hasMore : bool;
  cp_done : bool
}.

Definition cursor_chunk (cursor : option (option stream_cursor)) : option string :=
  match cursor with
  | Some (Some c) => match cu_c c with Some i => if String.prefix chunk_prefix i then Some i else None | None => None end
  | _ => None
  end.

Definition cursor_index (cursor : option (option stream_cursor)) : Z :=
  match cursor with
  | Some (Some c) =>
      match cu_i c with
      | Some x => if isSafeInteger x then match js_integer x with Some n => if 0 <=? n then n else 0 | None => 0 end else 0
      | None => 0
      end
  | _ => 0
  end.

Definition before_eof (eof : option string) (r : phys_row) : bool :=
  match eof with Some e => if String.eqb e "" then true else str_lt (ph_id r) e | None => true end.

(** Whether an id lies behind the cursor's. *)
Definition after_cursor (cursorChunkId : option string) (id : string) : bool :=
  match cursorChunkId with Some c => str_lt c id | None => true end.

(** [coalesce(last_chunk_id, id)] *)
Definition row_end (r : phys_row) : string := default (ph_id r) (ph_last r).

Definition getChunks (name : string) (limit : option nat) (cursor : option (option stream_cursor))
    (table : list stream_row) : result serror chunk_page :=
  let limit := default 100%nat limit in
  let cursorChunkId := cursor_chunk cursor in
  let baseIndex := cursor_index cursor in
  let all := stream_rows name table in
  let firstEof := findFirstEofChunkId all in
  let rows := take (limit + 1) (sort_by ph_id (filter (fun r =>
    ph_eof r = false /\ before_eof firstEof r = true /\ after_cursor cursorChunkId (row_end r) = true) all)) in
  result_bind (unpack_rows rows) (fun unpacked =>
  let logicalRows := filter (fun c => after_cursor cursorChunkId (ck_id c) = true) unpacked in
  let hasMore := (limit <? length logicalRows)%nat in
  let pageRows := take limit logicalRows in
  Ok (ChunkPage (imap (fun index c => (baseIndex + Z.of_nat index, ck_data c)) pageRows)
    (match last pageRows with
     | Some c => if hasMore
                 then Some (StreamCursor (Some (ck_id c)) (Some (JsFinite (baseIndex + Z.of_nat (length pageRows)) 1)))
                 else None
     | None => None
     end) hasMore (bool_decide (is_Some firstEof)))).

(** [tailIndex] and [done]. *)
Definition getInfo (name : string) (table : list stream_row) : Z * bool :=
  let all := stream_rows name table in
  let firstEof := findFirstEofChunkId all in
  let dataCount := foldr (fun r n => default 1 (ph_count r) + n) 0
    (filter (fun r => ph_eof r = false /\ before_eof firstEof r = true) all) in
  (dataCount - 1, bool_decide (is_Some firstEof)).

Definition stream_list (runId : string) (table : list stream_row) : list string :=
  remove_dups (sr_stream <$> filter (fun r => sr_tenant r = tenantId /\ sr_run r = Some runId) table).

(** ** The live reader *)

(** The events a row stands for. *)
Definition row_events (r : phys_row) : result serror (list sevent) :=
  if ph_eof r then Ok [SEvent (ph_id r) (ph_data r) true]
  else result_bind (unpackStreamRow r) (fun cs => Ok (map (fun c => SEvent (ck_id c) (ck_data c) false) cs)).

Fixpoint rows_events (rows : list phys_row) : result serror (list sevent) :=
  match rows with
  | [] => Ok []
  | r :: rows => result_bind (row_events r) (fun l => result_bind (rows_events rows) (fun k => Ok (l ++ k)))
  end.

(** What the listener emits on a notification: the events of the announced row
    as it is by then. The end of the stream is emitted under the announced id. *)
Definition on_notice (n : notice) (table : list stream_row) : result serror (list sevent) :=
  match head (filter (fun r => ph_id r = nt_chunk n) (stream_rows (nt_stream n) table)) with
  | None => Ok []
  | Some r => if ph_eof r then Ok [SEvent (nt_chunk n) (ph_data r) true] else row_events r
  end.

(** [lastChunkId], [offset], [closed], and what was enqueued on the controller. *)
Record reader := Reader {
  rd_last : string;
  rd_offset : Z;
  rd_closed : bool;
  rd_out : list bytes
}.

Definition enqueue (r : reader) (msg : sevent) : reader :=
  if rd_closed r || str_le (se_id msg) (rd_last r) then r
  else if se_eof msg then Reader (se_id msg) (rd_offset r) true (rd_out r)
  else if 0 <? rd_offset r then Reader (se_id msg) (rd_offset r - 1) false (rd_out r)
  else Reader (se_id msg) (rd_offset r) false
         (match se_data msg with [] => rd_out r | _ => rd_out r ++ [se_data msg] end).

(** The events of the first stretch up to the first end of stream. *)
Fixpoint until_eof (l : list sevent) : list sevent :=
  match l with [] => [] | e :: l => if se_eof e then [] else e :: until_eof l end.

Definition start_offset (startIndex : option Z) (chunks : list sevent) : Z :=
  let offset := default 0 startIndex in
  if offset <? 0 then Z.max 0 (Z.of_nat (length (until_eof chunks)) + offset) else offset.

(** The reader once it has read [rows] and was told of [buffered] meanwhile and
    of [live] after. *)
Definition get_stream (startIndex : option Z) (rows : list phys_row) (buffered live : list sevent) :
    result serror reader :=
  result_bind (rows_events (sort_by ph_id rows)) (fun chunks =>
  Ok (fold_left enqueue live (fold_left enqueue (chunks ++ buffered)
        (Reader "" (start_offset startIndex chunks) false [])))).
End Streamer.
