(* ===== verification/Listener.v ===== *)
(** The listener of a streamer (src/streamer.ts: [listenSubscription], [getMutex],
    [Rc]; [Mutex] of src/util.ts): announcements are read from the table one at a
    time per stream, however long each read takes; and the closing of the
    connection it listens on. *)
From S2P Require Import Prelude Model Bytes Paging Sdk Tenant StreamBlocks Streamer.

(** ** Announcements *)

(** A task a mutex has been given: behind the promise the mutex had then, reading,
    or settled with what it has emitted. *)
Inductive task_at := Chained (previous : option nat) | Reading | TaskSettled (emitted : list sevent).
Record task := Task { tk_notice : notice; tk_at : task_at }.

(** An [Rc]: its count, and the promise of its mutex (of the last task; [None] for
    the resolved one a mutex starts with). *)
Record rc := Rc { rc_count : nat; rc_promise : option nat }.

Record listener := Listener {
  ls_mutexes : gmap string rc;
  ls_tasks : list task;
  ls_emitted : list (string * sevent)  (** stream and event, in order *)
}.

Definition new_listener : listener := Listener ∅ [] [].

(** [getMutex] and [acquire]. *)
Definition getMutex (key : string) (l : listener) : listener :=
  let m := default (Rc 0 None) (ls_mutexes l !! key) in
  Listener (<[key := Rc (S (rc_count m)) (rc_promise m)]> (ls_mutexes l)) (ls_tasks l) (ls_emitted l).

(** [andThen]: the task runs behind the promise of the mutex, which it becomes. *)
Definition andThen (n : notice) (l : listener) : listener :=
  let m := default (Rc 0 None) (ls_mutexes l !! nt_stream n) in
  Listener (<[nt_stream n := Rc (rc_count m) (Some (length (ls_tasks l)))]> (ls_mutexes l))
    (ls_tasks l ++ [Task n (Chained (rc_promise m))]) (ls_emitted l).

(** A notification; a payload that is none has been dropped before. *)
Definition notified (n : notice) (listening : bool) (l : listener) : listener :=
  if listening then andThen n (getMutex (nt_stream n) l) else l.

Definition is_settled (t : task) : bool := match tk_at t with TaskSettled _ => true | _ => false end.

(** The promise before has settled, either way: the read begins. *)
Definition task_starts (i : nat) (l : listener) : option listener :=
  match ls_tasks l !! i with
  | Some (Task n (Chained previous)) =>
      if match previous with None => true | Some j => from_option is_settled false (ls_tasks l !! j) end
      then Some (Listener (ls_mutexes l) (<[i := Task n Reading]> (ls_tasks l)) (ls_emitted l)) else None
  | _ => None
  end.

(** The row as it is when it is read, or a query that failed. *)
Definition task_read (tenantId : string) (i : nat) (table : option (list stream_row)) (l : listener) : option listener :=
  match ls_tasks l !! i with
  | Some (Task n Reading) =>
      let emitted := match on_notice tenantId n <$> table with Some (Ok es) => es | _ => [] end in
      Some (Listener (ls_mutexes l) (<[i := Task n (TaskSettled emitted)]> (ls_tasks l))
              (ls_emitted l ++ ((fun e => (nt_stream n, e)) <$> emitted)))
  | _ => None
  end.

Inductive listener_event :=
| Notified (n : notice) (listening : bool)
| TaskStarts (i : nat)
| TaskRead (i : nat) (table : option (list stream_row)).

Definition listener_step (tenantId : string) (l : listener) (e : listener_event) : option listener :=
  match e with
  | Notified n listening => Some (notified n listening l)
  | TaskStarts i => task_starts i l
  | TaskRead i table => task_read tenantId i table l
  end.

Fixpoint listener_steps (tenantId : string) (l : listener) (es : list listener_event) : option listener :=
  match es with [] => Some l | e :: es => listener_step tenantId l e ≫= fun l => listener_steps tenantId l es end.

(** ** The connection *)

Inductive connection_effect := Connected | Listening | Unlistened | ClientEnded.

(** [listenChannel]: whether it returns a subscription, and what it has done. *)
Definition listenChannel (connects listens : bool) : result unit unit * list connection_effect :=
  if negb connects then (Err tt, [ClientEnded])
  else if negb listens then (Err tt, [Connected; ClientEnded])
  else (Ok tt, [Connected; Listening]).

(** [close] of a subscription, with [closed] before and behind; the client ends
    whatever becomes of the [UNLISTEN]. *)
Definition close_subscription (unlistens closed : bool) : bool * list connection_effect :=
  if closed then (true, []) else (true, (if unlistens then [Unlistened] else []) ++ [ClientEnded]).

(** [close] of the streamer: a subscription that never came to be is none to close. *)
Definition close_streamer (subscription : result unit unit) (unlistens closed : bool) : bool * list connection_effect :=
  match subscription with Ok _ => close_subscription unlistens closed | Err _ => (closed, []) end.
