(* ===== verification/StreamerProps.v ===== *)
(** What a stream's readers get: pages that follow each other give every chunk
    before the end once and in order; a live reader gets each once however its
    snapshot and the announcements overlap; the count of [getInfo] is that of
    the chunks; and the writers keep the table in the form all this rests on
    (src/streamer.ts). *)
From S2P Require Import Prelude Model Bytes Paging Slots Sdk Tenant StreamBlocks Streamer.
From Stdlib Require Import Sorting.Sorted.
Local Open Scope Z_scope.

(** ** The form of a stream's rows *)

(** The last id a row stands for. *)
Definition part_end (r : phys_row) : string := if ph_eof r then ph_id r else row_end r.

(** A row with the events it stands for, in order and with the columns that
    index them right. *)
Record part_ok (r : phys_row) (evs : list sevent) : Prop := PartOk {
  po_events : row_events r = Ok evs;
  po_first : option_map se_id (head evs) = Some (ph_id r);
  po_last : option_map se_id (last evs) = Some (part_end r);
  po_count : ph_eof r = false -> default 1 (ph_count r) = Z.of_nat (length evs);
  po_prefix : Forall (fun e => String.prefix chunk_prefix (se_id e) = true) evs
}.

Definition event_before (a b : sevent) : Prop := str_lt (se_id a) (se_id b) = true.

Notation part := (phys_row * list sevent)%type.

(** The rows in order, each with its events, whose ids only grow. *)
Record stream_wf (rows : list phys_row) (parts : list part) : Prop := StreamWf {
  sw_rows : sort_by ph_id rows = parts.*1;
  sw_parts : Forall (fun p => part_ok p.1 p.2) parts;
  sw_sorted : StronglySorted event_before (concat parts.*2)
}.

Definition is_data (p : part) : bool := negb (ph_eof p.1).

(** The parts before the first end of the stream. *)
Fixpoint data_parts (l : list part) : list part :=
  match l with [] => [] | p :: l => if is_data p then p :: data_parts l else [] end.

Definition events_of (parts : list part) : list sevent := concat parts.*2.

(** The stream, as its readers are to see it. *)
Definition stream_data (parts : list part) : list sevent := events_of (data_parts parts).

Definition chunk_of (e : sevent) : chunk := Chunk (se_id e) (se_data e).

(** *** Consequences *)

Lemma part_data r evs : part_ok r evs -> ph_eof r = false ->
  unpackStreamRow r = Ok (map chunk_of evs) /\ Forall (fun e => se_eof e = false) evs.
Proof.
  intros [He _ _ _ _] Hr. unfold row_events in He. rewrite Hr in He.
  destruct (unpackStreamRow r) as [cs|]; [|done]. simpl in He. injection He as <-. split.
  - f_equal. rewrite map_map. induction cs as [|[i d] cs IH]; [done|]. cbn [map]. by rewrite <- IH.
  - apply List.Forall_map, list.Forall_true. done.
Qed.

Lemma part_eof r evs : part_ok r evs -> ph_eof r = true -> evs = [SEvent (ph_id r) (ph_data r) true].
Proof. intros [He _ _ _ _] Hr. unfold row_events in He. rewrite Hr in He. by injection He as <-. Qed.

Lemma part_nonempty r evs : part_ok r evs -> evs <> [].
Proof. intros [_ Hf _ _ _] ->. done. Qed.

Lemma sorted_app_iff {A} (R : A -> A -> Prop) l k :
  StronglySorted R (l ++ k) <->
  StronglySorted R l /\ StronglySorted R k /\ Forall (fun x => Forall (R x) k) l.
Proof.
  induction l as [|x l IH]; simpl.
  - split; [intros H; split; [constructor|by split]|tauto].
  - split.
    + inversion_clear 1 as [|? ? Hs Hf]. apply IH in Hs as (H1 & H2 & H3). apply Forall_app in Hf as [Hf1 Hf2].
      split; [by constructor|]. split; [done|by constructor].
    + intros (H1 & H2 & H3). inversion_clear H1 as [|? ? Hs Hf]. inversion_clear H3 as [|? ? H4 H5].
      constructor; [by apply IH|]. by apply Forall_app.
Qed.

Lemma data_parts_split parts : exists post, parts = data_parts parts ++ post /\
  match post with [] => True | p :: _ => is_data p = false end.
Proof.
  induction parts as [|p l (post & E & Hp)]; [by exists []|]. simpl. destruct (is_data p) eqn:Ed.
  - exists post. split; [by rewrite E at 1|done].
  - exists (p :: l). by split.
Qed.

Lemma data_parts_data parts : Forall (fun p => is_data p = true) (data_parts parts).
Proof. induction parts as [|p l IH]; simpl; [constructor|]. destruct (is_data p) eqn:E; by constructor. Qed.

(** The events of a part lie between its row's id and its end. *)
Lemma part_bounds r evs e : part_ok r evs -> StronglySorted event_before evs -> e ∈ evs ->
  str_le (ph_id r) (se_id e) = true /\ str_le (se_id e) (part_end r) = true.
Proof.
  intros [_ Hf Hl _ _] Hs He. split.
  - destruct evs as [|x l]; [done|]. simpl in Hf. injection Hf as <-. inversion_clear Hs as [|? ? _ Hx].
    apply elem_of_cons in He as [->|He]; [apply str_le_spec; by left|]. rewrite Forall_forall in Hx.
    apply str_le_spec. right. apply str_lt_spec. by apply Hx.
  - destruct evs as [|x l _] using rev_ind; [done|]. rewrite last_snoc in Hl. simpl in Hl. injection Hl as <-.
    apply sorted_app_iff in Hs as (_ & _ & Hx). apply elem_of_app in He as [He|He%list_elem_of_singleton].
    + rewrite Forall_forall in Hx. specialize (Hx e He). apply Forall_cons in Hx as [Hx _].
      apply str_le_spec. right. by apply str_lt_spec.
    + subst. apply str_le_spec. by left.
Qed.

(** A first row, before the rest. *)
Lemma wf_parts_cons p l : Forall (fun p => part_ok p.1 p.2) (p :: l) -> StronglySorted event_before (events_of (p :: l)) ->
  part_ok p.1 p.2 /\ StronglySorted event_before p.2 /\ Forall (fun p => part_ok p.1 p.2) l /\
  StronglySorted event_before (events_of l) /\
  forall q, q ∈ l -> str_lt (part_end p.1) (ph_id q.1) = true.
Proof.
  intros Hp Hs. inversion_clear Hp as [|? ? Hp1 Hl]. unfold events_of in *. simpl in Hs.
  apply sorted_app_iff in Hs as (H1 & H2 & H3). split_and!; try done. intros q Hq.
  rewrite Forall_forall in Hl. pose proof (Hl q Hq) as Hqo.
  destruct (last p.2) as [x|] eqn:Ex; [|by pose proof (po_last _ _ Hp1) as E; rewrite Ex in E].
  destruct (head q.2) as [y|] eqn:Ey; [|by pose proof (po_first _ _ Hqo) as E; rewrite Ey in E].
  pose proof (po_last _ _ Hp1) as E1. rewrite Ex in E1. injection E1 as <-.
  pose proof (po_first _ _ Hqo) as E2. rewrite Ey in E2. injection E2 as <-.
  rewrite Forall_forall in H3. specialize (H3 x (list.last_Some_elem_of _ _ Ex)).
  rewrite Forall_forall in H3. apply H3. apply list_elem_of_In, in_concat.
  exists q.2. split; [apply list_elem_of_In, list_elem_of_fmap; eauto|].
  destruct q.2 as [|z k]; [done|]. injection Ey as ->. by left.
Qed.

(** *** The first end of the stream *)

Lemma filter_parts (p : phys_row -> bool) (parts : list part) :
  filter (fun r => p r = true) parts.*1 = (filter (fun q => p q.1 = true) parts).*1.
Proof.
  induction parts as [|q l IH]; [done|]. cbn [fmap list_fmap]. rewrite !filter_cons, IH.
  by destruct (decide (p q.1 = true)).
Qed.

Definition first_eof (parts : list part) : option string :=
  option_map (fun p => ph_id p.1) (head (drop (length (data_parts parts)) parts)).

Lemma drop_data_parts parts post : parts = data_parts parts ++ post -> drop (length (data_parts parts)) parts = post.
Proof. intros E. rewrite E at 2. by rewrite drop_app_length. Qed.

Lemma findFirstEof_parts rows parts : stream_wf rows parts -> findFirstEofChunkId rows = first_eof parts.
Proof.
  intros [Hr _ _]. unfold findFirstEofChunkId, first_eof.
  rewrite filter_sort_by, Hr, (filter_parts ph_eof).
  destruct (data_parts_split parts) as (post & E & Hp). rewrite (drop_data_parts _ _ E).
  assert (Hf : filter (fun q : part => ph_eof q.1 = true) parts = filter (fun q => ph_eof q.1 = true) post).
  { rewrite E at 1. rewrite filter_app, (filter_none _ (data_parts parts)); [done|].
    intros q Hq. pose proof (data_parts_data parts) as Hd. rewrite Forall_forall in Hd. specialize (Hd q Hq).
    unfold is_data in Hd. apply negb_true_iff in Hd. by rewrite Hd. }
  rewrite Hf. destruct post as [|p post]; [done|]. unfold is_data in Hp. apply negb_false_iff in Hp.
  by rewrite filter_cons_True.
Qed.

Lemma prefix_nonempty s : String.prefix chunk_prefix s = true -> s <> "".
Proof. by intros H ->. Qed.

Lemma part_id_nonempty r evs : part_ok r evs -> ph_id r <> "".
Proof.
  intros [_ Hf _ _ Hp]. destruct evs as [|e l]; [done|]. simpl in Hf. injection Hf as <-.
  inversion_clear Hp. by apply prefix_nonempty.
Qed.

(** The rows the queries keep are the data rows ahead of the first end. *)
Lemma filter_before_eof rows parts : stream_wf rows parts ->
  filter (fun q => negb (ph_eof q.1) && before_eof (first_eof parts) q.1 = true) parts = data_parts parts.
Proof.
  intros [_ Hok Hs]. destruct (data_parts_split parts) as (post & E & Hp).
  assert (Hfe : first_eof parts = option_map (fun p : part => ph_id p.1) (head post)).
  { unfold first_eof. by rewrite (drop_data_parts _ _ E). }
  rewrite Hfe. rewrite E at 1. rewrite filter_app, filter_all, filter_none; [by rewrite app_nil_r|..].
  - intros q Hq Hb. bools. destruct post as [|p post]; [by apply elem_of_nil in Hq|]. cbn [head option_map] in *.
    rewrite E in Hok, Hs. apply Forall_app in Hok as [_ Hok]. unfold events_of in Hs.
    rewrite fmap_app, concat_app in Hs. apply sorted_app_iff in Hs as (_ & Hs & _).
    destruct (wf_parts_cons p post Hok Hs) as (Hp1 & Hps & Hl & _ & Hlt).
    unfold is_data in Hp. apply negb_false_iff in Hp. apply elem_of_cons in Hq as [->|Hq]; [congruence|].
    unfold before_eof in *. rewrite (proj2 (String.eqb_neq _ _) (part_id_nonempty _ _ Hp1)) in *.
    specialize (Hlt q Hq). pose proof (part_eof _ _ Hp1 Hp) as Hev.
    assert (part_end p.1 = ph_id p.1) as Hre. { pose proof (po_last _ _ Hp1) as Hl'. rewrite Hev in Hl'. by injection Hl'. }
    rewrite Hre in Hlt. match goal with H : str_lt (ph_id q.1) _ = true |- _ => pose proof (str_lt_trans _ _ _ Hlt H) as Hc end.
    by rewrite str_lt_irrefl in Hc.
  - intros q Hq. pose proof (data_parts_data parts) as Hd. rewrite Forall_forall in Hd. specialize (Hd q Hq).
    unfold is_data in Hd. rewrite Hd. cbn [andb]. destruct post as [|p post]; [done|]. cbn [head option_map before_eof].
    destruct (String.eqb _ _); [done|]. rewrite E in Hok, Hs. unfold events_of in Hs. rewrite fmap_app, concat_app in Hs.
    apply sorted_app_iff in Hs as (_ & _ & Hx). apply Forall_app in Hok as [Hok1 Hok2].
    rewrite Forall_forall in Hok1. pose proof (Hok1 q Hq) as Hqo. inversion_clear Hok2 as [|? ? Hpo _].
    pose proof (po_first _ _ Hqo) as E1. pose proof (po_first _ _ Hpo) as E2.
    destruct q.2 as [|x k] eqn:Eq; [done|]. destruct p.2 as [|y k2] eqn:Ep2; [done|]. simpl in E1, E2.
    injection E1 as <-. injection E2 as <-. rewrite Forall_forall in Hx.
    assert (x ∈ concat (data_parts parts).*2) as Hin.
    { apply list_elem_of_In, in_concat. exists q.2. rewrite Eq. split; [|by left].
      rewrite <- Eq. apply list_elem_of_In, list_elem_of_fmap. eauto. }
    specialize (Hx x Hin). rewrite Forall_forall in Hx. apply Hx. simpl. rewrite Ep2. by left.
Qed.

(** ** Pages *)

(** The first rows behind a cursor hold the first chunks behind it. *)
Lemma rows_behind (c : option string) k : forall parts,
  Forall (fun p => part_ok p.1 p.2) parts -> Forall (fun p => is_data p = true) parts ->
  StronglySorted event_before (events_of parts) ->
  let kept := filter (fun q : part => after_cursor c (part_end q.1) = true) parts in
  exists chunks more, unpack_rows (take k kept).*1 = Ok chunks /\
    map chunk_of (filter (fun e => after_cursor c (se_id e) = true) (events_of parts)) =
      filter (fun ch => after_cursor c (ck_id ch) = true) chunks ++ more /\
    (more = [] \/ (k <= length (filter (fun ch => after_cursor c (ck_id ch) = true) chunks))%nat).
Proof.
  intros parts. revert k. induction parts as [|p l IH]; intros k Hok Hd Hs kept.
  - exists [], []. split; [by destruct k|]. split; [done|by left].
  - destruct (wf_parts_cons p l Hok Hs) as (Hp & Hps & Hl & Hls & Hlt). inversion_clear Hd as [|? ? Hpd Hd'].
    unfold is_data in Hpd. apply negb_true_iff in Hpd. destruct (part_data _ _ Hp Hpd) as [Hu Hne].
    assert (Hsplit : map chunk_of (filter (fun e => after_cursor c (se_id e) = true) (events_of (p :: l))) =
      filter (fun ch => after_cursor c (ck_id ch) = true) (map chunk_of p.2) ++
      map chunk_of (filter (fun e => after_cursor c (se_id e) = true) (events_of l))).
    { unfold events_of. simpl. rewrite filter_app, map_app. f_equal. clear. induction p.2 as [|e m IHm]; [done|].
      cbn [map]. rewrite !filter_cons. cbn [ck_id chunk_of]. destruct (decide _); simpl; by rewrite IHm. }
    destruct (after_cursor c (part_end p.1)) eqn:Ea.
    + unfold kept. rewrite filter_cons_True by done. destruct k as [|k].
      { exists [], (map chunk_of (filter (fun e => after_cursor c (se_id e) = true) (events_of (p :: l)))).
        split; [done|]. split; [done|]. right. simpl. lia. }
      destruct (IH k Hl Hd' Hls) as (chunks & more & Hun & Hch & Hmore).
      exists (map chunk_of p.2 ++ chunks), more. split.
      { cbn [take]. rewrite fmap_cons. cbn [unpack_rows]. rewrite Hu. cbn [result_bind]. rewrite Hun. done. }
      rewrite Hsplit, Hch, filter_app, app_assoc. split; [done|]. destruct Hmore as [?|Hk]; [by left|right].
      rewrite length_app.
      assert (1 <= length (filter (fun ch => after_cursor c (ck_id ch) = true) (map chunk_of p.2)))%nat; [|lia].
      destruct (last p.2) as [x|] eqn:Ex; [|by pose proof (po_last _ _ Hp) as E; rewrite Ex in E].
      pose proof (po_last _ _ Hp) as E. rewrite Ex in E. injection E as Ei.
      assert (chunk_of x ∈ filter (fun ch => after_cursor c (ck_id ch) = true) (map chunk_of p.2)) as Hin.
      { apply list_elem_of_filter. split; [cbn [ck_id chunk_of]; by rewrite Ei|].
        apply list_elem_of_fmap. exists x. split; [done|]. by apply list.last_Some_elem_of. }
      destruct (filter (fun ch => after_cursor c (ck_id ch) = true) (map chunk_of p.2));
        [by apply elem_of_nil in Hin|simpl; lia].
    + unfold kept. rewrite filter_cons_False by congruence.
      destruct (IH k Hl Hd' Hls) as (chunks & more & Hun & Hch & Hmore).
      exists chunks, more. split; [done|]. split; [|done]. rewrite Hsplit, Hch.
      rewrite filter_none; [done|]. intros ch Hin Hac. apply list_elem_of_fmap in Hin as (e & -> & He).
      destruct (part_bounds _ _ _ Hp Hps He) as [_ Hle]. cbn [ck_id chunk_of] in Hac.
      destruct c as [c|]; [|done]. cbn [after_cursor] in *.
      rewrite str_lt_not_le in Ea. apply negb_false_iff in Ea.
      pose proof (str_le_trans _ _ _ Hle Ea) as Hle2. rewrite str_lt_not_le, Hle2 in Hac. done.
Qed.

Section Pages.
Context `{WorldSdk} (T name : string).

(** The chunks behind a cursor. *)
Definition chunks_behind (c : option string) (parts : list part) : list chunk :=
  map chunk_of (filter (fun e => after_cursor c (se_id e) = true) (stream_data parts)).

Definition page_of (limit : nat) (base : Z) (l : list chunk) (done : bool) : chunk_page :=
  ChunkPage (imap (fun i c => (base + Z.of_nat i, ck_data c)) (take limit l))
    (match last (take limit l) with
     | Some c => if (limit <? length l)%nat
                 then Some (StreamCursor (Some (ck_id c)) (Some (JsFinite (base + Z.of_nat (length (take limit l))) 1)))
                 else None
     | None => None
     end) (limit <? length l)%nat done.

Lemma wf_data_parts rows parts : stream_wf rows parts ->
  Forall (fun p => part_ok p.1 p.2) (data_parts parts) /\ StronglySorted event_before (stream_data parts).
Proof.
  intros [_ Hok Hs]. destruct (data_parts_split parts) as (post & E & _). rewrite E in Hok, Hs.
  apply Forall_app in Hok as [Hok _]. rewrite fmap_app, concat_app in Hs.
  by apply sorted_app_iff in Hs as (Hs & _ & _).
Qed.

Lemma getChunks_page limit cursor table parts : stream_wf (stream_rows T name table) parts ->
  getChunks T name (Some limit) cursor table =
    Ok (page_of limit (cursor_index cursor) (chunks_behind (cursor_chunk cursor) parts)
          (bool_decide (is_Some (first_eof parts)))).
Proof.
  intros Hwf. unfold getChunks. cbn [default from_option id].
  set (c := cursor_chunk cursor). set (base := cursor_index cursor). rewrite (findFirstEof_parts _ _ Hwf).
  assert (Hrows : sort_by ph_id (filter (fun r => ph_eof r = false /\ before_eof (first_eof parts) r = true /\
      after_cursor c (row_end r) = true) (stream_rows T name table)) =
    (filter (fun q : part => after_cursor c (part_end q.1) = true) (data_parts parts)).*1).
  { rewrite filter_sort_by, (sw_rows _ _ Hwf), <- (filter_before_eof _ _ Hwf), list_filter_filter.
    set (b := fun r => after_cursor c (part_end r) && (negb (ph_eof r) && before_eof (first_eof parts) r)).
    transitivity (filter (fun r => b r = true) parts.*1).
    - apply list_filter_iff. intros r. unfold b. rewrite !andb_true_iff, negb_true_iff. unfold part_end.
      destruct (ph_eof r); [naive_solver|tauto].
    - rewrite (filter_parts b). f_equal. apply list_filter_iff. intros q. unfold b. by rewrite andb_true_iff. }
  rewrite Hrows, <- fmap_take. destruct (wf_data_parts _ _ Hwf) as [Hok Hs].
  destruct (rows_behind c (limit + 1) (data_parts parts) Hok (data_parts_data parts) Hs) as (chunks & more & Hun & Hch & Hmore).
  rewrite Hun. cbn [result_bind].
  set (l := filter (fun ch => after_cursor c (ck_id ch) = true) chunks) in *.
  assert (Hl : chunks_behind c parts = l ++ more) by exact Hch.
  assert (Htake : take limit l = take limit (l ++ more)).
  { destruct Hmore as [->|Hk]; [by rewrite app_nil_r|]. by rewrite take_app_le by lia. }
  assert (Hlt : (limit <? length l)%nat = (limit <? length (l ++ more))%nat).
  { destruct Hmore as [->|Hk]; [by rewrite app_nil_r|]. rewrite length_app.
    destruct (Nat.ltb_spec limit (length l)), (Nat.ltb_spec limit (length l + length more)); try done; lia. }
  unfold page_of. by rewrite Hl, <- Htake, <- Hlt.
Qed.

(** What a client reads that follows the cursors from the first page on. *)
Fixpoint read_stream (fuel : nat) (limit : nat) (table : list stream_row) (cursor : option (option stream_cursor)) :
    result serror (list (Z * bytes)) :=
  match fuel with
  | O => Err SMalformed
  | S fuel =>
      result_bind (getChunks T name (Some limit) cursor table) (fun p =>
      if cp_hasMore p
      then result_bind (read_stream fuel limit table (Some (cp_cursor p))) (fun l => Ok (cp_data p ++ l))
      else Ok (cp_data p))
  end.

Lemma read_stream_S fuel limit table cursor :
  read_stream (S fuel) limit table cursor =
  result_bind (getChunks T name (Some limit) cursor table) (fun p =>
    if cp_hasMore p
    then result_bind (read_stream fuel limit table (Some (cp_cursor p))) (fun l => Ok (cp_data p ++ l))
    else Ok (cp_data p)).
Proof. done. Qed.

Lemma chunks_behind_all parts : chunks_behind None parts = map chunk_of (stream_data parts).
Proof. unfold chunks_behind. by rewrite filter_all. Qed.

(** Behind a chunk of the stream follow the chunks after it. *)
Lemma chunks_behind_chunk rows parts l1 x l2 : stream_wf rows parts ->
  map chunk_of (stream_data parts) = l1 ++ x :: l2 -> chunks_behind (Some (ck_id x)) parts = l2.
Proof.
  intros Hwf E. destruct (wf_data_parts _ _ Hwf) as [_ Hs]. unfold chunks_behind. cbn [after_cursor].
  revert l1 E Hs. generalize (stream_data parts). induction l as [|e l IH]; intros [|y l1] E Hs; try done.
  - simpl in E. injection E as <- <-. inversion_clear Hs as [|? ? _ He]. cbn [ck_id chunk_of].
    rewrite filter_cons_False by by rewrite str_lt_irrefl. rewrite filter_all; [done|].
    rewrite Forall_forall in He. exact He.
  - simpl in E. injection E as <- E. inversion_clear Hs as [|? ? Hs' He]. rewrite filter_cons_False; [by eapply IH|].
    intros Hlt. assert (x ∈ map chunk_of l) as Hx by (rewrite E; apply elem_of_app; right; by left).
    apply list_elem_of_fmap in Hx as (e' & -> & He'). rewrite Forall_forall in He. specialize (He e' He').
    unfold event_before in He. cbn [ck_id chunk_of] in Hlt. pose proof (str_lt_trans _ _ _ Hlt He) as Hc.
    by rewrite str_lt_irrefl in Hc.
Qed.

Lemma stream_data_prefix rows parts e : stream_wf rows parts -> e ∈ stream_data parts ->
  String.prefix chunk_prefix (se_id e) = true.
Proof.
  intros Hwf He. destruct (wf_data_parts _ _ Hwf) as [Hok _]. unfold stream_data, events_of in He.
  apply list_elem_of_In, in_concat in He as (l & Hl & He). apply list_elem_of_In, list_elem_of_fmap in Hl as (p & -> & Hp).
  rewrite Forall_forall in Hok. pose proof (po_prefix _ _ (Hok p Hp)) as Hx. rewrite Forall_forall in Hx.
  apply Hx. by apply list_elem_of_In.
Qed.

Definition indexed (base : Z) (l : list chunk) : list (Z * bytes) := imap (fun i c => (base + Z.of_nat i, ck_data c)) l.

Lemma read_stream_behind fuel limit table parts : (0 < limit)%nat -> stream_wf (stream_rows T name table) parts ->
  Z.of_nat (length (stream_data parts)) <= 9007199254740991 -> forall l1 l2 cursor,
  map chunk_of (stream_data parts) = l1 ++ l2 -> chunks_behind (cursor_chunk cursor) parts = l2 ->
  cursor_index cursor = Z.of_nat (length l1) -> (length l2 <= fuel)%nat ->
  read_stream (S fuel) limit table cursor = Ok (indexed (Z.of_nat (length l1)) l2).
Proof.
  intros Hlim Hwf Hsafe. induction fuel as [|fuel IH]; intros l1 l2 cursor E Hb Hi Hf;
    rewrite read_stream_S, (getChunks_page limit cursor table parts Hwf); cbn [result_bind];
    rewrite Hb, Hi; unfold page_of; cbn [cp_hasMore cp_data cp_cursor];
    destruct (Nat.ltb_spec limit (length l2)) as [Hlt|Hge]; try lia; try (by rewrite take_ge by lia).
  destruct (last (take limit l2)) as [x|] eqn:Ex.
  2: { apply last_None in Ex. apply (f_equal length) in Ex. rewrite length_take in Ex. simpl in Ex. lia. }
  apply last_Some in Ex as [l3 E3].
  assert (E4 : map chunk_of (stream_data parts) = (l1 ++ l3) ++ x :: drop limit l2).
  { rewrite E, <- (take_drop limit l2) at 1. rewrite E3, <- !app_assoc. done. }
  assert (Hx : String.prefix chunk_prefix (ck_id x) = true).
  { assert (x ∈ map chunk_of (stream_data parts)) as Hin by (rewrite E4; apply elem_of_app; right; by left).
    apply list_elem_of_fmap in Hin as (e & -> & He). by eapply stream_data_prefix. }
  assert (Hlen : length (l1 ++ take limit l2) = (length l1 + length (take limit l2))%nat) by apply length_app.
  assert (Hle : (length (l1 ++ take limit l2) <= length (stream_data parts))%nat).
  { apply (f_equal length) in E. rewrite length_map, length_app in E. rewrite Hlen, length_take. lia. }
  rewrite (IH (l1 ++ take limit l2) (drop limit l2)); [|..].
  - cbn [result_bind]. f_equal. rewrite Hlen. unfold indexed. rewrite <- (take_drop limit l2) at 3.
    rewrite imap_app. f_equal. apply imap_ext. intros i c _. unfold compose. f_equal. lia.
  - by rewrite <- app_assoc, take_drop.
  - cbn [cursor_chunk cu_c]. rewrite Hx. by eapply chunks_behind_chunk.
  - cbn [cursor_index cu_i]. unfold isSafeInteger, js_integer. rewrite Z.mod_1_r, Z.div_1_r. cbn [Z.eqb].
    destruct (Z.leb_spec (Z.abs (Z.of_nat (length l1) + Z.of_nat (length (take limit l2)))) 9007199254740991); [|lia].
    destruct (Z.leb_spec 0 (Z.of_nat (length l1) + Z.of_nat (length (take limit l2)))); [|lia]. lia.
  - rewrite length_drop. lia.
Qed.
End Pages.

(** C23 Following the cursors of [getChunks] reads every chunk before the stream's
    end exactly once, in order and under consecutive indexes, however the
    chunks are packed into rows and whatever the page size. *)
Theorem stream_paged T name limit table parts :
  (0 < limit)%nat -> stream_wf (stream_rows T name table) parts ->
  Z.of_nat (length (stream_data parts)) <= 9007199254740991 ->
  read_stream T name (S (length (stream_data parts))) limit table None =
    Ok (imap (fun i e => (Z.of_nat i, se_data e)) (stream_data parts)).
Proof.
  intros Hl Hwf Hsafe. rewrite (read_stream_behind T name (length (stream_data parts)) limit table parts Hl Hwf Hsafe []
    (map chunk_of (stream_data parts)) None eq_refl (chunks_behind_all parts) eq_refl).
  - unfold indexed. f_equal. rewrite imap_fmap. apply imap_ext. done.
  - by rewrite length_map.
Qed.

(** ** Writing *)

Lemma sort_by_snoc {A} (key : A -> string) l x :
  Forall (fun y => str_lt (key y) (key x) = true) l -> sort_by key (l ++ [x]) = sort_by key l ++ [x].
Proof.
  induction 1 as [|y l Hy Hl IH]; [done|]. simpl. rewrite IH. clear IH.
  generalize (sort_by key l). intros k. induction k as [|z k IHk]; simpl.
  - assert (str_le (key y) (key x) = true) as ->; [|done]. apply str_le_spec. right. by apply str_lt_spec.
  - destruct (str_le (key y) (key z)); [done|]. by rewrite IHk.
Qed.

Lemma part_sorted (parts : list part) p :
  StronglySorted event_before (concat parts.*2) -> p ∈ parts -> StronglySorted event_before p.2.
Proof.
  intros Hs (a & b & ->)%list_elem_of_split. rewrite fmap_app, concat_app in Hs.
  apply sorted_app_iff in Hs as (_ & Hs & _). simpl in Hs. by apply sorted_app_iff in Hs as (Hs & _).
Qed.

(** Rows that all follow a stream's rows extend it. *)
Lemma stream_append rows parts new :
  stream_wf rows parts -> Forall (fun p => part_ok p.1 p.2) new -> StronglySorted event_before (events_of new) ->
  (forall p q, p ∈ parts -> q ∈ new -> str_lt (part_end p.1) (ph_id q.1) = true) ->
  stream_wf (rows ++ new.*1) (parts ++ new).
Proof.
  revert rows parts. induction new as [|q new IH]; intros rows parts [Hr Hok Hs] Hn Hns Hlt.
  { rewrite !app_nil_r. by split. }
  destruct (wf_parts_cons q new Hn Hns) as (Hq & Hqs & Hn' & Hns' & Hqlt).
  rewrite fmap_cons, (cons_middle q.1), (cons_middle q), !app_assoc.
  assert (Hends : Forall (fun p => str_le (ph_id p.1) (part_end p.1) = true) parts).
  { rewrite Forall_forall in *. intros p Hp. pose proof (Hok p Hp) as Hpo.
    pose proof (part_sorted _ _ Hs Hp) as Hps.
    pose proof (po_first _ _ Hpo) as E. destruct p.2 as [|x l] eqn:Ep; [done|]. simpl in E. injection E as Ei.
    rewrite <- Ei. apply (part_bounds p.1 (x :: l) x Hpo Hps). by left. }
  apply IH; [|done|done|].
  - split.
    + rewrite sort_by_snoc, Hr, fmap_app; [done|]. rewrite Forall_forall. intros r Hrin.
      assert (r ∈ parts.*1) as Hrp by (rewrite <- Hr; by apply elem_sort_by).
      apply list_elem_of_fmap in Hrp as (p & -> & Hp). rewrite Forall_forall in Hends.
      specialize (Hlt p q Hp ltac:(by left)). specialize (Hends p Hp). simpl in Hends.
      apply str_le_spec in Hends as [Hend|Hend]; [by rewrite Hend|]. apply str_lt_spec in Hend.
      by eapply str_lt_trans.
    + apply Forall_app. split; [done|]. by constructor.
    + rewrite fmap_app, concat_app. apply sorted_app_iff. split; [done|]. split; [simpl; by rewrite app_nil_r|].
      rewrite Forall_forall. intros e He. rewrite Forall_forall. intros e2 He2. simpl in He2. rewrite app_nil_r in He2.
      apply list_elem_of_In, in_concat in He as (l & Hl & He). apply list_elem_of_In, list_elem_of_fmap in Hl as (p & -> & Hp).
      apply list_elem_of_In in He. rewrite Forall_forall in Hok. pose proof (Hok p Hp) as Hpo.
      specialize (Hlt p q Hp ltac:(by left)).
      pose proof (part_sorted _ _ Hs Hp) as Hps.
      destruct (part_bounds _ _ _ Hpo Hps He) as [_ H1]. destruct (part_bounds _ _ _ Hq Hqs He2) as [H2 _].
      unfold event_before. apply str_le_spec in H1 as [->|H1]; apply str_le_spec in H2 as [<-|H2].
      * done.
      * apply str_lt_spec in H2. by eapply str_lt_trans.
      * apply str_lt_spec in H1. by eapply str_lt_trans.
      * apply str_lt_spec in H1, H2. by eapply str_lt_trans; [|eapply str_lt_trans].
  - intros p q' Hp Hq'. apply elem_of_app in Hp as [Hp|Hp]; [apply Hlt; [done|by right]|].
    apply list_elem_of_singleton in Hp as ->. by apply Hqlt.
Qed.

Definition event_of_chunk (c : chunk) : sevent := SEvent (ck_id c) (ck_data c) false.

Lemma unpack_packed_ends r cs : ph_eof r = false -> ph_codec r = Some PACKED_STREAM_CODEC_VERSION ->
  unpackStreamRow r = Ok cs ->
  option_map ck_id (head cs) = Some (ph_id r) /\ option_map ck_id (last cs) = ph_last r.
Proof.
  intros He Hc Hu. unfold unpackStreamRow in Hu. rewrite He, Hc in Hu.
  change (PACKED_STREAM_CODEC_VERSION =? 1) with false in Hu.
  change (negb (PACKED_STREAM_CODEC_VERSION =? PACKED_STREAM_CODEC_VERSION)) with false in Hu. cbv iota in Hu.
  destruct (ph_count r) as [z|]; [|done]. destruct (negb (Z.abs z <=? _) || _); [done|].
  destruct (unpack_entries _ _) as [l|]; [|done]. cbn [result_bind] in Hu.
  destruct (negb _ || negb _ || negb _) eqn:E; [done|]. injection Hu as ->.
  apply orb_false_iff in E as [E E3]. apply orb_false_iff in E as [_ E2]. bools. done.
Qed.

Lemma block_part_ok mc mb b cs : block_ok mc mb b cs -> Forall packable cs ->
  part_ok (block_row b) (map event_of_chunk cs).
Proof.
  intros (Hu & Hne & Hcount & _) Hpk. destruct (unpack_packed_ends (block_row b) cs eq_refl eq_refl Hu) as [Hf Hl].
  split.
  - unfold row_events. change (ph_eof (block_row b)) with false. cbv iota. by rewrite Hu.
  - rewrite <- Hf. by destruct cs.
  - cbn [part_end row_end block_row ph_eof ph_last default from_option id] in *.
    change (map event_of_chunk cs) with (event_of_chunk <$> cs). rewrite fmap_last. destruct (last cs); [exact Hl|done].
  - intros _. cbn [block_row ph_count default from_option id]. by rewrite Hcount, length_map.
  - apply List.Forall_map. eapply Forall_impl; [exact Hpk|]. intros c Hc. exact (pk_prefix c Hc).
Qed.

(** The rows of blocks, with the chunks they were cut from. *)
Definition block_parts (blocks : list block) (css : list (list chunk)) : list part :=
  zip_with (fun b cs => (block_row b, map event_of_chunk cs)) blocks css.

Lemma block_parts_ok mc mb blocks css : Forall2 (block_ok mc mb) blocks css -> Forall packable (concat css) ->
  Forall (fun p => part_ok p.1 p.2) (block_parts blocks css) /\
  events_of (block_parts blocks css) = map event_of_chunk (concat css) /\
  (block_parts blocks css).*1 = map block_row blocks.
Proof.
  induction 1 as [|b cs blocks css Hb Hf IH]; intros Hpk; [done|]. simpl in Hpk. apply Forall_app in Hpk as [Hcs Hpk].
  destruct (IH Hpk) as (H1 & H2 & H3). split_and!.
  - constructor; [by eapply block_part_ok|exact H1].
  - cbn [block_parts zip_with concat]. rewrite map_app, <- H2. done.
  - cbn [block_parts zip_with map]. rewrite fmap_cons. by f_equal.
Qed.

(** Ids of rows grow along with those of the events. *)
Definition id_before (a b : phys_row) : Prop := str_lt (ph_id a) (ph_id b) = true.

Lemma part_id_end r evs : part_ok r evs -> StronglySorted event_before evs -> str_le (ph_id r) (part_end r) = true.
Proof.
  intros Hp Hs. pose proof (po_first _ _ Hp) as E. destruct evs as [|x l] eqn:Ee; [done|]. injection E as <-.
  apply (part_bounds r (x :: l) x Hp Hs). by left.
Qed.

Lemma parts_ids_sorted parts : Forall (fun p => part_ok p.1 p.2) parts -> StronglySorted event_before (events_of parts) ->
  StronglySorted id_before parts.*1.
Proof.
  induction parts as [|p l IH]; intros Hok Hs; [constructor|].
  destruct (wf_parts_cons p l Hok Hs) as (Hp & Hps & Hl & Hls & Hlt). simpl. constructor; [by apply IH|].
  rewrite Forall_forall. intros r (q & -> & Hq)%list_elem_of_fmap. specialize (Hlt q Hq).
  pose proof (part_id_end _ _ Hp Hps) as Hle. apply str_le_spec in Hle as [Hle|Hle]; unfold id_before; [by rewrite Hle|].
  apply str_lt_spec in Hle. by eapply str_lt_trans.
Qed.

Section Writes.
Context `{WorldSdkLaws} (T name : string) (compact : bytes -> bytes).

(** A stream of one writing process: in form, its ids all generated by now. *)
Record stream_inv (st : stream_state) (parts : list part) : Prop := StreamInv {
  si_wf : stream_wf (stream_rows T name (ss_rows st)) parts;
  si_ids : Forall (fun p => exists n, (n < ss_ulids st)%N /\ part_end p.1 = chunk_id_of n) parts
}.

Lemma chunk_id_lt n m : (n < m < 2 ^ 80)%N -> str_lt (chunk_id_of n) (chunk_id_of m) = true.
Proof.
  intros Hn. unfold chunk_id_of. apply str_lt_spec. rewrite str_compare_app_l. apply str_lt_spec.
  by apply sdk_ulid_monotone.
Qed.

Lemma chunk_id_packable n data : (n < 2 ^ 80)%N -> blen data <= 0xffffffff -> packable (Chunk (chunk_id_of n) data).
Proof.
  intros Hn Hd. destruct (sdk_ulid_text n Hn) as [Hl Ha]. split; cbn [ck_id ck_data].
  - rewrite byteLength_length. unfold chunk_id_of. rewrite string_length_app, Hl. simpl. lia.
  - apply ascii_well_formed. unfold chunk_id_of. change (ascii_text (chunk_prefix +:+ ulidOf n) = true).
    by rewrite ascii_text_app, Ha.
  - unfold chunk_id_of. unfold chunk_prefix. by destruct (ulidOf n).
  - done.
Qed.

Definition ids_from (n : N) (k : nat) : list string := map (fun i => chunk_id_of (n + N.of_nat i)) (seq 0 k).

Lemma genChunkIds_ids k st :
  genChunkIds k st = (ids_from (ss_ulids st) k, StreamState (ss_rows st) (ss_ulids st + N.of_nat k)).
Proof.
  revert st. induction k as [|k IH]; intros st; cbn [genChunkIds].
  - unfold ids_from. simpl. rewrite N.add_0_r. by destruct st.
  - unfold genChunkId. rewrite IH. cbn [ss_rows ss_ulids]. unfold ids_from. cbn [seq map]. rewrite <- seq_shift, map_map.
    f_equal; [f_equal; [f_equal; lia|]|f_equal; lia]. apply map_ext. intros i. f_equal. lia.
Qed.

Lemma insert_rows_fresh table rows :
  Forall (fun r => sr_tenant r = T /\ sr_stream r = name) rows -> NoDup (sr_id <$> rows) ->
  (forall p r, p ∈ stream_rows T name table -> r ∈ rows -> ph_id p <> sr_id r) ->
  insert_rows rows table = Ok (table ++ rows).
Proof.
  revert table. induction rows as [|r rows IH]; intros table Hk Hs Hne; [by rewrite app_nil_r|].
  inversion_clear Hk as [|? ? [Ht Hn] Hk']. rewrite fmap_cons in Hs. apply NoDup_cons in Hs as [Hr Hs']. cbn [insert_rows].
  assert (Hfree : existsb (same_row_key r) table = false).
  { apply not_true_iff_false. intros Hex. apply existsb_exists in Hex as (y & Hy & Hsame).
    unfold same_row_key in Hsame. bools. apply (Hne (sr_phys y) r); [|by left|by symmetry].
    apply list_elem_of_fmap. exists y. split; [done|]. apply list_elem_of_filter. split; [split; congruence|].
    by apply list_elem_of_In. }
  rewrite Hfree, IH; [by rewrite <- app_assoc|done|done|].
  intros p r' Hp Hr'. unfold stream_rows in Hp. rewrite filter_app, fmap_app in Hp. apply elem_of_app in Hp as [Hp|Hp].
  - apply Hne; [done|by right].
  - rewrite filter_cons_True in Hp by done. rewrite filter_nil in Hp. apply list_elem_of_singleton in Hp as ->.
    intros E. apply Hr. unfold sr_id at 1. rewrite E. apply list_elem_of_fmap. eauto.
Qed.

Lemma sorted_ids_nodup rows : StronglySorted id_before rows -> NoDup (ph_id <$> rows).
Proof.
  induction 1 as [|r rows Hs IH Hr]; [constructor|]. rewrite fmap_cons. apply NoDup_cons. split; [|done].
  intros (y & E & Hy)%list_elem_of_fmap. rewrite Forall_forall in Hr. specialize (Hr y Hy). unfold id_before in Hr.
  rewrite E in Hr. by rewrite str_lt_irrefl in Hr.
Qed.

(** Appending rows of fresh ids, with the events they stand for. *)
Lemma inv_append st parts run (new : list part) k :
  stream_inv st parts -> Forall (fun p => part_ok p.1 p.2) new -> StronglySorted event_before (events_of new) ->
  Forall (fun e => exists i, (i < k)%nat /\ se_id e = chunk_id_of (ss_ulids st + N.of_nat i)) (events_of new) ->
  (ss_ulids st + N.of_nat k < 2 ^ 80)%N ->
  let rows := map (fun p : part => StreamRow T name run p.1) new in
  insert_rows rows (ss_rows st) = Ok (ss_rows st ++ rows) /\
  stream_inv (StreamState (ss_rows st ++ rows) (ss_ulids st + N.of_nat k)) (parts ++ new).
Proof.
  intros [Hwf Hids] Hn Hns Hfresh Hk rows.
  assert (Hnew : forall q, q ∈ new -> (exists i, (i < k)%nat /\ ph_id q.1 = chunk_id_of (ss_ulids st + N.of_nat i)) /\
    exists i, (i < k)%nat /\ part_end q.1 = chunk_id_of (ss_ulids st + N.of_nat i)).
  { intros q Hq. rewrite Forall_forall in Hn. rewrite Forall_forall in Hfresh. pose proof (Hn q Hq) as Hqo.
    assert (Hin : forall e, e ∈ q.2 -> e ∈ events_of new).
    { intros e He. apply list_elem_of_In, in_concat. exists q.2. split; [apply list_elem_of_In, list_elem_of_fmap; eauto|].
      by apply list_elem_of_In. }
    pose proof (po_first _ _ Hqo) as E1. pose proof (po_last _ _ Hqo) as E2.
    destruct (head q.2) as [x|] eqn:Ex; [|done]. destruct (last q.2) as [y|] eqn:Ey; [|done].
    injection E1 as <-. injection E2 as <-. split; apply Hfresh, Hin.
    - destruct q.2; [done|]. injection Ex as ->. by left.
    - by apply list.last_Some_elem_of. }
  assert (Hlt : forall p q, p ∈ parts -> q ∈ new -> str_lt (part_end p.1) (ph_id q.1) = true).
  { intros p q Hp Hq. rewrite Forall_forall in Hids. destruct (Hids p Hp) as (n & Hnlt & ->).
    destruct (Hnew q Hq) as [(i & Hi & ->) _]. apply chunk_id_lt. lia. }
  pose proof (stream_append _ _ new Hwf Hn Hns Hlt) as Hwf'. split.
  - apply insert_rows_fresh.
    + apply List.Forall_map, list.Forall_true. done.
    + unfold rows. change (map ?f new) with (f <$> new). rewrite <- list_fmap_compose.
      replace (_ <$> new) with (ph_id <$> new.*1) by (rewrite <- list_fmap_compose; done).
      apply sorted_ids_nodup. by apply parts_ids_sorted.
    + intros p r Hp Hr E. apply list_elem_of_fmap in Hr as (q & -> & Hq). unfold sr_id in E. cbn [sr_phys] in E.
      assert (p ∈ parts.*1) as Hpp by (rewrite <- (sw_rows _ _ Hwf); by apply elem_sort_by).
      apply list_elem_of_fmap in Hpp as (p' & -> & Hp'). specialize (Hlt p' q Hp' Hq).
      pose proof (sw_parts _ _ Hwf) as Hok. rewrite Forall_forall in Hok.
      pose proof (part_id_end _ _ (Hok p' Hp') (part_sorted _ _ (sw_sorted _ _ Hwf) Hp')) as Hle.
      rewrite E in Hle. rewrite str_lt_not_le, Hle in Hlt. done.
  - split; cbn [ss_rows ss_ulids].
    + assert (stream_rows T name (ss_rows st ++ rows) = stream_rows T name (ss_rows st) ++ new.*1) as ->; [|done].
      unfold stream_rows. rewrite filter_app, fmap_app. f_equal. unfold rows. clear. induction new as [|q l IH]; [done|].
      simpl. rewrite filter_cons_True by done. by rewrite fmap_cons, IH.
    + apply Forall_app. split.
      * eapply Forall_impl; [exact Hids|]. intros p (n & Hlt' & E). exists n. split; [lia|done].
      * rewrite Forall_forall. intros q Hq. destruct (Hnew q Hq) as [_ (i & Hi & ->)]. exists (ss_ulids st + N.of_nat i)%N.
        split; [lia|done].
Qed.
End Writes.

(** A row's id is its own. *)
Lemma parts_unique (parts : list part) p q :
  Forall (fun p => part_ok p.1 p.2) parts -> StronglySorted event_before (events_of parts) ->
  p ∈ parts -> q ∈ parts -> ph_id p.1 = ph_id q.1 -> p = q.
Proof.
  induction parts as [|x l IH]; intros Hok Hs Hp Hq E; [by apply elem_of_nil in Hp|].
  destruct (wf_parts_cons x l Hok Hs) as (Hx & Hxs & Hl & Hls & Hlt).
  assert (Hne : forall y, y ∈ l -> ph_id x.1 <> ph_id y.1).
  { intros y Hy Exy. specialize (Hlt y Hy). pose proof (po_first _ _ Hx) as Ef.
    destruct x.2 as [|e k] eqn:Ex2; [done|]. injection Ef as Ei.
    destruct (part_bounds x.1 (e :: k) e Hx Hxs ltac:(by left)) as [_ Hle]. rewrite Ei, Exy in Hle.
    rewrite str_lt_not_le, Hle in Hlt. done. }
  apply elem_of_cons in Hp as [->|Hp]; apply elem_of_cons in Hq as [->|Hq]; [done|by apply Hne in E| |by apply IH].
  symmetry in E. by apply Hne in E.
Qed.

Lemma find_row rows parts p : stream_wf rows parts -> p ∈ parts ->
  head (filter (fun r => ph_id r = ph_id p.1) rows) = Some p.1.
Proof.
  intros [Hr Hok Hs] Hp.
  assert (Hin : forall r, r ∈ rows <-> r ∈ parts.*1) by (intros r; rewrite <- Hr; symmetry; apply elem_sort_by).
  destruct (filter _ rows) as [|r l] eqn:E.
  - assert (p.1 ∈ filter (fun r => ph_id r = ph_id p.1) rows) as Hf.
    { apply list_elem_of_filter. split; [done|]. apply Hin, list_elem_of_fmap. eauto. }
    rewrite E in Hf. by apply elem_of_nil in Hf.
  - simpl. f_equal. assert (r ∈ filter (fun r => ph_id r = ph_id p.1) rows) as Hf by (rewrite E; by left).
    apply list_elem_of_filter in Hf as [Hid Hf]. apply Hin, list_elem_of_fmap in Hf as (q & -> & Hq).
    by rewrite (parts_unique parts q p Hok Hs Hq Hp Hid).
Qed.

Inductive stream_op := OpWrite (data : bytes) | OpWriteMulti (chunks : list bytes) | OpClose.

Section Operations.
Context `{WorldSdkLaws} (T name runId : string) (compact : bytes -> bytes).

Definition run_op (op : stream_op) (st : stream_state) : result serror (list notice) * stream_state :=
  match op with
  | OpWrite data => stream_write T compact runId name data st
  | OpWriteMulti chunks => stream_writeMulti T compact runId name chunks st
  | OpClose => stream_close T runId name st
  end.

(** The events an operation is to add to the stream. *)
Definition op_events (u : N) (op : stream_op) : list sevent :=
  match op with
  | OpWrite data => [SEvent (chunk_id_of u) (compact data) false]
  | OpWriteMulti chunks => imap (fun i data => SEvent (chunk_id_of (u + N.of_nat i)) (compact data) false) chunks
  | OpClose => [SEvent (chunk_id_of u) [] true]
  end.

Definition op_data (op : stream_op) : list bytes :=
  match op with OpWrite data => [data] | OpWriteMulti chunks => chunks | OpClose => [] end.

(** The rows an operation writes, with their events. *)
Definition op_parts (st : stream_state) (op : stream_op) (new : list part) (k : nat) : Prop :=
  Forall (fun p => part_ok p.1 p.2) new /\ events_of new = op_events (ss_ulids st) op /\
  k = length (op_events (ss_ulids st) op) /\
  run_op op st =
    match insert_rows (map (fun p : part => StreamRow T name (Some runId) p.1) new) (ss_rows st) with
    | Ok rows => (Ok (map (fun p : part => Notice name (ph_id p.1)) new), StreamState rows (ss_ulids st + N.of_nat k))
    | Err e => (Err e, StreamState (ss_rows st) (ss_ulids st + N.of_nat k))
    end.

Lemma single_part st r e op :
  part_ok r [e] -> op_events (ss_ulids st) op = [e] ->
  run_op op st =
    match insert_rows [StreamRow T name (Some runId) r] (ss_rows st) with
    | Ok rows => (Ok [Notice name (ph_id r)], StreamState rows (ss_ulids st + 1))
    | Err er => (Err er, StreamState (ss_rows st) (ss_ulids st + 1))
    end -> op_parts st op [(r, [e])] 1.
Proof. intros Hr He Hrun. split; [by constructor|]. split; [by rewrite He|]. split; [by rewrite He|done]. Qed.

Lemma chunk_id_prefix n : String.prefix chunk_prefix (chunk_id_of n) = true.
Proof. unfold chunk_id_of, chunk_prefix. by destruct (ulidOf n). Qed.

Lemma multi_chunks u (chunks : list bytes) :
  zip_with (fun i data => Chunk i (compact data)) (ids_from u (length chunks)) chunks =
  map chunk_of (op_events u (OpWriteMulti chunks)).
Proof.
  cbn [op_events]. unfold ids_from. revert u. induction chunks as [|d l IH]; intros u; [done|].
  cbn [length seq map zip_with imap]. apply (f_equal2 cons); [by rewrite N.add_0_r|].
  rewrite <- seq_shift, map_map. unfold compose.
  specialize (IH (u + 1)%N). unfold ids_from in IH.
  transitivity (map chunk_of (imap (fun i data => SEvent (chunk_id_of (u + 1 + N.of_nat i)) (compact data) false) l)).
  - rewrite <- IH. f_equal. apply map_ext. intros i. f_equal. lia.
  - f_equal. apply imap_ext. intros i x _. unfold compose. do 2 f_equal. lia.
Qed.

Lemma multi_parts st chunks : chunks <> [] -> Forall (fun d => blen (compact d) <= 0xffffffff) chunks ->
  (ss_ulids st + N.of_nat (length chunks) < 2 ^ 80)%N ->
  exists new, op_parts st (OpWriteMulti chunks) new (length chunks).
Proof.
  intros Hne Hsize Hu. set (evs := op_events (ss_ulids st) (OpWriteMulti chunks)).
  assert (Hpk : Forall packable (map chunk_of evs)).
  { rewrite Forall_forall. intros c Hc. apply list_elem_of_fmap in Hc as (e & -> & He).
    unfold evs, op_events in He. apply list_elem_of_lookup in He as [i He]. rewrite list_lookup_imap in He.
    destruct (chunks !! i) as [d|] eqn:Ed; [|done]. injection He as <-.
    pose proof (lookup_lt_Some _ _ _ Ed). rewrite Forall_forall in Hsize.
    apply chunk_id_packable; [lia|]. apply Hsize. by eapply list_elem_of_lookup_2. }
  destruct (pack_go_ok 64 (256 * 1024) ltac:(lia) (map chunk_of evs) []) as (blocks & Hgo & css & Hf & Hcat);
    [done|simpl; lia|right; simpl; lia|].
  assert (Hlen : length evs = length chunks) by apply length_imap.
  assert (Hcss : Forall packable (concat css)) by (rewrite Hcat; exact Hpk).
  destruct (block_parts_ok _ _ _ _ Hf Hcss) as (Hok & Hev & Hrows).
  exists (block_parts blocks css). split; [exact Hok|]. split; [|split; [by symmetry|]].
  - fold evs. rewrite Hev, Hcat. simpl. rewrite map_map. unfold evs, op_events.
    apply list_eq. intros i. rewrite list_lookup_fmap, !list_lookup_imap. by destruct (chunks !! i).
  - assert (Hw : forall A (x y : A), match chunks with [] => x | _ => y end = y) by (destruct chunks; done).
    unfold run_op, stream_writeMulti. rewrite Hw.
    rewrite genChunkIds_ids, multi_chunks. fold evs. unfold packStreamChunks. cbn [default from_option id].
    change (assertPositiveInteger (JsFinite DEFAULT_STREAM_BLOCK_CHUNKS 1)) with (Ok (E:=serror) 64).
    change (assertPositiveInteger (JsFinite DEFAULT_STREAM_BLOCK_BYTES 1)) with (Ok (E:=serror) (256 * 1024)).
    cbn [result_bind]. change (entries_size []) with 0 in Hgo. rewrite Hgo. cbn [ss_rows ss_ulids].
    assert (Hmap : forall A (f : phys_row -> A), map (fun b => f (block_row b)) blocks = map (fun p : part => f p.1) (block_parts blocks css)).
    { intros A f. rewrite <- (map_map block_row f), <- Hrows. change (map f) with (fmap f : list phys_row -> list A).
      by rewrite <- list_fmap_compose. }
    unfold block_stream_row. rewrite (Hmap _ (StreamRow T name (Some runId))). destruct (insert_rows _ _); [|done]. do 2 f_equal.
    exact (Hmap _ (fun r => Notice name (ph_id r))).
Qed.

Lemma op_parts_ex st op : Forall (fun d => blen (compact d) <= 0xffffffff) (op_data op) ->
  (ss_ulids st + N.of_nat (length (op_events (ss_ulids st) op)) < 2 ^ 80)%N ->
  exists new, op_parts st op new (length (op_events (ss_ulids st) op)).
Proof.
  intros Hsize Hu. destruct op as [d|chunks|].
  - eexists. apply (single_part st (PhysRow (chunk_id_of (ss_ulids st)) (Some (chunk_id_of (ss_ulids st))) (Some 1) (Some 1) (compact d) false)); [|done|done].
    split; try done. constructor; [apply chunk_id_prefix|constructor].
  - destruct (decide (chunks = [])) as [->|Hne].
    + exists []. split; [constructor|]. split; [done|]. split; [done|]. cbn. rewrite N.add_0_r. by destruct st.
    + assert (length (op_events (ss_ulids st) (OpWriteMulti chunks)) = length chunks) as E by apply length_imap.
      rewrite E in *. by apply multi_parts.
  - eexists. apply (single_part st (PhysRow (chunk_id_of (ss_ulids st)) None None None [] true)); [|done|done].
    split; try done. constructor; [apply chunk_id_prefix|constructor].
Qed.

Lemma op_events_ids st op : Forall (fun e => exists i, (i < length (op_events (ss_ulids st) op))%nat /\
    se_id e = chunk_id_of (ss_ulids st + N.of_nat i)) (op_events (ss_ulids st) op).
Proof.
  destruct op as [d|chunks|]; cbn [op_events].
  1, 3: constructor; [exists 0%nat; simpl; split; [lia|by rewrite N.add_0_r]|constructor].
  rewrite Forall_forall. intros e He. apply list_elem_of_lookup in He as [i He]. pose proof (lookup_lt_Some _ _ _ He).
  rewrite list_lookup_imap in He. destruct (chunks !! i); [|done]. injection He as <-. by exists i.
Qed.

Lemma op_events_sorted st op : (ss_ulids st + N.of_nat (length (op_events (ss_ulids st) op)) < 2 ^ 80)%N ->
  StronglySorted event_before (op_events (ss_ulids st) op).
Proof.
  destruct op as [d|chunks|]; [by repeat constructor| |by repeat constructor].
  cbn [op_events]. rewrite length_imap. generalize (ss_ulids st). induction chunks as [|d l IH]; intros u Hu; [constructor|].
  cbn [imap]. constructor.
  - assert (E : imap ((fun i data => SEvent (chunk_id_of (u + N.of_nat i)) (compact data) false) ∘ S) l =
      imap (fun i data => SEvent (chunk_id_of (u + 1 + N.of_nat i)) (compact data) false) l).
    { apply imap_ext. intros i x _. unfold compose. do 2 f_equal. lia. }
    rewrite E. apply IH. simpl in Hu. lia.
  - rewrite Forall_forall. intros e He. apply list_elem_of_lookup in He as [i He]. rewrite list_lookup_imap in He.
    destruct (l !! i) eqn:El; [|done]. injection He as <-. apply lookup_lt_Some in El. unfold event_before. cbn [se_id compose].
    apply chunk_id_lt. simpl in Hu. lia.
Qed.
End Operations.

(** C22 Each operation of a stream's writer appends: after a write, a write of
    several chunks or the end of the stream, the rows stand for the events they
    stood for followed by the new ones, the rows the operation wrote are
    announced one by one in order, and each announcement makes the listeners
    emit exactly that row's events. *)
Theorem writes_extend_stream `{WorldSdkLaws} T name runId compact op st parts :
  stream_inv T name st parts -> Forall (fun d => blen (compact d) <= 0xffffffff) (op_data op) ->
  (ss_ulids st + N.of_nat (length (op_events compact (ss_ulids st) op)) < 2 ^ 80)%N ->
  exists notices st' new, run_op T name runId compact op st = (Ok notices, st') /\
    stream_inv T name st' (parts ++ new) /\
    events_of new = op_events compact (ss_ulids st) op /\
    Forall2 (fun n p => nt_stream n = name /\ on_notice T n (ss_rows st') = Ok p.2) notices new.
Proof.
  intros Hinv Hsize Hu. destruct (op_parts_ex T name runId compact st op Hsize Hu) as (new & Hok & Hev & _ & Hrun).
  destruct (inv_append T name st parts (Some runId) new (length (op_events compact (ss_ulids st) op)) Hinv Hok) as [Hins Hinv'].
  - rewrite Hev. by apply op_events_sorted.
  - rewrite Hev. apply op_events_ids.
  - done.
  - rewrite Hins in Hrun. eexists _, _, new. split; [exact Hrun|]. split; [exact Hinv'|]. split; [exact Hev|].
    apply Forall2_fmap_l, Forall_Forall2_diag. rewrite Forall_forall. intros p Hp. split; [done|].
    unfold on_notice. cbn [nt_chunk nt_stream ss_rows]. destruct Hinv' as [Hwf' _]. cbn [ss_rows] in Hwf'.
    rewrite (find_row _ _ p Hwf') by (apply elem_of_app; by right).
    rewrite Forall_forall in Hok. pose proof (Hok p Hp) as Hpo.
    destruct (ph_eof p.1) eqn:Ee; [by rewrite (part_eof _ _ Hpo Ee)|]. apply (po_events _ _ Hpo).
Qed.

(** ** The live reader *)

Lemma rows_events_parts parts : Forall (fun p : part => part_ok p.1 p.2) parts -> rows_events parts.*1 = Ok (events_of parts).
Proof.
  induction 1 as [|p l Hp Hl IH]; [done|]. cbn [fmap list_fmap rows_events].
  rewrite (po_events _ _ Hp). cbn [result_bind]. by rewrite IH.
Qed.

Definition not_empty (d : bytes) : Prop := d <> [].
#[export] Instance not_empty_dec d : Decision (not_empty d).
Proof. unfold not_empty. apply _. Defined.

(** What a reader is to get of some events, and whether it is to end. *)
Definition delivered (offset : Z) (evs : list sevent) : list bytes :=
  filter not_empty (drop (Z.to_nat offset) (map se_data (until_eof evs))).
Definition has_eof (evs : list sevent) : bool := existsb se_eof evs.

Lemma enqueue_closed l r : rd_closed r = true -> fold_left enqueue l r = r.
Proof. intros Hc. induction l as [|e l IH]; [done|]. simpl. unfold enqueue at 2. by rewrite Hc. Qed.

(** Events at or behind the reader's last one change nothing. *)
Lemma enqueue_seen l r : Forall (fun e => str_le (se_id e) (rd_last r) = true) l -> fold_left enqueue l r = r.
Proof. induction 1 as [|e l He _ IH]; [done|]. simpl. unfold enqueue at 2. by rewrite He, orb_true_r. Qed.

Lemma enqueue_fresh evs : forall r, rd_closed r = false -> 0 <= rd_offset r ->
  Forall (fun e => str_lt (rd_last r) (se_id e) = true) evs -> StronglySorted event_before evs ->
  let r' := fold_left enqueue evs r in
  rd_out r' = rd_out r ++ delivered (rd_offset r) evs /\ rd_closed r' = has_eof evs /\
  (rd_closed r' = false -> rd_last r' = default (rd_last r) (se_id <$> last evs)).
Proof.
  induction evs as [|e evs IH]; intros r Hc Ho Hlt Hs; cbn zeta.
  { unfold delivered. simpl. rewrite drop_nil. cbn. by rewrite app_nil_r, Hc. }
  inversion_clear Hlt as [|? ? He _]. inversion_clear Hs as [|? ? Hs' Hall]. rewrite str_lt_not_le in He.
  apply negb_true_iff in He.
  assert (Hlast : forall s, default s (se_id <$> last (e :: evs)) = default (se_id e) (se_id <$> last evs)).
  { intros s. rewrite last_cons. by destruct (last evs). }
  assert (Hdel : forall n, delivered n (e :: evs) = if se_eof e then [] else
    filter not_empty (drop (Z.to_nat n) (se_data e :: map se_data (until_eof evs)))).
  { intros n. unfold delivered. cbn [until_eof]. destruct (se_eof e); cbn [map]; [by rewrite drop_nil|done]. }
  cbn [fold_left has_eof existsb]. assert (Hstep : enqueue r e = if se_eof e then Reader (se_id e) (rd_offset r) true (rd_out r)
    else if 0 <? rd_offset r then Reader (se_id e) (rd_offset r - 1) false (rd_out r)
    else Reader (se_id e) (rd_offset r) false (match se_data e with [] => rd_out r | _ => rd_out r ++ [se_data e] end)).
  { unfold enqueue. by rewrite Hc, He. }
  rewrite Hstep, Hdel, Hlast. destruct (se_eof e) eqn:Ee.
  { rewrite enqueue_closed by done. cbn [rd_out rd_closed]. by rewrite app_nil_r. }
  destruct (Z.ltb_spec 0 (rd_offset r)) as [H0|H0].
  - destruct (IH (Reader (se_id e) (rd_offset r - 1) false (rd_out r))) as (H1 & H2 & H3);
      [done|cbn [rd_offset]; lia|exact Hall|done|]. split; [|by split]. rewrite H1. cbn [rd_out rd_offset].
    by replace (Z.to_nat (rd_offset r)) with (S (Z.to_nat (rd_offset r - 1))) by lia.
  - assert (rd_offset r = 0) as Hz by lia. rewrite Hz in *.
    destruct (IH (Reader (se_id e) 0 false (match se_data e with [] => rd_out r | _ => rd_out r ++ [se_data e] end)))
      as (H1 & H2 & H3); [done|done|exact Hall|done|]. split; [|by split]. rewrite H1. cbn [rd_out rd_offset].
    unfold delivered. change (Z.to_nat 0) with 0%nat. rewrite !drop_0, filter_cons. destruct (se_data e) as [|x d] eqn:Ed.
    + by rewrite decide_False by (intros Hn; by apply Hn).
    + by rewrite decide_True, <- app_assoc.
Qed.

Lemma sorted_below_last evs y : StronglySorted event_before evs -> last evs = Some y ->
  Forall (fun e => str_le (se_id e) (se_id y) = true) evs.
Proof.
  intros Hs [l ->]%last_Some. apply sorted_app_iff in Hs as (_ & _ & Hl). apply Forall_app. split.
  - eapply Forall_impl; [exact Hl|]. intros e [He _]%Forall_cons. apply str_le_spec. right. by apply str_lt_spec.
  - constructor; [|constructor]. apply str_le_spec. by left.
Qed.

(** Reading a snapshot of the first events and then all from some point of it on. *)
Lemma enqueue_overlap evs j k off : StronglySorted event_before evs -> Forall (fun e => se_id e <> "") evs ->
  (j <= k)%nat -> 0 <= off ->
  let r := fold_left enqueue (take k evs ++ drop j evs) (Reader "" off false []) in
  rd_out r = delivered off evs /\ rd_closed r = has_eof evs.
Proof.
  intros Hs Hne Hjk Ho. cbn zeta. set (r0 := Reader "" off false []).
  assert (Hlt : Forall (fun e => str_lt (rd_last r0) (se_id e) = true) evs).
  { eapply Forall_impl; [exact Hne|]. intros e He. unfold r0. cbn beta in He. cbn [rd_last]. destruct (se_id e); [done|reflexivity]. }
  destruct (enqueue_fresh evs r0 eq_refl Ho Hlt Hs) as (H1 & H2 & _).
  assert (E : fold_left enqueue (take k evs ++ drop j evs) r0 = fold_left enqueue evs r0); [|by rewrite E].
  rewrite <- (take_drop (k - j) (drop j evs)), drop_drop. replace (j + (k - j))%nat with k by lia.
  rewrite !fold_left_app. transitivity (fold_left enqueue (drop k evs) (fold_left enqueue (take k evs) r0)).
  2: { by rewrite <- fold_left_app, take_drop. }
  f_equal.
  assert (Hmid : take (k - j) (drop j evs) = drop j (take k evs)) by (rewrite skipn_firstn_comm; done).
  rewrite Hmid. destruct (rd_closed (fold_left enqueue (take k evs) r0)) eqn:Ec; [by apply enqueue_closed|].
  apply enqueue_seen. rewrite <- (take_drop k evs) in Hs, Hlt. apply sorted_app_iff in Hs as (Hs & _ & _).
  apply Forall_app in Hlt as [Hlt _].
  destruct (enqueue_fresh (take k evs) r0 eq_refl Ho Hlt Hs) as (_ & _ & H3). rewrite (H3 Ec). clear -Hs.
  apply Forall_drop. destruct (last (take k evs)) as [y|] eqn:Ey; [by apply sorted_below_last|].
  apply last_None in Ey as ->. constructor.
Qed.

Lemma events_take parts k : events_of (take k parts) = take (length (events_of (take k parts))) (events_of parts).
Proof.
  unfold events_of. rewrite <- (take_drop k parts) at 3. rewrite fmap_app, concat_app. by rewrite take_app_length.
Qed.

Lemma events_drop parts k : events_of (drop k parts) = drop (length (events_of (take k parts))) (events_of parts).
Proof.
  unfold events_of. rewrite <- (take_drop k parts) at 3. rewrite fmap_app, concat_app. by rewrite drop_app_length.
Qed.

Lemma events_take_le parts j k : (j <= k)%nat ->
  (length (events_of (take j parts)) <= length (events_of (take k parts)))%nat.
Proof.
  intros Hjk. assert (take j parts = take j (take k parts)) as -> by (rewrite take_take; f_equal; lia).
  unfold events_of. rewrite <- (take_drop j (take k parts)) at 2. rewrite fmap_app, concat_app, length_app. lia.
Qed.

Lemma until_eof_parts parts : Forall (fun p => part_ok p.1 p.2) parts -> until_eof (events_of parts) = stream_data parts.
Proof.
  induction 1 as [|p l Hp Hl IH]; [done|]. unfold stream_data in *. cbn [data_parts]. unfold is_data.
  change (events_of (p :: l)) with (p.2 ++ events_of l). destruct (ph_eof p.1) eqn:Ee; cbn [negb].
  - rewrite (part_eof _ _ Hp Ee). done.
  - destruct (part_data _ _ Hp Ee) as [_ Hd]. change (events_of (p :: data_parts l)) with (p.2 ++ events_of (data_parts l)).
    rewrite <- IH. clear -Hd. induction Hd as [|e k He _ IH]; [done|]. simpl. by rewrite He, IH.
Qed.

Lemma has_eof_parts parts : Forall (fun p => part_ok p.1 p.2) parts ->
  has_eof (events_of parts) = existsb (fun p => ph_eof p.1) parts.
Proof.
  induction 1 as [|p l Hp Hl IH]; [done|]. change (events_of (p :: l)) with (p.2 ++ events_of l).
  unfold has_eof in *. rewrite existsb_app, IH. cbn [existsb]. f_equal. destruct (ph_eof p.1) eqn:Ee.
  - by rewrite (part_eof _ _ Hp Ee).
  - destruct (part_data _ _ Hp Ee) as [_ Hd]. clear -Hd. induction Hd as [|e k He _ IH]; [done|]. simpl. by rewrite He.
Qed.

Lemma part_prefix_events parts : Forall (fun p => part_ok p.1 p.2) parts -> Forall (fun e => se_id e <> "") (events_of parts).
Proof.
  induction 1 as [|p l Hp _ IH]; [constructor|]. change (events_of (p :: l)) with (p.2 ++ events_of l).
  apply Forall_app. split; [|done]. eapply Forall_impl; [exact (po_prefix _ _ Hp)|]. intros e. apply prefix_nonempty.
Qed.

(** Where a reader starts, given the chunks its snapshot has before the end. *)
Definition reader_start (startIndex : option Z) (known : nat) : Z :=
  let i := default 0 startIndex in if i <? 0 then Z.max 0 (Z.of_nat known + i) else i.

(** C21 However the rows a live reader finds and the announcements it hears
    overlap, it is given every chunk from its start to the end of the stream
    exactly once and in order, nothing behind the end, and it ends if and only
    if the stream does. *)
Theorem reader_exactly_once startIndex rows snapshot parts j k buffered live :
  stream_wf rows parts -> sort_by ph_id snapshot = (take k parts).*1 -> (j <= k)%nat ->
  buffered ++ live = events_of (drop j parts) ->
  exists r, get_stream startIndex snapshot buffered live = Ok r /\
    rd_out r = filter not_empty (drop (Z.to_nat (reader_start startIndex (length (stream_data (take k parts)))))
      (se_data <$> stream_data parts)) /\
    rd_closed r = existsb (fun p => ph_eof p.1) parts.
Proof.
  intros [Hr Hok Hs] Hsnap Hjk Hb. unfold get_stream. rewrite Hsnap.
  assert (Htake : Forall (fun p => part_ok p.1 p.2) (take k parts)) by (by apply Forall_take).
  rewrite (rows_events_parts _ Htake). cbn [result_bind]. eexists. split; [done|].
  unfold start_offset. rewrite (until_eof_parts _ Htake).
  fold (reader_start startIndex (length (stream_data (take k parts)))).
  set (start := reader_start _ _). assert (Hstart : 0 <= start).
  { unfold start, reader_start. destruct (Z.ltb_spec (default 0 startIndex) 0); lia. }
  rewrite <- fold_left_app, <- app_assoc, Hb, events_drop.
  assert (E := events_take parts k). rewrite E.
  destruct (enqueue_overlap (events_of parts) _ _ start Hs (part_prefix_events _ Hok) (events_take_le parts j k Hjk) Hstart)
    as [H1 H2].
  rewrite H1, H2, (has_eof_parts _ Hok). split; [|done]. unfold delivered. by rewrite (until_eof_parts _ Hok).
Qed.

(** ** The number of chunks *)

Lemma counts_data (dp : list part) : Forall (fun p => part_ok p.1 p.2) dp -> Forall (fun p => is_data p = true) dp ->
  foldr (fun r n => default 1 (ph_count r) + n) 0 dp.*1 = Z.of_nat (length (events_of dp)).
Proof.
  induction 1 as [|p l Hp Hl IH]; intros Hd; [done|]. inversion_clear Hd as [|? ? Hd1 Hd2].
  unfold is_data in Hd1. apply negb_true_iff in Hd1. rewrite fmap_cons. cbn [foldr]. rewrite (IH Hd2), (po_count _ _ Hp Hd1).
  change (events_of (p :: l)) with (p.2 ++ events_of l). rewrite length_app. lia.
Qed.

Lemma foldr_count_perm (l k : list phys_row) : l ≡ₚ k ->
  foldr (fun r n => default 1 (ph_count r) + n) 0 l = foldr (fun r n => default 1 (ph_count r) + n) 0 k.
Proof. induction 1; simpl; lia. Qed.

(** [getInfo] counts the chunks a reader can get: its tail index is that of
    the last chunk before the stream's end, -1 for none, and it calls the stream
    done if and only if it has an end. *)
Theorem info_counts_chunks T name table parts : stream_wf (stream_rows T name table) parts ->
  getInfo T name table = (Z.of_nat (length (stream_data parts)) - 1, existsb (fun p => ph_eof p.1) parts).
Proof.
  intros Hwf. unfold getInfo. rewrite (findFirstEof_parts _ _ Hwf). f_equal.
  - f_equal. destruct (wf_data_parts _ _ Hwf) as [Hok _]. unfold stream_data. rewrite <- (counts_data _ Hok (data_parts_data parts)).
    apply foldr_count_perm. rewrite <- (sort_by_perm ph_id (filter _ _)), filter_sort_by, (sw_rows _ _ Hwf).
    rewrite <- (filter_before_eof _ _ Hwf).
    rewrite <- (filter_parts (fun r => negb (ph_eof r) && before_eof (first_eof parts) r)).
    rewrite (list_filter_iff _ (fun r => negb (ph_eof r) && before_eof (first_eof parts) r = true)); [done|].
    intros r. rewrite andb_true_iff, negb_true_iff. tauto.
  - unfold first_eof. destruct (data_parts_split parts) as (post & E & Hp). rewrite (drop_data_parts _ _ E).
    pose proof (data_parts_data parts) as Hd.
    assert (Ex : existsb (fun p : part => ph_eof p.1) parts = existsb (fun p : part => ph_eof p.1) (data_parts parts) ||
      existsb (fun p : part => ph_eof p.1) post) by (rewrite E at 1; apply existsb_app). rewrite Ex. clear Ex.
    assert (existsb (fun p : part => ph_eof p.1) (data_parts parts) = false) as ->.
    { clear E. induction Hd as [|p l Hp1 _ IH]; [done|]. simpl. unfold is_data in Hp1. apply negb_true_iff in Hp1. by rewrite Hp1. }
    destruct post as [|p post]; [done|]. unfold is_data in Hp. apply negb_false_iff in Hp. simpl. by rewrite Hp.
Qed.

(** ** A concrete stream: a chunk of its own, a block of two, and the end *)

Definition demo_rows : list phys_row :=
  match packStreamChunks [Chunk "chnk_2" []; Chunk "chnk_3" (text_bytes "three")] None None with
  | Ok [b] => [PhysRow "chnk_4" None None None [] true; block_row b;
               PhysRow "chnk_1" (Some "chnk_1") (Some 1) (Some 1) (text_bytes "one") false]
  | _ => []
  end.
Definition demo_table : list stream_row := map (StreamRow "t" "s" (Some "r")) demo_rows.
Definition demo_parts : list part :=
  omap (fun r => match row_events r with Ok l => Some (r, l) | Err _ => None end) (rev demo_rows).

Lemma demo_parts_ok : Forall (fun p => part_ok p.1 p.2) demo_parts.
Proof. vm_compute. repeat constructor; vm_compute; congruence. Qed.

Lemma demo_wf : stream_wf demo_rows demo_parts.
Proof.
  split; [vm_compute; reflexivity|exact demo_parts_ok|]. vm_compute. repeat constructor.
Qed.

Lemma demo_stream : stream_rows "t" "s" demo_table = demo_rows.
Proof. vm_compute. reflexivity. Qed.

Lemma stream_paged_witness :
  stream_wf (stream_rows "t" "s" demo_table) demo_parts /\
  read_stream "t" "s" 4 2 demo_table None = Ok [(0, text_bytes "one"); (1, []); (2, text_bytes "three")].
Proof.
  assert (Hwf : stream_wf (stream_rows "t" "s" demo_table) demo_parts) by (rewrite demo_stream; exact demo_wf).
  split; [exact Hwf|].
  assert (E : length (stream_data demo_parts) = 3%nat) by (vm_compute; reflexivity).
  pose proof (stream_paged "t" "s" 2 demo_table demo_parts ltac:(lia) Hwf ltac:(rewrite E; lia)) as Hp.
  rewrite E in Hp. rewrite Hp. vm_compute. reflexivity.
Defined.

Lemma info_counts_chunks_witness : stream_wf (stream_rows "t" "s" demo_table) demo_parts /\
  getInfo "t" "s" demo_table = (2, true).
Proof.
  assert (Hwf : stream_wf (stream_rows "t" "s" demo_table) demo_parts) by (rewrite demo_stream; exact demo_wf).
  split; [exact Hwf|]. rewrite (info_counts_chunks "t" "s" demo_table demo_parts Hwf). vm_compute. reflexivity.
Defined.

(** A reader from the second chunk on, whose snapshot has the first row and
    which is told of the block twice and of the end. *)
Lemma reader_exactly_once_witness :
  exists r, get_stream (Some 1) (take 1 (rev demo_rows)) (events_of demo_parts) [] = Ok r /\
    rd_out r = [text_bytes "three"] /\ rd_closed r = true.
Proof.
  destruct (reader_exactly_once (Some 1) demo_rows (take 1 (rev demo_rows)) demo_parts 0 1 (events_of demo_parts) []
    demo_wf ltac:(vm_compute; reflexivity) ltac:(lia) ltac:(rewrite app_nil_r; reflexivity)) as (r & H1 & H2 & H3).
  exists r. split; [exact H1|]. split; [rewrite H2|rewrite H3]; vm_compute; reflexivity.
Defined.

Lemma empty_inv : stream_inv "t" "s" (StreamState [] 0) [].
Proof. repeat constructor. Qed.

Lemma writes_extend_stream_witness :
  exists notices st' new, run_op "t" "s" "r" id (OpWriteMulti [text_bytes "a"; text_bytes "b"]) (StreamState [] 0) = (Ok notices, st') /\
    stream_inv "t" "s" st' new /\ map se_data (events_of new) = [text_bytes "a"; text_bytes "b"].
Proof.
  destruct (writes_extend_stream "t" "s" "r" id (OpWriteMulti [text_bytes "a"; text_bytes "b"]) (StreamState [] 0) []
    empty_inv ltac:(repeat constructor; vm_compute; congruence) ltac:(vm_compute; reflexivity))
    as (notices & st' & new & H1 & H2 & H3 & _).
  exists notices, st', new. split; [exact H1|]. split; [exact H2|]. rewrite H3. vm_compute. reflexivity.
Defined.
