(* ===== verification/ListenerProps.v ===== *)
(** The events of a stream come out in the order its rows were announced in,
    whatever the reads take (src/streamer.ts), and the mutexes are never dropped. *)
From S2P Require Import Prelude Model Bytes Paging Sdk Tenant StreamBlocks Streamer Listener.

(** ** What has come out *)

Definition task_out (t : task) : list sevent := match tk_at t with TaskSettled es => es | _ => [] end.
Definition task_key (t : task) : string := nt_stream (tk_notice t).
(** What a task has emitted for a stream, and what all have. *)
Definition out_for (key : string) (t : task) : list sevent := if String.eqb (task_key t) key then task_out t else [].
Definition emitted_for (key : string) (l : listener) : list sevent :=
  (filter (fun ke => ke.1 = key) (ls_emitted l)).*2.

(** A later task of the same stream is further back. *)
Definition before (l : listener) (i j : nat) : Prop := i < j /\
  exists t u, ls_tasks l !! i = Some t /\ ls_tasks l !! j = Some u /\ task_key t = task_key u.

Record orderly (l : listener) : Prop := Orderly {
  od_mutex : forall key, match ls_mutexes l !! key with
    | Some m => exists i, rc_promise m = Some i /\ (exists t, ls_tasks l !! i = Some t /\ task_key t = key) /\
        forall j u, ls_tasks l !! j = Some u -> task_key u = key -> j <= i
    | None => forall j u, ls_tasks l !! j = Some u -> task_key u <> key
    end;
  od_chain : forall j n p, ls_tasks l !! j = Some (Task n (Chained p)) ->
    match p with
    | Some i => before l i j /\ forall k, before l k j -> k <= i
    | None => forall k, ~ before l k j
    end;
  od_settled : forall i j, before l i j ->
    (exists u, ls_tasks l !! j = Some u /\ forall p, tk_at u <> Chained p) ->
    exists t, ls_tasks l !! i = Some t /\ is_settled t = true;
  od_out : forall key, emitted_for key l = concat (out_for key <$> ls_tasks l)
}.

Lemma orderly_new : orderly new_listener.
Proof.
  split; [|done| |done].
  - intros key. cbn. rewrite lookup_empty. intros j u Hj. by destruct j.
  - intros i j (_ & t & u & Ht & _). by destruct i.
Qed.

(** ** A notification *)

Lemma lookup_snoc {A} (l : list A) x i y : (l ++ [x]) !! i = Some y -> l !! i = Some y \/ i = length l /\ y = x.
Proof.
  intros H. apply lookup_app_Some in H as [H|[Hle H]]; [by left|right].
  destruct (i - length l) as [|k] eqn:E; [injection H as <-; split; [lia|done]|by destruct k].
Qed.

Lemma before_snoc l m es x i j : before (Listener m (ls_tasks l ++ [x]) es) i j ->
  before l i j \/ j = length (ls_tasks l) /\ exists t, ls_tasks l !! i = Some t /\ task_key t = task_key x.
Proof.
  intros (Hlt & t & u & Ht & Hu & E). cbn in *. apply lookup_snoc in Hu as [Hu|[-> ->]].
  - left. split; [done|]. exists t, u. apply lookup_snoc in Ht as [Ht|[-> _]]; [done|]. apply lookup_lt_Some in Hu. lia.
  - right. split; [done|]. apply lookup_snoc in Ht as [Ht|[-> _]]; [by exists t|lia].
Qed.

Lemma before_grows l m es x i j : before l i j -> before (Listener m (ls_tasks l ++ [x]) es) i j.
Proof. intros (Hlt & t & u & Ht & Hu & E). split; [done|]. exists t, u. cbn. split_and!; [by apply lookup_app_l_Some..|done]. Qed.

Lemma orderly_notified n b l : orderly l -> orderly (notified n b l).
Proof.
  intros [I1 I2 I3 I4]. unfold notified. destruct b; [|done]. unfold andThen, getMutex. cbn. rewrite lookup_insert_eq. cbn.
  set (p := rc_promise (default (Rc 0 None) (ls_mutexes l !! nt_stream n))). set (key := nt_stream n).
  assert (Hp : match p with
    | Some i => (exists t, ls_tasks l !! i = Some t /\ task_key t = key) /\ forall j u, ls_tasks l !! j = Some u -> task_key u = key -> j <= i
    | None => forall j u, ls_tasks l !! j = Some u -> task_key u <> key end).
  { unfold p. specialize (I1 key). unfold key in *. destruct (ls_mutexes l !! nt_stream n) as [m|]; cbn; [|exact I1].
    destruct I1 as (i & -> & Hi & Hj). by split. }
  split; cbn.
  - intros k. rewrite insert_insert_eq. destruct (decide (k = key)) as [->|Hne].
    + rewrite lookup_insert_eq. exists (length (ls_tasks l)). split; [done|]. split.
      * exists (Task n (Chained p)). rewrite lookup_app_r, Nat.sub_diag by done. done.
      * intros j u Hj _. apply lookup_lt_Some in Hj. rewrite length_app in Hj. cbn in Hj. lia.
    + rewrite lookup_insert_ne by done. specialize (I1 k). destruct (ls_mutexes l !! k) as [m|].
      * destruct I1 as (i & E & (t & Ht & Ek) & Hmax). exists i. split; [done|]. split.
        { exists t. split; [by apply lookup_app_l_Some|done]. }
        intros j u Hj Hu. apply lookup_snoc in Hj as [Hj|[-> ->]]; [eauto|]. by destruct Hne.
      * intros j u Hj Hu. apply lookup_snoc in Hj as [Hj|[-> ->]]; [by apply (I1 j u)|]. by destruct Hne.
  - intros j n' q Hj. apply lookup_snoc in Hj as [Hj|[-> [= -> ->]]].
    + specialize (I2 j n' q Hj). pose proof (lookup_lt_Some _ _ _ Hj). destruct q as [i|].
      * destruct I2 as [H1 H2]. split; [by apply before_grows|]. intros k [Hk|[E _]]%before_snoc; [auto|lia].
      * intros k [Hk|[E _]]%before_snoc; [by apply (I2 k)|lia].
    + destruct p as [i|].
      * destruct Hp as [(t & Ht & Ek) Hmax]. pose proof (lookup_lt_Some _ _ _ Ht). split.
        { split; [done|]. exists t, (Task n (Chained (Some i))). cbn. split_and!; [by apply lookup_app_l_Some|by rewrite lookup_app_r, Nat.sub_diag by done|done]. }
        intros k [(Hk & t' & u & _ & Hu & _)|[_ (t' & Ht' & Ek')]]%before_snoc; [apply lookup_lt_Some in Hu; lia|]. by eapply Hmax.
      * intros k [(Hk & t' & u & _ & Hu & _)|[_ (t' & Ht' & Ek')]]%before_snoc; [apply lookup_lt_Some in Hu; lia|]. by eapply Hp.
  - intros i j Hb (u & Hu & Hnc). apply lookup_snoc in Hu as [Hu|[-> ->]]; [|by destruct (Hnc p)].
    pose proof (lookup_lt_Some _ _ _ Hu). apply before_snoc in Hb as [Hb|[E _]]; [|lia].
    destruct (I3 i j Hb) as (t & Ht & Hst); [by exists u|]. exists t. split; [by apply lookup_app_l_Some|done].
  - intros k. specialize (I4 k). unfold emitted_for in *. cbn [ls_emitted ls_tasks]. rewrite I4, fmap_app, concat_app. cbn.
    unfold out_for at 3. cbn. destruct (String.eqb _ _); by rewrite app_nil_r.
Qed.

(** ** A task that goes on *)

Lemma concat_insert {A B} (f : A -> list B) (l : list A) i t t' : l !! i = Some t -> f t = [] ->
  (forall j u, i < j -> l !! j = Some u -> f t' = [] \/ f u = []) -> concat (f <$> <[i := t']> l) = concat (f <$> l) ++ f t'.
Proof.
  revert i. induction l as [|x l IH]; intros [|i] Hi Ht Hl; try done.
  - injection Hi as ->. change (f t' ++ concat (f <$> l) = (f t ++ concat (f <$> l)) ++ f t'). rewrite Ht.
    assert (Hc : f t' = [] \/ concat (f <$> l) = []).
    { clear IH. induction l as [|u l IH]; [by right|]. destruct (Hl 1 u ltac:(lia) eq_refl) as [E|E]; [by left|].
      destruct IH as [|E']; [|by left|right; change (f u ++ concat (f <$> l) = []); by rewrite E, E'].
      intros [|j] v Hj Hv; [lia|]. apply (Hl (S (S j)) v); [lia|done]. }
    destruct Hc as [E|E]; rewrite E; cbn; by rewrite ?app_nil_r.
  - change (f x ++ concat (f <$> <[i:=t']> l) = (f x ++ concat (f <$> l)) ++ f t').
    rewrite (IH i Hi Ht), app_assoc; [done|]. intros j u Hj Hu. apply (Hl (S j) u); [lia|done].
Qed.

Lemma before_insert l m es i n a x j k : ls_tasks l !! i = Some (Task n a) ->
  before (Listener m (<[i := Task n x]> (ls_tasks l)) es) j k <-> before l j k.
Proof.
  intros Hi. assert (Hlt : i < length (ls_tasks l)) by (by eapply lookup_lt_Some).
  assert (Hto : forall b t, <[i := Task n x]> (ls_tasks l) !! b = Some t -> exists t', ls_tasks l !! b = Some t' /\ task_key t' = task_key t).
  { intros b t Hb. apply list_lookup_insert_Some in Hb as [(<- & <- & _)|[_ Hb]]; [by exists (Task n a)|by exists t]. }
  assert (Hfrom : forall b t, ls_tasks l !! b = Some t -> exists t', <[i := Task n x]> (ls_tasks l) !! b = Some t' /\ task_key t' = task_key t).
  { intros b t Hb. destruct (decide (i = b)) as [<-|]; [|exists t; by rewrite list_lookup_insert_ne].
    exists (Task n x). rewrite list_lookup_insert_eq by done. by simplify_eq. }
  split; intros (Hjk & t & u & Ht & Hu & E); (split; [done|]); cbn in *.
  - destruct (Hto j t Ht) as (t' & ? & E1), (Hto k u Hu) as (u' & ? & E2). exists t', u'. split_and!; [done..|congruence].
  - destruct (Hfrom j t Ht) as (t' & ? & E1), (Hfrom k u Hu) as (u' & ? & E2). exists t', u'. split_and!; [done..|congruence].
Qed.

(** A task that may begin, begins or settles with what it emits. *)
Lemma orderly_goes_on l i n a x : orderly l -> ls_tasks l !! i = Some (Task n a) -> is_settled (Task n a) = false ->
  (forall p, x <> Chained p) -> (forall k, before l k i -> exists t, ls_tasks l !! k = Some t /\ is_settled t = true) ->
  orderly (Listener (ls_mutexes l) (<[i := Task n x]> (ls_tasks l))
             (ls_emitted l ++ ((fun e => (nt_stream n, e)) <$> task_out (Task n x)))).
Proof.
  intros [I1 I2 I3 I4] Hi Ha Hx Hbef. set (l' := Listener _ _ _).
  assert (Hlt : i < length (ls_tasks l)) by (by eapply lookup_lt_Some).
  assert (Hb : forall j k, before l' j k <-> before l j k) by (intros j k; by eapply before_insert).
  assert (Hto : forall b t, ls_tasks l' !! b = Some t -> exists t', ls_tasks l !! b = Some t' /\ task_key t' = task_key t).
  { intros b t Hbt. apply list_lookup_insert_Some in Hbt as [(<- & <- & _)|[_ Hbt]]; [by exists (Task n a)|by exists t]. }
  assert (Hset : forall k t, ls_tasks l !! k = Some t -> is_settled t = true -> ls_tasks l' !! k = Some t).
  { intros k t Hk Hst. cbn. rewrite list_lookup_insert_ne; [done|]. intros <-. simplify_eq. congruence. }
  split.
  - intros key. specialize (I1 key). cbn. destruct (ls_mutexes l !! key) as [m|].
    + destruct I1 as (j & E & (t & Ht & Ek) & Hmax). exists j. split; [done|]. split.
      * destruct (decide (i = j)) as [<-|]; [|exists t; by rewrite list_lookup_insert_ne].
        exists (Task n x). rewrite list_lookup_insert_eq by done. by simplify_eq.
      * intros k u Hk Hu. destruct (Hto k u Hk) as (u' & Hu' & Ek'). eapply Hmax; [done|congruence].
    + intros k u Hk Hu. destruct (Hto k u Hk) as (u' & Hu' & Ek'). eapply I1; [done|congruence].
  - intros j n' p Hj. cbn in Hj. apply list_lookup_insert_Some in Hj as [(_ & [= _ E] & _)|[_ Hj]]; [by destruct (Hx p)|].
    specialize (I2 j n' p Hj). destruct p as [q|]; [|intros k; rewrite Hb; apply I2].
    destruct I2 as [H1 H2]. split; [by rewrite Hb|]. intros k. rewrite Hb. apply H2.
  - intros j k Hjk (u & Hu & Hnc). rewrite Hb in Hjk. cbn in Hu. apply list_lookup_insert_Some in Hu as [(<- & _ & _)|[_ Hu]].
    + destruct (Hbef j Hjk) as (t & Ht & Hst). exists t. split; [by apply Hset|done].
    + destruct (I3 j k Hjk) as (t & Ht & Hst); [by exists u|]. exists t. split; [by apply Hset|done].
  - intros key. cbn [ls_tasks l']. rewrite (concat_insert (out_for key) (ls_tasks l) i (Task n a)); [|done|..].
    + rewrite <- I4. unfold emitted_for, l'. cbn [ls_emitted]. rewrite filter_app, fmap_app. f_equal.
      unfold out_for. cbn [task_key tk_notice]. change (task_key (Task n x)) with (nt_stream n). destruct (String.eqb_spec (nt_stream n) key) as [E|E].
      * rewrite filter_all; [by rewrite <- list_fmap_compose, list_fmap_id|]. by intros ke (e & -> & _)%list_elem_of_fmap.
      * rewrite filter_none; [done|]. by intros ke (e & -> & _)%list_elem_of_fmap.
    + unfold out_for, task_out. cbn. by destruct (String.eqb _ _), a.
    + intros j u Hij Hu. unfold out_for. change (task_key (Task n x)) with (nt_stream n). destruct (String.eqb_spec (nt_stream n) key) as [E|E]; [|by left].
      destruct (String.eqb_spec (task_key u) key) as [E'|E']; [|by right]. right. unfold task_out. destruct (tk_at u) eqn:Eu; [done..|].
      destruct (I3 i j) as (t & Ht & Hst); [|exists u; split; [done|]; intros p; congruence|simplify_eq; congruence].
      split; [done|]. exists (Task n a), u. split_and!; [done..|]. unfold task_key at 1. cbn. congruence.
Qed.

Lemma task_starts_orderly i l l' : orderly l -> task_starts i l = Some l' -> orderly l'.
Proof.
  intros Ho H. unfold task_starts in H. destruct (ls_tasks l !! i) as [[n [p| |]]|] eqn:Hi; try done.
  destruct (match p with None => true | Some _ => _ end) eqn:Hp; simplify_eq.
  assert (Hg : orderly (Listener (ls_mutexes l) (<[i := Task n Reading]> (ls_tasks l)) (ls_emitted l ++ [])));
    [|by rewrite app_nil_r in Hg].
  apply (orderly_goes_on l i n (Chained p) Reading); [done..|]. intros k Hk. pose proof (od_chain l Ho i n p Hi) as Hc.
  destruct p as [q|]; [|by destruct (Hc k)]. destruct Hc as [(Hqi & t & u & Hq & Hu & E) Hmax].
  rewrite Hq in Hp. cbn in Hp. pose proof (Hmax k Hk) as Hle. destruct (decide (k = q)) as [->|Hne]; [by exists t|].
  destruct Hk as (Hki & t' & u' & Ht' & Hu' & E'). apply (od_settled l Ho k q).
  - split; [lia|]. exists t', t. split_and!; [done..|]. simplify_eq. congruence.
  - exists t. split; [done|]. unfold is_settled in Hp. by destruct (tk_at t).
Qed.

Lemma task_read_orderly tenantId i table l l' : orderly l -> task_read tenantId i table l = Some l' -> orderly l'.
Proof.
  intros Ho H. unfold task_read in H. destruct (ls_tasks l !! i) as [[n [p| |]]|] eqn:Hi; try done. simplify_eq.
  apply (orderly_goes_on l i n Reading (TaskSettled _)); [done..|].
  intros k Hk. apply (od_settled l Ho k i Hk). by exists (Task n Reading).
Qed.

Lemma listener_steps_orderly tenantId es l l' : orderly l -> listener_steps tenantId l es = Some l' -> orderly l'.
Proof.
  revert l. induction es as [|e es IH]; intros l Ho H; cbn in H; [by simplify_eq|].
  destruct (listener_step tenantId l e) as [l1|] eqn:E; [|done]. eapply IH; [|exact H].
  destruct e; cbn in E; simplify_eq; eauto using orderly_notified, task_starts_orderly, task_read_orderly.
Qed.

(** What a listener has been told while someone listened. *)
Definition heard (es : list listener_event) : list notice :=
  omap (fun e => match e with Notified n true => Some n | _ => None end) es.

(** A task is that of its announcement, and emits what its read gives. *)
Definition read_right (tenantId : string) (t : task) : Prop :=
  forall out, tk_at t = TaskSettled out -> out = [] \/ exists table, on_notice tenantId (tk_notice t) table = Ok out.

Lemma listener_steps_tasks tenantId es l l' : listener_steps tenantId l es = Some l' ->
  Forall (read_right tenantId) (ls_tasks l) ->
  tk_notice <$> ls_tasks l' = (tk_notice <$> ls_tasks l) ++ heard es /\ Forall (read_right tenantId) (ls_tasks l').
Proof.
  revert l. induction es as [|e es IH]; intros l H Hr; cbn in H; [simplify_eq; by rewrite app_nil_r|].
  destruct (listener_step tenantId l e) as [l1|] eqn:E; [|done]. destruct e as [n []|i|i table]; cbn in E.
  - injection E as <-. destruct (IH _ H) as [-> Hr']; [apply Forall_app; split; [done|constructor; [by intros out|constructor]]|].
    split; [|done]. cbn [notified andThen getMutex ls_tasks]. rewrite fmap_app, <- app_assoc. done.
  - injection E as <-. by apply IH.
  - unfold task_starts in E. destruct (ls_tasks l !! i) as [[n [p| |]]|] eqn:Hi; try done. destruct (match p with None => _ | Some _ => _ end); simplify_eq.
    destruct (IH _ H) as [-> Hr']; [apply Forall_insert; [done|by intros out]|]. split; [|done]. cbn [ls_tasks].
    rewrite list_fmap_insert. change (heard (TaskStarts i :: es)) with (heard es). f_equal. apply list_insert_id. by rewrite list_lookup_fmap, Hi.
  - unfold task_read in E. destruct (ls_tasks l !! i) as [[n [p| |]]|] eqn:Hi; try done. simplify_eq. destruct (IH _ H) as [-> Hr'].
    + apply Forall_insert; [done|]. intros out [= <-]. destruct table as [table|]; cbn; [|by left].
      destruct (on_notice tenantId n table) as [out|] eqn:Eo; [right; by exists table|by left].
    + split; [|done]. cbn [ls_tasks]. rewrite list_fmap_insert. change (heard (TaskRead i table :: es)) with (heard es). f_equal.
      apply list_insert_id. by rewrite list_lookup_fmap, Hi.
Qed.

(** While a task has not settled, one can go on. *)
Lemma unsettled_goes_on tenantId l : orderly l ->
  (forall e l', listener_step tenantId l e = Some l' -> exists n b, e = Notified n b) -> Forall (fun t => is_settled t = true) (ls_tasks l).
Proof.
  intros Ho Hstuck. apply Forall_lookup. intros i. induction i as [i IH] using lt_wf_ind. intros [n a] Hi.
  destruct a as [p| |out]; [exfalso..|done].
  - destruct (task_starts i l) as [l'|] eqn:E; [by destruct (Hstuck (TaskStarts i) l' E) as (? & ? & ?)|].
    unfold task_starts in E. rewrite Hi in E. pose proof (od_chain l Ho i n p Hi) as Hc. destruct p as [q|]; [|done].
    destruct Hc as [(Hq & t & u & Ht & _) _]. rewrite Ht in E. cbn in E. by rewrite (IH q Hq t Ht) in E.
  - destruct (task_read tenantId i None l) as [l'|] eqn:E; [by destruct (Hstuck (TaskRead i None) l' E) as (? & ? & ?)|].
    unfold task_read in E. by rewrite Hi in E.
Qed.

(** C39 However long each read of a row takes, the events of a stream come out in
    the order its rows were announced in: those of one announcement whole, each
    what its row gave when it was read, an announcement before none of the
    same stream that came earlier, a failed read in no one's way; and while an
    announcement is left, one can be read. *)
Theorem events_in_announced_order tenantId es l : listener_steps tenantId new_listener es = Some l ->
  tk_notice <$> ls_tasks l = heard es /\ Forall (read_right tenantId) (ls_tasks l) /\
  (forall key, emitted_for key l = concat (out_for key <$> ls_tasks l)) /\
  (forall i j, before l i j -> (exists u, ls_tasks l !! j = Some u /\ forall p, tk_at u <> Chained p) ->
     exists t, ls_tasks l !! i = Some t /\ is_settled t = true) /\
  ((forall e l', listener_step tenantId l e = Some l' -> exists n b, e = Notified n b) ->
     Forall (fun t => is_settled t = true) (ls_tasks l)).
Proof.
  intros H. pose proof (listener_steps_orderly tenantId es _ _ orderly_new H) as Ho.
  destruct (listener_steps_tasks tenantId es _ _ H) as [Hn Hr]; [constructor|].
  split_and!; [done|done|exact (od_out l Ho)|exact (od_settled l Ho)|by apply unsettled_goes_on].
Qed.

(** ** On concrete announcements *)

Definition demo_rows : list stream_row :=
  [StreamRow "t" "a" None (PhysRow "chnk_1" None None None (text_bytes "x") false);
   StreamRow "t" "a" None (PhysRow "chnk_2" None None None [] true);
   StreamRow "t" "b" None (PhysRow "chnk_3" None None None (text_bytes "y") false)].

(** Two announcements of one stream and one of another, whose read is done first;
    the second of the first stream cannot begin before the first is read. *)
Definition demo_hearing : list listener_event :=
  [Notified (Notice "a" "chnk_1") true; Notified (Notice "a" "chnk_2") true; Notified (Notice "b" "chnk_3") true;
   TaskStarts 2; TaskStarts 0; TaskRead 2 (Some demo_rows); TaskRead 0 (Some demo_rows); TaskStarts 1; TaskRead 1 (Some demo_rows)].

Lemma events_in_announced_order_witness :
  exists l, listener_steps "t" new_listener demo_hearing = Some l /\
    ls_emitted l = [("b", SEvent "chnk_3" (text_bytes "y") false); ("a", SEvent "chnk_1" (text_bytes "x") false);
                    ("a", SEvent "chnk_2" [] true)] /\
    emitted_for "a" l = concat (out_for "a" <$> ls_tasks l).
Proof.
  eexists. split; [vm_compute; reflexivity|]. split; [reflexivity|].
  apply (events_in_announced_order "t" demo_hearing). vm_compute. reflexivity.
Defined.

Lemma second_read_waits : listener_steps "t" new_listener (take 3 demo_hearing ++ [TaskStarts 1]) = None.
Proof. reflexivity. Qed.

(** ** The mutexes are never dropped *)

Lemma mutex_counts tenantId es l l' key m : listener_steps tenantId l es = Some l' -> ls_mutexes l !! key = Some m ->
  exists m', ls_mutexes l' !! key = Some m' /\ rc_count m' = rc_count m + length (filter (fun n => nt_stream n = key) (heard es)).
Proof.
  revert l m. induction es as [|e es IH]; intros l m H Hm; cbn in H; [simplify_eq; exists m; by rewrite Nat.add_0_r|].
  destruct (listener_step tenantId l e) as [l1|] eqn:E; [|done].
  assert (Hstep : exists m1, ls_mutexes l1 !! key = Some m1 /\
    rc_count m1 = rc_count m + length (filter (fun n => nt_stream n = key) (heard [e]))).
  { destruct e as [n []|i|i table]; cbn in E.
    - injection E as <-. cbn. destruct (decide (nt_stream n = key)) as [<-|Hne].
      + rewrite lookup_insert_eq. eexists. split; [done|]. rewrite lookup_insert_eq. cbn. rewrite Hm. cbn. lia.
      + rewrite !lookup_insert_ne by done. exists m. split; [done|]. cbn. lia.
    - injection E as <-. exists m. split; [done|]. cbn. lia.
    - unfold task_starts in E. destruct (ls_tasks l !! i) as [[n [p| |]]|]; try done.
      destruct (match p with None => _ | Some _ => _ end); simplify_eq. exists m. split; [done|]. cbn. lia.
    - unfold task_read in E. destruct (ls_tasks l !! i) as [[n [p| |]]|]; simplify_eq. exists m. split; [done|]. cbn. lia. }
  destruct Hstep as (m1 & Hm1 & Ec). destruct (IH l1 m1 H Hm1) as (m' & Hm' & Ec'). exists m'. split; [done|].
  change (heard (e :: es)) with (heard ([e] ++ es)). unfold heard in *. rewrite omap_app, filter_app, length_app. lia.
Qed.

(** A settled task has released nothing: the count of a stream's mutex is that of
    its announcements, and never zero again. *)
Lemma mutexes_are_kept tenantId es l n : listener_steps tenantId new_listener (Notified n true :: es) = Some l ->
  exists m, ls_mutexes l !! nt_stream n = Some m /\ 0 < rc_count m.
Proof.
  intros H. cbn in H. destruct (mutex_counts tenantId es _ l (nt_stream n) (Rc 1 (Some 0)) H) as (m & Hm & E).
  - cbn. rewrite !lookup_insert_eq, lookup_empty; reflexivity.
  - exists m. split; [done|]. rewrite E. cbn. lia.
Qed.

(** ** The connection is ended once, whatever fails *)

Lemma connection_ended connects listens unlistens :
  match listenChannel connects listens with
  | (Err _, es) => last es = Some ClientEnded
  | (Ok _, _) => last (close_subscription unlistens false).2 = Some ClientEnded /\
      close_subscription unlistens (close_subscription unlistens false).1 = (true, [])
  end.
Proof. by destruct connects, listens, unlistens. Qed.
