(* ===== verification/BlockMaintenance.v ===== *)
(** The packing of ended streams (src/stream-block-maintenance.ts): the data
    rows of a closed stream of an ended run are read back, and written again as
    blocks, in one transaction per stream. *)
From S2P Require Import Prelude Model Bytes Paging Slots Sdk Tenant StreamBlocks Streamer StreamerProps.
From Stdlib Require Import Sorting.Sorted.
From stdpp Require Import sorting.
Local Open Scope Z_scope.

(** [Candidate] *)
Record candidate := Candidate { ca_tenant : string; ca_stream : string; ca_run : option string }.

(** What a rewrite reports. *)
Record compacted := Compacted { cm_logicalChunks : Z; cm_physicalRowsBefore : Z; cm_physicalRowsAfter : Z }.

(** [PackTerminalStreamBlocksResult] *)
Record pack_result := PackResult {
  pr_streamsCompacted : Z;
  pr_counts : compacted;
  pr_hitStreamLimit : bool;
  pr_lockAcquired : bool
}.

(** [PackTerminalStreamBlocksOptions] *)
Record pack_options := PackOptions {
  po_maxStreams : js_number;
  po_maxChunksPerBlock : option js_number;
  po_maxBlockBytes : option js_number;
  po_compactSnapshots : option bool
}.

Definition emptyResult (lockAcquired : bool) : pack_result := PackResult 0 (Compacted 0 0 0) false lockAcquired.

(** ** The streams to pack *)

(** Rows of the join, with the run's [compact_after]. *)
Definition joined : Type := stream_row * (string * instant).

Definition terminal_run (now : instant) (run : run_row) : option (string * instant) :=
  match run_status run, run_compactAfter run with
  | (RunStatus.completed | RunStatus.failed | RunStatus.cancelled), Some t =>
      if t <=? now then Some (run_id run, t) else None
  | _, _ => None
  end.

Definition join_runs (now : instant) (runs : list run_row) (r : stream_row) : list joined :=
  if ph_eof (sr_phys r) && negb (bool_decide (ph_codec (sr_phys r) = Some 2)) then
    omap (fun run => if String.eqb (run_tenant run) (sr_tenant r) && bool_decide (sr_run r = Some (run_id run))
                     then (fun t => (r, t)) <$> terminal_run now run else None) runs
  else [].

Definition distinct_order (a b : joined) : comparison :=
  lex (String.compare (sr_tenant a.1) (sr_tenant b.1))
  (lex (String.compare (sr_stream a.1) (sr_stream b.1)) (String.compare (sr_id a.1) (sr_id b.1))).

Definition candidate_order (a b : joined) : comparison :=
  lex (Z.compare a.2.2 b.2.2)
  (lex (String.compare (sr_tenant a.1) (sr_tenant b.1)) (String.compare (sr_stream a.1) (sr_stream b.1))).

(** [distinct on (tenant_id, stream_id)]: the first of each, of sorted rows. *)
Fixpoint distinct_on (seen : list (string * string)) (l : list joined) : list joined :=
  match l with
  | [] => []
  | j :: l =>
      let key := (sr_tenant j.1, sr_stream j.1) in
      if bool_decide (key ∈ seen) then distinct_on seen l else j :: distinct_on (key :: seen) l
  end.

Definition candidates (now : instant) (runs : list run_row) (maxStreams : Z) (table : list stream_row) : list candidate :=
  (fun j : joined => Candidate (sr_tenant j.1) (sr_stream j.1) (sr_run j.1)) <$>
  take (Z.to_nat maxStreams)
    (sort_with candidate_order (distinct_on [] (sort_with distinct_order (concat (join_runs now runs <$> table))))).

(** ** One stream *)

Section Pack.
(** [compactStreamChunk] *)
Context (compactStreamChunk : bytes -> bytes).

Definition of_stream (T name : string) (r : stream_row) : bool :=
  String.eqb (sr_tenant r) T && String.eqb (sr_stream r) name.

Definition data_row_of (T name : string) (r : stream_row) : bool := of_stream T name r && negb (ph_eof (sr_phys r)).

(** The update of the rows that end the stream. *)
Definition mark_packed (T name : string) (lastId : option string) (r : stream_row) : stream_row :=
  if of_stream T name r && ph_eof (sr_phys r)
  then StreamRow (sr_tenant r) (sr_stream r) (sr_run r)
         (PhysRow (ph_id (sr_phys r)) lastId (Some 0) (Some 2) (ph_data (sr_phys r)) true)
  else r.

Definition compactOneStream (ca : candidate) (maxChunks maxBytes : Z) (compactSnapshots : bool)
    (table : list stream_row) : result serror (compacted * list stream_row) :=
  let T := ca_tenant ca in
  let name := ca_stream ca in
  let deleted := filter (fun r => data_row_of T name r = true) table in
  let kept := filter (fun r => data_row_of T name r = false) table in
  result_bind (unpack_rows (sort_by ph_id (sr_phys <$> deleted))) (fun chunks =>
  let logical := map (fun c => Chunk (ck_id c) (if compactSnapshots then compactStreamChunk (ck_data c) else ck_data c)) chunks in
  result_bind (packStreamChunks logical (Some (JsFinite maxChunks 1)) (Some (JsFinite maxBytes 1))) (fun blocks =>
  result_bind (insert_rows (map (fun b => StreamRow T name (ca_run ca) (block_row b)) blocks) kept) (fun table =>
  Ok (Compacted (Z.of_nat (length logical)) (Z.of_nat (length deleted)) (Z.of_nat (length blocks)),
      map (mark_packed T name (ck_id <$> last logical)) table)))).

(** ** A pass: a stream that fails ends it, with those before it packed *)

Definition add_counts (a b : compacted) : compacted :=
  Compacted (cm_logicalChunks a + cm_logicalChunks b) (cm_physicalRowsBefore a + cm_physicalRowsBefore b)
    (cm_physicalRowsAfter a + cm_physicalRowsAfter b).

Fixpoint pack_candidates (cas : list candidate) (maxChunks maxBytes : Z) (compactSnapshots : bool) (acc : pack_result)
    (table : list stream_row) : result serror pack_result * list stream_row :=
  match cas with
  | [] => (Ok acc, table)
  | ca :: cas =>
      match compactOneStream ca maxChunks maxBytes compactSnapshots table with
      | Err e => (Err e, table)
      | Ok (counts, table) =>
          pack_candidates cas maxChunks maxBytes compactSnapshots
            (PackResult (pr_streamsCompacted acc + 1) (add_counts (pr_counts acc) counts) (pr_hitStreamLimit acc)
              (pr_lockAcquired acc)) table
      end
  end.

Definition packTerminalStreamBlocks (locked : bool) (now : instant) (runs : list run_row) (options : pack_options)
    (table : list stream_row) : result serror pack_result * list stream_row :=
  let checked :=
    result_bind (assertPositiveInteger (po_maxStreams options)) (fun maxStreams =>
    result_bind (assertPositiveInteger (default (JsFinite DEFAULT_STREAM_BLOCK_CHUNKS 1) (po_maxChunksPerBlock options))) (fun maxChunks =>
    result_bind (assertPositiveInteger (default (JsFinite DEFAULT_STREAM_BLOCK_BYTES 1) (po_maxBlockBytes options))) (fun maxBytes =>
    Ok (maxStreams, maxChunks, maxBytes)))) in
  match checked with
  | Err e => (Err e, table)
  | Ok (maxStreams, maxChunks, maxBytes) =>
      if negb locked then (Ok (emptyResult false), table) else
      let cas := candidates now runs maxStreams table in
      let '(res, table) := pack_candidates cas maxChunks maxBytes (default true (po_compactSnapshots options))
                             (emptyResult true) table in
      (result_bind res (fun r => Ok (PackResult (pr_streamsCompacted r) (pr_counts r)
         (Z.of_nat (length cas) =? maxStreams) (pr_lockAcquired r))), table)
  end.
End Pack.

(** ** What a rewrite keeps *)

Section Kept.
Context (compactStreamChunk : bytes -> bytes) (compactSnapshots : bool).

Definition repacked (d : bytes) : bytes := if compactSnapshots then compactStreamChunk d else d.
Definition repacked_event (e : sevent) : sevent := SEvent (se_id e) (repacked (se_data e)) (se_eof e).

(** No data row behind the stream's first end. *)
Definition ends_last (parts : list part) : Prop := filter (fun p => is_data p = true) parts = data_parts parts.

Definition repacked_chunk (c : chunk) : chunk := Chunk (ck_id c) (repacked (ck_data c)).
Definition repacked_page (p : chunk_page) : chunk_page :=
  ChunkPage ((fun '(i, d) => (i, repacked d)) <$> cp_data p) (cp_cursor p) (cp_hasMore p) (cp_done p).

Lemma id_before_le a b : id_before a b -> key_le ph_id a b.
Proof. intros H. apply str_le_spec. right. by apply str_lt_spec. Qed.

Lemma sorted_same_id (k : list phys_row) a b : StronglySorted id_before k -> a ∈ k -> b ∈ k -> ph_id a = ph_id b -> a = b.
Proof.
  induction 1 as [|x k Hk IH Hx]; intros Ha Hb E; [by apply elem_of_nil in Ha|]. rewrite Forall_forall in Hx.
  assert (Hne : forall y, y ∈ k -> ph_id x <> ph_id y).
  { intros y Hy Exy. specialize (Hx y Hy). unfold id_before in Hx. rewrite Exy in Hx. by rewrite str_lt_irrefl in Hx. }
  apply elem_of_cons in Ha as [->|Ha]; apply elem_of_cons in Hb as [->|Hb]; [done|by apply Hne in E| |by apply IH].
  symmetry in E. by apply Hne in E.
Qed.

Lemma sort_by_unique (l k : list phys_row) : l ≡ₚ k -> StronglySorted id_before k -> sort_by ph_id l = k.
Proof.
  intros Hp Hk. assert (Hk' : StronglySorted (key_le ph_id) k).
  { clear Hp. induction Hk as [|x k' Hk IH Hx]; constructor; [|by eapply Forall_impl; [exact Hx|apply id_before_le]].
    apply IH. }
  apply (StronglySorted_unique_strong (key_le ph_id)); [|apply sort_by_sorted|done|by rewrite sort_by_perm].
  intros a b Ha Hb Hab Hba. apply (sorted_same_id k); [done| |done|].
  - apply elem_sort_by in Ha. by rewrite <- Hp.
  - unfold key_le in *. apply str_le_spec in Hab as [?|Hab]; [done|]. rewrite <- str_lt_spec, str_lt_not_le, Hba in Hab. done.
Qed.

(** The parts of a stream whose end comes last: its data, and its ends. *)
Lemma ends_last_split parts : ends_last parts ->
  exists post, parts = data_parts parts ++ post /\ Forall (fun p => ph_eof p.1 = true) post.
Proof.
  intros He. destruct (data_parts_split parts) as (post & E & _). exists post. split; [exact E|].
  unfold ends_last in He. rewrite E in He at 1. rewrite filter_app, (filter_all _ (data_parts parts)) in He.
  - rewrite Forall_forall. intros p Hp. destruct (ph_eof p.1) eqn:Ee; [done|].
    assert (p ∈ filter (fun p => is_data p = true) post) as Hin by (apply list_elem_of_filter; unfold is_data; by rewrite Ee).
    apply (f_equal length) in He. rewrite length_app in He. destruct (filter _ post); [by apply elem_of_nil in Hin|].
    simpl in He. lia.
  - intros q Hq. pose proof (data_parts_data parts) as Hd. rewrite Forall_forall in Hd. by apply Hd.
Qed.

Lemma unpack_parts (dp : list part) : Forall (fun p => part_ok p.1 p.2) dp -> Forall (fun p => is_data p = true) dp ->
  unpack_rows dp.*1 = Ok (map chunk_of (events_of dp)).
Proof.
  induction 1 as [|p l Hp Hl IH]; intros Hd; [done|]. inversion_clear Hd as [|? ? Hd1 Hd2].
  unfold is_data in Hd1. apply negb_true_iff in Hd1. destruct (part_data _ _ Hp Hd1) as [Hu _].
  rewrite fmap_cons. cbn [unpack_rows]. rewrite Hu. cbn [result_bind]. rewrite (IH Hd2). cbn [result_bind].
  f_equal. change (events_of (p :: l)) with (p.2 ++ events_of l). by rewrite map_app.
Qed.

(** The stream's rows, seen through the two halves of the rewrite. *)
Lemma deleted_rows T name table :
  sr_phys <$> filter (fun r => data_row_of T name r = true) table = filter (fun r => ph_eof r = false) (stream_rows T name table).
Proof.
  unfold stream_rows, data_row_of, of_stream. induction table as [|r table IH]; [done|]. rewrite !filter_cons.
  destruct (decide (sr_tenant r = T /\ sr_stream r = name)) as [[Ht Hn]|Hne].
  - rewrite (proj2 (String.eqb_eq _ _) Ht), (proj2 (String.eqb_eq _ _) Hn). rewrite fmap_cons, filter_cons.
    destruct (ph_eof (sr_phys r)) eqn:Ee.
    + rewrite !decide_False by done. exact IH.
    + rewrite !decide_True by done. rewrite fmap_cons. by f_equal.
  - rewrite decide_False; [done|]. intros Hb. bools. by apply Hne.
Qed.

Lemma kept_rows T name table :
  stream_rows T name (filter (fun r => data_row_of T name r = false) table) =
  filter (fun r => ph_eof r = true) (stream_rows T name table).
Proof.
  unfold stream_rows, data_row_of, of_stream. induction table as [|r table IH]; [done|]. rewrite !(filter_cons _ r).
  destruct (decide (sr_tenant r = T /\ sr_stream r = name)) as [[Ht Hn]|Hne].
  - rewrite (proj2 (String.eqb_eq _ _) Ht), (proj2 (String.eqb_eq _ _) Hn), fmap_cons, filter_cons.
    destruct (ph_eof (sr_phys r)) eqn:Ee.
    + rewrite !decide_True by done. rewrite filter_cons_True by done. rewrite fmap_cons. by f_equal.
    + rewrite !decide_False by done. exact IH.
  - destruct (decide (_ = false)); [|exact IH]. rewrite filter_cons_False by done. exact IH.
Qed.

Definition mark_row (lastId : option string) (r : phys_row) : phys_row :=
  if ph_eof r then PhysRow (ph_id r) lastId (Some 0) (Some 2) (ph_data r) true else r.

Lemma mark_packed_key T name lastId r :
  sr_tenant (mark_packed T name lastId r) = sr_tenant r /\ sr_stream (mark_packed T name lastId r) = sr_stream r.
Proof. unfold mark_packed. by destruct (_ && _). Qed.

Lemma marked_rows T name lastId table :
  stream_rows T name (map (mark_packed T name lastId) table) = mark_row lastId <$> stream_rows T name table.
Proof.
  unfold stream_rows. induction table as [|r table IH]; [done|]. cbn [map]. rewrite !filter_cons.
  destruct (mark_packed_key T name lastId r) as [Et En].
  destruct (decide (sr_tenant r = T /\ sr_stream r = name)) as [[Ht Hn]|Hne].
  - rewrite decide_True by (split; congruence). rewrite !fmap_cons, IH. f_equal.
    unfold mark_packed, of_stream, mark_row. rewrite (proj2 (String.eqb_eq _ _) Ht), (proj2 (String.eqb_eq _ _) Hn).
    cbn [andb]. by destruct (ph_eof (sr_phys r)).
  - rewrite decide_False; [exact IH|]. rewrite Et, En. exact Hne.
Qed.

Lemma marked_other T name lastId T' name' table : (T', name') <> (T, name) ->
  filter (fun r => of_stream T' name' r = true) (map (mark_packed T name lastId) table) =
  filter (fun r => of_stream T' name' r = true) table.
Proof.
  intros Hne. induction table as [|r table IH]; [done|]. cbn [map]. rewrite !filter_cons, IH.
  unfold mark_packed. destruct (of_stream T name r && ph_eof (sr_phys r)) eqn:Eb; [|done].
  assert (of_stream T' name' r = false) as Ho.
  { apply not_true_iff_false. intros Ho. unfold of_stream in *. bools. apply Hne. congruence. }
  unfold of_stream in *. cbn [sr_tenant sr_stream]. rewrite Ho. by rewrite !decide_False.
Qed.

Lemma safe_positive n : 1 <= n <= 9007199254740991 -> assertPositiveInteger (JsFinite n 1) = Ok n.
Proof.
  intros Hn. unfold assertPositiveInteger, isSafeInteger, js_integer. rewrite Z.mod_1_r, Z.div_1_r. cbn [Z.eqb].
  destruct (Z.leb_spec (Z.abs n) 9007199254740991); [|lia]. destruct (Z.leb_spec n 0); [lia|done].
Qed.

Lemma pack_parts cs mc mb : Forall packable cs -> 1 <= mc <= 9007199254740991 -> 1 <= mb <= 9007199254740991 ->
  exists blocks css, packStreamChunks cs (Some (JsFinite mc 1)) (Some (JsFinite mb 1)) = Ok blocks /\
    Forall2 (block_ok mc mb) blocks css /\ concat css = cs.
Proof.
  intros Hcs Hmc Hmb. unfold packStreamChunks. cbn [default from_option id].
  rewrite !safe_positive by done. cbn [result_bind].
  destruct (pack_go_ok mc mb Hmc cs []) as (blocks & Hgo & css & Hf & Hcat); [done|simpl; lia|right; simpl; lia|].
  exists blocks, css. by split_and!.
Qed.

Lemma rows_split rows parts post : stream_wf rows parts -> parts = data_parts parts ++ post ->
  Forall (fun p => ph_eof p.1 = true) post ->
  sort_by ph_id (filter (fun r => ph_eof r = false) rows) = (data_parts parts).*1 /\
  filter (fun r => ph_eof r = true) rows ≡ₚ post.*1.
Proof.
  intros [Hr _ _] E Hpost. pose proof (data_parts_data parts) as Hd. rewrite Forall_forall in Hd, Hpost.
  assert (Hd' : forall r, r ∈ (data_parts parts).*1 -> ph_eof r = false).
  { intros r (p & -> & Hp)%list_elem_of_fmap. specialize (Hd p Hp). unfold is_data in Hd. by apply negb_true_iff in Hd. }
  assert (Hp' : forall r, r ∈ post.*1 -> ph_eof r = true) by (intros r (p & -> & Hp)%list_elem_of_fmap; by apply Hpost).
  assert (Er : parts.*1 = (data_parts parts).*1 ++ post.*1) by (by rewrite E at 1; rewrite fmap_app).
  split.
  - rewrite filter_sort_by, Hr, Er, filter_app, filter_all, filter_none; [by rewrite app_nil_r| |done].
    intros r Hrp Hf. by rewrite (Hp' r Hrp) in Hf.
  - rewrite <- (sort_by_perm ph_id (filter _ rows)), filter_sort_by, Hr, Er, filter_app, filter_none, filter_all; [done|done|].
    intros r Hrd Hf. by rewrite (Hd' r Hrd) in Hf.
Qed.

Definition mark_part (lastId : option string) (p : part) : part := (mark_row lastId p.1, p.2).

Lemma mark_part_ok lastId p : part_ok p.1 p.2 -> part_ok (mark_part lastId p).1 (mark_part lastId p).2.
Proof.
  intros Hp. unfold mark_part, mark_row. destruct (ph_eof p.1) eqn:Ee; [|exact Hp].
  rewrite (part_eof _ _ Hp Ee). pose proof (po_prefix _ _ Hp) as Hx. rewrite (part_eof _ _ Hp Ee) in Hx. by split.
Qed.

Lemma repacked_sorted evs : StronglySorted event_before evs -> StronglySorted event_before (repacked_event <$> evs).
Proof.
  induction 1 as [|e l Hl IH He]; [constructor|]. rewrite fmap_cons. constructor; [done|]. apply List.Forall_map.
  eapply Forall_impl; [exact He|done].
Qed.

(** The parts after the rewrite. *)
Lemma packed_wf parts post nd lastId : parts = data_parts parts ++ post ->
  Forall (fun p => part_ok p.1 p.2) parts -> StronglySorted event_before (events_of parts) ->
  Forall (fun p => part_ok p.1 p.2) nd -> events_of nd = repacked_event <$> stream_data parts ->
  Forall (fun p => part_ok p.1 p.2) (nd ++ (mark_part lastId <$> post)) /\
  StronglySorted event_before (events_of (nd ++ (mark_part lastId <$> post))).
Proof.
  intros E Hok Hs Hnd Hev. rewrite E in Hok. apply Forall_app in Hok as [_ Hpost]. split.
  - apply Forall_app. split; [done|]. apply List.Forall_map. eapply Forall_impl; [exact Hpost|].
    intros p Hp. by apply mark_part_ok.
  - unfold events_of in *. rewrite fmap_app, concat_app, Hev. rewrite E, fmap_app, concat_app in Hs.
    assert (Em : (mark_part lastId <$> post).*2 = post.*2) by (rewrite <- list_fmap_compose; done). rewrite Em.
    apply sorted_app_iff in Hs as (H1 & H2 & H3). apply sorted_app_iff. split; [by apply repacked_sorted|].
    split; [done|]. apply List.Forall_map. eapply Forall_impl; [exact H3|done].
Qed.

Lemma data_parts_packed nd post lastId : Forall (fun p : part => ph_eof p.1 = false) nd ->
  Forall (fun p : part => ph_eof p.1 = true) post -> data_parts (nd ++ (mark_part lastId <$> post)) = nd.
Proof.
  intros Hnd Hp. induction Hnd as [|p nd Hpf _ IH].
  - destruct Hp as [|p post Hpt _]; [done|]. cbn. unfold is_data, mark_part, mark_row. cbn [fst]. by rewrite Hpt.
  - cbn [app data_parts]. unfold is_data. rewrite Hpf. cbn [negb]. by rewrite IH.
Qed.

Lemma first_eof_packed parts nd post lastId : parts = data_parts parts ++ post ->
  Forall (fun p : part => ph_eof p.1 = false) nd -> Forall (fun p : part => ph_eof p.1 = true) post ->
  first_eof (nd ++ (mark_part lastId <$> post)) = first_eof parts.
Proof.
  intros E Hnd Hp. unfold first_eof. rewrite (data_parts_packed _ _ _ Hnd Hp), drop_app_length, (drop_data_parts _ _ E).
  destruct Hp as [|p post Hpt _]; [done|]. cbn. unfold mark_row. by rewrite Hpt.
Qed.

Lemma page_of_repacked limit base l done :
  page_of limit base (repacked_chunk <$> l) done = repacked_page (page_of limit base l done).
Proof.
  unfold page_of, repacked_page. cbn [cp_data cp_cursor cp_hasMore cp_done]. rewrite length_fmap, <- fmap_take.
  rewrite fmap_last, length_fmap. f_equal.
  - rewrite imap_fmap, fmap_imap. apply imap_ext. intros i c _. reflexivity.
  - by destruct (last (take limit l)).
Qed.

Lemma chunks_behind_repacked c parts parts' : stream_data parts' = repacked_event <$> stream_data parts ->
  chunks_behind c parts' = repacked_chunk <$> chunks_behind c parts.
Proof.
  intros E. unfold chunks_behind. rewrite E. clear E. induction (stream_data parts) as [|e l IH]; [done|].
  rewrite fmap_cons, !filter_cons. cbn [repacked_event se_id].
  destruct (decide (after_cursor c (se_id e) = true)); [|exact IH]. cbn [map]. rewrite fmap_cons. by f_equal.
Qed.

Lemma stream_event_eta parts : Forall (fun p => part_ok p.1 p.2) parts ->
  map event_of_chunk (map chunk_of (repacked_event <$> stream_data parts)) = repacked_event <$> stream_data parts.
Proof.
  intros Hok. assert (Hd : Forall (fun e => se_eof e = false) (stream_data parts)).
  { unfold stream_data. pose proof (data_parts_data parts) as Hda. destruct (data_parts_split parts) as (post & E & _).
    rewrite E in Hok. apply Forall_app in Hok as [Hok _]. clear E. induction Hok as [|p l Hp Hl IH]; [constructor|].
    inversion_clear Hda as [|? ? Hd1 Hd2]. change (events_of (p :: l)) with (p.2 ++ events_of l).
    apply Forall_app. split; [|exact (IH Hd2)]. unfold is_data in Hd1. apply negb_true_iff in Hd1.
    by destruct (part_data _ _ Hp Hd1). }
  rewrite map_map. induction Hd as [|e l He _ IH]; [done|]. rewrite fmap_cons. cbn [map]. rewrite IH. f_equal.
  unfold repacked_event, event_of_chunk, chunk_of. cbn. by rewrite He.
Qed.

Definition new_rows (T name : string) (run : option string) (blocks : list StreamBlocks.block) : list stream_row :=
  map (fun b => StreamRow T name run (block_row b)) blocks.

Lemma new_rows_phys T name run blocks : sr_phys <$> new_rows T name run blocks = map block_row blocks.
Proof. unfold new_rows. induction blocks as [|b l IH]; [done|]. cbn [map]. rewrite fmap_cons. by f_equal. Qed.

Lemma mark_row_id lastId r : ph_id (mark_row lastId r) = ph_id r.
Proof. unfold mark_row. by destruct (ph_eof r). Qed.

(** The blocks' keys are free once the data rows are gone. *)
Lemma insert_blocks T name run kept blocks (post : list part) lastId :
  StronglySorted id_before (map block_row blocks ++ (mark_part lastId <$> post).*1) ->
  stream_rows T name kept ≡ₚ post.*1 ->
  insert_rows (new_rows T name run blocks) kept = Ok (kept ++ new_rows T name run blocks).
Proof.
  intros Hs Hk. apply sorted_app_iff in Hs as (Hs & _ & Hlt). apply (insert_rows_fresh T name).
  - unfold new_rows. by apply List.Forall_map, list.Forall_true.
  - assert (sr_id <$> new_rows T name run blocks = ph_id <$> map block_row blocks) as ->.
    { rewrite <- (new_rows_phys T name run), <- list_fmap_compose. done. }
    by apply sorted_ids_nodup.
  - intros p r Hp Hr Eid. rewrite Hk in Hp. apply list_elem_of_fmap in Hp as (q & -> & Hq).
    assert (Hb : sr_phys r ∈ map block_row blocks).
    { rewrite <- (new_rows_phys T name run). apply list_elem_of_fmap. eauto. }
    rewrite Forall_forall in Hlt. specialize (Hlt _ Hb). rewrite Forall_forall in Hlt.
    specialize (Hlt (mark_row lastId q.1)). unfold id_before in Hlt. rewrite mark_row_id, Eid in Hlt.
    unfold sr_id in Hlt. rewrite str_lt_irrefl in Hlt. discriminate Hlt. apply list_elem_of_fmap.
    exists (mark_part lastId q). split; [done|]. apply list_elem_of_fmap. eauto.
Qed.

Lemma packed_rows T name run kept blocks (nd post : list part) lastId :
  nd.*1 = map block_row blocks -> stream_rows T name kept ≡ₚ post.*1 ->
  StronglySorted id_before (nd ++ (mark_part lastId <$> post)).*1 ->
  sort_by ph_id (stream_rows T name (map (mark_packed T name lastId) (kept ++ new_rows T name run blocks))) =
    (nd ++ (mark_part lastId <$> post)).*1.
Proof.
  intros Hnd Hk Hs. apply sort_by_unique; [|done]. rewrite marked_rows. unfold stream_rows.
  rewrite filter_app, fmap_app, fmap_app. fold (stream_rows T name kept). rewrite Hk.
  rewrite (filter_all _ (new_rows _ _ _ _)), new_rows_phys, <- Hnd.
  2: { unfold new_rows. intros r (b & -> & _)%list_elem_of_fmap. done. }
  assert (Hb : mark_row lastId <$> nd.*1 = nd.*1).
  { rewrite Hnd. clear. induction blocks as [|b l IH]; [done|]. cbn [map]. rewrite fmap_cons. by f_equal. }
  rewrite Hb, fmap_app, Permutation_app_comm. f_equiv. by rewrite <- !list_fmap_compose.
Qed.

Lemma packed_others T name run lastId table blocks T' name' : (T', name') <> (T, name) ->
  filter (fun r => of_stream T' name' r = true)
    (map (mark_packed T name lastId) (filter (fun r => data_row_of T name r = false) table ++ new_rows T name run blocks)) =
  filter (fun r => of_stream T' name' r = true) table.
Proof.
  intros Hne. rewrite marked_other by done. rewrite filter_app, (filter_none _ (new_rows _ _ _ _)), app_nil_r.
  - rewrite list_filter_filter. apply list_filter_iff. intros r. split; [tauto|]. intros Ho. split; [done|].
    unfold data_row_of. apply andb_false_iff. left. apply not_true_iff_false. intros Hs. unfold of_stream in *. bools.
    apply Hne. congruence.
  - unfold new_rows. intros r (b & -> & _)%list_elem_of_fmap Ho. unfold of_stream in Ho. cbn [sr_tenant sr_stream] in Ho.
    bools. apply Hne. congruence.
Qed.

(** What packing a stream leaves in the table. *)
Lemma compactOneStream_rows T name run mc mb table parts :
  stream_wf (stream_rows T name table) parts -> ends_last parts ->
  Forall packable (map chunk_of (repacked_event <$> stream_data parts)) ->
  1 <= mc <= 9007199254740991 -> 1 <= mb <= 9007199254740991 ->
  exists counts table' parts',
    compactOneStream compactStreamChunk (Candidate T name run) mc mb compactSnapshots table = Ok (counts, table') /\
    stream_wf (stream_rows T name table') parts' /\
    stream_data parts' = repacked_event <$> stream_data parts /\ first_eof parts' = first_eof parts /\
    (forall T' name', (T', name') <> (T, name) ->
      filter (fun r => of_stream T' name' r = true) table' = filter (fun r => of_stream T' name' r = true) table).
Proof.
  intros Hwf Hend Hpk Hmc Hmb. destruct (ends_last_split parts Hend) as (post & E & Hpost).
  destruct (rows_split _ _ _ Hwf E Hpost) as [Hdel Hkept]. destruct (wf_data_parts _ _ Hwf) as [Hdok _].
  pose proof (data_parts_data parts) as Hdd. destruct Hwf as [Hr Hok Hs].
  set (logical := map chunk_of (repacked_event <$> stream_data parts)) in *.
  destruct (pack_parts logical mc mb Hpk Hmc Hmb) as (blocks & css & Hpack & Hf & Hcat).
  destruct (block_parts_ok mc mb blocks css Hf ltac:(by rewrite Hcat)) as (Hnd & Hev & Hrows).
  set (nd := block_parts blocks css) in *. rewrite Hcat in Hev. unfold logical in Hev. rewrite (stream_event_eta parts Hok) in Hev.
  assert (Hndd : Forall (fun p : part => ph_eof p.1 = false) nd).
  { rewrite Forall_forall. intros p Hp. assert (p.1 ∈ nd.*1) as Hp1 by (apply list_elem_of_fmap; eauto).
    rewrite Hrows in Hp1. by apply list_elem_of_fmap in Hp1 as (b & -> & _). }
  set (lastId := ck_id <$> last logical).
  destruct (packed_wf parts post nd lastId E Hok Hs Hnd Hev) as [Hok' Hs'].
  pose proof (parts_ids_sorted _ Hok' Hs') as Hids. pose proof Hids as Hids2. rewrite fmap_app, Hrows in Hids2.
  rewrite <- kept_rows in Hkept. eexists _, _, (nd ++ (mark_part lastId <$> post)). split; [|split; [|split; [|split]]].
  - unfold compactOneStream. cbn [ca_tenant ca_stream ca_run]. rewrite deleted_rows, Hdel, (unpack_parts _ Hdok Hdd).
    cbn [result_bind]. rewrite !map_map. fold (stream_data parts).
    replace (map _ (stream_data parts)) with logical by (unfold logical; rewrite map_map; done). rewrite Hpack.
    cbn [result_bind]. fold (new_rows T name run blocks). rewrite (insert_blocks T name run _ blocks post lastId Hids2 Hkept).
    reflexivity.
  - split; [|exact Hok'|exact Hs']. by apply packed_rows.
  - unfold stream_data at 1. by rewrite (data_parts_packed _ _ _ Hndd Hpost).
  - by apply first_eof_packed.
  - intros T' name' Hne. by apply packed_others.
Qed.
End Kept.

(** C24 Packing a stream that has no data row behind its end row changes nothing a
    reader of pages can see but the compacted bytes: every page, for every limit
    and every cursor of before, is the page of before; the rows of other streams
    are left alone. *)
Theorem packing_keeps_pages compactStreamChunk compactSnapshots T name run mc mb table parts :
  stream_wf (stream_rows T name table) parts -> ends_last parts ->
  Forall packable (map chunk_of (repacked_event compactStreamChunk compactSnapshots <$> stream_data parts)) ->
  1 <= mc <= 9007199254740991 -> 1 <= mb <= 9007199254740991 ->
  exists counts table' parts',
    compactOneStream compactStreamChunk (Candidate T name run) mc mb compactSnapshots table = Ok (counts, table') /\
    stream_wf (stream_rows T name table') parts' /\
    (forall limit cursor page, getChunks T name (Some limit) cursor table = Ok page ->
      getChunks T name (Some limit) cursor table' = Ok (repacked_page compactStreamChunk compactSnapshots page)) /\
    (forall T' name', (T', name') <> (T, name) ->
      filter (fun r => of_stream T' name' r = true) table' = filter (fun r => of_stream T' name' r = true) table).
Proof.
  intros Hwf Hend Hpk Hmc Hmb.
  destruct (compactOneStream_rows compactStreamChunk compactSnapshots T name run mc mb table parts Hwf Hend Hpk Hmc Hmb)
    as (counts & table' & parts' & Hc & Hwf' & Hd & He & Ho).
  exists counts, table', parts'. split_and!; [exact Hc|exact Hwf'| |exact Ho].
  intros limit cursor page. rewrite (getChunks_page T name limit cursor table parts Hwf). intros [= <-].
  rewrite (getChunks_page T name limit cursor table' parts' Hwf'), He, (chunks_behind_repacked _ _ _ parts parts' Hd).
  by rewrite page_of_repacked.
Qed.

Lemma packing_keeps_pages_witness :
  exists counts table', compactOneStream id (Candidate "t" "s" (Some "r")) 64 1000 false demo_table = Ok (counts, table') /\
    length table' = 2%nat /\ getChunks "t" "s" (Some 2%nat) None table' = getChunks "t" "s" (Some 2%nat) None demo_table.
Proof.
  assert (Hwf : stream_wf (stream_rows "t" "s" demo_table) demo_parts) by (rewrite demo_stream; exact demo_wf).
  destruct (packing_keeps_pages id false "t" "s" (Some "r") 64 1000 demo_table demo_parts Hwf
    ltac:(vm_compute; reflexivity)
    ltac:(vm_compute; repeat constructor; try (vm_compute; congruence); by apply ascii_well_formed) ltac:(lia) ltac:(lia))
    as (counts & table' & parts' & H1 & _ & H2 & _).
  exists counts, table'. split; [exact H1|].
  assert (E : result_bind (compactOneStream id (Candidate "t" "s" (Some "r")) 64 1000 false demo_table)
    (fun x => Ok (length x.2)) = Ok 2%nat) by (vm_compute; reflexivity).
  rewrite H1 in E. split; [by injection E|].
  destruct (getChunks "t" "s" (Some 2%nat) None demo_table) as [page|] eqn:Ep; [|vm_compute in Ep; discriminate].
  rewrite (H2 2%nat None page Ep). f_equal. destruct page as [d c h dn]. unfold repacked_page. cbn. f_equal.
  clear. induction d as [|[i b] d IH]; [done|]. rewrite fmap_cons. by f_equal.
Defined.

(** A stream to which a retried write appended behind its end. *)
Definition retried_table : list stream_row :=
  map (StreamRow "t" "s" (Some "r"))
    [PhysRow "chnk_1" (Some "chnk_1") (Some 1) (Some 1) (text_bytes "one") false;
     PhysRow "chnk_2" None None None [] true;
     PhysRow "chnk_3" (Some "chnk_3") (Some 1) (Some 1) (text_bytes "again") false].

(** A chunk behind the end of a stream is no reader's to see, until the stream
    is packed: the block that holds it starts before the end, so pages give the
    chunk out, and a live reader is given it too and then takes the end for one
    it has passed: it is never told that the stream ended. *)
Theorem packing_crosses_end :
  result_bind (getChunks "t" "s" (Some 10%nat) None retried_table) (fun p => Ok (cp_data p)) = Ok [(0, text_bytes "one")] /\
  result_bind (get_stream None (stream_rows "t" "s" retried_table) [] []) (fun r => Ok (rd_out r, rd_closed r)) =
    Ok ([text_bytes "one"], true) /\
  exists counts table',
    compactOneStream id (Candidate "t" "s" (Some "r")) 64 1000 true retried_table = Ok (counts, table') /\
    result_bind (getChunks "t" "s" (Some 10%nat) None table') (fun p => Ok (cp_data p)) =
      Ok [(0, text_bytes "one"); (1, text_bytes "again")] /\
    result_bind (get_stream None (stream_rows "t" "s" table') [] []) (fun r => Ok (rd_out r, rd_closed r)) =
      Ok ([text_bytes "one"; text_bytes "again"], false).
Proof.
  split; [vm_compute; reflexivity|]. split; [vm_compute; reflexivity|].
  eexists _, _. split; [vm_compute; reflexivity|]. split; vm_compute; reflexivity.
Qed.
