(* ===== verification/Contract.v ===== *)
(** The dispatch contract (src/dispatch-contract.ts), the stored message
    (src/message.ts) and the retry budget (src/queue-policy.ts): what both ends
    of a delivery agree on. *)
From S2P Require Import Prelude Model Bytes Slots Sdk.
Local Open Scope Z_scope.

(** ** JSON values and the third-party functions on them *)

Inductive json :=
| JNull
| JBool (b : bool)
| JNum (x : js_number)
| JStr (s : string)
| JArr (l : list json)
| JObj (fields : list (string * json)).

(** [value[key]], [None] for [undefined]. *)
Fixpoint assoc (key : string) (l : list (string * json)) : option json :=
  match l with
  | [] => None
  | (k, v) :: l => if String.eqb k key then Some v else assoc key l
  end.
Definition field (key : string) (j : json) : option json :=
  match j with JObj l => assoc key l | _ => None end.
Definition string_field (key : string) (j : json) : option string :=
  match field key j with Some (JStr s) => Some s | _ => None end.

(** [JSON.parse] of UTF-8 text and [Number] of a text, and what is imported from
    [@workflow/world]. *)
Class QueueSdk := {
  JSON_parse : bytes -> option json;
  js_Number : string -> js_number;
  messageRunSpecVersion : option json -> option Z;
  isSingleOrchestratorMessage : option json -> bool;
  singleOrchestratorRunIdOf : option json -> option string;
  invokePayload_safeParse : json -> option json;  (** [WorkflowInvokePayloadSchema] *)
  queuePayload_parse : json -> bool;  (** whether [QueuePayloadSchema] takes it *)
  getQueueTopicPrefix : option string -> string;  (** of the kind [workflow] *)
  parseQueueName_id : string -> string
}.

(** ** The message *)

(** [MessageData] *)
Record message := Message {
  md_attempt : Z;
  md_deliveryOffset : option Z;
  md_attemptOffset : option Z;
  md_messageId : string;
  md_idempotencyKey : option string;
  md_headers : option (list (string * string));
  md_id : string;
  md_data : bytes;
  md_tenantId : string;
  md_deploymentId : string;
  md_queueNamespace : option string
}.

Definition MAX_GRAPHILE_JOB_ATTEMPTS : Z := 49.

(** ** Names *)

Definition DISPATCH_VERSION : Z := 1.
Definition FLOW_JOB_NAME : string := "eveland_wf_flows".
Definition TIMER_JOB_NAME : string := "eveland_wf_timers".

Definition runQueueName (tenantId runId : string) : string := "wfrun:" +:+ tenantId +:+ ":" +:+ runId.
Definition tenantFlag (tenantId : string) : string := "project:" +:+ tenantId.
Definition wakeFlag (tenantId : string) : string := "wake:" +:+ tenantId.

Definition DISPATCH_VERSION_HEADER : string := "x-eveland-dispatch-version".
Definition RUNTIME_SECRET_HEADER : string := "x-eveland-runtime-secret".
Definition TENANT_HEADER : string := "x-eveland-project-id".
Definition DEPLOYMENT_HEADER : string := "x-eveland-deployment-id".
Definition RUN_HEADER : string := "x-eveland-run-id".
Definition VQS_QUEUE_NAME_HEADER : string := "x-vqs-queue-name".
Definition VQS_MESSAGE_ID_HEADER : string := "x-vqs-message-id".
Definition VQS_MESSAGE_ATTEMPT_HEADER : string := "x-vqs-message-attempt".
Definition VQS_MESSAGE_DELIVERY_COUNT_HEADER : string := "x-vqs-message-delivery-count".
Definition RUNTIME_SECRET_ENV_NAMES : list string :=
  ["WORKFLOW_WORLD_RUNTIME_SECRET"; "EVELAND_SCHEDULER_RUNTIME_SECRET"].

(** ** Who may dispatch *)

(** The environment, as its lookup. *)
Definition readRuntimeSecretFromEnv (env : string -> option string) : option string :=
  head (omap (fun name => match env name with Some v => if String.eqb v "" then None else Some v | None => None end)
    RUNTIME_SECRET_ENV_NAMES).

(** The loop of [secretMatches]: [mismatch] after every position. *)
Fixpoint mismatch_of (expected received : string) (mismatch : N) : N :=
  match expected, received with
  | String a expected, String b received =>
      mismatch_of expected received (N.lor mismatch (N.lxor (Ascii.N_of_ascii a) (Ascii.N_of_ascii b)))
  | _, _ => mismatch
  end.

Definition secretMatches (expected : string) (received : option string) : bool :=
  match received with
  | None => false
  | Some r =>
      if String.eqb r "" || negb (String.length expected =? String.length r)%nat then false
      else N.eqb (mismatch_of expected r 0) 0
  end.

(** [DispatchRejection], its text left out. *)
Inductive version_rejection := InvalidVersion | NewerVersion (supported version : Z).
Definition rejection_status (r : version_rejection) : Z := 400.

Section Contract.
Context `{WorldSdk} `{QueueSdk}.

Definition checkDispatchVersion (headerValue : option string) (supported : Z) : option version_rejection :=
  match headerValue with
  | None => None
  | Some v =>
      if String.eqb v "" then None else
      match js_integer (js_Number v) with
      | None => Some InvalidVersion
      | Some version =>
          if version <=? 0 then Some InvalidVersion
          else if supported <? version then Some (NewerVersion supported version) else None
      end
  end.

(** ** Reading a message *)

Definition readBody (m : message) : option json := JSON_parse (md_data m).

(** The run a body names; [readRunId] reads the same. *)
Definition bodyRunId (body : option json) : option string :=
  match body with
  | None => None
  | Some j =>
      match string_field "runId" j with
      | Some r => Some r
      | None => string_field "workflowRunId" j
      end
  end.
Definition readRunId (m : message) : option string := bodyRunId (readBody m).

Definition isHookWake (payload : json) : bool :=
  bool_decide (field "stepId" payload = None) &&
  (negb (bool_decide (field "hookInput" payload = None)) || negb (bool_decide (field "hookResumeTiming" payload = None))).

Definition isSingleOrchestratorRunMessage (body : option json) : bool :=
  SPEC_VERSION_SINGLE_ORCHESTRATOR <=? default 0 (messageRunSpecVersion body).

Definition runQueueFor (tenantId : string) (body : option json) : option string :=
  runQueueName tenantId <$>
  (if isSingleOrchestratorRunMessage body then singleOrchestratorRunIdOf body else bodyRunId body).

Definition mayBypassRunQueue (payload : json) : bool :=
  isHookWake payload && negb (isSingleOrchestratorRunMessage (Some payload)).

(** [true] for ["unsafe_dedupe"], [false] for graphile's default. *)
Definition jobKeyModeFor (body : option json) (idempotencyKey : option string) : bool :=
  match idempotencyKey with Some _ => isSingleOrchestratorMessage body | None => false end.

(** ** Counting deliveries *)

Record delivery := Delivery { dl_attempt : Z; dl_count : Z }.

Definition deliveryAccounting (m : message) (jobAttempts : option Z) : delivery :=
  match jobAttempts with
  | None => Delivery (md_attempt m) (md_attempt m)
  | Some n =>
      Delivery (n + default 0 (md_attemptOffset m))
        (n + default (default 0 (md_attemptOffset m)) (md_deliveryOffset m))
  end.

Definition is_zero (x : js_number) : bool := match x with JsFinite 0 _ => true | _ => false end.

(** A number that is spread into an object only when it is not [0]. *)
Definition nonzero (n : option Z) : option Z := match n with Some 0 => None | _ => n end.

Definition continuationOf (m : message) (d : delivery) (timeoutSeconds : js_number) (body : option json) : message :=
  let handoff := is_zero timeoutSeconds && isSingleOrchestratorMessage body in
  let attemptOffset := if handoff then Some (dl_attempt d - 1) else md_attemptOffset m in
  Message (if handoff then dl_attempt d else dl_attempt d + 1) (Some (dl_count d)) (nonzero attemptOffset)
    (md_messageId m) (md_idempotencyKey m) (md_headers m) (md_id m) (md_data m) (md_tenantId m)
    (md_deploymentId m) (md_queueNamespace m).
End Contract.
