(* ===== verification/Tar.v ===== *)
(** One file out of a tar archive, as scripts/eve-pin-drift.mjs reads it
    ([readTarEntry]), and that it reads back what an archive was written from. *)
From S2P Require Import Prelude Model Bytes Slots Tenant JsText.
From Stdlib Require Import Strings.Ascii Strings.Byte.
Local Open Scope Z_scope.

(** [buffer.subarray(start, end)], where a negative index counts from the end. *)
Definition relative (len i : Z) : Z := if i <? 0 then Z.max 0 (len + i) else Z.min i len.
Definition subarray (b : bytes) (start stop : Z) : bytes :=
  let s := relative (blen b) start in
  let e := relative (blen b) stop in
  take (Z.to_nat (e - s)) (drop (Z.to_nat s) b).

(** What is before the first NUL. *)
Fixpoint before_nul (b : bytes) : bytes :=
  match b with x :: b => if bool_decide (x = x00) then [] else x :: before_nul b | [] => [] end.

Definition header_field (header : bytes) (start length : Z) : string :=
  utf8_decode (before_nul (subarray header start (start + length))).

(** ** Octal numbers *)

Definition octal_digit (c : Ascii.ascii) : option Z :=
  let n := Z.of_N (Ascii.N_of_ascii c) in if (48 <=? n) && (n <=? 55) then Some (n - 48) else None.

(** The digits at the front of a text, put to the number before them. *)
Fixpoint leading_octal (acc : option Z) (s : string) : option Z :=
  match s with
  | String c t => match octal_digit c with Some d => leading_octal (Some (8 * default 0 acc + d)) t | None => acc end
  | "" => acc
  end.

(** [Number.parseInt(s, 8)] of a text of few digits; [None] is [NaN]. *)
Definition parseOctal (s : string) : option Z :=
  match trimStart s with
  | String "-"%char t => Z.opp <$> leading_octal None t
  | String "+"%char t => leading_octal None t
  | t => leading_octal None t
  end.

(** ** The archive *)

Definition header_name (header : bytes) : string :=
  let prefix := header_field header 345 155 in
  if String.eqb prefix "" then header_field header 0 100 else prefix +:+ "/" +:+ header_field header 0 100.

Definition header_size (header : bytes) : option Z :=
  let t := trim (header_field header 124 12) in parseOctal (if String.eqb t "" then "0" else t).

(** [Math.ceil(size / 512) * 512] *)
Definition blocks_of (size : Z) : Z := - (- size / 512) * 512.

(** The loop: [None] when the fuel is out, else the file, if there is one. A size
    that is [NaN] ends at once, in an empty file or in none. *)
Fixpoint readTarEntry_from (fuel : nat) (archive : bytes) (wanted : string) (offset : Z) : option (option bytes) :=
  match fuel with
  | O => None
  | S fuel =>
      if offset + 512 <=? blen archive then
        let header := subarray archive offset (offset + 512) in
        if forallb (fun x => bool_decide (x = x00)) header then Some None else
        let body := offset + 512 in
        let found := String.eqb (header_name header) wanted in
        match header_size header with
        | None => Some (if found then Some [] else None)
        | Some size =>
            if found then Some (Some (subarray archive body (body + size)))
            else readTarEntry_from fuel archive wanted (body + blocks_of size)
        end
      else Some None
  end.

Definition tar_fuel (archive : bytes) : nat := S (length archive / 512).
Definition readTarEntry (archive : bytes) (wanted : string) : option (option bytes) :=
  readTarEntry_from (tar_fuel archive) archive wanted 0.

(** ** It ends *)

(** No header in the archive has a size that leads back. *)
Definition sizes_ok (archive : bytes) : Prop := forall offset, 0 <= offset ->
  match header_size (subarray archive offset (offset + 512)) with Some size => -512 < size | None => True end.

Lemma blocks_forward size : -512 < size -> 0 <= blocks_of size /\ size <= blocks_of size.
Proof.
  intros H. unfold blocks_of. pose proof (Z.div_mod (- size) 512 ltac:(lia)). pose proof (Z.mod_pos_bound (- size) 512 ltac:(lia)).
  lia.
Qed.

Lemma readTarEntry_from_ends archive wanted : sizes_ok archive -> forall fuel offset, 0 <= offset -> (0 < fuel)%nat ->
  blen archive < offset + 512 * Z.of_nat fuel -> exists r, readTarEntry_from fuel archive wanted offset = Some r.
Proof.
  intros Hs. induction fuel as [|fuel IH]; intros offset Ho Hpos Hf; [lia|]. cbn [readTarEntry_from].
  destruct (Z.leb_spec (offset + 512) (blen archive)); [|by eexists].
  destruct (forallb _ _); [by eexists|]. specialize (Hs offset Ho).
  destruct (header_size _) as [size|]; [|by eexists]. destruct (String.eqb _ wanted); [by eexists|].
  pose proof (blocks_forward size Hs). apply IH; lia.
Qed.

Theorem readTarEntry_ends archive wanted : sizes_ok archive -> exists r, readTarEntry archive wanted = Some r.
Proof.
  intros Hs. apply (readTarEntry_from_ends archive wanted Hs); [done|unfold tar_fuel; lia|]. unfold tar_fuel, blen.
  pose proof (Nat.div_mod_eq (length archive) 512). pose proof (Nat.mod_upper_bound (length archive) 512 ltac:(lia)). lia.
Qed.

(** ** Writing one *)

Definition zeros (n : nat) : bytes := replicate n x00.
Definition pad (n : nat) (b : bytes) : bytes := b ++ zeros (n - length b).

Definition octal_char (n : Z) : Ascii.ascii := Ascii.ascii_of_N (Z.to_N (48 + n mod 8)).
Fixpoint octal_text (k : nat) (n : Z) : string :=
  match k with O => "" | S k => octal_text k (n / 8) +:+ String (octal_char n) "" end.

(** A ustar header: the name, the mode and the owners left out, the size, and no prefix. *)
Definition tar_header (name : string) (size : Z) : bytes :=
  pad 100 (text_bytes name) ++ zeros 24 ++ text_bytes (octal_text 11 size) ++ zeros (1 + 209 + 155 + 12).

Definition tar_file (f : string * bytes) : bytes :=
  tar_header f.1 (blen f.2) ++ f.2 ++ zeros (Z.to_nat (blocks_of (blen f.2) - blen f.2)).

Definition tar_archive (files : list (string * bytes)) : bytes := concat (tar_file <$> files) ++ zeros 1024.

(** A name that fits its field, of a file that fits its size's. *)
Definition file_ok (f : string * bytes) : Prop :=
  f.1 <> "" /\ (String.length f.1 <= 100)%nat /\
  forallb (fun x => (byte_val x <=? 0x7f) && negb (bool_decide (x = x00))) (text_bytes f.1) = true /\ blen f.2 < 8 ^ 11.

(** ** Reading it back *)

Lemma subarray_mid (a b c : bytes) start stop : start = blen a -> stop = blen a + blen b ->
  subarray (a ++ b ++ c) start stop = b.
Proof.
  intros -> ->. unfold subarray, relative, blen. rewrite !length_app.
  rewrite !(proj2 (Z.ltb_ge _ 0)) by lia. rewrite !Z.min_l by lia. rewrite Nat2Z.id, drop_app_length.
  replace (Z.to_nat _) with (length b) by lia. by rewrite take_app_length.
Qed.

Lemma octal_digit_char n : octal_digit (octal_char n) = Some (n mod 8).
Proof.
  unfold octal_char. pose proof (Z.mod_pos_bound n 8 ltac:(lia)) as H. remember (n mod 8) as d eqn:E. clear E.
  assert (d = 0 \/ d = 1 \/ d = 2 \/ d = 3 \/ d = 4 \/ d = 5 \/ d = 6 \/ d = 7) as Hd by lia.
  by repeat destruct Hd as [->|Hd]; [..|subst d].
Qed.

(** Texts all of whose characters are octal digits. *)
Definition octals (s : string) : Prop := all_chars (fun c => bool_decide (is_Some (octal_digit c))) s = true.

Lemma octal_text_octals k : forall n, octals (octal_text k n).
Proof.
  induction k as [|k IH]; intros n; [done|]. unfold octals. cbn [octal_text]. rewrite all_chars_app.
  rewrite (IH (n / 8)). cbn [all_chars andb]. rewrite octal_digit_char. rewrite bool_decide_eq_true_2 by (by eexists). done.
Qed.

Lemma leading_octal_app s t acc : octals s -> leading_octal acc (s +:+ t) = leading_octal (leading_octal acc s) t.
Proof.
  revert acc. induction s as [|c s IH]; intros acc Hs; [done|]. rewrite string_app_cons. unfold octals in Hs. cbn in Hs.
  apply andb_true_iff in Hs as [Hc Hs]. apply bool_decide_eq_true in Hc as [d Hd]. cbn. rewrite Hd. by apply IH.
Qed.

Lemma leading_octal_text k : forall n, 0 <= n < 8 ^ Z.of_nat k -> (0 < k)%nat -> leading_octal None (octal_text k n) = Some n.
Proof.
  induction k as [|k IH]; intros n Hn Hk; [lia|]. cbn [octal_text]. rewrite leading_octal_app by apply octal_text_octals.
  cbn [leading_octal]. rewrite octal_digit_char. f_equal. pose proof (Z.div_mod n 8 ltac:(lia)).
  destruct k as [|k].
  - cbn in *. rewrite Z.mod_small by lia. lia.
  - rewrite IH; [cbn; lia| |lia]. rewrite Nat2Z.inj_succ, Z.pow_succ_r in Hn by lia.
    split; [apply Z.div_pos; lia|apply Z.div_lt_upper_bound; lia].
Qed.

Lemma octal_char_digit c d : octal_digit c = Some d -> exists n, char_digit c = Some n.
Proof.
  unfold octal_digit, char_digit. destruct (_ && _) eqn:E; [|done]. bools. intros _.
  assert (Hc : ((48 <=? Ascii.N_of_ascii c) && (Ascii.N_of_ascii c <=? 57))%N = true) by (apply andb_true_iff; rewrite !N.leb_le; lia).
  rewrite Hc. by eexists.
Qed.

Lemma octals_cons c s : octals (String c s) -> (exists n, char_digit c = Some n) /\ octals s.
Proof.
  unfold octals. cbn. intros [Hc Hs]%andb_true_iff. apply bool_decide_eq_true in Hc as [d Hd]. split; [by eapply octal_char_digit|done].
Qed.

Lemma trimStart_octals s : octals s -> trimStart s = s.
Proof.
  destruct s as [|c s]; [done|]. intros [[n Hn] _]%octals_cons. unfold trimStart. cbn [String.length trim_fuel].
  by rewrite (skip_space_digit c n s Hn).
Qed.

Lemma trim_octals s : octals s -> trim s = s.
Proof.
  intros Hs. unfold trim. rewrite (trimStart_octals s Hs). induction s as [|c s IH]; [done|]. cbn [trimEnd].
  unfold blank. rewrite (trimStart_octals _ Hs). cbn. f_equal. apply IH. exact (proj2 (octals_cons c s Hs)).
Qed.

Lemma parseOctal_octals s : octals s -> parseOctal s = leading_octal None s.
Proof.
  intros Hs. unfold parseOctal. rewrite (trimStart_octals s Hs). destruct s as [|c s]; [done|].
  unfold octals in Hs. cbn in Hs. apply andb_true_iff in Hs as [Hc _]. apply bool_decide_eq_true in Hc.
  destruct c as [[] [] [] [] [] [] [] []]; try done; by destruct Hc.
Qed.

Definition plain (b : bytes) : bool := forallb (fun x => (byte_val x <=? 0x7f) && negb (bool_decide (x = x00))) b.

Lemma before_nul_plain b n : plain b = true -> before_nul (b ++ zeros n) = b.
Proof.
  induction b as [|x b IH]; intros Hb; [by destruct n|]. cbn in Hb. apply andb_true_iff in Hb as [[_ Hx]%andb_true_iff Hb].
  apply negb_true_iff in Hx. cbn. by rewrite Hx, IH.
Qed.

Lemma plain_ascii s : plain (text_bytes s) = true -> utf8_decode (text_bytes s) = s.
Proof.
  intros H. apply ascii_well_formed. apply forallb_forall. intros x Hx. unfold plain in H. rewrite forallb_forall in H.
  by specialize (H x Hx) as [? _]%andb_true_iff.
Qed.

Lemma octals_plain s : octals s -> plain (text_bytes s) = true.
Proof.
  induction s as [|c s IH]; intros Hs; [done|]. unfold octals in Hs. cbn in Hs. apply andb_true_iff in Hs as [Hc Hs].
  rewrite text_bytes_cons. unfold plain. cbn [forallb]. fold (plain (text_bytes s)). rewrite (IH Hs), andb_true_r.
  apply bool_decide_eq_true in Hc. destruct c as [[] [] [] [] [] [] [] []]; try reflexivity; by destruct Hc.
Qed.

Lemma octal_text_length k : forall n, length (text_bytes (octal_text k n)) = k.
Proof.
  induction k as [|k IH]; intros n; [done|]. cbn [octal_text]. rewrite text_bytes_app, length_app, IH. cbn. lia.
Qed.

Section Header.
Context (name : string) (size : Z).
Hypothesis short : (String.length name <= 100)%nat.
Hypothesis plain_name : plain (text_bytes name) = true.
Hypothesis size_range : 0 <= size < 8 ^ 11.

Lemma name_length : length (text_bytes name) = String.length name.
Proof. pose proof (byteLength_length name). unfold byteLength, blen in *. lia. Qed.

Lemma pad_length : length (pad 100 (text_bytes name)) = 100%nat.
Proof. unfold pad, zeros. rewrite length_app, length_replicate, name_length. lia. Qed.

Lemma tar_header_length : length (tar_header name size) = 512%nat.
Proof.
  unfold tar_header. rewrite !length_app, pad_length, octal_text_length. unfold zeros. rewrite !length_replicate. done.
Qed.

Lemma tar_header_name : header_name (tar_header name size) = name.
Proof.
  unfold header_name, header_field.
  assert (Ep : subarray (tar_header name size) 345 (345 + 155) = zeros 155).
  { unfold tar_header. replace (zeros (1 + 209 + 155 + 12)) with (zeros 210 ++ zeros 155 ++ zeros 12)
      by (unfold zeros; by rewrite <- !replicate_add). rewrite !app_assoc, <- app_assoc.
    apply subarray_mid; unfold blen; rewrite ?length_app, ?pad_length, ?octal_text_length; unfold zeros; by rewrite !length_replicate. }
  rewrite Ep. change (String.eqb (utf8_decode (before_nul (zeros 155))) "") with true. cbv iota.
  unfold tar_header. rewrite <- (app_nil_l (pad 100 (text_bytes name) ++ _)), subarray_mid;
    [|done|unfold blen; by rewrite pad_length].
  unfold pad. rewrite before_nul_plain by done. by apply plain_ascii.
Qed.

Lemma tar_header_size : header_size (tar_header name size) = Some size.
Proof.
  unfold header_size, header_field.
  assert (Es : subarray (tar_header name size) 124 (124 + 12) = text_bytes (octal_text 11 size) ++ zeros 1).
  { unfold tar_header. replace (zeros (1 + 209 + 155 + 12)) with (zeros 1 ++ zeros 376) by (unfold zeros; by rewrite <- !replicate_add).
    rewrite (app_assoc (text_bytes (octal_text 11 size))), (app_assoc (pad 100 _)).
    apply subarray_mid; unfold blen; rewrite ?length_app, ?pad_length, ?octal_text_length; unfold zeros; by rewrite !length_replicate. }
  pose proof (octal_text_octals 11 size) as Ho.
  rewrite Es, before_nul_plain by (by apply octals_plain). rewrite plain_ascii by (by apply octals_plain).
  rewrite trim_octals by done. destruct (String.eqb_spec (octal_text 11 size) "") as [E|_].
  { pose proof (octal_text_length 11 size) as Hl. by rewrite E in Hl. }
  rewrite parseOctal_octals by done. apply (leading_octal_text 11); [exact size_range|lia].
Qed.

Lemma tar_header_nonzero : name <> "" -> forallb (fun x => bool_decide (x = x00)) (tar_header name size) = false.
Proof.
  intros Hne. destruct name as [|c t] eqn:En; [done|]. unfold tar_header, pad. rewrite text_bytes_cons. cbn [app forallb].
  unfold plain in plain_name. rewrite text_bytes_cons in plain_name. cbn [forallb] in plain_name.
  apply andb_true_iff in plain_name as [[_ Hx]%andb_true_iff _]. apply negb_true_iff in Hx. by rewrite Hx.
Qed.
End Header.

(** ** The round trip *)

Definition lookup_file (files : list (string * bytes)) (wanted : string) : option bytes :=
  snd <$> find (fun f => String.eqb f.1 wanted) files.

Lemma tar_file_length f : file_ok f -> blen (tar_file f) = 512 + blocks_of (blen f.2).
Proof.
  intros (_ & Hl & _ & _). unfold tar_file, blen. rewrite !length_app, (tar_header_length f.1 _ Hl). unfold zeros. rewrite length_replicate.
  pose proof (blocks_forward (blen f.2) ltac:(unfold blen; lia)). unfold blen in *. lia.
Qed.

Lemma archive_at pre files wanted : Forall file_ok files -> forall fuel, (length files < fuel)%nat ->
  readTarEntry_from fuel (pre ++ tar_archive files) wanted (blen pre) = Some (lookup_file files wanted).
Proof.
  intros Hok. revert pre. induction Hok as [|f files Hf Hok IH]; intros pre fuel Hfuel; (destruct fuel as [|fuel]; [cbn in Hfuel; lia|]);
    cbn [readTarEntry_from].
  - rewrite (proj2 (Z.leb_le _ _)) by (unfold blen, tar_archive; rewrite !length_app; unfold zeros; rewrite length_replicate; lia).
    unfold tar_archive. cbn [fmap list_fmap concat app]. change (zeros 1024) with (zeros 512 ++ zeros 512).
    by rewrite subarray_mid by (unfold blen, zeros; rewrite ?length_replicate; lia).
  - pose proof Hf as (Hne & Hl & Hp & Hs). pose proof (tar_file_length f Hf) as Hlen.
    pose proof (blocks_forward (blen f.2) ltac:(unfold blen; lia)) as [Hb0 Hb].
    assert (E : pre ++ tar_archive (f :: files) = pre ++ tar_header f.1 (blen f.2) ++
      (f.2 ++ zeros (Z.to_nat (blocks_of (blen f.2) - blen f.2)) ++ tar_archive files)).
    { unfold tar_archive, tar_file. cbn [fmap list_fmap concat]. by rewrite <- !app_assoc. }
    rewrite (proj2 (Z.leb_le _ _)) by (rewrite E; unfold blen; rewrite !length_app, (tar_header_length f.1 _ Hl); lia).
    assert (Eh : subarray (pre ++ tar_archive (f :: files)) (blen pre) (blen pre + 512) = tar_header f.1 (blen f.2)).
    { rewrite E. apply subarray_mid; [done|]. unfold blen at 3. by rewrite (tar_header_length f.1 _ Hl). }
    rewrite Eh, (tar_header_nonzero f.1 _ Hl Hp Hne), (tar_header_name f.1 _ Hl Hp), (tar_header_size f.1 _ Hl) by (unfold blen in *; lia).
    unfold lookup_file. cbn [find]. destruct (String.eqb f.1 wanted).
    + rewrite E, app_assoc. cbn [fmap option_fmap option_map snd]. do 2 f_equal. apply subarray_mid; unfold blen; rewrite length_app, (tar_header_length f.1 _ Hl); lia.
    + assert (Ef : pre ++ tar_archive (f :: files) = (pre ++ tar_file f) ++ tar_archive files).
      { unfold tar_archive. cbn [fmap list_fmap concat]. by rewrite <- !app_assoc. }
      rewrite Ef. replace (blen pre + 512 + blocks_of (blen f.2)) with (blen (pre ++ tar_file f)).
      * apply IH. cbn in Hfuel. lia.
      * unfold blen in *. rewrite length_app. lia.
Qed.

(** What an archive was written from is read back by name, the first of a name,
    and no file is found where there is none. *)
Theorem tar_round_trip files wanted : Forall file_ok files ->
  readTarEntry (tar_archive files) wanted = Some (lookup_file files wanted).
Proof.
  intros Hok. apply (archive_at [] files wanted Hok). unfold tar_fuel.
  assert (Hl : (512 * length files <= length (tar_archive files))%nat).
  { clear wanted. unfold tar_archive. rewrite length_app. induction Hok as [|f files Hf Hok IH]; [cbn; lia|].
    cbn [fmap list_fmap concat length]. rewrite length_app. pose proof (tar_file_length f Hf).
    pose proof (blocks_forward (blen f.2) ltac:(unfold blen; lia)). unfold blen in *. fold (fmap (M := list) tar_file files) in *. lia. }
  pose proof (Nat.div_le_lower_bound (length (tar_archive files)) 512 (length files) ltac:(lia) Hl). lia.
Qed.

(** ** A size that leads back *)

Definition backward_header : bytes := pad 124 (text_bytes "loop") ++ text_bytes "-1000" ++ zeros 383.

(** The loop reads such a header again and again. *)
Lemma backward_size_never_ends fuel : readTarEntry_from fuel (backward_header ++ zeros 1024) "wanted" 0 = None.
Proof.
  induction fuel as [|fuel IH]; [done|]. cbn [readTarEntry_from].
  replace (subarray (backward_header ++ zeros 1024) 0 (0 + 512)) with backward_header by (vm_compute; reflexivity).
  change (0 + 512 <=? blen (backward_header ++ zeros 1024)) with true.
  replace (forallb _ backward_header) with false by (vm_compute; reflexivity).
  replace (header_name backward_header) with "loop" by (vm_compute; reflexivity).
  replace (header_size backward_header) with (Some (-512)) by (vm_compute; reflexivity). exact IH.
Qed.
