(* ===== verification/PinDrift.v ===== *)
(** Whether a newer eve installs another set of Workflow packages than the eve
    this package pins (scripts/eve-pin-drift.mjs): what a manifest or a vendored
    runtime declares, the order of versions, and the check with its exit codes. *)
From stdpp Require Import sorting.
From S2P Require Import Prelude Model Bytes Slots Sdk Tenant JsText Tar Contract.
From Stdlib Require Import Strings.Ascii.
Local Open Scope Z_scope.

(** Why a check ends without an answer: by [fail], by an exception nobody catches,
    or not at all. *)
Inductive drift_error := Failed | Uncaught | Hangs.

(** Packages with what is declared of them, in the order of the object. *)
Notation pins := (list (string * json)).

Definition is_workflow (name : string) : bool := bool_decide (is_Some (behind "@workflow/" name)).

(** [Object.entries] of a property that is an object; the keys of an array are
    indexes, which no package's name is. *)
Definition section_entries (manifest : json) (name : string) : pins :=
  match field name manifest with Some (JObj l) => l | _ => [] end.

(** The first declaration wins. *)
Definition declare_pin (merged : pins) (p : string * json) : pins :=
  if is_workflow p.1 && negb (bool_decide (is_Some (assoc p.1 merged))) then merged ++ [p] else merged.

Definition workflowPinsFrom (manifest : json) : pins :=
  foldl declare_pin [] (concat (section_entries manifest <$> ["dependencies"; "devDependencies"; "peerDependencies"])).

(** ** Versions *)

Definition is_digit (c : Ascii.ascii) : bool := bool_decide (is_Some (char_digit c)).

(** [\d+] at the front of a text, and what is behind it. *)
Fixpoint digits_front (s : string) : string * string :=
  match s with
  | String c t => if is_digit c then let '(d, r) := digits_front t in (String c d, r) else ("", s)
  | "" => ("", "")
  end.
Definition some_digits (s : string) : option (string * string) :=
  let '(d, r) := digits_front s in if String.eqb d "" then None else Some (d, r).

(** [Number] of digits. *)
Definition digits_number (d : string) : js_number := to_double (Z.of_N (default 0%N (leading_digits None d))).

(** The numbers of an exact version; of a release the candidate's is infinite. *)
Record exact_version := ExactVersion { xv_parts : list js_number; xv_rc : js_number }.

(** [EXACT_VERSION.exec] *)
Definition parse_version (s : string) : option exact_version :=
  '(a, s) ← some_digits s; s ← behind "." s;
  '(b, s) ← some_digits s; s ← behind "." s;
  '(c, s) ← some_digits s;
  let parts := [digits_number a; digits_number b; digits_number c] in
  if String.eqb s "" then Some (ExactVersion parts (JsInfinite false)) else
  s ← behind "-rc." s; '(d, s) ← some_digits s;
  if String.eqb s "" then Some (ExactVersion parts (digits_number d)) else None.

Definition isExact (version : string) : bool := bool_decide (is_Some (parse_version version)).

(** The sign of [a - b]; [None] where it is [NaN]. *)
Definition difference_sign (a b : js_number) : option comparison :=
  match a, b with
  | JsFinite x p, JsFinite y q => Some (x * Zpos q ?= y * Zpos p)
  | JsInfinite s, JsInfinite t => if Bool.eqb s t then None else Some (if s then Lt else Gt)
  | JsInfinite s, JsFinite _ _ => Some (if s then Lt else Gt)
  | JsFinite _ _, JsInfinite t => Some (if t then Gt else Lt)
  | _, _ => None
  end.

(** The loop over the first three numbers: [Some Eq] when it runs through. *)
Fixpoint compare_parts (a b : list js_number) : option comparison :=
  match a, b with
  | x :: a, y :: b => match difference_sign x y with Some Eq => compare_parts a b | r => r end
  | _, _ => Some Eq
  end.

(** The candidates' numbers, infinite ones equal. *)
Definition compare_rc (a b : js_number) : comparison :=
  match a, b with
  | JsInfinite s, JsInfinite t => if Bool.eqb s t then Eq else if s then Lt else Gt
  | _, _ => default Gt (difference_sign a b)
  end.

(** The sign of what [compareVersions] returns, [None] for [NaN]. *)
Definition compare_exact (a b : exact_version) : option comparison :=
  match compare_parts (xv_parts a) (xv_parts b) with
  | Some Eq => Some (compare_rc (xv_rc a) (xv_rc b))
  | r => r
  end.

Definition compareVersions (a b : string) : option comparison :=
  a ← parse_version a; b ← parse_version b; compare_exact a b.

(** [sort(compareVersions)], which is stable and takes [NaN] for zero. *)
Definition goes_before (a b : string) : bool :=
  match compareVersions a b with Some Gt => false | _ => true end.
Fixpoint insert_version (v : string) (l : list string) : list string :=
  match l with
  | [] => [v]
  | u :: l => if goes_before v u then v :: u :: l else u :: insert_version v l
  end.
Definition sort_versions (l : list string) : list string := foldr insert_version [] l.

Definition newer_than (ourEve : string) (allVersions : list string) : list string :=
  sort_versions (filter (fun v => compareVersions v ourEve = Some Gt) (filter (fun v => isExact v = true) allVersions)).

(** ** What moved *)

(** [a === b] of values of which objects are always others. *)
Definition same_value (a b : json) : bool :=
  match a, b with
  | JNull, JNull => true
  | JBool x, JBool y => Bool.eqb x y
  | JNum x, JNum y => match difference_sign x y with Some Eq => true | Some _ => false
                      | None => match x, y with JsInfinite _, JsInfinite _ => true | _, _ => false end end
  | JStr x, JStr y => String.eqb x y
  | _, _ => false
  end.

Record pin_diff := PinDiff { df_moved : list (string * json * json); df_dropped : list string }.

Definition diffAgainstBase (ourPins basePins newPins : pins) : pin_diff :=
  foldl (fun d p =>
    match assoc p.1 basePins with
    | None => d
    | Some base =>
        match assoc p.1 newPins with
        | None => PinDiff (df_moved d) (df_dropped d ++ [p.1])
        | Some next => if same_value next base then d else PinDiff (df_moved d ++ [(p.1, base, next)]) (df_dropped d)
        end
    end) (PinDiff [] []) ourPins.

Definition no_diff (d : pin_diff) : bool := bool_decide (length (df_moved d) = 0%nat) && bool_decide (length (df_dropped d) = 0%nat).

(** ** The check *)

(** What a request comes to: it fails, is answered with an error, its body cannot
    be read or unpacked, or a body. *)
Inductive fetched (A : Type) := RequestFailed | BadStatus | BodyLost | Body (a : A).
Arguments RequestFailed {A}.
Arguments BadStatus {A}.
Arguments BodyLost {A}.
Arguments Body {A} a.

(** The earliest release that moved the set. *)
Record drift := Drift { dr_version : string; dr_moved : list (string * json * json); dr_dropped : list string }.

Inductive verdict :=
| NothingNewer (ourEve : string)
| SameSet (ourEve newest : string) (count : nat)
| Drifted (ourEve newest : string) (d : drift).

Section Check.
Context `{QueueSdk}.
(** The unpacked archive behind a URL. *)
Context (download : string -> fetched bytes).

Definition bundled_entries (moduleVersions : option json) : pins :=
  match moduleVersions with Some (JObj l) => filter (fun p => is_workflow p.1 = true) l | _ => [] end.

(** Reading the body and [gunzipSync] are outside of every [catch]. *)
Definition bundledWorkflowPins (manifest : json) : result drift_error pins :=
  match (dist ← field "dist" manifest; string_field "tarball" dist) with
  | None | Some "" => Err Failed
  | Some tarballUrl =>
      match download tarballUrl with
      | RequestFailed | BadStatus => Err Failed
      | BodyLost => Err Uncaught
      | Body archive =>
          match readTarEntry archive "package/dist/src/compiled/.vendor-stamp.json" with
          | None => Err Hangs
          | Some None => Ok []
          | Some (Some stamp) =>
              match JSON_parse (text_bytes (utf8_decode stamp)) with
              | None | Some JNull => Err Failed
              | Some j => Ok (bundled_entries (field "moduleVersions" j))
              end
          end
      end
  end.

Definition eveWorkflowPins (manifest : json) : result drift_error pins :=
  match workflowPinsFrom manifest with
  | [] => bundledWorkflowPins manifest
  | declared => Ok declared
  end.

(** [packument.versions[version]] *)
Definition manifest_of (versions : pins) (version : string) : json := default JNull (assoc version versions).

(** The loop over the newer releases. *)
Fixpoint first_moved (ourPins basePins versions : pins) (newer : list string) : result drift_error (option drift) :=
  match newer with
  | [] => Ok None
  | v :: newer =>
      result_bind (eveWorkflowPins (manifest_of versions v)) (fun newPins =>
      let d := diffAgainstBase ourPins basePins newPins in
      if no_diff d then first_moved ourPins basePins versions newer else Ok (Some (Drift v (df_moved d) (df_dropped d))))
  end.

(** The comparison, with the registry's document there. *)
Definition check_against (ourPins : pins) (ourEve : string) (versions : pins) : result drift_error verdict :=
  match assoc ourEve versions with
  | None | Some JNull => Err Failed
  | Some baseManifest =>
      result_bind (eveWorkflowPins baseManifest) (fun basePins =>
      match basePins with
      | [] => Err Failed
      | _ =>
          match newer_than ourEve (versions.*1) with
          | [] => Ok (NothingNewer ourEve)
          | v :: newer =>
              result_bind (first_moved ourPins basePins versions (v :: newer)) (fun moved =>
              Ok (match moved with
                  | None => SameSet ourEve (List.last (v :: newer) v) (length (v :: newer))
                  | Some d => Drifted ourEve (List.last (v :: newer) v) d
                  end))
          end
      end)
  end.

(** The script: this package's manifest, if it is read and parsed, and the
    registry's document, [None] within a body for one that is not JSON. *)
Definition pin_drift (ourManifest : option json) (registry : fetched (option json)) : result drift_error verdict :=
  match ourManifest with
  | None => Err Failed
  | Some JNull => Err Uncaught
  | Some ourManifest =>
      let ourPins := workflowPinsFrom ourManifest in
      match (dev ← field "devDependencies" ourManifest; string_field "eve" dev) with
      | None => Err Failed
      | Some ourEve =>
          if negb (isExact ourEve) then Err Failed else
          if bool_decide (length ourPins = 0%nat) then Err Failed else
          match registry with
          | Body (Some packument) =>
              match field "versions" packument with
              | Some (JObj (x :: versions)) => check_against ourPins ourEve (x :: versions)
              | _ => Err Failed
              end
          | _ => Err Failed
          end
      end
  end.

(** The exit codes; an exception nobody catches is Node's own 1. *)
Definition CLEAN : Z := 0.
Definition DRIFT : Z := 1.
Definition BROKEN : Z := 2.
Definition exit_code (r : result drift_error verdict) : option Z :=
  match r with
  | Ok (NothingNewer _) | Ok (SameSet _ _ _) => Some CLEAN
  | Ok (Drifted _ _ _) => Some DRIFT
  | Err Failed => Some BROKEN
  | Err Uncaught => Some 1
  | Err Hangs => None
  end.
End Check.

(** ** What it says *)

Section Report.
Context (text_of : json -> string).

Definition moved_row (m : string * json * json) : string :=
  let '(name, ours, theirs) := m in
  "| `" +:+ name +:+ "` | " +:+ text_of ours +:+ " | **" +:+ text_of theirs +:+ "** |".

Definition report_lines (ourEve newest : string) (d : drift) : list string :=
  ["eve " +:+ dr_version d +:+ " is the first release since our pinned " +:+ ourEve +:+ " to install a";
   "different `@workflow/*` set. eve's newest is " +:+ newest +:+ "."; ""] ++
  (if (0 <? length (dr_moved d))%nat
   then ["Moved:"; ""; "| package | ours | eve |"; "| --- | --- | --- |"] ++ (moved_row <$> dr_moved d) ++ [""] else []) ++
  (if (0 <? length (dr_dropped d))%nat
   then ["No longer installed by eve (needs an exemption in `src/eve-pin-contract.test.ts`,"; "or the dependency is stranded):"; ""] ++
        ((fun name => "- `" +:+ name +:+ "`") <$> dr_dropped d) ++ [""] else []) ++
  ["This is a heads-up, not a deadline. Nothing here can be deployed until Eveland's";
   "`packages/core/src/eve-compatibility.ts` verifies a version on that line — check it";
   "before bumping, and pin the version *it* verifies rather than npm's `latest`."; "";
   "When it is time: bump the `eve` devDependency, run `pnpm install`, and let";
   "`src/eve-pin-contract.test.ts` name the packages that have to move with it.";
   "Confirm `specVersion` remains compatible — eve compiles the runtime's check into each";
   "release, as literal equality through `@workflow/core` beta.40 and as a";
   "floor-and-ceiling range from beta.41 on, and the floor still rejects a World";
   "pinned behind the runtime. Then run `pnpm run test:e2e`, which is the only thing";
   "here that loads a real eve."].

Definition verdict_lines (v : verdict) : list string :=
  match v with
  | NothingNewer ourEve => ["eve-pin-drift: nothing newer than the pinned eve " +:+ ourEve +:+ ". Nothing to do."]
  | SameSet ourEve newest count =>
      ["eve-pin-drift: eve is at " +:+ newest +:+ "; we pin " +:+ ourEve +:+ ". All " +:+ dec_text (N.of_nat count) +:+
       " newer release(s) install the same @workflow/* set we do. Nothing to do."]
  | Drifted ourEve newest d => report_lines ourEve newest d
  end.
End Report.

(** ** The order of versions *)

(** The numbers of a version none of which is past what a double holds. *)
Definition version_key : Type := Z * Z * Z * option Z.
Definition key_of (v : exact_version) : option version_key :=
  match v with
  | ExactVersion [JsFinite a 1; JsFinite b 1; JsFinite c 1] (JsFinite d 1) => Some (a, b, c, Some d)
  | ExactVersion [JsFinite a 1; JsFinite b 1; JsFinite c 1] (JsInfinite false) => Some (a, b, c, None)
  | _ => None
  end.

(** Major, minor and patch first; a candidate is before its release. *)
Definition then_by (x y : comparison) : comparison := match x with Eq => y | _ => x end.
Definition key_compare (x y : version_key) : comparison :=
  let '(a, b, c, r) := x in
  let '(a', b', c', r') := y in
  then_by (a ?= a') (then_by (b ?= b') (then_by (c ?= c')
    match r, r' with Some n, Some m => n ?= m | Some _, None => Lt | None, Some _ => Gt | None, None => Eq end)).

Lemma compare_by_key a b x y : key_of a = Some x -> key_of b = Some y -> compare_exact a b = Some (key_compare x y).
Proof.
  destruct a as [[|[| |a1 []] [|[| |a2 []] [|[| |a3 []] [|]]]] [|[]|ra []]]; try done;
    destruct b as [[|[| |b1 []] [|[| |b2 []] [|[| |b3 []] [|]]]] [|[]|rb []]]; try done;
    intros [= <-] [= <-]; unfold compare_exact; cbn [xv_parts xv_rc compare_parts difference_sign compare_rc key_compare];
    rewrite !Z.mul_1_r; by destruct (a1 ?= b1), (a2 ?= b2), (a3 ?= b3).
Qed.

Lemma key_compare_antisym x y : key_compare y x = CompOpp (key_compare x y).
Proof.
  destruct x as [[[a b] c] r], y as [[[a' b'] c'] r']. cbn. rewrite (Z.compare_antisym a a'), (Z.compare_antisym b b'), (Z.compare_antisym c c').
  destruct (a ?= a'), (b ?= b'), (c ?= c'), r, r'; cbn; try done; apply Z.compare_antisym.
Qed.

(** [x] is not after [y]. *)
Definition key_le (x y : version_key) : Prop := key_compare x y <> Gt.

Lemma key_le_trans x y z : key_le x y -> key_le y z -> key_le x z.
Proof.
  destruct x as [[[a b] c] r], y as [[[a' b'] c'] r'], z as [[[a'' b''] c''] r'']. unfold key_le, key_compare, then_by.
  destruct (Z.compare_spec a a'), (Z.compare_spec a' a''), (Z.compare_spec a a''); try lia; try done;
  destruct (Z.compare_spec b b'), (Z.compare_spec b' b''), (Z.compare_spec b b''); try lia; try done;
  destruct (Z.compare_spec c c'), (Z.compare_spec c' c''), (Z.compare_spec c c''); try lia; try done;
  destruct r as [n|], r' as [n'|], r'' as [n''|]; try done;
  destruct (Z.compare_spec n n'), (Z.compare_spec n' n''), (Z.compare_spec n n''); try lia; done.
Qed.

Definition key_text (s : string) : option version_key := v ← parse_version s; key_of v.

Lemma compareVersions_key u v x y : key_text u = Some x -> key_text v = Some y -> compareVersions u v = Some (key_compare x y).
Proof.
  unfold key_text, compareVersions. destruct (parse_version u) as [a|]; [|done]. destruct (parse_version v) as [b|]; [|done].
  cbn. apply compare_by_key.
Qed.

Lemma goes_before_key u v x y : key_text u = Some x -> key_text v = Some y -> goes_before u v = true <-> key_le x y.
Proof.
  intros Hu Hv. unfold goes_before, key_le. rewrite (compareVersions_key u v x y) by done. by destruct (key_compare x y).
Qed.

(** ** Sorting *)

Lemma insert_version_perm v l : insert_version v l ≡ₚ v :: l.
Proof. induction l as [|u l IH]; [done|]. cbn. destruct (goes_before v u); [done|]. rewrite IH. apply Permutation_swap. Qed.

Lemma sort_versions_perm l : sort_versions l ≡ₚ l.
Proof. induction l as [|v l IH]; [done|]. cbn. by rewrite insert_version_perm, IH. Qed.

Section Sorted.
Context (keyed : string -> Prop) (Hkey : forall s, keyed s -> is_Some (key_text s)).

Lemma goes_before_trans u v w : keyed u -> keyed v -> keyed w ->
  goes_before u v = true -> goes_before v w = true -> goes_before u w = true.
Proof.
  intros [x Hx]%Hkey [y Hy]%Hkey [z Hz]%Hkey.
  rewrite (goes_before_key u v x y), (goes_before_key v w y z), (goes_before_key u w x z) by done. apply key_le_trans.
Qed.

Lemma goes_before_total u v : keyed u -> keyed v -> goes_before u v = false -> goes_before v u = true.
Proof.
  intros [x Hx]%Hkey [y Hy]%Hkey. rewrite (goes_before_key v u y x) by done. unfold goes_before, key_le.
  rewrite (compareVersions_key u v x y), (key_compare_antisym x y) by done. by destruct (key_compare x y).
Qed.

Lemma insert_version_sorted v l : keyed v -> Forall keyed l -> StronglySorted (fun a b => goes_before a b = true) l ->
  StronglySorted (fun a b => goes_before a b = true) (insert_version v l).
Proof.
  intros Hv Hl. induction 1 as [|u l Hs IH Hu]; cbn; [by repeat constructor|]. apply Forall_cons in Hl as [Hku Hl].
  destruct (goes_before v u) eqn:E.
  - constructor; [by constructor|]. constructor; [done|]. rewrite Forall_forall in *. intros w Hw.
    apply (goes_before_trans v u w); auto.
  - constructor; [by apply IH|]. rewrite Forall_forall in *. intros w Hw. rewrite insert_version_perm in Hw.
    apply elem_of_cons in Hw as [->|Hw]; [|by apply Hu]. by apply goes_before_total.
Qed.

Lemma sort_versions_sorted l : Forall keyed l -> StronglySorted (fun a b => goes_before a b = true) (sort_versions l).
Proof.
  induction 1 as [|v l Hv Hl IH]; cbn; [constructor|]. apply insert_version_sorted; [done| |done]. fold (sort_versions l).
  by rewrite sort_versions_perm.
Qed.
End Sorted.

(** ** What a verdict says *)

Lemma diff_fold (ourPins basePins newPins : pins) : forall d, let d' := foldl (fun d p =>
    match assoc p.1 basePins with
    | None => d
    | Some base =>
        match assoc p.1 newPins with
        | None => PinDiff (df_moved d) (df_dropped d ++ [p.1])
        | Some next => if same_value next base then d else PinDiff (df_moved d ++ [(p.1, base, next)]) (df_dropped d)
        end
    end) d ourPins in
  no_diff d' = true <-> no_diff d = true /\
    forall name base, name ∈ ourPins.*1 -> assoc name basePins = Some base ->
      exists next, assoc name newPins = Some next /\ same_value next base = true.
Proof.
  induction ourPins as [|[name v] l IH]; intros d; cbn zeta; cbn [foldl fmap list_fmap].
  { split; [intros H; split; [done|]; intros ? ? Hin; by apply elem_of_nil in Hin|tauto]. }
  rewrite IH. cbn [fst]. clear IH. assert (Hgrow : forall m n, no_diff (PinDiff (df_moved d ++ m) (df_dropped d ++ n)) = true ->
    m = [] /\ n = []).
  { intros m n. unfold no_diff. cbn. rewrite andb_true_iff, !bool_decide_eq_true, !length_app. intros [H1 H2].
    split; apply length_zero_iff_nil; lia. }
  setoid_rewrite elem_of_cons.
  destruct (assoc name basePins) as [base|] eqn:Eb.
  - destruct (assoc name newPins) as [next|] eqn:En; [destruct (same_value next base) eqn:Es|].
    + split; (intros [H1 H2]; split; [done|]); [intros ? b [->|Hin] Hb; [|by apply (H2 _ b)]|intros ? b Hin; apply H2; by right].
      rewrite Eb in Hb. injection Hb as <-. by eexists.
    + split; intros [H1 H2]; exfalso.
      * rewrite <- (app_nil_r (df_dropped d)) in H1. by apply Hgrow in H1 as [? _].
      * destruct (H2 name base) as (n & Hn & Hs); [by left|done|]. congruence.
    + split; intros [H1 H2]; exfalso.
      * rewrite <- (app_nil_r (df_moved d)) in H1. by apply Hgrow in H1 as [_ ?].
      * destruct (H2 name base) as (n & Hn & Hs); [by left|done|]. congruence.
  - split; (intros [H1 H2]; split; [done|]); [intros ? b [->|Hin] Hb; [congruence|by apply (H2 _ b)]|intros ? b Hin; apply H2; by right].
Qed.

(** No difference is that every package of ours the base has, the other has with
    the same value: a package of ours the base never had is no matter. *)
Lemma no_diff_iff (ourPins basePins newPins : pins) : no_diff (diffAgainstBase ourPins basePins newPins) = true <->
  forall name base, name ∈ ourPins.*1 -> assoc name basePins = Some base ->
    exists next, assoc name newPins = Some next /\ same_value next base = true.
Proof. unfold diffAgainstBase. rewrite diff_fold. split; [by intros [_ ?]|]. intros H. by split. Qed.

Section Verdict.
Context `{QueueSdk} (download : string -> fetched bytes) (ourPins basePins versions : pins).

(** A release that has the set of the base. *)
Definition unmoved (v : string) : Prop := exists newPins,
  eveWorkflowPins download (manifest_of versions v) = Ok newPins /\ no_diff (diffAgainstBase ourPins basePins newPins) = true.

Lemma first_moved_split newer : match first_moved download ourPins basePins versions newer with
  | Ok None => Forall unmoved newer
  | Ok (Some d) => exists before after newPins, newer = before ++ dr_version d :: after /\ Forall unmoved before /\
      eveWorkflowPins download (manifest_of versions (dr_version d)) = Ok newPins /\
      no_diff (diffAgainstBase ourPins basePins newPins) = false /\
      PinDiff (dr_moved d) (dr_dropped d) = diffAgainstBase ourPins basePins newPins
  | Err _ => True
  end.
Proof.
  induction newer as [|v newer IH]; cbn [first_moved]; [by constructor|].
  destruct (eveWorkflowPins download (manifest_of versions v)) as [newPins|] eqn:E; cbn [result_bind]; [|done].
  destruct (no_diff (diffAgainstBase ourPins basePins newPins)) eqn:Ed.
  - destruct (first_moved download ourPins basePins versions newer) as [[d|]|]; [| |done].
    + destruct IH as (before & after & p & -> & Hb & H1 & H2 & H3). exists (v :: before), after, p. split; [done|].
      split; [|done]. constructor; [by exists newPins|done].
    + constructor; [by exists newPins|done].
  - exists [], newer, newPins. cbn. split; [done|]. split; [constructor|]. split; [done|]. split; [done|]. by destruct (diffAgainstBase _ _ _).
Qed.
End Verdict.

Lemma elem_newer ourEve all v : v ∈ newer_than ourEve all <->
  v ∈ all /\ isExact v = true /\ compareVersions v ourEve = Some Gt.
Proof. unfold newer_than. rewrite sort_versions_perm, !list_elem_of_filter. tauto. Qed.

(** A drift is the earliest: the release it names is newer than the pinned one
    and has another set, and every exact release between the two has the base's;
    with no drift every newer release has. *)
Theorem drift_is_earliest `{QueueSdk} download ourPins ourEve versions r :
  (forall v, v ∈ newer_than ourEve (versions.*1) -> is_Some (key_text v)) ->
  check_against download ourPins ourEve versions = Ok r ->
  exists base basePins, assoc ourEve versions = Some base /\ eveWorkflowPins download base = Ok basePins /\
  match r with
  | NothingNewer _ => forall v, v ∈ versions.*1 -> isExact v = true -> compareVersions v ourEve <> Some Gt
  | SameSet _ _ count => count = length (newer_than ourEve (versions.*1)) /\
      forall v, v ∈ newer_than ourEve (versions.*1) -> unmoved download ourPins basePins versions v
  | Drifted _ _ d => dr_version d ∈ newer_than ourEve (versions.*1) /\
      ~ unmoved download ourPins basePins versions (dr_version d) /\
      forall v, v ∈ newer_than ourEve (versions.*1) -> compareVersions v (dr_version d) = Some Lt ->
        unmoved download ourPins basePins versions v
  end.
Proof.
  intros Hkey E. unfold check_against in E. destruct (assoc ourEve versions) as [base|]; [|done].
  assert (Hb : exists basePins, eveWorkflowPins download base = Ok basePins /\
    match newer_than ourEve (versions.*1) with
    | [] => Ok (NothingNewer ourEve)
    | v :: newer => result_bind (first_moved download ourPins basePins versions (v :: newer)) (fun moved =>
        Ok (match moved with None => SameSet ourEve (List.last (v :: newer) v) (length (v :: newer))
                           | Some d => Drifted ourEve (List.last (v :: newer) v) d end))
    end = Ok r).
  { destruct base; try done; (destruct (eveWorkflowPins download _) as [[|p basePins]|]; [done| |done]); by eexists. }
  clear E. destruct Hb as (basePins & Eb & E). exists base, basePins. split; [done|]. split; [done|].
  destruct (newer_than ourEve (versions.*1)) as [|v newer] eqn:En.
  - injection E as <-. intros v Hv He Hc. apply (not_elem_of_nil v). rewrite <- En. by apply elem_newer.
  - pose proof (first_moved_split download ourPins basePins versions (v :: newer)) as Hf.
    destruct (first_moved download ourPins basePins versions (v :: newer)) as [[d|]|]; [| |done]; injection E as <-.
    + destruct Hf as (before & after & p & El & Hbefore & Hp & Hd & _). rewrite El in *.
      split; [apply elem_of_app; right; by left|]. split; [intros (q & Hq & Hqd); congruence|]. intros u Hu Hlt.
      apply elem_of_app in Hu as [Hu|Hu]; [rewrite Forall_forall in Hbefore; by apply Hbefore|]. exfalso.
      assert (Hs : StronglySorted (fun a b => goes_before a b = true) (before ++ dr_version d :: after)).
      { rewrite <- En. apply (sort_versions_sorted (fun s => is_Some (key_text s))); [done|]. apply Forall_forall. intros s Hin.
        apply Hkey. rewrite <- En. unfold newer_than. by rewrite sort_versions_perm. }
      apply StronglySorted_app in Hs as (_ & _ & Hs). apply StronglySorted_inv in Hs as [_ Hs]. rewrite Forall_forall in Hs.
      destruct (Hkey u) as [x Hx]; [apply elem_of_app; by right|].
      destruct (Hkey (dr_version d)) as [y Hy]; [apply elem_of_app; right; by left|].
      rewrite (compareVersions_key _ _ x y Hx Hy) in Hlt. injection Hlt as Hlt.
      apply elem_of_cons in Hu as [->|Hu].
      * assert (x = y) as -> by congruence. pose proof (key_compare_antisym y y) as Ha. rewrite Hlt in Ha. done.
      * specialize (Hs u Hu). rewrite (goes_before_key _ _ y x Hy Hx) in Hs. apply Hs. by rewrite key_compare_antisym, Hlt.
    + split; [done|]. rewrite Forall_forall in Hf. exact Hf.
Qed.

(** ** A registry *)

Definition demo_manifest (workflow : string) : json := JObj [("dependencies", JObj [("@workflow/core", JStr workflow); ("zod", JStr "4")])].
Definition demo_versions : pins :=
  [("1.1.0", demo_manifest "5.0.1"); ("1.0.0", demo_manifest "5.0.0"); ("1.1.0-beta.1", demo_manifest "6"); ("0.9.9", demo_manifest "4");
   ("1.0.10", demo_manifest "5.0.0"); ("1.1.0-rc.2", demo_manifest "5.0.1"); ("1.0.9", demo_manifest "5.0.0")].

Lemma drift_is_earliest_witness `{QueueSdk} download :
  check_against download (workflowPinsFrom (demo_manifest "4")) "1.0.0" demo_versions =
    Ok (Drifted "1.0.0" "1.1.0" (Drift "1.1.0-rc.2" [("@workflow/core", JStr "5.0.0", JStr "5.0.1")] [])) /\
  unmoved download (workflowPinsFrom (demo_manifest "4")) [("@workflow/core", JStr "5.0.0")] demo_versions "1.0.10".
Proof.
  assert (E : check_against download (workflowPinsFrom (demo_manifest "4")) "1.0.0" demo_versions =
    Ok (Drifted "1.0.0" "1.1.0" (Drift "1.1.0-rc.2" [("@workflow/core", JStr "5.0.0", JStr "5.0.1")] []))) by (vm_compute; reflexivity).
  split; [exact E|].
  assert (En : newer_than "1.0.0" (demo_versions.*1) = ["1.0.9"; "1.0.10"; "1.1.0-rc.2"; "1.1.0"]) by (vm_compute; reflexivity).
  destruct (drift_is_earliest download (workflowPinsFrom (demo_manifest "4")) "1.0.0" demo_versions _ ltac:(
    intros v Hv; rewrite En in Hv; apply (bool_decide_unpack (is_Some (key_text v)));
    rewrite !elem_of_cons in Hv; destruct Hv as [->|[->|[->|[->|Hv%elem_of_nil]]]]; [reflexivity..|done]) E)
    as (base & basePins & Eb & Ep & _ & _ & Hall).
  vm_compute in Eb. injection Eb as <-. vm_compute in Ep. injection Ep as <-.
  apply Hall; [rewrite En; right; by left|vm_compute; reflexivity].
Defined.

(** A tarball whose body is lost on the way, or is none, makes the script exit
    as a drift does. *)
Lemma lost_body_exits_like_drift `{QueueSdk} ourPins :
  exit_code (check_against (fun _ => BodyLost) ourPins "1.0.0"
    [("1.0.0", JObj [("dist", JObj [("tarball", JStr "https://registry/eve.tgz")])])]) = Some DRIFT.
Proof. reflexivity. Qed.
