(* ===== verification/Codec.v ===== *)
(** Texts that bytes and values are carried in: base 64, and JSON with
    [JSON.parse] and [JSON.stringify] as the fields of a class. *)
From S2P Require Import Prelude Model Bytes Slots Tenant JsText Sdk Contract.
From Stdlib Require Import Strings.Byte Strings.Ascii.
Local Open Scope Z_scope.

(** ** Base 64 *)

Definition base64_alphabet : string := "ABCDEFGHIJKLMNOPQRSTUVWXYZabcdefghijklmnopqrstuvwxyz0123456789+/".

(** The character of six bits, and the six bits of a character. *)
Definition sextet_char (n : Z) : ascii := default "A"%char (String.get (Z.to_nat n) base64_alphabet).
Definition char_sextet (c : ascii) : option Z := Z.of_nat <$> String.index 0 (String c "") base64_alphabet.

Definition sextet_text (l : list Z) (padding : string) : string := fold_right (fun n s => String (sextet_char n) s) padding l.

(** [toString("base64")] *)
Fixpoint base64 (b : bytes) : string :=
  match b with
  | x :: y :: z :: b =>
      let n := byte_val x * 65536 + byte_val y * 256 + byte_val z in
      sextet_text [n / 262144; n / 4096 mod 64; n / 64 mod 64; n mod 64] (base64 b)
  | [x; y] =>
      let n := byte_val x * 1024 + byte_val y * 4 in sextet_text [n / 4096; n / 64 mod 64; n mod 64] "="
  | [x] => let n := byte_val x * 16 in sextet_text [n / 64; n mod 64] "=="
  | [] => ""
  end.

(** [Buffer.from(s, "base64")] of what [base64] gives; of any other text the
    caller only sees that encoding the result again does not give the text. *)
Fixpoint sextets (s : string) : list Z :=
  match s with
  | String c s => if Ascii.eqb c "="%char then [] else
                  match char_sextet c with Some n => n :: sextets s | None => sextets s end
  | "" => []
  end.

Fixpoint octets (l : list Z) : bytes :=
  match l with
  | a :: b :: c :: d :: l => byte_of (a * 4 + b / 16) :: byte_of (b mod 16 * 16 + c / 4) :: byte_of (c mod 4 * 64 + d) :: octets l
  | [a; b; c] => [byte_of (a * 4 + b / 16); byte_of (b mod 16 * 16 + c / 4)]
  | [a; b] => [byte_of (a * 4 + b / 16)]
  | _ => []
  end.

Definition from_base64 (s : string) : bytes := octets (sextets s).

(** ** JSON *)

Class Json := { parse_json : string -> option json; stringify_json : json -> string }.

(** A value its text stands for. *)
Definition exact `{Json} (v : json) : Prop := parse_json (stringify_json v) = Some v.

(** ** Base 64 is read back *)

Definition sextet (n : Z) : Prop := 0 <= n < 64.

Lemma sextet_cases (P : Z -> Prop) : Forall P (Z.of_nat <$> seq 0 64) -> forall n, sextet n -> P n.
Proof.
  intros H n Hn. rewrite Forall_forall in H. apply H. apply list_elem_of_fmap. exists (Z.to_nat n).
  split; [unfold sextet in Hn; lia|]. apply elem_of_seq. unfold sextet in Hn. lia.
Qed.

Lemma char_sextet_char n : sextet n ->
  char_sextet (sextet_char n) = Some n /\ Ascii.eqb (sextet_char n) "="%char = false /\ (N_of_ascii (sextet_char n) < 128)%N.
Proof.
  revert n. apply sextet_cases.
  apply (bool_decide_unpack (Forall (fun n => char_sextet (sextet_char n) = Some n /\
    Ascii.eqb (sextet_char n) "="%char = false /\ (N_of_ascii (sextet_char n) < 128)%N) (Z.of_nat <$> seq 0 64))).
  vm_compute. exact I.
Qed.

Lemma sextets_text l rest : Forall sextet l -> sextets (sextet_text l rest) = l ++ sextets rest.
Proof.
  induction 1 as [|n l Hn _ IH]; [done|].
  change (sextet_text (n :: l) rest) with (String (sextet_char n) (sextet_text l rest)). cbn [sextets].
  destruct (char_sextet_char n Hn) as (E1 & E2 & _). rewrite E2, E1. cbn [app]. by f_equal.
Qed.

Lemma byte_of_eq n b : n mod 256 = byte_val b -> byte_of n = b.
Proof. intros E. rewrite <- (byte_of_val b). unfold byte_of. rewrite E. by rewrite Z.mod_small by apply byte_val_range. Qed.

Lemma from_base64_three x y z b : from_base64 (base64 b) = b -> from_base64 (base64 (x :: y :: z :: b)) = x :: y :: z :: b.
Proof.
  unfold from_base64. intros IH. cbn [base64].
  pose proof (byte_val_range x). pose proof (byte_val_range y). pose proof (byte_val_range z).
  rewrite sextets_text.
  - cbn [app octets]. rewrite IH. repeat f_equal; apply byte_of_eq; Z.to_euclidean_division_equations; lia.
  - unfold sextet. repeat constructor; Z.to_euclidean_division_equations; lia.
Qed.

Lemma from_base64_rest b : (length b < 3)%nat -> from_base64 (base64 b) = b.
Proof.
  destruct b as [|x [|y [|? ?]]]; cbn [length]; intros Hl; [done| | |lia]; unfold from_base64; cbn [base64];
    pose proof (byte_val_range x); try pose proof (byte_val_range y);
    (rewrite sextets_text; [|unfold sextet; repeat constructor; Z.to_euclidean_division_equations; lia]);
    cbn [app octets sextets Ascii.eqb]; cbn -[byte_of Z.mul Z.add Z.div Z.modulo];
    repeat f_equal; apply byte_of_eq; Z.to_euclidean_division_equations; lia.
Qed.

(** Bytes are read back from their base 64. *)
Lemma from_base64_base64 b : from_base64 (base64 b) = b.
Proof.
  induction b as [b IH] using (induction_ltof1 _ length). unfold ltof in IH.
  destruct b as [|x [|y [|z b]]]; try (apply from_base64_rest; cbn; lia).
  apply from_base64_three, IH. cbn. lia.
Qed.

Lemma sextet_text_ascii l rest : Forall sextet l -> ascii_text rest = true -> ascii_text (sextet_text l rest) = true.
Proof.
  intros Hl Hr. induction Hl as [|n l Hn _ IH]; [done|].
  change (sextet_text (n :: l) rest) with (String (sextet_char n) (sextet_text l rest)).
  unfold ascii_text in *. rewrite text_bytes_cons. cbn [forallb]. rewrite IH, andb_true_r.
  revert n Hn. apply sextet_cases.
  apply (bool_decide_unpack (Forall (fun n => (byte_val (byte_of_ascii (sextet_char n)) <=? 127) = true) (Z.of_nat <$> seq 0 64))).
  vm_compute. exact I.
Qed.

Lemma base64_ascii b : ascii_text (base64 b) = true.
Proof.
  induction b as [b IH] using (induction_ltof1 _ length). unfold ltof in IH.
  destruct b as [|x [|y [|z b]]]; [done|..]; cbn [base64]; apply sextet_text_ascii; try done;
    pose proof (byte_val_range x); try pose proof (byte_val_range y); try pose proof (byte_val_range z);
    try (unfold sextet; repeat constructor; Z.to_euclidean_division_equations; lia).
  apply IH. cbn. lia.
Qed.
