(* ===== verification/Wire.v ===== *)
(** The JSON transport of queue messages (the [transport] of src/queue.ts), which
    carries byte arrays in a tagged envelope. *)
From S2P Require Import Prelude Model Bytes Slots Tenant JsText Sdk Contract Codec.
Local Open Scope Z_scope.

(** A message's value: JSON with byte arrays in it. A [Buffer] is a byte array
    that JSON.stringify asks for its own form before the replacer sees it. *)
Inductive value :=
| VNull
| VBool (b : bool)
| VNum (x : js_number)
| VStr (s : string)
| VArr (l : list value)
| VObj (fields : list (string * value))
| VBytes (b : bytes)
| VBuffer (b : bytes).

Definition num_of_byte (b : Byte.byte) : js_number := JsFinite (byte_val b) 1.

(** What the replacer makes of a byte array, and [Buffer.prototype.toJSON] of a buffer. *)
Definition bytes_envelope (b : bytes) : json :=
  JObj [("__type", JStr "Uint8Array"); ("data", JStr (base64 b))].
Definition buffer_json (b : bytes) : json :=
  JObj [("type", JStr "Buffer"); ("data", JArr ((fun x => JNum (num_of_byte x)) <$> b))].

(** The value with every byte array replaced. *)
Fixpoint enveloped (v : value) : json :=
  match v with
  | VNull => JNull
  | VBool b => JBool b
  | VNum x => JNum x
  | VStr s => JStr s
  | VArr l => JArr (enveloped <$> l)
  | VObj fields => JObj ((fun kv => (kv.1, enveloped kv.2)) <$> fields)
  | VBytes b => bytes_envelope b
  | VBuffer b => buffer_json b
  end.

(** What the reviver takes for an envelope; it is asked after the members. *)
Definition is_envelope (fields : list (string * json)) : option string :=
  match assoc "__type" fields, assoc "data" fields with
  | Some (JStr t), Some (JStr data) => if String.eqb t "Uint8Array" then Some data else None
  | _, _ => None
  end.

Fixpoint revived (j : json) : value :=
  match j with
  | JNull => VNull
  | JBool b => VBool b
  | JNum x => VNum x
  | JStr s => VStr s
  | JArr l => VArr (revived <$> l)
  | JObj fields =>
      match is_envelope fields with
      | Some data => VBytes (from_base64 data)
      | None => VObj ((fun kv => (kv.1, revived kv.2)) <$> fields)
      end
  end.

Section Transport.
Context `{Json}.

(** [transport.serialize] *)
Definition serialize (v : value) : bytes := text_bytes (stringify_json (enveloped v)).

(** [transport.deserialize] of a stream's chunks: [None] where JSON.parse throws. *)
Definition deserialize (chunks : list bytes) : option value := revived <$> parse_json (utf8_decode (concat chunks)).
End Transport.
