(* ===== verification/Compaction.v ===== *)
(** The stripping of cumulative snapshots from stream chunks
    (src/stream-compaction.ts): a chunk is a run of framed event lines, and
    whatever is not exactly one is kept byte for byte. *)
From S2P Require Import Prelude Model Bytes Slots Tenant JsText Sdk Contract Codec.
From Stdlib Require Import Strings.Byte Strings.Ascii.
Local Open Scope Z_scope.

(** ** JSON *)

(** The payload of a frame. *)
Definition frame_value (text : string) : json := JArr [JArr [JStr "Uint8Array"; JNum (JsFinite 1 1)]; JStr text].

(** The text is one line and decodes to itself, whatever follows it; a value stays exact when members of an object are left
    out or replaced by exact ones; texts of ASCII characters are exact. *)
Class JsonLaws `{Json} := {
  json_line v : all_chars (fun c => negb (Ascii.eqb c "010"%char)) (stringify_json v) = true;
  json_text v b : utf8_decode (text_bytes (stringify_json v) ++ b) = stringify_json v +:+ utf8_decode b;
  json_frame text : ascii_text text = true -> exact (frame_value text);
  json_members l : exact (JObj l) -> Forall (fun kv => exact kv.2) l;
  json_rebuilt l l' : exact (JObj l) -> l'.*1 `sublist_of` l.*1 -> Forall (fun kv => exact kv.2) l' -> exact (JObj l')
}.

(** ** Frames *)

Definition FORMAT_TAG : string := "devl".

Section Compaction.
Context `{Json}.

(** [None] where [writeUInt32BE] throws. *)
Definition encodeFrame (inner : bytes) : option bytes :=
  let payload := text_bytes (stringify_json (frame_value (base64 inner))) in
  (fun length => length ++ text_bytes FORMAT_TAG ++ payload) <$> u32be (4 + blen payload).

(** What the parser makes of a chunk: its frames, no frames, or an exception. *)
Inductive parsed := Frames (l : list bytes) | NoFrames | FrameThrows.

Definition frame_text (v : json) : option string :=
  match v with
  | JArr [JArr [JStr k; JNum n]; JStr text] =>
      if String.eqb k "Uint8Array" && bool_decide (js_integer n = Some 1) then Some text else None
  | _ => None
  end.

(** The loop at one offset; [chunk] is what is left. *)
Fixpoint parse_frames (fuel : nat) (chunk : bytes) (frames : list bytes) : parsed :=
  match fuel with
  | O => NoFrames
  | S fuel =>
      match chunk with
      | [] => match frames with [] => NoFrames | _ => Frames frames end
      | _ =>
          if blen chunk <? 8 then NoFrames else
          match read32 chunk with
          | None => NoFrames
          | Some length =>
              if (length <? 4) || (blen chunk <? 4 + length) then NoFrames else
              if negb (bool_decide (take 4 (drop 4 chunk) = text_bytes FORMAT_TAG)) then NoFrames else
              let frameEnd := Z.to_nat (4 + length) in
              match parse_json (utf8_decode (drop 8 (take frameEnd chunk))) ≫= frame_text with
              | None => NoFrames
              | Some text =>
                  let inner := from_base64 text in
                  match encodeFrame inner with
                  | None => FrameThrows
                  | Some frame =>
                      if negb (bool_decide (frame = take frameEnd chunk)) then NoFrames
                      else parse_frames fuel (drop frameEnd chunk) (frames ++ [inner])
                  end
              end
          end
      end
  end.

(** Every round takes eight bytes or more: the fuel is enough. *)
Definition parseFrames (chunk : bytes) : parsed := parse_frames (S (length chunk)) chunk [].

(** ** Event lines *)

Definition encodeEventLine (event : json) : bytes := text_bytes (stringify_json event +:+ String "010"%char "").

(** A text without its last character, if that is a line feed. *)
Fixpoint without_newline (s : string) : option string :=
  match s with
  | "" => None
  | String c "" => if Ascii.eqb c "010"%char then Some "" else None
  | String c s => String c <$> without_newline s
  end.

Definition is_object (v : option json) : bool := match v with Some (JObj _) | Some (JArr _) => true | _ => false end.

Definition parseEventLine (inner : bytes) : option (string * json) :=
  body ← without_newline (utf8_decode inner);
  if negb (all_chars (fun c => negb (Ascii.eqb c "010"%char)) body) then None else
  event ← parse_json body;
  type ← string_field "type" event;
  if negb (is_object (field "data" event)) then None else
  if bool_decide (encodeEventLine event = inner) then Some (type, event) else None.

(** [SNAPSHOT_FIELDS[type]]: the keys of the delta and of the snapshot. A name
    every object has gives an object without these two; the key [undefined]
    stands for both. *)
Definition snapshot_fields (type : string) : option (string * option string) :=
  if String.eqb type "message.appended" then Some ("messageDelta", Some "messageSoFar")
  else if String.eqb type "reasoning.appended" then Some ("reasoningDelta", Some "reasoningSoFar")
  else if bool_decide (type ∈ object_prototype_names) then Some ("undefined", None)
  else None.

(** [rebuilt[key] = value] makes no member of the key [__proto__]. *)
Definition kept_key (soFarKey : option string) (key : string) : bool :=
  negb (bool_decide (Some key = soFarKey)) && negb (String.eqb key "__proto__").
Definition withoutSnapshot (data : list (string * json)) (soFarKey : option string) : list (string * json) :=
  filter (fun kv => kept_key soFarKey kv.1 = true) data.

(** [{ ...event, data }] *)
Definition with_data (event : list (string * json)) (data : json) : list (string * json) :=
  (fun kv => if String.eqb kv.1 "data" then (kv.1, data) else kv) <$> event.

(** One frame's event with its snapshot left out, if it has one. *)
Definition stripped (inner : bytes) : option json :=
  '(type, event) ← parseEventLine inner;
  '(deltaKey, soFarKey) ← snapshot_fields type;
  match event, field "data" event with
  | JObj fields, Some (JObj data) =>
      match assoc deltaKey data, assoc (default "undefined" soFarKey) data with
      | Some (JStr _), Some (JStr _) => Some (JObj (with_data fields (JObj (withoutSnapshot data soFarKey))))
      | _, _ => None
      end
  | _, _ => None
  end.

Definition strip (inner : bytes) : bytes := match stripped inner with Some event => encodeEventLine event | None => inner end.

(** [None] where it throws. *)
Definition compactStreamChunk (chunk : bytes) : option bytes :=
  match parseFrames chunk with
  | NoFrames => Some chunk
  | FrameThrows => None
  | Frames frames =>
      if forallb (fun inner => match stripped inner with None => true | Some _ => false end) frames then Some chunk
      else @List.concat Byte.byte <$> mapM encodeFrame (strip <$> frames)
  end.
End Compaction.
