(* ===== verification/Timers.v ===== *)
(** Deliveries that are not due (src/timers.ts): held outside their run's queue
    as timer jobs, put back when they come due, and moved off the queues by a
    sweep of the job table. *)
From S2P Require Import Prelude Model Bytes Slots Sdk Contract.
Local Open Scope Z_scope.

(** ** Jobs *)

(** The JSON payload of a job: a message, with what it carries under
    [runQueue], or something else. *)
Inductive stored :=
| StoredMessage (m : message) (runQueue : option json)
| StoredOther (isObject : bool).

(** [TaskSpec]; the job key mode is [true] for ["unsafe_dedupe"]. *)
Record task_spec := TaskSpec {
  ts_jobKey : option string;
  ts_unsafeDedupe : bool;
  ts_runAt : option instant;
  ts_queueName : option string;
  ts_maxAttempts : Z;
  ts_flags : option (list string)
}.

(** A call of [addJob]. *)
Record add_job := AddJob { aj_identifier : string; aj_payload : stored; aj_spec : task_spec }.

(** A row of graphile's [_private_jobs], with its task and queue looked up. *)
Record job := Job {
  j_id : N;
  j_task : string;
  j_queue : option string;
  j_flags : option (list string);
  j_payload : stored;
  j_revision : Z;
  j_attempts : Z;
  j_lockedAt : option instant;
  j_runAt : instant;
  j_key : option string;
  j_updatedAt : instant
}.

(** The job table and the names of [_private_tasks]. *)
Record job_table := JobTable { jt_tasks : list string; jt_jobs : list job }.

Definition TIMER_HORIZON_SECONDS : Z := 60.
Definition DEFAULT_TIMER_SWEEP_INTERVAL_MS : Z := 30000.

(** What the code throws here: a payload its schema refuses. *)
Inductive queue_error := SchemaError | NotInitialized | ExecutionFailed (status : Z) (text : bytes).

Section Timers.
Context `{WorldSdk} `{QueueSdk}.

Definition js_ge (x : js_number) (n : Z) : bool :=
  match x with JsFinite a d => n * Zpos d <=? a | JsInfinite negative => negb negative | JsNaN => false end.

Definition holdsAsTimer (runQueue : option string) (delaySeconds : option js_number) : bool :=
  match runQueue, delaySeconds with
  | Some _, Some d => js_ge d TIMER_HORIZON_SECONDS
  | _, _ => false
  end.

Definition runQueueOfMessage (m : message) : option string := runQueueFor (md_tenantId m) (readBody m).

Definition timerPayload (m : message) (runQueue : string) : stored := StoredMessage m (Some (JStr runQueue)).

(** [new Date(now + delaySeconds * 1000)] of a finite delay. *)
Definition date_after (now : instant) (delaySeconds : js_number) : option instant :=
  match delaySeconds with JsFinite n d => Some (now + Z.quot (1000 * n) (Zpos d)) | _ => None end.

(** [runQueue] in a condition: the empty name counts as none. *)
Definition given (s : option string) : option string :=
  match s with Some s => if String.eqb s "" then None else Some s | None => None end.

Definition addDelayedDelivery (now : instant) (jobName : string) (m : message) (delaySeconds : js_number)
    (jobKey : string) : add_job :=
  let runQueue := runQueueOfMessage m in
  let runAt := date_after now delaySeconds in
  match given runQueue with
  | Some q =>
      if String.eqb jobName FLOW_JOB_NAME && holdsAsTimer runQueue (Some delaySeconds)
      then AddJob TIMER_JOB_NAME (timerPayload m q)
             (TaskSpec (Some jobKey) false runAt None MAX_GRAPHILE_JOB_ATTEMPTS None)
      else AddJob jobName (StoredMessage m None)
             (TaskSpec (Some jobKey) false runAt (Some q) MAX_GRAPHILE_JOB_ATTEMPTS (Some [tenantFlag (md_tenantId m)]))
  | None =>
      AddJob jobName (StoredMessage m None)
        (TaskSpec (Some jobKey) false runAt None MAX_GRAPHILE_JOB_ATTEMPTS (Some [tenantFlag (md_tenantId m)]))
  end.

(** [TimerTarget.parse(payload).runQueue] *)
Definition timer_target (p : stored) : result queue_error (option string) :=
  match p with
  | StoredMessage _ None => Ok None
  | StoredMessage _ (Some (JStr s)) => if String.eqb s "" then Err SchemaError else Ok (Some s)
  | _ => Err SchemaError
  end.

(** [MessageData.parse] *)
Definition parse_message (p : stored) : result queue_error message :=
  match p with StoredMessage m _ => Ok m | StoredOther _ => Err SchemaError end.

(** [createTimerHandler]: the call a timer makes when it is run. *)
Definition timer_handler (flowJobName : string) (p : stored) (key : option string) : result queue_error add_job :=
  result_bind (parse_message p) (fun m =>
  result_bind (timer_target p) (fun target =>
  let runQueue := match target with Some q => Some q | None => runQueueOfMessage m end in
  Ok (AddJob flowJobName (StoredMessage m None)
        (TaskSpec (given key) false None (given runQueue) MAX_GRAPHILE_JOB_ATTEMPTS
           (Some [tenantFlag (md_tenantId m)]))))).

(** ** The sweep *)

Definition is_object (p : stored) : bool := match p with StoredMessage _ _ => true | StoredOther o => o end.

(** The payload with [runQueue] put over what it has. *)
Definition with_run_queue (q : string) (p : stored) : stored :=
  match p with StoredMessage m _ => StoredMessage m (Some (JStr q)) | StoredOther o => StoredOther o end.

Definition run_queue_prefix : string := "wfrun:".

(** The [where] of the statement; the queue of a job it takes. *)
Definition swept_queue (now : instant) (flowJobName : string) (horizonSeconds : Z) (j : job) : option string :=
  match j_queue j with
  | Some q =>
      if String.eqb (j_task j) flowJobName && String.prefix run_queue_prefix q &&
         bool_decide (j_lockedAt j = None) && (j_attempts j =? 0) &&
         (now + horizonSeconds * 1000 <? j_runAt j) && is_object (j_payload j)
      then Some q else None
  | None => None
  end.

Definition sweep_job (now : instant) (flowJobName timerJobName : string) (horizonSeconds : Z) (j : job) : job :=
  match swept_queue now flowJobName horizonSeconds j with
  | Some q =>
      Job (j_id j) timerJobName None None (with_run_queue q (j_payload j)) (j_revision j + 1) (j_attempts j)
        (j_lockedAt j) (j_runAt j) (j_key j) now
  | None => j
  end.

Definition moveDelayedJobsToTimers (now : instant) (flowJobName timerJobName : string) (horizonSeconds : Z)
    (t : job_table) : Z * job_table :=
  if bool_decide (flowJobName ∈ jt_tasks t) && bool_decide (timerJobName ∈ jt_tasks t) then
    (Z.of_nat (length (filter (fun j => is_Some (swept_queue now flowJobName horizonSeconds j)) (jt_jobs t))),
     JobTable (jt_tasks t) (sweep_job now flowJobName timerJobName horizonSeconds <$> jt_jobs t))
  else (0, t).

Definition registerTimerTask (timerJobName : string) (t : job_table) : job_table :=
  if bool_decide (timerJobName ∈ jt_tasks t) then t else JobTable (jt_tasks t ++ [timerJobName]) (jt_jobs t).
End Timers.

(** ** Texts in a condition *)

Lemma given_some s q : given s = Some q -> s = Some q /\ q <> "".
Proof. destruct s as [s|]; cbn; [|done]. destruct (String.eqb s "") eqn:E; [done|]. bools. by intros [= <-]. Qed.

Lemma given_nonempty q : q <> "" -> given (Some q) = Some q.
Proof. intros Hq. cbn. by rewrite (proj2 (String.eqb_neq q "") Hq). Qed.
