(* ===== verification/Inflight.v ===== *)
(** What a process remembers of the deliveries it executes: the bounded cache of
    completed idempotency keys with the keys in flight (src/queue.ts,
    [createTaskHandler], and src/dispatcher/dispatcher.ts, [createMessageDedup]),
    the chain of executions per run (src/queue.ts), and the count of deliveries
    in flight (src/inflight.ts). *)
From S2P Require Import Prelude.

(** ** Completed keys and keys in flight *)

(** The keys in the order of the set: the oldest first. *)
Record dedup := Dedup { dd_completed : list string; dd_inflight : list string }.

Definition empty_dedup : dedup := Dedup [] [].

(** What an arriving delivery is to do: run, nothing, or wait for the one that runs. *)
Inductive arrival := Execute | AlreadyDone | JoinRunning.
#[export] Instance arrival_eq_dec : EqDecision arrival.
Proof. solve_decision. Defined.

Definition dedup_arrive (key : string) (d : dedup) : arrival * dedup :=
  if bool_decide (key ∈ dd_completed d) then (AlreadyDone, d)
  else if bool_decide (key ∈ dd_inflight d) then (JoinRunning, d)
  else (Execute, Dedup (dd_completed d) (dd_inflight d ++ [key])).

Definition without (key : string) (l : list string) : list string := filter (fun k => k <> key) l.

(** [markCompleted]: the key becomes the newest, and the oldest goes when there
    are too many. *)
Definition markCompleted (limit : nat) (key : string) (completed : list string) : list string :=
  let l := without key completed ++ [key] in
  if (limit <? length l)%nat then tail l else l.

(** The end of an execution; [completed] says whether the delivery is done with. *)
Definition dedup_settle (limit : nat) (key : string) (completed : bool) (d : dedup) : dedup :=
  Dedup (if completed then markCompleted limit key (dd_completed d) else dd_completed d)
    (without key (dd_inflight d)).

(** ** One execution at a time per run *)

(** The executions chained under each key, in order: the first one runs. *)
Notation chains := (gmap string (list nat)).

Definition chain_of (key : string) (c : chains) : list nat := default [] (c !! key).

Definition chain_arrive (key : string) (id : nat) (c : chains) : chains := <[key := chain_of key c ++ [id]]> c.

(** The first execution settles, however it does; the entry goes with the last. *)
Definition chain_settle (key : string) (c : chains) : chains :=
  match tail (chain_of key c) with
  | [] => delete key c
  | l => <[key := l]> c
  end.

(** ** The process's deliveries *)

Definition COMPLETED_IDEMPOTENCY_CACHE_LIMIT : nat := 10000.

(** [trackDelivery]: one more when a delivery begins, one less when it settles. *)
Definition track_begin (count : Z) : Z := (count + 1)%Z.
Definition track_settle (count : Z) : Z := (count - 1)%Z.

(** ** What the process's memory does over time *)

Inductive memory_op :=
| Arrive (key : string)
| Settle (key : string) (completed : bool).

(** A step of the cache with the executions that run. A settle is of an execution that runs. *)
Inductive memory_step (limit : nat) : dedup * list string -> memory_op -> dedup * list string -> Prop :=
| step_execute d running key d' :
    dedup_arrive key d = (Execute, d') -> memory_step limit (d, running) (Arrive key) (d', running ++ [key])
| step_skip d running key a d' :
    dedup_arrive key d = (a, d') -> a <> Execute -> memory_step limit (d, running) (Arrive key) (d', running)
| step_settle d before key after completed :
    memory_step limit (d, before ++ key :: after) (Settle key completed) (dedup_settle limit key completed d, before ++ after).

Inductive memory_run (limit : nat) : dedup * list string -> list memory_op -> dedup * list string -> Prop :=
| run_nil s : memory_run limit s [] s
| run_cons s op s' ops s'' : memory_step limit s op s' -> memory_run limit s' ops s'' -> memory_run limit s (op :: ops) s''.

(** The keys completed in a run, one for each completion. *)
Definition completions (ops : list memory_op) : list string :=
  omap (fun op => match op with Settle k true => Some k | _ => None end) ops.

(** ** Invariants *)

Record dedup_ok (limit : nat) (d : dedup) : Prop := DedupOk {
  do_nodup : NoDup (dd_completed d);
  do_bound : (length (dd_completed d) <= limit)%nat;
  do_inflight : NoDup (dd_inflight d)
}.

Lemma elem_of_without x key l : x ∈ without key l <-> x <> key /\ x ∈ l.
Proof. unfold without. by rewrite list_elem_of_filter. Qed.

Lemma nodup_without key l : NoDup l -> NoDup (without key l).
Proof. apply NoDup_filter. Qed.

Lemma without_length key l : (length (without key l) <= length l)%nat.
Proof. apply length_filter. Qed.

Lemma without_notin key l : key ∉ l -> without key l = l.
Proof. intros Hk. apply filter_all. intros x Hx ->. done. Qed.

Lemma markCompleted_nodup limit key l : NoDup l -> NoDup (markCompleted limit key l).
Proof.
  intros Hl. unfold markCompleted.
  assert (Hn : NoDup (without key l ++ [key])).
  { apply NoDup_app. split; [by apply nodup_without|]. split; [|apply NoDup_singleton].
    intros x Hx%elem_of_without. rewrite list_elem_of_singleton. tauto. }
  case_match; [|done]. destruct (without key l ++ [key]); [constructor|]. by apply NoDup_cons in Hn as [_ Hn].
Qed.

Lemma markCompleted_bound limit key l : (length l <= limit)%nat -> (length (markCompleted limit key l) <= limit)%nat.
Proof.
  intros Hl. unfold markCompleted. pose proof (without_length key l) as Hw.
  destruct (Nat.ltb_spec limit (length (without key l ++ [key]))) as [Hlt|]; [|done].
  rewrite length_app in Hlt. simpl in Hlt. assert (Ht : forall (k : list string), length (tail k) = (length k - 1)%nat).
  { intros [|x k]; simpl; lia. }
  rewrite Ht, length_app. simpl. lia.
Qed.

Lemma arrive_ok limit key d a d' : dedup_ok limit d -> dedup_arrive key d = (a, d') -> dedup_ok limit d'.
Proof.
  intros [H1 H2 H3] E. unfold dedup_arrive in E. case_bool_decide; [by injection E as <- <-|].
  case_bool_decide as Hi; injection E as <- <-; [done|]. split; cbn [dd_completed dd_inflight]; [done|done|].
  apply NoDup_app. split; [done|]. split; [|apply NoDup_singleton]. intros x Hx. rewrite list_elem_of_singleton. congruence.
Qed.

Lemma settle_ok limit key completed d : dedup_ok limit d -> dedup_ok limit (dedup_settle limit key completed d).
Proof.
  intros [H1 H2 H3]. split; cbn [dd_completed dd_inflight dedup_settle]; [| |by apply nodup_without].
  - destruct completed; [by apply markCompleted_nodup|done].
  - destruct completed; [by apply markCompleted_bound|done].
Qed.

(** The executions that run are the keys in flight, each once. *)
Definition memory_ok (limit : nat) (s : dedup * list string) : Prop :=
  dedup_ok limit s.1 /\ s.2 ≡ₚ dd_inflight s.1.

Lemma memory_step_ok limit s op s' : memory_step limit s op s' -> memory_ok limit s -> memory_ok limit s'.
Proof.
  intros Hs [Hok Hp]. destruct Hs as [d running key d' E|d running key a d' E Ha|d before key after completed];
    cbn [fst snd] in *; split; cbn [fst snd].
  - by eapply arrive_ok.
  - unfold dedup_arrive in E. case_bool_decide; [done|]. case_bool_decide; [done|]. injection E as <-.
    cbn [dd_inflight]. by rewrite Hp.
  - by eapply arrive_ok.
  - unfold dedup_arrive in E. case_bool_decide; [by injection E as <- <-|]. case_bool_decide; [by injection E as <- <-|].
    injection E as <- <-. done.
  - by apply settle_ok.
  - cbn [dedup_settle dd_inflight]. destruct Hok as [_ _ Hn]. unfold without. rewrite <- Hp. rewrite <- Hp in Hn.
    apply NoDup_app in Hn as (_ & Hb & Hk). apply NoDup_cons in Hk as [Hk _].
    rewrite filter_app, filter_cons_False by (by intros ?). rewrite !filter_all; [done| |].
    + intros x Hx ->. done.
    + intros x Hx ->. apply (Hb key Hx). by left.
Qed.

Lemma memory_run_ok limit s ops s' : memory_run limit s ops s' -> memory_ok limit s -> memory_ok limit s'.
Proof. induction 1 as [|s op s1 ops s' Hs _ IH]; intros Hok; [done|]. eapply IH, memory_step_ok; eauto. Qed.

(** ** How long a completion is remembered *)

(** [key] is among the completed, with [n] newer ones at most. *)
Definition within (n : nat) (key : string) (l : list string) : Prop :=
  exists a b, l = a ++ key :: b /\ (length b <= n)%nat.

Lemma within_weaken n m key l : within n key l -> (n <= m)%nat -> within m key l.
Proof. intros (a & b & E & Hb) Hm. exists a, b. split; [done|lia]. Qed.

Lemma within_elem n key l : within n key l -> key ∈ l.
Proof. intros (a & b & -> & _). apply elem_of_app. right. by left. Qed.

Lemma mark_itself limit key l : (0 < limit)%nat -> within 0 key (markCompleted limit key l).
Proof.
  intros Hl. unfold markCompleted. destruct (Nat.ltb_spec limit (length (without key l ++ [key]))) as [Hlt|].
  - rewrite length_app in Hlt. simpl in Hlt. destruct (without key l) as [|x k]; [simpl in Hlt; lia|].
    exists k, []. split; [done|simpl; lia].
  - exists (without key l), []. split; [done|simpl; lia].
Qed.

Lemma mark_other limit key k n l : k <> key -> (S n < limit)%nat -> within n key l -> within (S n) key (markCompleted limit k l).
Proof.
  intros Hne Hn (a & b & -> & Hb). unfold markCompleted.
  assert (E : without k (a ++ key :: b) ++ [k] = without k a ++ key :: (without k b ++ [k])).
  { unfold without. rewrite filter_app, filter_cons_True by congruence. by rewrite <- app_assoc. }
  rewrite E. pose proof (without_length k b) as Hw. assert (Hlen : (length (without k b ++ [k]) <= S n)%nat) by (rewrite length_app; simpl; lia).
  destruct (Nat.ltb_spec limit (length (without k a ++ key :: (without k b ++ [k])))) as [Hlt|].
  - rewrite length_app in Hlt. cbn [length] in Hlt. destruct (without k a) as [|x a']; [simpl in Hlt; lia|].
    exists a', (without k b ++ [k]). by split.
  - exists (without k a), (without k b ++ [k]). by split.
Qed.

Lemma step_within limit s op s' n key : memory_step limit s op s' -> (n + length (completions [op]) < limit)%nat ->
  within n key (dd_completed s.1) -> within (n + length (completions [op])) key (dd_completed s'.1).
Proof.
  intros Hs Hn Hw. destruct Hs as [d running k d' E|d running k a d' E Ha|d before k after completed]; cbn [fst] in *.
  1, 2: cbn in *; rewrite Nat.add_0_r; unfold dedup_arrive in E; repeat case_bool_decide; simplify_eq; done.
  destruct completed; cbn [dedup_settle dd_completed].
  - cbn in Hn |- *. rewrite Nat.add_1_r in Hn |- *. destruct (decide (k = key)) as [->|Hne].
    + eapply within_weaken; [apply mark_itself; lia|lia].
    + by apply mark_other.
  - cbn in *. by rewrite Nat.add_0_r.
Qed.

Lemma run_within limit s ops s' key : memory_run limit s ops s' -> forall n, (n + length (completions ops) < limit)%nat ->
  within n key (dd_completed s.1) -> within (n + length (completions ops)) key (dd_completed s'.1).
Proof.
  induction 1 as [|s op s1 ops s' Hs _ IH]; intros n Hn Hw.
  { cbn. by rewrite Nat.add_0_r. }
  assert (E : length (completions (op :: ops)) = (length (completions [op]) + length (completions ops))%nat).
  { unfold completions. cbn. destruct op as [|? []]; simpl; lia. }
  rewrite E in Hn |- *. rewrite Nat.add_assoc. apply IH; [lia|]. eapply step_within; [exact Hs|lia|done].
Qed.

Lemma memory_run_app limit s ops ops' s' : memory_run limit s (ops ++ ops') s' ->
  exists s1, memory_run limit s ops s1 /\ memory_run limit s1 ops' s'.
Proof.
  revert s. induction ops as [|op ops IH]; intros s Hr; [by exists s; split; [constructor|]|].
  inversion_clear Hr as [|? ? s1 ? ? Hs Hr']. apply IH in Hr' as (s2 & H1 & H2). exists s2. split; [|done].
  by econstructor.
Qed.

(** C28 However deliveries arrive and settle, no two executions of one idempotency
    key overlap; the cache keeps no more keys than its limit; and a delivery of a
    key that completed is not executed again until [limit] deliveries have
    completed since. *)
Theorem keys_execute_once limit before key after s :
  memory_run limit (empty_dedup, []) (before ++ Settle key true :: after) s ->
  NoDup s.2 /\ (length (dd_completed s.1) <= limit)%nat /\
  ((length (completions after) < limit)%nat -> fst (dedup_arrive key s.1) = AlreadyDone).
Proof.
  intros Hr. assert (Hok : memory_ok limit s).
  { eapply memory_run_ok; [exact Hr|]. split; [|done]. split; cbn; [constructor|lia|constructor]. }
  destruct Hok as [[H1 H2 H3] Hp]. split; [by rewrite Hp|]. split; [done|]. intros Hlt.
  apply memory_run_app in Hr as (s1 & _ & Hr). inversion_clear Hr as [|? ? s2 ? ? Hs Hr'].
  inversion Hs as [| |d bef k aft comp]; subst. assert (Hw : within 0 key (dd_completed (dedup_settle limit key true d))).
  { apply mark_itself. lia. }
  pose proof (run_within _ _ _ _ key Hr' 0 ltac:(simpl; lia) Hw) as Hin. apply within_elem in Hin.
  unfold dedup_arrive. by rewrite bool_decide_eq_true_2.
Qed.

Lemma keys_execute_once_witness :
  exists s, memory_run 1 (empty_dedup, []) [Arrive "a"; Arrive "b"; Settle "a" true; Settle "b" false] s /\
    fst (dedup_arrive "a" s.1) = AlreadyDone /\ fst (dedup_arrive "b" s.1) = Execute.
Proof.
  set (s := (Dedup ["a"] [], @nil string)). exists s.
  assert (Hr : memory_run 1 (empty_dedup, []) [Arrive "a"; Arrive "b"; Settle "a" true; Settle "b" false] s).
  { econstructor; [by apply (step_execute 1 empty_dedup [] "a" (Dedup [] ["a"]))|].
    econstructor; [by apply (step_execute 1 (Dedup [] ["a"]) ["a"] "b" (Dedup [] ["a"; "b"]))|].
    econstructor; [apply (step_settle 1 (Dedup [] ["a"; "b"]) [] "a" ["b"] true)|].
    econstructor; [apply (step_settle 1 (Dedup ["a"] ["b"]) [] "b" [] false)|]. constructor. }
  split; [exact Hr|]. split; [|reflexivity].
  apply (keys_execute_once 1 [Arrive "a"; Arrive "b"] "a" [Settle "b" false] s Hr). simpl. lia.
Defined.

(** ** The executions of a run take turns *)

(** An execution joins its run's chain; the one that runs settles, which is one
    that there is. *)
Inductive chain_op := ChainArrive (key : string) (id : nat) | ChainSettle (key : string).

#[export] Instance chain_op_eq_dec : EqDecision chain_op.
Proof. solve_decision. Defined.

Definition chain_step (op : chain_op) (c : chains) : option chains :=
  match op with
  | ChainArrive key id => Some (chain_arrive key id c)
  | ChainSettle key => match chain_of key c with [] => None | _ => Some (chain_settle key c) end
  end.

Fixpoint chain_run (ops : list chain_op) (c : chains) : option chains :=
  match ops with [] => Some c | op :: ops => c' ← chain_step op c; chain_run ops c' end.

Definition arrivals (key : string) (ops : list chain_op) : list nat :=
  omap (fun op => match op with ChainArrive k id => if bool_decide (k = key) then Some id else None | _ => None end) ops.
Definition settles (key : string) (ops : list chain_op) : nat :=
  length (filter (fun op => op = ChainSettle key) ops).

(** No chain is kept empty. *)
Definition chains_ok (c : chains) : Prop := forall key, c !! key <> Some [].

Lemma chain_of_arrive key id c k : chain_of k (chain_arrive key id c) = chain_of k c ++ (if bool_decide (key = k) then [id] else []).
Proof.
  unfold chain_arrive, chain_of. case_bool_decide as E; [subst; by rewrite lookup_insert_eq|].
  by rewrite lookup_insert_ne, app_nil_r.
Qed.

Lemma chain_of_settle key c k : chain_of k (chain_settle key c) = if bool_decide (key = k) then tail (chain_of k c) else chain_of k c.
Proof.
  unfold chain_settle. case_bool_decide as E.
  - subst. destruct (tail (chain_of k c)) eqn:Et; unfold chain_of; by rewrite ?lookup_delete_eq, ?lookup_insert_eq.
  - destruct (tail (chain_of key c)); unfold chain_of; by rewrite ?lookup_delete_ne, ?lookup_insert_ne.
Qed.

Lemma chain_step_ok op c c' : chains_ok c -> chain_step op c = Some c' -> chains_ok c'.
Proof.
  intros Hc E k. destruct op as [key id|key]; cbn in E.
  - injection E as <-. unfold chain_arrive. destruct (decide (key = k)) as [->|Hne]; [|by rewrite lookup_insert_ne].
    rewrite lookup_insert_eq. intros [= Ha]. by apply app_nil in Ha as [_ ?].
  - destruct (chain_of key c) eqn:Ek; [done|]. injection E as <-. unfold chain_settle.
    destruct (tail (chain_of key c)) eqn:Et; (destruct (decide (key = k)) as [->|Hne];
      [by rewrite ?lookup_delete_eq, ?lookup_insert_eq|by rewrite ?lookup_delete_ne, ?lookup_insert_ne]).
Qed.

Lemma drop_tail_app (n : nat) (l m : list nat) : drop n l <> [] -> tail (drop n l ++ m) = tail (drop n l) ++ m.
Proof. destruct (drop n l); done. Qed.

Lemma chain_run_spec ops : forall c c', chain_run ops c = Some c' -> chains_ok c ->
  chains_ok c' /\ forall key, chain_of key c' = drop (settles key ops) (chain_of key c ++ arrivals key ops) /\
    (settles key ops <= length (chain_of key c) + length (arrivals key ops))%nat.
Proof.
  induction ops as [|op ops IH]; intros c c' E Hc; cbn [chain_run] in E.
  { injection E as <-. split; [done|]. intros key. cbn. rewrite app_nil_r. split; [done|lia]. }
  destruct (chain_step op c) as [c1|] eqn:E1; [|done]. cbn in E. pose proof (chain_step_ok op c c1 Hc E1) as Hc1.
  destruct (IH c1 c' E Hc1) as [Hok Hk]. split; [done|]. intros key. destruct (Hk key) as [H1 H2]. clear IH Hk.
  destruct op as [k id|k]; cbn in E1.
  - injection E1 as <-. rewrite chain_of_arrive in H1, H2. unfold settles, arrivals in *. rewrite filter_cons_False by done. cbn [omap list_omap].
    case_bool_decide; [rewrite <- app_assoc in H1; rewrite length_app in H2; cbn in *; split; [done|lia]|by rewrite app_nil_r in *].
  - destruct (chain_of k c) as [|x l] eqn:Ek; [done|]. injection E1 as <-. rewrite chain_of_settle in H1, H2.
    unfold settles, arrivals in *. cbn [omap list_omap]. case_bool_decide as Ekk.
    + subst. rewrite Ek in *. rewrite filter_cons_True by done. cbn [length drop app tail] in *. split; [done|lia].
    + rewrite filter_cons_False by (intros [= ->]; done). done.
Qed.

(** The executions of a run's messages without a key of their own run one at a
    time, in the order they arrived in: after any arrivals and settlements the one
    that runs is the first that has not settled, those behind it wait in order,
    and a run with none of them leaves nothing behind. *)
Theorem runs_execute_in_turn ops c : chain_run ops ∅ = Some c -> forall key,
  chain_of key c = drop (settles key ops) (arrivals key ops) /\
  (c !! key = None <-> settles key ops = length (arrivals key ops)).
Proof.
  intros E key. destruct (chain_run_spec ops ∅ c E) as [Hok Hk]; [intros k; by rewrite lookup_empty|].
  destruct (Hk key) as [H1 H2]. unfold chain_of at 2 in H1. unfold chain_of at 1 in H2. rewrite lookup_empty in H1, H2. cbn in H1, H2.
  split; [exact H1|]. unfold chain_of in H1. split.
  - intros En. rewrite En in H1. cbn in H1. apply (f_equal length) in H1. rewrite length_drop in H1. cbn in H1. lia.
  - intros Es. rewrite Es, drop_all in H1. destruct (c !! key) as [l|] eqn:El; [|done]. cbn in H1. subst l. by destruct (Hok key).
Qed.

Lemma runs_execute_in_turn_witness : exists c,
  chain_run [ChainArrive "r1" 1; ChainArrive "r2" 2; ChainArrive "r1" 3; ChainSettle "r1"; ChainSettle "r2"] ∅ = Some c /\
  chain_of "r1" c = [3%nat] /\ c !! "r2" = None.
Proof.
  eexists. split; [vm_compute; reflexivity|].
  destruct (runs_execute_in_turn [ChainArrive "r1" 1; ChainArrive "r2" 2; ChainArrive "r1" 3; ChainSettle "r1"; ChainSettle "r2"] _
    eq_refl "r1") as [H1 _].
  destruct (runs_execute_in_turn [ChainArrive "r1" 1; ChainArrive "r2" 2; ChainArrive "r1" 3; ChainSettle "r1"; ChainSettle "r2"] _
    eq_refl "r2") as [_ [_ H2]].
  split; [exact H1|by apply H2].
Defined.

(** ** The embedded handler's choice *)

(** The memory of the embedded runner. *)
Record embedded := Embedded { em_keys : dedup; em_runs : chains }.

(** What an arriving delivery is to do: what its key says, run at once, or take
    its turn in its run's chain. *)
Inductive embedded_arrival := ByKey (a : arrival) | RunAtOnce | TakeTurn (key : string).

(** A delivery with a key is remembered by it; one without is serialized with its
    run's, if it has one that is. An empty key is none. *)
Definition embedded_arrive (idempotencyKey workflowRunSerializationKey : option string) (id : nat) (e : embedded) :
    embedded_arrival * embedded :=
  match idempotencyKey, workflowRunSerializationKey with
  | Some "", Some "" | Some "", None | None, Some "" | None, None => (RunAtOnce, e)
  | Some "", Some run | None, Some run => (TakeTurn run, Embedded (em_keys e) (chain_arrive run id (em_runs e)))
  | Some key, _ => let '(a, d) := dedup_arrive key (em_keys e) in (ByKey a, Embedded d (em_runs e))
  end.

(** [markMessageCompleted] *)
Definition markMessageCompleted (idempotencyKey : string) (completed : list string) : list string :=
  markCompleted COMPLETED_IDEMPOTENCY_CACHE_LIMIT idempotencyKey completed.

Definition embedded_settle (a : embedded_arrival) (idempotencyKey : string) (completed : bool) (e : embedded) : embedded :=
  match a with
  | ByKey Execute => Embedded (dedup_settle COMPLETED_IDEMPOTENCY_CACHE_LIMIT idempotencyKey completed (em_keys e)) (em_runs e)
  | TakeTurn run => Embedded (em_keys e) (chain_settle run (em_runs e))
  | _ => e
  end.
