(* ===== verification/Queue.v ===== *)
(** The World's queue (src/queue.ts): where a sent message is put, what the
    in-process runner makes of a claimed one, and which dispatches the
    deployment's own handler lets through. *)
From S2P Require Import Prelude Model Bytes Slots Sdk Tenant HttpHeaders Contract Timers Inflight.
Local Open Scope Z_scope.

(** [ResolvedWorldConfig], as far as the queue reads it. *)
Record queue_config := QueueConfig {
  qc_tenantId : string;
  qc_deploymentId : string;
  qc_embedded : bool;
  qc_queueNamespace : option string
}.

(** The options of [queue]. *)
Record send_options := SendOptions {
  so_idempotencyKey : option string;
  so_headers : option (list (string * string));
  so_delaySeconds : option js_number;
  so_deploymentId : option string
}.

(** What [placeInvoke] decides. *)
Record placement := Placement {
  pc_jobKey : string;
  pc_runQueue : option string;
  pc_bypassingWake : bool;
  pc_unsafeDedupe : bool
}.

(** The argument of [addGraphileJob]. *)
Record job_input := JobInput {
  ji_queueId : string;
  ji_body : bytes;
  ji_messageId : string;
  ji_attempt : Z;
  ji_idempotencyKey : option string;
  ji_headers : option (list (string * string));
  ji_delaySeconds : option js_number;
  ji_jobKey : option string;
  ji_unsafeDedupe : bool;
  ji_runQueue : option string;
  ji_deliveryOffset : option Z;
  ji_attemptOffset : option Z;
  ji_deploymentId : option string;
  ji_bypassingWake : bool
}.

(** [HttpExecutionResult], the error's headers left out. *)
Inductive http_result :=
| HttpCompleted
| HttpReschedule (timeoutSeconds : js_number)
| HttpError (status : Z) (text : bytes).

(** What a dispatch to the deployment's handler meets. *)
Inductive gate := Pass | Reject (status : Z).

(** What an executed task comes to. *)
Inductive task_outcome := TaskCompleted | TaskRescheduled.

(** [value > 0] *)
Definition js_positive (x : js_number) : bool :=
  match x with JsFinite n _ => 0 <? n | JsInfinite negative => negb negative | JsNaN => false end.

Definition isExactDeploymentId (deploymentId : option string) : bool :=
  match deploymentId with Some d => negb (String.eqb d "") && negb (String.eqb d "latest") | None => false end.

Definition getLoopbackHosts (hostname : string) : list string :=
  if String.eqb hostname "localhost" then ["127.0.0.1"; "::1"]
  else if String.eqb hostname "[::1]" then ["::1"]
  else if String.eqb hostname "127.0.0.1" || String.eqb hostname "::1" then [hostname] else [].

(** [getExecutionBaseUrl]: the variables WORKFLOW_LOCAL_BASE_URL and PORT, the port
    of the configuration, and the port the SDK detects. *)
Definition getExecutionBaseUrl (createWorkflowBaseUrl : string -> string) (number_text : js_number -> string)
    (localBaseUrl envPort : option string) (port detectedPort : option js_number) : option string :=
  match given localBaseUrl with
  | Some url => Some url
  | None =>
      let of_port text := Some (createWorkflowBaseUrl ("http://localhost:" +:+ text)) in
      match port, given envPort, detectedPort with
      | Some port, _, _ => of_port (number_text port)
      | None, Some port, _ => of_port port
      | None, None, Some port => of_port (number_text port)
      | None, None, None => None
      end
  end.

(** What [new URL] gives of a base URL. *)
Record base_url := BaseUrl { bu_hostname : string; bu_port : string; bu_protocol : string }.

(** [getLoopbackTarget]: [Err] where [new URL] throws. *)
Definition getLoopbackTarget (parse : string -> option base_url) (Number : string -> js_number) (baseUrl : option string) :
    result unit (option (list string * js_number)) :=
  match given baseUrl with
  | None => Ok None
  | Some text =>
      match parse text with
      | None => Err tt
      | Some url =>
          match getLoopbackHosts (bu_hostname url) with
          | [] => Ok None
          | hosts => Ok (Some (hosts, match given (Some (bu_port url)) with
                                      | Some p => Number p
                                      | None => JsFinite (if String.eqb (bu_protocol url) "https:" then 443 else 80) 1
                                      end))
          end
      end
  end.

(** [canConnectToLoopbackTarget]: one host after the other, up to one that answers. *)
Definition canConnectToLoopbackTarget (connects : string -> js_number -> bool) (target : list string * js_number) : bool :=
  existsb (fun host => connects host target.2) target.1.

Section Queue.
Context `{WorldSdk} `{QueueSdk} (config : queue_config).

Definition getJobQueueName : string :=
  if qc_embedded config then derivePartitionName sha256_hex FLOW_JOB_NAME (qc_tenantId config) else FLOW_JOB_NAME.
Definition getTimerJobName : string := derivePartitionName sha256_hex TIMER_JOB_NAME (qc_tenantId config).

(** [createQueueHandler]'s checks on a request's headers. *)
Definition queue_gate (env header : string -> option string) : gate :=
  let declaredVersion := header DISPATCH_VERSION_HEADER in
  match checkDispatchVersion declaredVersion DISPATCH_VERSION with
  | Some r => Reject (rejection_status r)
  | None =>
      match given declaredVersion with
      | None => Pass
      | Some _ =>
          match readRuntimeSecretFromEnv env with
          | None => Reject 401
          | Some expected =>
              if negb (secretMatches expected (header RUNTIME_SECRET_HEADER)) then Reject 401 else
              match given (header DEPLOYMENT_HEADER) with
              | Some target => if String.eqb target (qc_deploymentId config) then Pass else Reject 401
              | None => Pass
              end
          end
      end
  end.

(** ** Placing a message *)

(** Whether a delivery holds the run's queue, or [None] when the read fails. *)
Definition bypassesRunQueue (locked : string -> option bool) (invoke : json) : bool :=
  if negb (mayBypassRunQueue invoke) then false
  else default false (locked (runQueueName (qc_tenantId config) (default "" (string_field "runId" invoke)))).

Definition placeInvoke (locked : string -> option bool) (body : json) (messageId : string) (opts : send_options) : placement :=
  let runQueue := runQueueFor (qc_tenantId config) (Some body) in
  let placed := Placement (default messageId (so_idempotencyKey opts)) (given runQueue) false
                  (jobKeyModeFor (Some body) (so_idempotencyKey opts)) in
  match invokePayload_safeParse body with
  | None => placed
  | Some invoke =>
      let delayed := match so_delaySeconds opts with Some d => js_positive d | None => false end in
      if delayed || negb (bypassesRunQueue locked invoke) then placed else
      let wakeKey :=
        match field "hookInput" invoke with
        | None => "wfwake:" +:+ qc_tenantId config +:+ ":" +:+ default "" (string_field "runId" invoke)
        | Some _ => messageId
        end in
      Placement (default wakeKey (so_idempotencyKey opts)) None true false
  end.

Definition addGraphileJob (now : instant) (i : job_input) : add_job :=
  let runAt := match ji_delaySeconds i with Some d => if js_positive d then date_after now d else None | None => None end in
  let holdAsTimer := qc_embedded config && holdsAsTimer (ji_runQueue i) (ji_delaySeconds i) in
  let encoded := Message (ji_attempt i) (nonzero (ji_deliveryOffset i)) (nonzero (ji_attemptOffset i)) (ji_messageId i)
    (ji_idempotencyKey i) (ji_headers i) (ji_queueId i) (ji_body i) (qc_tenantId config)
    (default (qc_deploymentId config) (ji_deploymentId i)) (qc_queueNamespace config) in
  let jobKey := given (ji_jobKey i) in
  let unsafeDedupe := match jobKey with Some _ => ji_unsafeDedupe i | None => false end in
  match (if holdAsTimer then given (ji_runQueue i) else None) with
  | Some q =>
      AddJob getTimerJobName (timerPayload encoded q)
        (TaskSpec jobKey unsafeDedupe runAt None MAX_GRAPHILE_JOB_ATTEMPTS None)
  | None =>
      AddJob getJobQueueName (StoredMessage encoded None)
        (TaskSpec jobKey unsafeDedupe runAt (given (ji_runQueue i)) MAX_GRAPHILE_JOB_ATTEMPTS
          (Some [if ji_bypassingWake i then wakeFlag (qc_tenantId config) else tenantFlag (qc_tenantId config)]))
  end.

(** [queue]; [serialize] is the transport, [ulid] the id generator's next text. *)
Definition send (serialize : json -> bytes) (locked : string -> option bool) (now : instant) (ulid : string)
    (queueName : string) (body : json) (opts : send_options) : string * add_job :=
  let messageId := "msg_" +:+ ulid in
  let p := placeInvoke locked body messageId opts in
  (messageId,
   addGraphileJob now (JobInput (parseQueueName_id queueName) (serialize body) messageId 1 (so_idempotencyKey opts)
     (so_headers opts) (so_delaySeconds opts) (Some (pc_jobKey p)) (pc_unsafeDedupe p) (pc_runQueue p) None None
     (if isExactDeploymentId (so_deploymentId opts) then so_deploymentId opts else None) (pc_bypassingWake p))).

(** ** The in-process runner *)

(** [Number(value)] of a JSON value; arrays and objects go by their text. *)
Definition js_number_of (text_of : json -> string) (v : option json) : js_number :=
  match v with
  | None => JsNaN
  | Some JNull => JsFinite 0 1
  | Some (JBool b) => JsFinite (if b then 1 else 0) 1
  | Some (JNum x) => x
  | Some (JStr s) => js_Number s
  | Some v => js_Number (text_of v)
  end.

Definition is_finite (x : js_number) : bool := match x with JsFinite _ _ => true | _ => false end.

(** What the executor's response says: the body of an answer that is not
    [{timeoutSeconds}] means done. *)
Definition executor_answer (text_of : json -> string) (text : bytes) : http_result :=
  match JSON_parse text with
  | None | Some JNull => HttpCompleted
  | Some j =>
      let timeoutSeconds := js_number_of text_of (field "timeoutSeconds" j) in
      if is_finite timeoutSeconds && js_ge timeoutSeconds 0 then HttpReschedule timeoutSeconds else HttpCompleted
  end.

(** [executeMessageOverHttp], given the response. *)
Definition http_execution (text_of : json -> string) (status : Z) (text : bytes) : http_result :=
  if (200 <=? status) && (status <=? 299) then executor_answer text_of text else HttpError status text.

(** The headers object of an execution in this process: the message's own, and
    the queue's over them. *)
Definition execution_headers (queueName : string) (m : message) (d : delivery) : entries :=
  spread (spread [] (default [] (md_headers m)))
    [("content-type", "application/json");
     (VQS_QUEUE_NAME_HEADER, queueName);
     (VQS_MESSAGE_ID_HEADER, md_messageId m);
     (VQS_MESSAGE_ATTEMPT_HEADER, dec_text (Z.to_N (dl_attempt d)));
     (VQS_MESSAGE_DELIVERY_COUNT_HEADER, dec_text (Z.to_N (dl_count d)))].

(** [executeMessageOverHttp], up to its answer: [None] where it throws, for want
    of an address, for headers that are none, or because the request fails. *)
Definition executeMessageOverHttp (text_of : json -> string) (createWorkflowUrl : string -> string)
    (fetch : string -> gmap string string -> option (Z * bytes)) (baseUrl : option string)
    (queueName : string) (m : message) (d : delivery) : option http_result :=
  baseUrl ← given baseUrl;
  h ← new_headers (execution_headers queueName m d);
  '(status, text) ← fetch (createWorkflowUrl baseUrl) h;
  Some (http_execution text_of status text).

(** A claimed job's message and how it is to be run. *)
Record task_plan := TaskPlan {
  tp_message : message;
  tp_delivery : delivery;
  tp_body : json;
  tp_runQueue : option string;
  tp_serializationKey : option string
}.

(** The head of [createTaskHandler]'s handler; [attempts] is the job's own count. *)
Definition plan_task (p : stored) (attempts : option Z) : result queue_error task_plan :=
  result_bind (parse_message p) (fun m =>
  match JSON_parse (md_data m) with
  | None => Err SchemaError
  | Some body =>
      if negb (queuePayload_parse body) then Err SchemaError else
      let runQueue := runQueueFor (qc_tenantId config) (Some body) in
      let bypassing := match invokePayload_safeParse body with Some invoke => mayBypassRunQueue invoke | None => false end in
      Ok (TaskPlan m (deliveryAccounting m attempts) body runQueue
            (match runQueue with Some q => if bypassing then None else Some q | None => None end))
  end).

(** [executeTask]: the outcome and the job added first, for an executor's answer. *)
Definition executeTask (now : instant) (t : task_plan) (r : http_result) :
    result queue_error (task_outcome * option add_job) :=
  match r with
  | HttpCompleted => Ok (TaskCompleted, None)
  | HttpReschedule timeoutSeconds =>
      let m := tp_message t in
      let next := continuationOf m (tp_delivery t) timeoutSeconds (Some (tp_body t)) in
      Ok (TaskRescheduled, Some (addGraphileJob now
        (JobInput (md_id m) (md_data m) (md_messageId m) (md_attempt next) (md_idempotencyKey m) (md_headers m)
          (Some timeoutSeconds) (Some (default (md_messageId m) (md_idempotencyKey m))) false (given (tp_runQueue t))
          (nonzero (md_deliveryOffset next)) (nonzero (md_attemptOffset next)) (Some (md_deploymentId m)) false)))
  | HttpError status text => Err (ExecutionFailed status text)
  end.

(** [setupListeners]: the tasks the runner takes. *)
Definition task_names : list string := [getJobQueueName; getTimerJobName].

(** [moveLegacyDelaysToTimers] *)
Definition moveLegacyDelaysToTimers (now : instant) (t : job_table) : Z * job_table :=
  moveDelayedJobsToTimers now getJobQueueName getTimerJobName TIMER_HORIZON_SECONDS (registerTimerTask getTimerJobName t).
End Queue.
