(* ===== verification/RunRetention.v ===== *)
(** Retention of runs: the policy (src/run-retention-policy.ts), its resolution
    for a new run from its own class, its lineage and the ambient intent
    (src/run-retention-resolution.ts), and the database trigger that computes
    the same deadlines (migration 0012). *)
From S2P Require Import Prelude Model Prog.
Local Open Scope Z_scope.

Definition RUN_RETENTION_ATTRIBUTE : string := "workflow-world.retention-class".

Inductive retention_class := Scheduled | Interactive | Persistent.
#[export] Instance retention_class_eq_dec : EqDecision retention_class.
Proof. solve_decision. Defined.

(** The stored text of a class. *)
Definition class_text (c : retention_class) : string :=
  match c with Scheduled => "scheduled" | Interactive => "interactive" | Persistent => "persistent" end.

Inductive terminal_run_status := TCompleted | TFailed | TCancelled.

Definition run_status_of (s : terminal_run_status) : RunStatus.t :=
  match s with
  | TCompleted => RunStatus.completed | TFailed => RunStatus.failed | TCancelled => RunStatus.cancelled
  end.

Definition MINUTE_MS : Z := 60 * 1000.
Definition DAY_MS : Z := 24 * 60 * MINUTE_MS.

(** [attributes?.[key]] *)
Fixpoint assoc (key : string) (attributes : list (string * string)) : option string :=
  match attributes with
  | [] => None
  | (k, v) :: l => if String.eqb k key then Some v else assoc key l
  end.

Definition attribute (key : string) (attributes : option (list (string * string))) : option string :=
  l ← attributes; assoc key l.

Definition resolveRunRetentionClass (value : option string)
    (attributes : option (list (string * string))) : result werror retention_class :=
  let selected := default "interactive"
    (match value with Some v => Some v | None => attribute RUN_RETENTION_ATTRIBUTE attributes end) in
  if String.eqb selected "scheduled" || String.eqb selected "ephemeral" then Ok Scheduled
  else if String.eqb selected "interactive" then Ok Interactive
  else if String.eqb selected "persistent" then Ok Persistent
  else Err InvalidType.

Record deadlines := Deadlines {
  compactAfter : option instant;
  expireAfter : option instant;
  detailExpireAfter : option instant
}.

Definition retentionDeadlines (retentionClass : retention_class) (status : terminal_run_status)
    (completedAt : instant) : deadlines :=
  match retentionClass with
  | Persistent => Deadlines None None None
  | Scheduled =>
      let streamRetention := match status with TCompleted => 15 * MINUTE_MS | _ => 60 * MINUTE_MS end in
      let detailRetention :=
        match status with TCompleted => DAY_MS | TFailed => 7 * DAY_MS | TCancelled => 3 * DAY_MS end in
      Deadlines (Some (completedAt + MINUTE_MS)) (Some (completedAt + streamRetention))
                (Some (completedAt + detailRetention))
  | Interactive =>
      Deadlines (Some (completedAt + 5 * MINUTE_MS)) (Some (completedAt + DAY_MS))
                (Some (completedAt + 30 * DAY_MS))
  end.

(** ** Resolution for a new run *)

Definition ROOT_RUN_ID_ATTRIBUTE : string := "$rootRunId".
Definition PARENT_RUN_ID_ATTRIBUTE : string := "$parentRunId".

Record run_retention_identity := RetentionIdentity {
  rr_class : retention_class;
  rr_root : string
}.

(** [new Set([rootRunId, parentRunId])] without its [undefined]s. *)
Definition lineage_ids (rootRunId parentRunId : option string) : list string :=
  match rootRunId, parentRunId with
  | Some r, Some p => if String.eqb r p then [r] else [r; p]
  | Some r, None => [r]
  | None, Some p => [p]
  | None, None => []
  end.

(** The first id the lookup knows. *)
Fixpoint first_known {A} (known : string -> option A) (ids : list string) : option A :=
  match ids with
  | [] => None
  | i :: ids => match known i with Some a => Some a | None => first_known known ids end
  end.

Definition resolveRunRetentionClassForCreation (ambient : option retention_class)
    (retentionClass : option string) (attributes : option (list (string * string)))
    (getAncestorRetentionClass : string -> option retention_class) : result werror retention_class :=
  let attributeClass := attribute RUN_RETENTION_ATTRIBUTE attributes in
  match retentionClass, attributeClass with
  | None, None =>
      let rootRunId := attribute ROOT_RUN_ID_ATTRIBUTE attributes in
      let parentRunId := attribute PARENT_RUN_ID_ATTRIBUTE attributes in
      match rootRunId, parentRunId with
      | None, None => Ok (default Interactive ambient)
      | _, _ =>
          match first_known getAncestorRetentionClass (lineage_ids rootRunId parentRunId) with
          | Some c => Ok c
          | None => Err InvalidType
          end
      end
  | _, _ => resolveRunRetentionClass retentionClass attributes
  end.

Section Resolve.
Context {S M : Type}.
Local Notation prog := (prog (S:=S) (M:=M) (E:=werror)).

(** The ancestors found, in the order asked: root first. *)
Fixpoint find_ancestors (getAncestorRetention : string -> prog (option run_retention_identity))
    (ids : list string) : prog (list (string * run_retention_identity)) :=
  match ids with
  | [] => Ret []
  | i :: ids =>
      bind (getAncestorRetention i) (fun a =>
      bind (find_ancestors getAncestorRetention ids) (fun l =>
      Ret (match a with Some a => (i, a) :: l | None => l end)))
  end.

Fixpoint ancestor_of (l : list (string * run_retention_identity)) (i : string) :
    option run_retention_identity :=
  match l with
  | [] => None
  | (j, a) :: l => if String.eqb i j then Some a else ancestor_of l i
  end.

Definition resolveRunRetentionForCreation (ambient : option retention_class) (runId : string)
    (retentionClass : option string) (attributes : option (list (string * string)))
    (getAncestorRetention : string -> prog (option run_retention_identity)) :
    prog run_retention_identity :=
  let rootRunId := attribute ROOT_RUN_ID_ATTRIBUTE attributes in
  let parentRunId := attribute PARENT_RUN_ID_ATTRIBUTE attributes in
  bind (find_ancestors getAncestorRetention (lineage_ids rootRunId parentRunId)) (fun ancestors =>
  bind (lift_result (resolveRunRetentionClassForCreation ambient retentionClass attributes
          (fun i => rr_class <$> ancestor_of ancestors i))) (fun retentionClass =>
  let inherited := match ancestors with (_, a) :: _ => Some (rr_root a) | [] => None end in
  Ret (RetentionIdentity retentionClass
    (default runId (match inherited with Some r => Some r | None =>
                    match rootRunId with Some r => Some r | None => parentRunId end end))))).
End Resolve.

(** ** The trigger [set_run_retention_deadlines] *)

Definition run_is_terminal (s : RunStatus.t) : bool :=
  match s with RunStatus.completed | RunStatus.failed | RunStatus.cancelled => true | _ => false end.

Definition run_set_deadlines (r : run_row) (d : deadlines) : run_row :=
  RunRow (run_tenant r) (run_id r) (run_deploymentId r) (run_workflowName r) (run_status r)
    (run_queueNamespace r) (run_specVersion r) (run_input_ r) (run_output r) (run_error r)
    (run_errorCode r) (run_executionContext r) (run_encryptionPublicKey r) (run_attributes r)
    (run_createdAt r) (run_updatedAt r) (run_startedAt r) (run_completedAt r)
    (run_retentionClass r) (run_retentionRootRunId r)
    (compactAfter d) (expireAfter d) (detailExpireAfter d) (run_startHook r).

(** Interval arithmetic in milliseconds; [updated_at] is never null. *)
Definition trigger_deadlines (r : run_row) : deadlines :=
  if run_is_terminal (run_status r) then
    let terminal_at := default (run_updatedAt r) (run_completedAt r) in
    let minutes n := n * 60000 in let hours n := n * 3600000 in let days n := n * 86400000 in
    if String.eqb (run_retentionClass r) "scheduled" then
      match run_status r with
      | RunStatus.completed => Deadlines (Some (terminal_at + minutes 1))
          (Some (terminal_at + minutes 15)) (Some (terminal_at + hours 24))
      | RunStatus.failed => Deadlines (Some (terminal_at + minutes 1))
          (Some (terminal_at + hours 1)) (Some (terminal_at + days 7))
      | _ => Deadlines (Some (terminal_at + minutes 1))
          (Some (terminal_at + hours 1)) (Some (terminal_at + days 3))
      end
    else if String.eqb (run_retentionClass r) "interactive" then
      Deadlines (Some (terminal_at + minutes 5)) (Some (terminal_at + hours 24))
                (Some (terminal_at + days 30))
    else Deadlines None None None
  else Deadlines None None None.

Definition set_run_retention_deadlines (r : run_row) : run_row :=
  run_set_deadlines r (trigger_deadlines r).

(** ** The trigger implements the policy *)

Lemma trigger_deadlines_policy r c s t :
  run_retentionClass r = class_text c -> run_status r = run_status_of s -> run_completedAt r = Some t ->
  trigger_deadlines r = retentionDeadlines c s t.
Proof.
  intros Hc Hs Ht. unfold trigger_deadlines. rewrite Hc, Hs, Ht.
  destruct c, s; simpl; unfold MINUTE_MS, DAY_MS; repeat f_equal; lia.
Qed.
