(* ===== verification/Schema.v ===== *)
(** The database the storage code works on (src/drizzle/schema.ts with the
    triggers of migrations 0009 to 0017): its tables, the constraints its
    statements meet, and one definition per kind of statement. The process
    memory next to it holds the clock, the ULID factory, the outcome of races
    for a slot, and the mutable cells of the in-band fence. *)
From S2P Require Import Prelude Model Prog Slots Sdk Tenant RunRetention.
Local Open Scope Z_scope.

(** A row of graphile-worker's private job table, as [deliveryInFlight] reads it. *)
Record job_row := JobRow { jb_messageId : option string; jb_lockedAt : option instant }.

(** Tables are keyed by their primary keys; the event log is in commit order.
    [db_jobs] is [None] when the job table cannot be read. *)
Record Db := MkDb {
  db_runs : gmap (string * string) run_row;
  db_events : list event_row;
  db_slots : gmap (string * string) Z;
  db_steps : gmap (string * string) step_row;
  db_hooks : gmap (string * string) hook_row;
  db_waits : gmap (string * string) wait_row;
  db_admissions : gmap (string * string) admission_row;
  db_deadLetters : list dead_letter;
  db_jobs : option (list job_row);
  db_now : instant
}.

Definition set_runs (d : Db) x : Db :=
  MkDb x (db_events d) (db_slots d) (db_steps d) (db_hooks d) (db_waits d) (db_admissions d)
    (db_deadLetters d) (db_jobs d) (db_now d).
Definition set_events (d : Db) x : Db :=
  MkDb (db_runs d) x (db_slots d) (db_steps d) (db_hooks d) (db_waits d) (db_admissions d)
    (db_deadLetters d) (db_jobs d) (db_now d).
Definition set_slots (d : Db) x : Db :=
  MkDb (db_runs d) (db_events d) x (db_steps d) (db_hooks d) (db_waits d) (db_admissions d)
    (db_deadLetters d) (db_jobs d) (db_now d).
Definition set_steps (d : Db) x : Db :=
  MkDb (db_runs d) (db_events d) (db_slots d) x (db_hooks d) (db_waits d) (db_admissions d)
    (db_deadLetters d) (db_jobs d) (db_now d).
Definition set_hooks (d : Db) x : Db :=
  MkDb (db_runs d) (db_events d) (db_slots d) (db_steps d) x (db_waits d) (db_admissions d)
    (db_deadLetters d) (db_jobs d) (db_now d).
Definition set_waits (d : Db) x : Db :=
  MkDb (db_runs d) (db_events d) (db_slots d) (db_steps d) (db_hooks d) x (db_admissions d)
    (db_deadLetters d) (db_jobs d) (db_now d).
Definition set_admissions (d : Db) x : Db :=
  MkDb (db_runs d) (db_events d) (db_slots d) (db_steps d) (db_hooks d) (db_waits d) x
    (db_deadLetters d) (db_jobs d) (db_now d).
Definition set_deadLetters (d : Db) x : Db :=
  MkDb (db_runs d) (db_events d) (db_slots d) (db_steps d) (db_hooks d) (db_waits d)
    (db_admissions d) x (db_jobs d) (db_now d).

Definition empty_db (now : instant) : Db := MkDb ∅ [] ∅ ∅ ∅ ∅ ∅ [] (Some []) now.

(** [m_collide] answers, insert by insert, whether a concurrent write has taken
    the computed slot; [m_consumed] holds the fences whose [consumed] is set. *)
Record mem := Mem {
  m_now : instant;
  m_ulids : N;
  m_collide : list bool;
  m_refs : N;
  m_consumed : gset N
}.

Definition empty_mem (now : instant) : mem := Mem now 0 [] 0 ∅.

Notation P := (prog (S:=Db) (M:=mem) (E:=werror)).
Notation STMT := (stmt (S:=Db) (E:=werror)).
Notation "'let!' x ':=' p 'in' q" := (bind p (fun x => q))
  (at level 200, x pattern, p at level 100, q at level 200) : wfw_scope.
Notation "p ;;; q" := (bind p (fun _ => q)) (at level 100, q at level 200, right associativity) : wfw_scope.

(** [Date.now()] and [new Date()]. *)
Definition Date_now : P instant := js (fun m => (m_now m, m)).
(** A fresh text of a [monotonicFactory]. *)
Definition next_ulid : P N :=
  js (fun m => (m_ulids m, Mem (m_now m) (m_ulids m + 1) (m_collide m) (m_refs m) (m_consumed m))).
Definition ulid `{WorldSdk} : P string := let! n := next_ulid in Ret (ulidOf n).

(** [select]: reads and changes nothing. *)
Definition query {X} (f : Db -> X) : STMT X := fun d => Ok (f d, d).
Definition select {X} (f : Db -> X) : P X := sql (query f).

Lemma run_tx_select {X} (f : Db -> X) t : tx_failed t = false ->
  run_tx TxAborted (select f) t = (Ok (f (tx_db t)), TxSt (tx_mem t) (tx_db t) false).
Proof. intros Ht. unfold select. by rewrite run_tx_sql. Qed.

Lemma run_select {X} (f : Db -> X) m d : run TxAborted (select f) m d = (Ok (f d), m, d).
Proof. done. Qed.

Definition not_null {A} (column : string) (o : option A) : result werror A :=
  match o with Some a => Ok a | None => Err (NotNullViolation column) end.

Section Statements.
Context `{WorldSdk}.

(** *** Runs *)

(** [on conflict do nothing returning]; the trigger sets the deadlines. The row
    is given at the statement's [now()], or breaks a NOT NULL constraint. *)
Definition insert_run (values : instant -> result werror run_row) : STMT (option run_row) := fun d =>
  match values (db_now d) with
  | Err e => Err e
  | Ok r =>
      let k := (run_tenant r, run_id r) in
      match db_runs d !! k with
      | Some _ => Ok (None, d)
      | None =>
          let r := set_run_retention_deadlines r in
          Ok (Some r, set_runs d (<[k := r]> (db_runs d)))
      end
  end.

(** The trigger [resolve_dead_letters_on_terminal_run]. *)
Definition resolve_dead_letters (now : instant) (tenant run : string) (l : list dead_letter) :
    list dead_letter :=
  map (fun x =>
    if String.eqb (dl_tenant x) tenant && bool_decide (dl_run x = Some run) &&
       bool_decide (dl_resolvedAt x = None)
    then DeadLetter (dl_tenant x) (dl_run x) (Some now) else x) l.

(** [update workflow_runs set ... where tenant and run and guard returning];
    [sets_status] when the columns set include the status, so the triggers fire. *)
Definition update_run (tenant run : string) (sets_status : bool) (guard : run_row -> bool)
    (set : run_row -> run_row) : STMT (option run_row) := fun d =>
  match db_runs d !! (tenant, run) with
  | Some r =>
      if guard r then
        let r' := if sets_status then set_run_retention_deadlines (set r) else set r in
        let d' := set_runs d (<[(tenant, run) := r']> (db_runs d)) in
        Ok (Some r',
          if sets_status && run_is_terminal (run_status r') &&
             negb (bool_decide (run_status r = run_status r'))
          then set_deadLetters d' (resolve_dead_letters (db_now d) tenant run (db_deadLetters d))
          else d')
      else Ok (None, d)
  | None => Ok (None, d)
  end.

Definition get_run (tenant run : string) (d : Db) : option run_row := db_runs d !! (tenant, run).

(** *** Events *)

Definition run_events (tenant run : string) (d : Db) : list event_row :=
  filter (fun e => ev_tenant e = tenant /\ ev_run e = run) (db_events d).

(** The greatest id: [order by id desc limit 1]. *)
Definition max_id (ids : list string) : option string :=
  fold_right (fun i acc => match acc with
    | Some j => if str_lt i j then Some j else Some i
    | None => Some i end) None ids.

(** The value of an [eventId] column: a text, or the slot expression. *)
Inductive event_id_expr := IdText (id : string) | IdNextSlot.

(** The SQL expression of [nextSlotId], evaluated; [None] is a failed cast. *)
Definition nextSlotId (tenantId runId : string) (d : Db) : option string :=
  let noEvents := (FIRST_EVENT_SLOT - 1)%N in
  let prev :=
    match max_id (ev_id <$> run_events tenantId runId d) with
    | Some id =>
        cast_bigint (String.substring (String.length EVENT_ID_PREFIX)
          (String.length id - String.length EVENT_ID_PREFIX) id)
    | None => Some noEvents
    end in
  n ← prev;
  if (n + 1 <=? BIGINT_MAX)%N
  then Some (EVENT_ID_PREFIX +:+ lpad0 (dec_text (n + 1)) EVENT_ID_BODY_LENGTH)
  else None.

(** The types under the partial unique index [workflow_events_entity_creation_unique]. *)
Definition deduplicated (t : event_type) : bool :=
  match t with step_created | hook_created | wait_created | attr_set => true | _ => false end.

(** A unique index takes null columns as distinct. *)
Definition dedup_conflict (a b : event_row) : bool :=
  deduplicated (ev_type a) && bool_decide (ev_type a = ev_type b) &&
  String.eqb (ev_tenant a) (ev_tenant b) && String.eqb (ev_run a) (ev_run b) &&
  match ev_correlationId a, ev_correlationId b with
  | Some c, Some c' => String.eqb c c'
  | _, _ => false
  end.

Definition same_event_key (a b : event_row) : bool :=
  String.eqb (ev_tenant a) (ev_tenant b) && String.eqb (ev_run a) (ev_run b) &&
  String.eqb (ev_id a) (ev_id b).

Definition event_pkey : string := "workflow_events_pkey".

(** The values of an event insert; [created_at] defaults to [now()]. *)
Record event_values := EventValues {
  vl_tenant : string;
  vl_run : string;
  vl_id : event_id_expr;
  vl_correlationId : option string;
  vl_body : body;
  vl_specVersion : option Z;
  vl_createdAt : option instant
}.

Definition event_of (v : event_values) (id : string) (now : instant) : event_row :=
  EventRow (vl_tenant v) (vl_run v) id (vl_body v) (vl_correlationId v) (vl_specVersion v)
    (default now (vl_createdAt v)).

(** One [INSERT]: the slot expression is evaluated in it; a taken key inserts
    nothing under [on conflict do nothing] and is an error otherwise. *)
Definition insert_event (on_conflict_do_nothing : bool) (v : event_values) : STMT (option event_row) :=
  fun d =>
  match match vl_id v with IdText s => Some s | IdNextSlot => nextSlotId (vl_tenant v) (vl_run v) d end with
  | None => Err BadSql
  | Some s =>
      let e := event_of v s (db_now d) in
      if existsb (same_event_key e) (db_events d) then
        if on_conflict_do_nothing then Ok (None, d) else Err (UniqueViolation event_pkey)
      else if existsb (dedup_conflict e) (db_events d) then
        Err (UniqueViolation (dedupIndexName sha256_hex (vl_tenant v)))
      else Ok (Some e, set_events d (db_events d ++ [e]))
  end.

(** *** Slot markers *)

Definition insert_slots (tenant run : string) : STMT unit := fun d =>
  match db_slots d !! (tenant, run) with
  | Some _ => Ok (tt, d)
  | None => Ok (tt, set_slots d (<[(tenant, run) := 1]> (db_slots d)))
  end.

(** [update ... set seq_in_band = seq_in_band + 1 where seq_in_band = expected]. *)
Definition bump_seq_in_band (tenant run : string) (expected : Z) : STMT bool := fun d =>
  match db_slots d !! (tenant, run) with
  | Some n =>
      if n =? expected then Ok (true, set_slots d (<[(tenant, run) := n + 1]> (db_slots d)))
      else Ok (false, d)
  | None => Ok (false, d)
  end.

(** *** Steps *)

Definition insert_step (values : instant -> result werror step_row) : STMT (option step_row) := fun d =>
  match values (db_now d) with
  | Err e => Err e
  | Ok s =>
      let k := (st_tenant s, st_id s) in
      match db_steps d !! k with
      | Some _ => Ok (None, d)
      | None => Ok (Some s, set_steps d (<[k := s]> (db_steps d)))
      end
  end.

(** The row a [where tenant and run and step] names; a null id names none. *)
Definition get_step (tenant run : string) (step : option string) (d : Db) : option step_row :=
  id ← step; s ← db_steps d !! (tenant, id);
  if String.eqb (st_run s) run then Some s else None.

Definition update_step (tenant run : string) (step : option string) (guard : step_row -> bool)
    (set : step_row -> step_row) : STMT (option step_row) := fun d =>
  match get_step tenant run step d with
  | Some s =>
      if guard s then Ok (Some (set s), set_steps d (<[(tenant, st_id s) := set s]> (db_steps d)))
      else Ok (None, d)
  | None => Ok (None, d)
  end.

(** *** Hooks *)

Definition HOOK_TOKEN_CLAIM_UNIQUE : string := "workflow_hooks_token_claim_unique".
Definition hook_pkey : string := "workflow_hooks_pkey".

(** The clause of a hook insert: none, [do nothing] on the hook's id, or on anything. *)
Inductive hook_conflict_clause := NoClause | OnHookId | Untargeted.

Definition hook_list (d : Db) : list hook_row := (map_to_list (db_hooks d)).*2.

(** Another claiming row of the same tenant and token digest. *)
Definition claim_conflict (h x : hook_row) : bool :=
  hk_claimsToken h && hk_claimsToken x && String.eqb (hk_tenant x) (hk_tenant h) &&
  String.eqb (hook_token_digest (hk_token x)) (hook_token_digest (hk_token h)).

Definition insert_hook (clause : hook_conflict_clause) (h : hook_row) : STMT (option hook_row) := fun d =>
  let k := (hk_tenant h, hk_id h) in
  match db_hooks d !! k with
  | Some _ =>
      match clause with NoClause => Err (UniqueViolation hook_pkey) | _ => Ok (None, d) end
  | None =>
      if existsb (claim_conflict h) (hook_list d) then
        match clause with
        | Untargeted => Ok (None, d)
        | _ => Err (UniqueViolation HOOK_TOKEN_CLAIM_UNIQUE)
        end
      else Ok (Some h, set_hooks d (<[k := h]> (db_hooks d)))
  end.

Definition get_hook (tenant : string) (hook : string) (d : Db) : option hook_row :=
  db_hooks d !! (tenant, hook).

(** The predicate on [md5(token)] that uses the expression index. *)
Definition hookTokenEquals (token : string) (h : hook_row) : bool :=
  String.eqb (md5 (hk_token h)) (md5 token) && String.eqb (hk_token h) token.

(** [exists(ownerRunIsTerminal)]: the row's run is there and has ended. *)
Definition ownerRunIsTerminal (tenantId : string) (d : Db) (h : hook_row) : bool :=
  match db_runs d !! (tenantId, hk_run h) with
  | Some r => bool_decide (run_status r ∈ TERMINAL_WORKFLOW_RUN_STATUSES)
  | None => false
  end.

Definition hookRetentionEnded (d : Db) (h : hook_row) : bool :=
  match hk_tokenRetentionUntil h with Some u => u <=? db_now d | None => true end.

Definition hookRetained (d : Db) (h : hook_row) : bool :=
  match hk_tokenRetentionUntil h with Some u => db_now d <? u | None => false end.

Definition hookAvailable (tenantId : string) (d : Db) (h : hook_row) : bool :=
  hookRetained d h || negb (ownerRunIsTerminal tenantId d h).

(** The rows of a tenant that meet a predicate. SQL leaves the order open; the
    model takes the map's. *)
Definition select_hooks (tenantId : string) (p : hook_row -> bool) (d : Db) : list hook_row :=
  filter (fun h => hk_tenant h = tenantId /\ p h = true) (hook_list d).

Definition delete_hooks (tenantId : string) (p : Db -> hook_row -> bool) : STMT (list hook_row) := fun d =>
  Ok (select_hooks tenantId (p d) d,
      set_hooks d (filter (fun kh => ~ (hk_tenant kh.2 = tenantId /\ p d kh.2 = true)) (db_hooks d))).

(** *** Waits *)

Definition insert_wait (w : wait_row) : STMT (option wait_row) := fun d =>
  let k := (wt_tenant w, wt_id w) in
  match db_waits d !! k with
  | Some _ => Ok (None, d)
  | None => Ok (Some w, set_waits d (<[k := w]> (db_waits d)))
  end.

Definition get_wait (tenant wait : string) (d : Db) : option wait_row := db_waits d !! (tenant, wait).

Definition update_wait (tenant wait : string) (guard : wait_row -> bool) (set : wait_row -> wait_row) :
    STMT (option wait_row) := fun d =>
  match db_waits d !! (tenant, wait) with
  | Some w =>
      if guard w then Ok (Some (set w), set_waits d (<[(tenant, wait) := set w]> (db_waits d)))
      else Ok (None, d)
  | None => Ok (None, d)
  end.

Definition delete_waits (tenantId runId : string) : STMT unit := fun d =>
  Ok (tt, set_waits d (filter (fun kw => ~ (wt_tenant kw.2 = tenantId /\ wt_run kw.2 = runId)) (db_waits d))).

(** *** Start hook admissions *)

Definition insert_admission (values : instant -> admission_row) : STMT bool := fun d =>
  let a := values (db_now d) in
  let k := (ad_tenant a, ad_run a) in
  match db_admissions d !! k with
  | Some _ => Ok (false, d)
  | None => Ok (true, set_admissions d (<[k := a]> (db_admissions d)))
  end.

(** Deletes at most [n] decisions older than [cutoff], of any tenant. *)
Definition delete_old_admissions (cutoff : instant) (n : nat) : STMT unit := fun d =>
  let old := filter (fun ka => ad_createdAt ka.2 < cutoff) (map_to_list (db_admissions d)) in
  Ok (tt, set_admissions d (fold_right (fun ka m => delete ka.1 m) (db_admissions d) (take n old))).
End Statements.

(** Databases are equal when their tables are. *)
Lemma db_eq d d' :
  db_runs d = db_runs d' -> db_events d = db_events d' -> db_slots d = db_slots d' -> db_steps d = db_steps d' ->
  db_hooks d = db_hooks d' -> db_waits d = db_waits d' -> db_admissions d = db_admissions d' ->
  db_deadLetters d = db_deadLetters d' -> db_jobs d = db_jobs d' -> db_now d = db_now d' -> d = d'.
Proof. destruct d, d'. simpl. congruence. Qed.
