(* ===== verification/Ending.v ===== *)
(** What the end of a run owes to every table, said without the statements that
    write it: the contract that the ending events (src/storage.ts) and the host's
    reconciliation (src/reconciliation.ts) are both proved against. *)
From S2P Require Import Prelude Model Slots Sdk Tenant RunRetention Schema.
Local Open Scope Z_scope.

(** ** The run's row *)

(** [row'] is [row] ended with [st] at [now], with the output, the error and the
    error code given; [c] is its retention class. *)
Record run_ended (st : terminal_run_status) (c : retention_class) (now : instant)
    (output error : option payload) (errorCode : option string) (row row' : run_row) : Prop := RunEnded {
  en_status : run_status row' =
    match st with TCompleted => RunStatus.completed | TFailed => RunStatus.failed | TCancelled => RunStatus.cancelled end;
  en_completedAt : run_completedAt row' = Some now;
  en_updatedAt : run_updatedAt row' = now;
  en_output : run_output row' = output;
  en_error : run_error row' = error;
  en_errorCode : run_errorCode row' = errorCode;
  en_deadlines : Deadlines (run_compactAfter row') (run_expireAfter row') (run_detailExpireAfter row') =
    retentionDeadlines c st now;
  en_identity : (run_tenant row', run_id row', run_deploymentId row', run_workflowName row') =
    (run_tenant row, run_id row, run_deploymentId row, run_workflowName row);
  en_creation : (run_queueNamespace row', run_specVersion row', run_input_ row', run_executionContext row') =
    (run_queueNamespace row, run_specVersion row, run_input_ row, run_executionContext row);
  en_keys : (run_encryptionPublicKey row', run_attributes row', run_startHook row') =
    (run_encryptionPublicKey row, run_attributes row, run_startHook row);
  en_times : (run_createdAt row', run_startedAt row') = (run_createdAt row, run_startedAt row);
  en_retention : (run_retentionClass row', run_retentionRootRunId row') = (run_retentionClass row, run_retentionRootRunId row)
}.

(** ** What the run held *)

(** The retention of the hook's token is over, or there was none. *)
Definition retention_over (d : Db) (h : hook_row) : Prop :=
  match hk_tokenRetentionUntil h with Some u => u <= db_now d | None => True end.

(** A dead letter, once the runs [ended] names have ended: an open one of such a
    run is resolved now, any other is what it was. *)
Definition letter_resolved (T : string) (ended : string -> Prop) (now : instant) (x x' : dead_letter) : Prop :=
  let concerned := dl_tenant x = T /\ (exists i, dl_run x = Some i /\ ended i) /\ dl_resolvedAt x = None in
  (concerned -> x' = DeadLetter (dl_tenant x) (dl_run x) (Some now)) /\ (~ concerned -> x' = x).

(** Between [d] and [d'] the runs that [ended] names let go of what they held: the
    hooks whose token is not retained, the waits and the open dead letters; and
    nothing else of these tables, of the steps, the slot counts, the admissions
    and the jobs changed. *)
Record released_by (T : string) (ended : string -> Prop) (d d' : Db) : Prop := ReleasedBy {
  rb_hooks : forall k h, db_hooks d' !! k = Some h <->
    db_hooks d !! k = Some h /\ ~ (hk_tenant h = T /\ ended (hk_run h) /\ retention_over d h);
  rb_waits : forall k w, db_waits d' !! k = Some w <-> db_waits d !! k = Some w /\ ~ (wt_tenant w = T /\ ended (wt_run w));
  rb_letters : Forall2 (letter_resolved T ended (db_now d)) (db_deadLetters d) (db_deadLetters d');
  rb_steps : db_steps d' = db_steps d;
  rb_slots : db_slots d' = db_slots d;
  rb_admissions : db_admissions d' = db_admissions d;
  rb_jobs : db_jobs d' = db_jobs d
}.

(** ** The statements meet it *)

(** A row whose update wrote the columns, and the trigger the deadlines. *)
Lemma run_ended_by_trigger st c now output error errorCode row set :
  run_retentionClass row = class_text c -> run_status set = run_status_of st -> run_completedAt set = Some now ->
  run_updatedAt set = now -> run_output set = output -> run_error set = error -> run_errorCode set = errorCode ->
  (run_tenant set, run_id set, run_deploymentId set, run_workflowName set) =
    (run_tenant row, run_id row, run_deploymentId row, run_workflowName row) ->
  (run_queueNamespace set, run_specVersion set, run_input_ set, run_executionContext set) =
    (run_queueNamespace row, run_specVersion row, run_input_ row, run_executionContext row) ->
  (run_encryptionPublicKey set, run_attributes set, run_startHook set) =
    (run_encryptionPublicKey row, run_attributes row, run_startHook row) ->
  (run_createdAt set, run_startedAt set) = (run_createdAt row, run_startedAt row) ->
  (run_retentionClass set, run_retentionRootRunId set) = (run_retentionClass row, run_retentionRootRunId row) ->
  run_ended st c now output error errorCode row (set_run_retention_deadlines set).
Proof.
  intros Hc Hs Hco Hu Ho He Hec Hi Hcr Hk Ht Hr. pose proof Hr as [= Hcl _].
  assert (E : trigger_deadlines set = retentionDeadlines c st now) by (apply trigger_deadlines_policy; congruence).
  unfold set_run_retention_deadlines. rewrite E. split; try assumption.
  cbn. by destruct (retentionDeadlines c st now).
Qed.

Lemma retention_over_iff d h : hookRetentionEnded d h = true <-> retention_over d h.
Proof. unfold hookRetentionEnded, retention_over. destruct (hk_tokenRetentionUntil h); [apply Z.leb_le|done]. Qed.

Lemma letters_same T (ended : string -> Prop) now l : (forall i, ~ ended i) -> Forall2 (letter_resolved T ended now) l l.
Proof.
  intros Hn. induction l as [|x l IH]; constructor; [|done]. split; [|done]. intros (_ & (i & _ & Hi) & _). by destruct (Hn i).
Qed.

(** One run's letters resolved in front of those of others. *)
Lemma letters_resolved_cons T run (ended : string -> Prop) now l l' :
  Forall2 (letter_resolved T ended now) (resolve_dead_letters now T run l) l' ->
  Forall2 (letter_resolved T (fun i => i = run \/ ended i) now) l l'.
Proof.
  revert l'. induction l as [|x l IH]; intros l' H; inversion_clear H as [|? y ? l2 Hx Hl]; constructor; [|by apply IH].
  unfold letter_resolved in *.
  destruct (String.eqb (dl_tenant x) T && bool_decide (dl_run x = Some run) && bool_decide (dl_resolvedAt x = None)) eqn:E.
  - bools. destruct Hx as [_ Hx]. cbn [dl_tenant dl_run dl_resolvedAt] in Hx. rewrite Hx by (by intros (_ & _ & [=])).
    split; [done|]. intros Hc. destruct Hc. split_and!; [done| |done]. eauto.
  - destruct Hx as [H1 H2]. split.
    + intros (Ht & (i & Hi & [->|He]) & Hn); [|apply H1; eauto].
      by rewrite Ht, Hi, Hn, String.eqb_refl, !bool_decide_eq_true_2 in E.
    + intros Hc. apply H2. intros (Ht & (i & Hi & He) & Hn). apply Hc. eauto 7.
Qed.

Lemma letters_resolved_ext T (p q : string -> Prop) now l l' : (forall i, p i <-> q i) ->
  Forall2 (letter_resolved T p now) l l' -> Forall2 (letter_resolved T q now) l l'.
Proof.
  intros E H. eapply Forall2_impl; [exact H|]. intros x x' [H1 H2]. unfold letter_resolved. split.
  - intros (Ht & (i & Hi & He) & Hn). apply H1. split_and!; [done| |done]. exists i. by rewrite E.
  - intros Hc. apply H2. intros (Ht & (i & Hi & He) & Hn). apply Hc. split_and!; [done| |done]. exists i. by rewrite <- E.
Qed.

Lemma letters_resolved_one T run now l : Forall2 (letter_resolved T (fun i => i = run) now) l (resolve_dead_letters now T run l).
Proof.
  eapply letters_resolved_ext; [|by apply (letters_resolved_cons T run (fun _ => False)), letters_same; intros i []]. tauto.
Qed.

Lemma letters_resolved_all T now runs : forall l,
  Forall2 (letter_resolved T (fun i => i ∈ runs) now) l (fold_left (fun l i => resolve_dead_letters now T i l) runs l).
Proof.
  induction runs as [|i runs IH]; intros l; cbn [fold_left].
  - apply letters_same. intros i Hi. by apply elem_of_nil in Hi.
  - eapply letters_resolved_ext; [|apply letters_resolved_cons, IH]. intros j. by rewrite elem_of_cons.
Qed.

Lemma released_by_ext T (p q : string -> Prop) d d' : (forall i, p i <-> q i) -> released_by T p d d' -> released_by T q d d'.
Proof.
  intros E [H1 H2 H3 H4 H5 H6 H7]. split; try assumption.
  - intros k h. rewrite H1, E. done.
  - intros k w. rewrite H2, E. done.
  - by eapply letters_resolved_ext.
Qed.
