(* ===== verification/Retention.v ===== *)
(** The retention sweeps (src/retention.ts): what has outlived its run's
    deadline is deleted, a bounded batch at a time, unless the lineage the run
    belongs to still needs it. *)
From S2P Require Import Prelude Model Bytes Prog Paging Slots Sdk Tenant RunRetention StreamBlocks Streamer Schema.
From stdpp Require Import sorting.
Local Open Scope Z_scope.

(** A row of [workflow_stream_checkpoints]. *)
Record checkpoint_row := CheckpointRow {
  ck_tenant : string;
  ck_stream : string;
  ck_run : option string;
  ck_chunk : string
}.

(** The tables the sweeps reach, the advisory locks that are held, and the run
    rows that transactions open elsewhere have locked. *)
Record store := Store {
  so_db : Db;
  so_chunks : list stream_row;
  so_checkpoints : list checkpoint_row;
  so_locks : list Z;
  so_locked_runs : list (string * string)
}.

Notation RP := (prog (S:=store) (M:=unit) (E:=werror)).
Notation RSTMT := (stmt (S:=store) (E:=werror)).

Definition put_db (s : store) x : store :=
  Store x (so_chunks s) (so_checkpoints s) (so_locks s) (so_locked_runs s).
Definition put_chunks (s : store) x : store :=
  Store (so_db s) x (so_checkpoints s) (so_locks s) (so_locked_runs s).
Definition put_checkpoints (s : store) x : store :=
  Store (so_db s) (so_chunks s) x (so_locks s) (so_locked_runs s).
Definition put_locks (s : store) x : store :=
  Store (so_db s) (so_chunks s) (so_checkpoints s) x (so_locked_runs s).

Definition so_now (s : store) : instant := db_now (so_db s).
Definition so_runs (s : store) : gmap (string * string) run_row := db_runs (so_db s).

(** A statement of the workflow tables. *)
Definition on_db {X} (q : stmt (S:=Db) (E:=werror) X) : RSTMT X := fun s =>
  match q (so_db s) with Ok (x, d) => Ok (x, put_db s d) | Err e => Err e end.

(** A [delete]. *)
Definition deleting (f : store -> store) : RSTMT unit := fun s => Ok (tt, f s).

(** ** Options and results *)

Record stream_retention_options := StreamRetentionOptions {
  ro_retentionMs : js_number;
  ro_batchSize : js_number;
  ro_maxBatches : js_number
}.

(** [StreamRetentionResult] and [WorkflowRunRetentionResult]. *)
Record retention_result := RetentionResult {
  rs_deleted : Z;
  rs_batches : Z;
  rs_hitBatchLimit : bool;
  rs_lockAcquired : bool
}.
Definition emptyRetention (lockAcquired : bool) : retention_result := RetentionResult 0 0 false lockAcquired.

Definition assertNonNegativeInteger (value : js_number) : result werror Z :=
  match js_integer value with
  | Some n => if isSafeInteger value && (0 <=? n) then Ok n else Err InvalidType
  | None => Err InvalidType
  end.

Definition assertPositiveInteger (value : js_number) : result werror Z :=
  match js_integer value with
  | Some n => if isSafeInteger value && (0 <? n) then Ok n else Err InvalidType
  | None => Err InvalidType
  end.

Definition STREAM_RETENTION_LOCK_KEY : Z := 0x65767274.
Definition RUN_RETENTION_LOCK_KEY : Z := 0x65767272.

Definition pg_try_advisory_lock (key : Z) : RSTMT bool := fun s =>
  if bool_decide (key ∈ so_locks s) then Ok (false, s) else Ok (true, put_locks s (key :: so_locks s)).
Definition pg_advisory_unlock (key : Z) : RSTMT unit :=
  deleting (fun s => put_locks s (filter (fun k => k <> key) (so_locks s))).

(** ** What has expired *)

(** The condition on a run, the one on each run of its lineage that keeps the
    lineage whole, and the column the victims are ordered by. *)
Record window := Window {
  w_due : instant -> run_row -> bool;
  w_blocking : instant -> run_row -> bool;
  w_order : run_row -> instant
}.

Definition passed (now : instant) (o : option instant) : bool :=
  match o with Some t => t <=? now | None => false end.
Definition ended_at (r : run_row) : instant := default (run_updatedAt r) (run_completedAt r).
Definition is_persistent (r : run_row) : bool := String.eqb (run_retentionClass r) "persistent".

(** Past a deadline column of the run. *)
Definition deadline_window (column : run_row -> option instant) : window := Window
  (fun now r => run_is_terminal (run_status r) && passed now (column r))
  (fun now r => negb (run_is_terminal (run_status r)) || is_persistent r || negb (passed now (column r)))
  (fun r => default 0 (column r)).

(** Ended longer ago than [retentionMs]. *)
Definition age_window (retentionMs : Z) : window := Window
  (fun now r => run_is_terminal (run_status r) && (ended_at r <? now - retentionMs))
  (fun now r => negb (run_is_terminal (run_status r)) || is_persistent r || (now - retentionMs <=? ended_at r))
  ended_at.

Definition stream_window : window := deadline_window run_expireAfter.
Definition detail_window : window := deadline_window run_detailExpireAfter.

(** The runs of the lineage of a run. *)
Definition same_lineage (tenant root : string) (m : run_row) : bool :=
  String.eqb (run_tenant m) tenant && String.eqb (run_retentionRootRunId m) root.
Definition lineage_runs (tenant root : string) (s : store) : list run_row :=
  filter (fun m => same_lineage tenant root m = true) ((map_to_list (so_runs s)).*2).

(** Whether a Hook of the lineage is held past its run: the join of the Hooks
    with the runs that own them. *)
Definition capability_held (tenant root : string) (s : store) : bool :=
  existsb (fun h =>
    match so_runs s !! (hk_tenant h, hk_run h) with
    | Some owner => same_lineage tenant root owner
    | None => false
    end && hookRetained (so_db s) h) (hook_list (so_db s)).

Definition lineage_blocked (w : window) (tenant root : string) (s : store) : bool :=
  existsb (w_blocking w (so_now s)) (lineage_runs tenant root s) || capability_held tenant root s.

Definition expired (w : window) (s : store) (r : run_row) : bool :=
  w_due w (so_now s) r && negb (lineage_blocked w (run_tenant r) (run_retentionRootRunId r) s).

(** The run a row belongs to, where it has one. *)
Definition owner_run (s : store) (tenant : string) (run : option string) : option run_row :=
  id ← run; so_runs s !! (tenant, id).

Definition owner_expired (w : window) (s : store) (tenant : string) (run : option string) : bool :=
  match owner_run s tenant run with Some r => expired w s r | None => false end.

Definition chunk_expired (w : window) (s : store) (x : stream_row) : bool :=
  negb (ph_eof (sr_phys x)) && owner_expired w s (sr_tenant x) (sr_run x).

(** ** Stream chunks *)

Definition victim_order (w : window) (s : store) (a b : stream_row) : comparison :=
  let column x := from_option (w_order w) 0 (owner_run s (sr_tenant x) (sr_run x)) in
  lex (Z.compare (column a) (column b))
  (lex (String.compare (sr_tenant a) (sr_tenant b))
  (lex (String.compare (sr_stream a) (sr_stream b)) (String.compare (sr_id a) (sr_id b)))).

Definition stream_victims (w : window) (batchSize : nat) (s : store) : list stream_row :=
  take batchSize (sort_with (victim_order w s) (filter (fun x => chunk_expired w s x = true) (so_chunks s))).

Definition among (victims : list stream_row) (x : stream_row) : bool := existsb (same_row_key x) victims.

(** One batch: a row is deleted by its place in the table, which its key names.
    Gives the number of rows deleted. *)
Definition delete_stream_batch (w : window) (batchSize : nat) : RSTMT nat := fun s =>
  let victims := stream_victims w batchSize s in
  Ok (length (filter (fun x => among victims x = true) (so_chunks s)),
      put_chunks s (filter (fun x => among victims x = false) (so_chunks s))).

(** [deleteExpiredCheckpoints] and [deleteTerminalCheckpointsByAge]. *)
Definition deleteExpiredCheckpoints (w : window) : RSTMT unit := deleting (fun s =>
  put_checkpoints s (filter (fun c => owner_expired w s (ck_tenant c) (ck_run c) = false) (so_checkpoints s))).

Section Sweep.
Context (batch : RP nat) (finish : RP unit) (batchSize maxBatches : nat).

(** [for (batches = 1; batches <= maxBatches; ...)]: a batch that is not full is the last. *)
Fixpoint sweep_batches (remaining batches deleted : nat) : RP retention_result :=
  match remaining with
  | O => finish ;;; Ret (RetentionResult (Z.of_nat deleted) (Z.of_nat maxBatches) true true)
  | S remaining =>
      let! n := batch in
      if (n <? batchSize)%nat
      then finish ;;; Ret (RetentionResult (Z.of_nat (deleted + n)) (Z.of_nat batches) false true)
      else sweep_batches remaining (batches + 1) (deleted + n)
  end.
End Sweep.

(** The lock is tried, and given up whatever the sweep comes to. *)
Definition with_lock (key : Z) (body : RP retention_result) : RP retention_result :=
  let! lockAcquired := sql (pg_try_advisory_lock key) in
  if lockAcquired then
    try_catch body (fun r => try_catch (sql (pg_advisory_unlock key)) (fun _ => lift_result r))
  else Ret (emptyRetention false).

Definition prune_streams (w : window) (batchSize maxBatches : Z) : RP retention_result :=
  with_lock STREAM_RETENTION_LOCK_KEY
    (sweep_batches (sql (delete_stream_batch w (Z.to_nat batchSize))) (sql (deleteExpiredCheckpoints w))
       (Z.to_nat batchSize) (Z.to_nat maxBatches) (Z.to_nat maxBatches) 1 0).

Definition pruneTerminalStreamChunks (options : stream_retention_options) : RP retention_result :=
  let! retentionMs := lift_result (assertNonNegativeInteger (ro_retentionMs options)) in
  let! batchSize := lift_result (assertPositiveInteger (ro_batchSize options)) in
  let! maxBatches := lift_result (assertPositiveInteger (ro_maxBatches options)) in
  prune_streams (age_window retentionMs) batchSize maxBatches.

Definition pruneExpiredStreamChunks (batchSize maxBatches : js_number) : RP retention_result :=
  let! batchSize := lift_result (assertPositiveInteger batchSize) in
  let! maxBatches := lift_result (assertPositiveInteger maxBatches) in
  prune_streams stream_window batchSize maxBatches.

(** ** Runs *)

Definition run_order (a b : run_row) : comparison :=
  lex (Z.compare (w_order detail_window a) (w_order detail_window b))
  (lex (String.compare (run_tenant a) (run_tenant b)) (String.compare (run_id a) (run_id b))).

(** [for update skip locked]: the runs locked elsewhere are passed over. *)
Definition run_due (s : store) (kr : (string * string) * run_row) : bool :=
  expired detail_window s kr.2 && negb (bool_decide (kr.1 ∈ so_locked_runs s)).
Definition due_runs (s : store) : list ((string * string) * run_row) :=
  filter (fun kr => run_due s kr = true) (map_to_list (so_runs s)).
Definition run_victims (batchSize : nat) : RSTMT (list (string * string)) := fun s =>
  Ok (fst <$> take batchSize (sort_with (fun a b => run_order a.2 b.2) (due_runs s)), s).

(** [using unnest(tenants, runIds) as victims] *)
Definition is_victim (victims : list (string * string)) (tenant run : string) : bool :=
  bool_decide ((tenant, run) ∈ victims).
Definition is_victim_opt (victims : list (string * string)) (tenant : string) (run : option string) : bool :=
  match run with Some run => is_victim victims tenant run | None => false end.

Definition delete_checkpoints_of (v : list (string * string)) (s : store) : store :=
  put_checkpoints s (filter (fun c => is_victim_opt v (ck_tenant c) (ck_run c) = false) (so_checkpoints s)).
(** The EOF rows stay: each proves that its stream ended. *)
Definition delete_chunks_of (v : list (string * string)) (s : store) : store :=
  put_chunks s (filter (fun x => is_victim_opt v (sr_tenant x) (sr_run x) && negb (ph_eof (sr_phys x)) = false)
    (so_chunks s)).
Definition delete_events_of (v : list (string * string)) (d : Db) : Db :=
  set_events d (filter (fun e => is_victim v (ev_tenant e) (ev_run e) = false) (db_events d)).
Definition delete_slots_of (v : list (string * string)) (d : Db) : Db :=
  set_slots d (filter (fun kx => is_victim v kx.1.1 kx.1.2 = false) (db_slots d)).
Definition delete_steps_of (v : list (string * string)) (d : Db) : Db :=
  set_steps d (filter (fun kx => is_victim v (st_tenant kx.2) (st_run kx.2) = false) (db_steps d)).
Definition delete_hooks_of (v : list (string * string)) (d : Db) : Db :=
  set_hooks d (filter (fun kx => is_victim v (hk_tenant kx.2) (hk_run kx.2) = false) (db_hooks d)).
Definition delete_waits_of (v : list (string * string)) (d : Db) : Db :=
  set_waits d (filter (fun kx => is_victim v (wt_tenant kx.2) (wt_run kx.2) = false) (db_waits d)).

Definition delete_runs_of (v : list (string * string)) : RSTMT nat := fun s =>
  Ok (length (filter (fun kx => is_victim v kx.1.1 kx.1.2 = true) (map_to_list (so_runs s))),
      put_db s (set_runs (so_db s) (filter (fun kx => is_victim v kx.1.1 kx.1.2 = false) (so_runs s)))).

Definition in_db (f : Db -> Db) (s : store) : store := put_db s (f (so_db s)).

(** The Hooks whose run is gone and whose retention has ended. *)
Definition orphan_hook (d : Db) (h : hook_row) : bool :=
  passed (db_now d) (hk_tokenRetentionUntil h) && negb (bool_decide (is_Some (db_runs d !! (hk_tenant h, hk_run h)))).
Definition delete_orphan_hooks (d : Db) : Db :=
  set_hooks d (filter (fun kx => orphan_hook d kx.2 = false) (db_hooks d)).

Definition delete_orphan_checkpoints (s : store) : store :=
  put_checkpoints s (filter (fun c => bool_decide (is_Some (owner_run s (ck_tenant c) (ck_run c))) = true)
    (so_checkpoints s)).

(** One batch: the victims' rows in table order, then the orphans. Gives the
    numbers of victims and of runs deleted. *)
Definition prune_runs_tx (batchSize : nat) : RP (nat * nat) :=
  let! victims := sql (run_victims batchSize) in
  let! deleted :=
    match victims with
    | [] => Ret O
    | _ =>
        sql (deleting (delete_checkpoints_of victims)) ;;;
        sql (deleting (delete_chunks_of victims)) ;;;
        sql (deleting (in_db (delete_events_of victims))) ;;;
        sql (deleting (in_db (delete_slots_of victims))) ;;;
        sql (deleting (in_db (delete_steps_of victims))) ;;;
        sql (deleting (in_db (delete_hooks_of victims))) ;;;
        sql (deleting (in_db (delete_waits_of victims))) ;;;
        sql (delete_runs_of victims)
    end in
  sql (deleting (in_db delete_orphan_hooks)) ;;;
  sql (deleting delete_orphan_checkpoints) ;;;
  Ret (length victims, deleted).
Definition prune_runs_batch (batchSize : nat) : RP (nat * nat) := transaction (prune_runs_tx batchSize).

Fixpoint prune_runs_loop (batchSize maxBatches remaining batches deleted : nat) : RP retention_result :=
  match remaining with
  | O => Ret (RetentionResult (Z.of_nat deleted) (Z.of_nat maxBatches) true true)
  | S remaining =>
      let! (victims, n) := prune_runs_batch batchSize in
      if (victims <? batchSize)%nat
      then Ret (RetentionResult (Z.of_nat (deleted + n)) (Z.of_nat batches) false true)
      else prune_runs_loop batchSize maxBatches remaining (batches + 1) (deleted + n)
  end.

Definition pruneExpiredWorkflowRuns (batchSize maxBatches : js_number) : RP retention_result :=
  let! batchSize := lift_result (assertPositiveInteger batchSize) in
  let! maxBatches := lift_result (assertPositiveInteger maxBatches) in
  with_lock RUN_RETENTION_LOCK_KEY
    (prune_runs_loop (Z.to_nat batchSize) (Z.to_nat maxBatches) (Z.to_nat maxBatches) 1 0).

(** ** The class of a run *)

Definition set_retention_class (c : string) (r : run_row) : run_row :=
  RunRow (run_tenant r) (run_id r) (run_deploymentId r) (run_workflowName r) (run_status r)
    (run_queueNamespace r) (run_specVersion r) (run_input_ r) (run_output r) (run_error r)
    (run_errorCode r) (run_executionContext r) (run_encryptionPublicKey r) (run_attributes r)
    (run_createdAt r) (run_updatedAt r) (run_startedAt r) (run_completedAt r)
    c (run_retentionRootRunId r)
    (run_compactAfter r) (run_expireAfter r) (run_detailExpireAfter r) (run_startHook r).

(** The update names [retention_class], so the trigger sets the deadlines. *)
Definition setWorkflowRunRetentionClass (tenantId runId : string) (retentionClass : string) :
    RP (bool * retention_class) :=
  if assertValidTenantId tenantId then
    let! c := lift_result (resolveRunRetentionClass (Some retentionClass) None) in
    let! updated := sql (on_db (update_run tenantId runId true (fun _ => true) (set_retention_class (class_text c)))) in
    Ret (bool_decide (is_Some updated), c)
  else Throw PlainError.
