(* ===== verification/Maintenance.v ===== *)
(** The storage maintenance of a dispatcher (src/storage-maintenance.ts): one pass
    over the three tasks, each of them isolated from the failures of the others,
    and the loop that never runs two passes at a time. *)
From S2P Require Import Prelude Model Bytes Prog Paging Slots Sdk StreamBlocks Streamer BlockMaintenance Schema Retention.
Local Open Scope Z_scope.

(** ** A pass *)

(** [StorageMaintenanceOptions] *)
Record maintenance_options := MaintenanceOptions {
  mo_streamBatchSize : js_number;
  mo_maxBatches : js_number;
  mo_maxStreamsToPack : js_number;
  mo_runBatchSize : js_number;
  mo_compactSnapshots : option bool
}.

(** An operation on the store: what it comes to, and the store after it. *)
Notation task E A := (store -> result E A * store).

(** [StorageMaintenanceDependencies] *)
Record dependencies := Dependencies {
  dp_packBlocks : js_number -> bool -> task serror pack_result;
  dp_pruneStreams : js_number -> js_number -> task werror retention_result;
  dp_pruneRuns : js_number -> js_number -> task werror retention_result
}.

(** A settled promise is the outcome as a value: [settle] never throws. *)
Record maintenance_result := MaintenanceResult {
  mr_blocks : result serror pack_result;
  mr_streams : result werror retention_result;
  mr_runs : result werror retention_result
}.

Definition runStorageMaintenanceOnce (d : dependencies) (o : maintenance_options) (s : store) : maintenance_result * store :=
  let '(blocks, s) := dp_packBlocks d (mo_maxStreamsToPack o) (default true (mo_compactSnapshots o)) s in
  let '(streams, s) := dp_pruneStreams d (mo_streamBatchSize o) (mo_maxBatches o) s in
  let '(runs, s) := dp_pruneRuns d (mo_runBatchSize o) (mo_maxBatches o) s in
  (MaintenanceResult blocks streams runs, s).

(** *** The tasks of the package *)

Definition STREAM_BLOCK_PACK_LOCK_KEY : Z := 0x65766270.

Definition program_task {A} (p : prog (S:=store) (M:=unit) (E:=werror) A) : task werror A := fun s =>
  let '(r, _, s) := run TxAborted p tt s in (r, s).

Section Defaults.
Context (compactStreamChunk : bytes -> bytes).

Definition pack_task (maxStreams : js_number) (compactSnapshots : bool) : task serror pack_result := fun s =>
  let '(r, table) := packTerminalStreamBlocks compactStreamChunk
                       (negb (bool_decide (STREAM_BLOCK_PACK_LOCK_KEY ∈ so_locks s))) (so_now s) ((map_to_list (so_runs s)).*2)
                       (PackOptions maxStreams None None (Some compactSnapshots)) (so_chunks s) in
  (r, put_chunks s table).

Definition defaultDependencies : dependencies := Dependencies pack_task
  (fun batchSize maxBatches => program_task (pruneExpiredStreamChunks batchSize maxBatches))
  (fun batchSize maxBatches => program_task (pruneExpiredWorkflowRuns batchSize maxBatches)).
End Defaults.

(** ** The loop *)

(** [stopped], and whether a pass is [active]; [stop] has been answered once it
    has been called and no pass is left. *)
Record loop := Loop { lp_stopped : bool; lp_active : bool }.

(** The interval fires; the active pass settles; [stop] is called. *)
Inductive loop_event := Fired | PassSettled | StopCalled.

(** [tick]: whether a pass starts. *)
Definition tick (l : loop) : bool * loop :=
  if lp_stopped l || lp_active l then (false, l) else (true, Loop (lp_stopped l) true).

(** The timer is cleared when [stop] is called; an interval that has fired by
    then finds the loop stopped. *)
Definition loop_step (l : loop) (e : loop_event) : bool * loop :=
  match e with
  | Fired => tick l
  | PassSettled => (false, Loop (lp_stopped l) false)
  | StopCalled => (false, Loop true (lp_active l))
  end.

(** [startStorageMaintenanceLoop]: [None] for an interval of zero, and otherwise
    the loop after its first tick. *)
Definition start_loop (intervalMs : Z) : option loop :=
  if intervalMs =? 0 then None else Some (tick (Loop false false)).2.

(** The passes begun and the loop after a run of events. *)
Fixpoint loop_run (l : loop) (es : list loop_event) : list bool * loop :=
  match es with
  | [] => ([], l)
  | e :: es => let '(b, l) := loop_step l e in let '(bs, l) := loop_run l es in (b :: bs, l)
  end.

Definition stop_answered (l : loop) : bool := lp_stopped l && negb (lp_active l).
