(* ===== verification/Migrate.v ===== *)
(** Migrations and tenant partitions (src/migrate.ts): the boots that bring the
    schema up to date one at a time, and the partitions a tenant is given and
    loses. *)
From S2P Require Import Prelude Model Bytes Prog Paging Slots Sdk Tenant StreamBlocks Streamer Schema Retention.
Local Open Scope Z_scope.

(** ** Migrations *)

Definition MIGRATION_LOCK_KEY : Z := 0x65766577.

(** [name.endsWith(".sql")] *)
Definition is_sql (name : string) : bool :=
  (4 <=? String.length name)%nat && String.eqb (String.substring (String.length name - 4) 4 name) ".sql".

(** The files of the directory that are migrations, in order. *)
Definition migration_files (dir : list string) : list string :=
  sort_with String.compare (filter (fun name => is_sql name = true) dir).

Section Migrations.
(** The schema with all the data in it, and what running a file's SQL makes of
    it: [None] for an error. *)
Context {D : Type} (exec : string -> D -> option D).

(** The schema, the rows of the migrations table, and the session that holds
    the advisory lock. *)
Record mig_state := MigState { ms_schema : D; ms_applied : list string; ms_lock : option nat }.

(** Where a call of [runMigrations] is: before the lock; behind it; in the loop,
    with the names seen, the files to come and those applied; at the [finally];
    returned. *)
Inductive mig_proc :=
| Booting
| Locked
| Applying (seen todo applied : list string)
| Unlocking (r : result unit (list string))
| Returned (r : result unit (list string)).

(** One statement or transaction of the session [i]; [None] while it waits for
    the lock, or has returned. *)
Definition mig_step (files : list string) (i : nat) (p : mig_proc) (s : mig_state) : option (mig_proc * mig_state) :=
  match p with
  | Booting =>
      match ms_lock s with
      | None => Some (Locked, MigState (ms_schema s) (ms_applied s) (Some i))
      | Some _ => None
      end
  | Locked => Some (Applying (ms_applied s) files [], s)
  | Applying seen [] applied => Some (Unlocking (Ok applied), s)
  | Applying seen (name :: todo) applied =>
      if bool_decide (name ∈ seen) then Some (Applying seen todo applied, s) else
      match exec name (ms_schema s) with
      | None => Some (Unlocking (Err tt), s)
      | Some d =>
          if bool_decide (name ∈ ms_applied s) then Some (Unlocking (Err tt), s)
          else Some (Applying seen todo (applied ++ [name]), MigState d (ms_applied s ++ [name]) (ms_lock s))
      end
  | Unlocking r => Some (Returned r, MigState (ms_schema s) (ms_applied s) None)
  | Returned _ => None
  end.

Definition is_returned (p : mig_proc) : bool := match p with Returned _ => true | _ => false end.
Definition holds_lock (p : mig_proc) : bool := match p with Booting | Returned _ => false | _ => true end.

(** A process that dies loses its session: an open transaction is rolled back
    and the lock freed. *)
Definition mig_crash (p : mig_proc) (s : mig_state) : mig_proc * mig_state :=
  (Returned (Err tt), if holds_lock p then MigState (ms_schema s) (ms_applied s) None else s).

(** Any number of boots, one statement at a time, any of which may die. *)
Inductive mig_pool (files : list string) : list mig_proc * mig_state -> list mig_proc * mig_state -> Prop :=
| mig_pool_step i p p' ps s s' : ps !! i = Some p -> mig_step files i p s = Some (p', s') ->
    mig_pool files (ps, s) (<[i := p']> ps, s')
| mig_pool_crash i p ps s : ps !! i = Some p -> is_returned p = false ->
    mig_pool files (ps, s) (<[i := (mig_crash p s).1]> ps, (mig_crash p s).2).

(** A call run alone. *)
Fixpoint mig_run (fuel : nat) (files : list string) (p : mig_proc) (s : mig_state) : mig_proc * mig_state :=
  match fuel with
  | O => (p, s)
  | S fuel => match mig_step files 0 p s with Some (p, s) => mig_run fuel files p s | None => (p, s) end
  end.

(** Every file is one step, and there are four more. *)
Definition runMigrations (dir : list string) (s : mig_state) : mig_proc * mig_state :=
  mig_run (length (migration_files dir) + 4) (migration_files dir) Booting s.
End Migrations.

(** ** Partitions *)

Definition PARTITIONED_TABLES : list string := ["workflow_events"; "workflow_stream_chunks"].

(** A partition: its table and the tenant it is for. *)
Record table_partition := Partition { pt_table : string; pt_tenant : string }.
#[export] Instance table_partition_eq_dec : EqDecision table_partition.
Proof. solve_decision. Defined.

(** The partitions by name, and the name of each event partition's partial
    unique index. *)
Record catalog := Catalog { ct_partitions : gmap string table_partition; ct_dedup : gmap string string }.

(** What Postgres answers: a name that is taken, a list that overlaps. *)
Inductive pg_error := DuplicateTable | PartitionOverlap | InvalidTenantId.

Section Partitions.
Context (sha256_hex : string -> string).
(** The name Postgres gives a new partition's index. *)
Context (auto_index : string -> string).

Definition create_partition (table tenantId : string) (c : catalog) : result pg_error catalog :=
  let name := derivePartitionName sha256_hex table tenantId in
  match ct_partitions c !! name with
  | Some _ => Err DuplicateTable
  | None =>
      if bool_decide (Exists (fun kp => kp.2 = Partition table tenantId) (map_to_list (ct_partitions c)))
      then Err PartitionOverlap
      else Ok (Catalog (<[name := Partition table tenantId]> (ct_partitions c))
                 (if String.eqb table "workflow_events" then <[name := auto_index name]> (ct_dedup c) else ct_dedup c))
  end.

Definition renameDedupIndex (tenantId : string) (c : catalog) : catalog :=
  let partition := derivePartitionName sha256_hex "workflow_events" tenantId in
  let target := dedupIndexName sha256_hex tenantId in
  match ct_dedup c !! partition with
  | Some current => if String.eqb current target then c else Catalog (ct_partitions c) (<[partition := target]> (ct_dedup c))
  | None => c
  end.

(** The loop over the tables: a partition that is there already is fine. *)
Fixpoint ensure_tables (tables : list string) (tenantId : string) (c : catalog) : result pg_error catalog :=
  match tables with
  | [] => Ok c
  | table :: tables =>
      match create_partition table tenantId c with
      | Ok c => ensure_tables tables tenantId c
      | Err DuplicateTable => ensure_tables tables tenantId c
      | Err e => Err e
      end
  end.

Definition ensureTenantPartitions (tenantId : string) (c : catalog) : result pg_error catalog :=
  if negb (assertValidTenantId tenantId) then Err InvalidTenantId
  else result_bind (ensure_tables PARTITIONED_TABLES tenantId c) (fun c => Ok (renameDedupIndex tenantId c)).

Definition tenantPartitionsExist (tenantId : string) (c : catalog) : result pg_error bool :=
  if negb (assertValidTenantId tenantId) then Err InvalidTenantId
  else Ok (forallb (fun table => bool_decide (is_Some (ct_partitions c !! derivePartitionName sha256_hex table tenantId)))
             PARTITIONED_TABLES).

(** The rows in a partition go with it. *)
Definition drop_rows (p : table_partition) (s : store) : store :=
  if String.eqb (pt_table p) "workflow_events"
  then put_db s (set_events (so_db s) (filter (fun e => ev_tenant e <> pt_tenant p) (db_events (so_db s))))
  else put_chunks s (filter (fun x => sr_tenant x <> pt_tenant p) (so_chunks s)).

Definition drop_partition (table tenantId : string) (cs : catalog * store) : catalog * store :=
  let '(c, s) := cs in
  let name := derivePartitionName sha256_hex table tenantId in
  match ct_partitions c !! name with
  | Some p => (Catalog (delete name (ct_partitions c)) (delete name (ct_dedup c)), drop_rows p s)
  | None => (c, s)
  end.

(** The rows of the tables that are not partitioned. *)
Definition delete_tenant_rows (tenantId : string) (s : store) : store :=
  let d := so_db s in
  let s := put_db s (set_slots d (filter (fun kx => kx.1.1 <> tenantId) (db_slots d))) in
  let s := put_checkpoints s (filter (fun c => ck_tenant c <> tenantId) (so_checkpoints s)) in
  put_db s (set_admissions (so_db s) (filter (fun kx => kx.1.1 <> tenantId) (db_admissions (so_db s)))).

Definition dropTenantPartitions (tenantId : string) (c : catalog) (s : store) : result pg_error (catalog * store) :=
  if negb (assertValidTenantId tenantId) then Err InvalidTenantId else
  let '(c, s) := foldl (fun cs table => drop_partition table tenantId cs) (c, s) PARTITIONED_TABLES in
  Ok (c, delete_tenant_rows tenantId s).
End Partitions.
