(* ===== verification/QueueProps.v ===== *)
(** What the two ends of a delivery can rely on: deliveries are counted right
    over retries, reschedules and handoffs; a deployment lets through only
    dispatches it can authenticate; and a delivery held as a timer comes back to
    its run's queue as it would have been enqueued (src/dispatch-contract.ts,
    src/queue.ts, src/timers.ts). *)
From S2P Require Import Prelude Model Bytes Slots Sdk Tenant Contract Timers Queue.
Local Open Scope Z_scope.

(** ** Counting deliveries *)

(** How a delivery ends that is to be repeated: the job fails and is retried, or
    the executor asks for another delivery. *)
Inductive repeat := Retried | Continued (timeoutSeconds : js_number).

(** What the executor of a spec 9 run calls a handoff. *)
Definition is_handoff `{QueueSdk} (body : option json) (r : repeat) : bool :=
  match r with Retried => false | Continued t => is_zero t && isSingleOrchestratorMessage body end.

(** The message and its job's attempts, from one delivery to the next. *)
Definition next_delivery `{QueueSdk} (body : option json) (s : message * Z) (r : repeat) : message * Z :=
  match r with
  | Retried => (s.1, s.2 + 1)
  | Continued t => (continuationOf s.1 (deliveryAccounting s.1 (Some s.2)) t body, 1)
  end.

(** The attempts a handoff carried over, and the retries of the current job. *)
Definition attempts_step `{QueueSdk} (body : option json) (s : Z * Z) (r : repeat) : Z * Z :=
  match r with
  | Retried => (s.1, s.2 + 1)
  | Continued _ => (if is_handoff body r then s.1 + s.2 else s.1, 0)
  end.

Lemma default_nonzero n : default 0 (nonzero n) = default 0 n.
Proof. by destruct n as [[]|]. Qed.

Lemma next_delivery_count `{QueueSdk} body rs : forall s a k,
  default 0 (md_attemptOffset s.1) = a.1 -> s.2 = a.2 + 1 -> dl_count (deliveryAccounting s.1 (Some s.2)) = k ->
  let s' := fold_left (next_delivery body) rs s in
  let a' := fold_left (attempts_step body) rs a in
  deliveryAccounting s'.1 (Some s'.2) = Delivery (a'.1 + a'.2 + 1) (k + Z.of_nat (length rs)) /\
  md_messageId s'.1 = md_messageId s.1 /\ md_data s'.1 = md_data s.1.
Proof.
  induction rs as [|r rs IH]; intros s a k Ha Hs Hk; cbn zeta.
  { cbn [fold_left length]. cbn in Hk |- *. split; [|done]. f_equal; lia. }
  cbn [fold_left]. destruct r as [|t].
  - destruct (IH (next_delivery body s Retried) (attempts_step body a Retried) (k + 1)) as (H1 & H2 & H3).
    + exact Ha.
    + cbn. lia.
    + rewrite <- Hk. cbn. lia.
    + split; [|by split]. rewrite H1. f_equal. cbn [length]. lia.
  - destruct (IH (next_delivery body s (Continued t)) (attempts_step body a (Continued t)) (k + 1)) as (H1 & H2 & H3).
    + cbn [next_delivery attempts_step fst is_handoff]. unfold continuationOf. cbn [md_attemptOffset].
      rewrite default_nonzero. destruct (is_zero t && isSingleOrchestratorMessage body); [|exact Ha].
      cbn. lia.
    + cbn. lia.
    + rewrite <- Hk. cbn. lia.
    + split; [|by split]. rewrite H1. f_equal. cbn [length]. lia.
Qed.

(** Over any history of retries, reschedules and handoffs of a message the
    delivery count is the number of deliveries, this one included, and the
    attempt is one more than the retries of the current job and the attempts
    the handoffs carried over; the message's id and body stay what they were. *)
Theorem deliveries_counted `{QueueSdk} body m rs :
  md_deliveryOffset m = None -> md_attemptOffset m = None ->
  let s := fold_left (next_delivery body) rs (m, 1) in
  let a := fold_left (attempts_step body) rs (0, 0) in
  deliveryAccounting s.1 (Some s.2) = Delivery (a.1 + a.2 + 1) (1 + Z.of_nat (length rs)) /\
  md_messageId s.1 = md_messageId m /\ md_data s.1 = md_data m.
Proof.
  intros Hd Ha. apply next_delivery_count; cbn [fst snd]; [by rewrite Ha|lia|].
  cbn. by rewrite Hd, Ha.
Qed.

(** A third-party world for the examples: a body is one byte, [9] for a spec 9
    run's orchestrator message. *)
#[export] Instance demo_queue_sdk : QueueSdk := {
  JSON_parse b := match b with [x] => Some (JObj [("runId", JStr "r"); ("spec", JNum (JsFinite (byte_val x) 1))]) | _ => None end;
  js_Number s := match s with "1" => JsFinite 1 1 | "2" => JsFinite 2 1 | _ => JsNaN end;
  messageRunSpecVersion j := match j with Some j => match field "spec" j with Some (JNum x) => js_integer x | _ => None end | None => None end;
  isSingleOrchestratorMessage j :=
    match j with Some j => match field "spec" j with Some (JNum x) => bool_decide (js_integer x = Some 9) | _ => false end | None => false end;
  singleOrchestratorRunIdOf j := match j with Some j => string_field "runId" j | None => None end;
  invokePayload_safeParse j := Some j;
  queuePayload_parse _ := true;
  getQueueTopicPrefix ns := match ns with Some n => "__" +:+ n +:+ "_wkf_workflow_" | None => "__wkf_workflow_" end;
  parseQueueName_id s := s
}.

Definition demo_message (spec : Z) : message :=
  Message 1 None None "msg_1" None None "flow" [byte_of spec] "t" "dep" None.

Lemma deliveries_counted_witness :
  let s := fold_left (next_delivery (Some (JObj [("spec", JNum (JsFinite 9 1))])))
             [Retried; Continued (JsFinite 0 1); Continued (JsFinite 5 1)] (demo_message 9, 1) in
  deliveryAccounting s.1 (Some s.2) = Delivery 2 4.
Proof.
  destruct (deliveries_counted (Some (JObj [("spec", JNum (JsFinite 9 1))])) (demo_message 9)
    [Retried; Continued (JsFinite 0 1); Continued (JsFinite 5 1)] eq_refl eq_refl) as [H _].
  exact H.
Defined.

(** The attempt does not start over on a reschedule that follows a handoff. *)
Lemma reschedule_keeps_carried_attempts :
  let body := Some (JObj [("spec", JNum (JsFinite 9 1))]) in
  let s := fold_left (next_delivery body) [Retried; Continued (JsFinite 0 1); Continued (JsFinite 5 1)] (demo_message 9, 1) in
  dl_attempt (deliveryAccounting s.1 (Some s.2)) = 2 /\
  let s := fold_left (next_delivery body) [Retried; Continued (JsFinite 5 1)] (demo_message 9, 1) in
  dl_attempt (deliveryAccounting s.1 (Some s.2)) = 1.
Proof. split; vm_compute; reflexivity. Qed.

(** ** Who may dispatch *)

Lemma lxor_zero a b : N.lxor a b = 0%N <-> a = b.
Proof. apply N.lxor_eq_0_iff. Qed.

Lemma mismatch_zero e : forall r m, String.length e = String.length r ->
  (mismatch_of e r m = 0%N <-> m = 0%N /\ e = r).
Proof.
  induction e as [|a e IH]; intros [|b r] m Hl; cbn [mismatch_of]; try done; [split; [done|by intros [? _]]|].
  injection Hl as Hl. rewrite (IH r _ Hl), N.lor_eq_0_iff, lxor_zero. split.
  - intros [[-> Ha] ->]. split; [done|]. f_equal. by rewrite <- (Ascii.ascii_N_embedding a), Ha, Ascii.ascii_N_embedding.
  - intros [-> [= -> ->]]. done.
Qed.

(** The comparison, position by position, is equality. *)
Lemma secretMatches_eq expected received : secretMatches expected received = true <->
  received = Some expected /\ expected <> "".
Proof.
  unfold secretMatches. destruct received as [r|]; [|split; [done|by intros [? _]]].
  destruct (String.eqb r "") eqn:Er; cbn [orb]; bools.
  { subst. split; [done|]. by intros [[= <-] ?]. }
  destruct (Nat.eqb_spec (String.length expected) (String.length r)) as [El|El]; cbn [negb].
  - rewrite N.eqb_eq, mismatch_zero by done. split; [intros [_ ->]; by split|intros [[= ->] _]; done].
  - split; [done|]. by intros [[= ->] _].
Qed.

(** A request passes the deployment's gate if and only if it does not declare
    itself a platform dispatch, or declares a whole version from 1 up to the one
    spoken here, carries the host's secret, and names this deployment or none. *)
Theorem gate_passes `{WorldSdk} `{QueueSdk} config env header :
  queue_gate config env header = Pass <->
  given (header DISPATCH_VERSION_HEADER) = None \/
  exists text version secret, header DISPATCH_VERSION_HEADER = Some text /\ text <> "" /\
    js_integer (js_Number text) = Some version /\ 1 <= version <= DISPATCH_VERSION /\
    readRuntimeSecretFromEnv env = Some secret /\ secret <> "" /\ header RUNTIME_SECRET_HEADER = Some secret /\
    (given (header DEPLOYMENT_HEADER) = None \/ given (header DEPLOYMENT_HEADER) = Some (qc_deploymentId config)).
Proof.
  unfold queue_gate, checkDispatchVersion. destruct (header DISPATCH_VERSION_HEADER) as [text|]; [|cbn; tauto].
  cbn [given]. destruct (String.eqb text "") eqn:Et; [tauto|]. bools.
  destruct (js_integer (js_Number text)) as [v|] eqn:Ev; [|split; [done|intros [?|(? & ? & ? & [= <-] & _ & Hv & _)]; congruence]].
  destruct (Z.leb_spec v 0); [split; [done|intros [?|(? & ? & ? & [= <-] & _ & Hv & Hr & _)]; [done|]; assert (v = x0) by congruence; lia]|].
  destruct (Z.ltb_spec DISPATCH_VERSION v); [split; [done|intros [?|(? & ? & ? & [= <-] & _ & Hv & Hr & _)]; [done|]; assert (v = x0) by congruence; lia]|].
  destruct (readRuntimeSecretFromEnv env) as [secret|] eqn:Es; [|split; [done|intros [?|(? & ? & ? & _ & _ & _ & _ & [=] & _)]; done]].
  destruct (secretMatches secret (header RUNTIME_SECRET_HEADER)) eqn:Em; cbn [negb].
  2: { split; [done|]. intros [?|(? & ? & ? & _ & _ & _ & _ & [= <-] & Hne & Hh & _)]; [done|].
       assert (secretMatches secret (header RUNTIME_SECRET_HEADER) = true) by (by apply secretMatches_eq). congruence. }
  apply secretMatches_eq in Em as [Eh Hne]. destruct (given (header DEPLOYMENT_HEADER)) as [target|] eqn:Ed.
  - destruct (String.eqb target (qc_deploymentId config)) eqn:Ete; bools.
    + subst target. split; [|done]. intros _. right. exists text, v, secret. split_and!; try done; try lia. by right.
    + split; [done|]. intros [?|(? & ? & ? & _ & _ & _ & _ & _ & _ & _ & [?|[= ?]])]; done.
  - split; [|done]. intros _. right. exists text, v, secret. split_and!; try done; try lia. by left.
Qed.

(** ** Timers *)

Section Timers.
Context `{WorldSdk} `{QueueSdk}.

(** The flow job of a message on a run's queue, due now. *)
Definition due_job (flowJobName : string) (m : message) (key : option string) (q : string) : add_job :=
  AddJob flowJobName (StoredMessage m None)
    (TaskSpec (given key) false None (Some q) MAX_GRAPHILE_JOB_ATTEMPTS (Some [tenantFlag (md_tenantId m)])).

Lemma timer_handler_returns flowJobName m q key : q <> "" ->
  timer_handler flowJobName (timerPayload m q) key = Ok (due_job flowJobName m key q).
Proof.
  intros Hq. unfold timer_handler, timerPayload. cbn [parse_message result_bind timer_target].
  rewrite (proj2 (String.eqb_neq q "") Hq). cbn [result_bind]. by rewrite given_nonempty.
Qed.

(** The input of a job without its delay. *)
Definition undelayed (i : job_input) : job_input :=
  JobInput (ji_queueId i) (ji_body i) (ji_messageId i) (ji_attempt i) (ji_idempotencyKey i) (ji_headers i) None
    (ji_jobKey i) (ji_unsafeDedupe i) (ji_runQueue i) (ji_deliveryOffset i) (ji_attemptOffset i) (ji_deploymentId i)
    (ji_bypassingWake i).

Lemma prefix_nonempty_queue q : String.prefix run_queue_prefix q = true -> q <> "".
Proof. by intros H1 ->. Qed.

(** The call in graphile's default key mode. *)
Definition in_default_mode (j : add_job) : add_job :=
  let t := aj_spec j in
  AddJob (aj_identifier j) (aj_payload j)
    (TaskSpec (ts_jobKey t) false (ts_runAt t) (ts_queueName t) (ts_maxAttempts t) (ts_flags t)).

(** A wake that bypasses its run's queue is never held: it has no queue. *)
Lemma bypassing_has_no_queue locked body messageId opts config :
  pc_bypassingWake (placeInvoke config locked body messageId opts) = true ->
  pc_runQueue (placeInvoke config locked body messageId opts) = None.
Proof. unfold placeInvoke. repeat case_match; done. Qed.

(** C27 A delivery that waits as a timer comes back as what it would have been:
    running the timer adds the job that enqueueing the delivery without its
    delay adds, on the queue of its run, under its key and for its tenant; its
    key is then in graphile's default mode, whatever it was enqueued in, since the
    timer that holds it has to give it up. This holds of the timers an embedded
    World adds for anything but a wake that bypasses its run's queue, which has
    no queue to come back to, of those the dispatcher adds for a reschedule, and
    of the jobs a sweep takes off a run's queue, whose ids, due times and keys the
    sweep leaves as they are. *)
Theorem timers_return :
  (forall config now i, (ji_bypassingWake i = true -> ji_runQueue i = None) ->
     aj_identifier (addGraphileJob config now i) = getJobQueueName config \/
     timer_handler (getJobQueueName config) (aj_payload (addGraphileJob config now i)) (ts_jobKey (aj_spec (addGraphileJob config now i))) =
       Ok (in_default_mode (addGraphileJob config now (undelayed i)))) /\
  (forall now m delaySeconds key,
     aj_identifier (addDelayedDelivery now FLOW_JOB_NAME m delaySeconds key) = FLOW_JOB_NAME \/
     exists q, runQueueOfMessage m = Some q /\
       timer_handler FLOW_JOB_NAME (aj_payload (addDelayedDelivery now FLOW_JOB_NAME m delaySeconds key)) (Some key) =
         Ok (due_job FLOW_JOB_NAME m (Some key) q)) /\
  (forall now flowJobName timerJobName horizonSeconds j q m r,
     swept_queue now flowJobName horizonSeconds j = Some q -> j_payload j = StoredMessage m r ->
     let j' := sweep_job now flowJobName timerJobName horizonSeconds j in
     j_task j' = timerJobName /\ j_queue j' = None /\ j_id j' = j_id j /\ j_runAt j' = j_runAt j /\ j_key j' = j_key j /\
     j_queue j = Some q /\ timer_handler flowJobName (j_payload j') (j_key j') = Ok (due_job flowJobName m (j_key j) q)).
Proof.
  split_and!.
  - intros config now i Hb. unfold addGraphileJob at 1 2 3.
    destruct (if qc_embedded config && _ then given (ji_runQueue i) else None) as [q|] eqn:Eq; [right|by left].
    destruct (qc_embedded config && _) eqn:Eh; [|done]. apply given_some in Eq as [Er Hq].
    assert (Hb' : ji_bypassingWake i = false).
    { destruct (ji_bypassingWake i); [|done]. rewrite Hb in Er by done. discriminate Er. }
    cbn [aj_payload aj_spec ts_jobKey]. rewrite timer_handler_returns by done. f_equal.
    unfold addGraphileJob, undelayed, due_job, holdsAsTimer, in_default_mode. cbn [ji_delaySeconds ji_runQueue ji_jobKey ji_unsafeDedupe ji_bypassingWake
      ji_attempt ji_deliveryOffset ji_attemptOffset ji_messageId ji_idempotencyKey ji_headers ji_queueId ji_body ji_deploymentId].
    rewrite Er, Hb', andb_false_r, (given_nonempty q Hq). cbn [aj_identifier aj_payload aj_spec ts_jobKey ts_runAt ts_queueName ts_maxAttempts ts_flags].
    f_equal. f_equal. destruct (ji_jobKey i) as [k|]; cbn; [|done]. destruct (String.eqb k "") eqn:Ek; cbn; [done|]. by rewrite Ek.
  - intros now m delaySeconds key. unfold addDelayedDelivery. destruct (given (runQueueOfMessage m)) as [q|] eqn:Eq; [|by left].
    apply given_some in Eq as [Er Hq]. destruct (String.eqb FLOW_JOB_NAME FLOW_JOB_NAME && _); [right|by left].
    exists q. split; [done|]. cbn [aj_payload]. by apply timer_handler_returns.
  - intros now flow timer hz j q m r Hs Hp j'. subst j'. unfold sweep_job. rewrite Hs. cbn.
    unfold swept_queue in Hs. destruct (j_queue j) as [q'|] eqn:Eq; [|done].
    destruct (String.eqb (j_task j) flow && _ && _ && _ && _ && _) eqn:Ec; [|done]. injection Hs as ->. bools.
    rewrite Hp. cbn [with_run_queue]. split_and!; try done. apply timer_handler_returns. by apply prefix_nonempty_queue.
Qed.
End Timers.

Definition demo_config : queue_config := QueueConfig "t" "dep" true None.
Definition demo_job : job :=
  Job 1 FLOW_JOB_NAME (Some "wfrun:t:r") (Some [tenantFlag "t"]) (StoredMessage (demo_message 8) None) 0 0 None 100000 (Some "msg_1") 0.
Definition demo_input : job_input :=
  JobInput "flow" [byte_of 8] "msg_1" 1 None None (Some (JsFinite 90 1)) (Some "msg_1") true (Some "wfrun:t:r") None None None false.

Lemma timers_return_witness :
  timer_handler (getJobQueueName demo_config) (aj_payload (addGraphileJob demo_config 0 demo_input)) (Some "msg_1") =
    Ok (in_default_mode (addGraphileJob demo_config 0 (undelayed demo_input))) /\
  timer_handler FLOW_JOB_NAME (j_payload (sweep_job 0 FLOW_JOB_NAME TIMER_JOB_NAME 60 demo_job)) (Some "msg_1") =
    Ok (due_job FLOW_JOB_NAME (demo_message 8) (Some "msg_1") "wfrun:t:r").
Proof.
  destruct timers_return as (H1 & _ & H3). split.
  - assert (Hb : ji_bypassingWake demo_input = true -> ji_runQueue demo_input = None) by discriminate.
    destruct (H1 demo_config 0 demo_input Hb) as [H|H]; [vm_compute in H; discriminate|exact H].
  - apply (H3 0 FLOW_JOB_NAME TIMER_JOB_NAME 60 demo_job "wfrun:t:r" (demo_message 8) None eq_refl eq_refl).
Defined.

(** ** The probe of the executor *)

(** Only the machine itself is ever probed, under an address of its own. *)
Lemma probes_are_local parse Number url hosts port : getLoopbackTarget parse Number url = Ok (Some (hosts, port)) ->
  hosts <> [] /\ Forall (fun h => h = "127.0.0.1" \/ h = "::1") hosts.
Proof.
  unfold getLoopbackTarget. destruct (given url) as [text|]; [|done]. destruct (parse text) as [u|]; [|done].
  unfold getLoopbackHosts. set (own := fun h : string => h = "127.0.0.1" \/ h = "::1").
  assert (H1 : own "127.0.0.1") by (by left). assert (H2 : own "::1") by (by right).
  destruct (String.eqb (bu_hostname u) "localhost"); [by intros [= <- _]; rewrite !Forall_cons|].
  destruct (String.eqb (bu_hostname u) "[::1]"); [by intros [= <- _]; rewrite !Forall_cons|].
  destruct (String.eqb_spec (bu_hostname u) "127.0.0.1") as [->|]; cbn [orb]; [by intros [= <- _]; rewrite !Forall_cons|].
  destruct (String.eqb_spec (bu_hostname u) "::1") as [->|]; [by intros [= <- _]; rewrite !Forall_cons|done].
Qed.

(** A configured port is what is dialled, whatever is detected, unless a base URL
    of the environment names the executor. *)
Lemma configured_port_wins base text local envPort port detected : given local = None ->
  getExecutionBaseUrl base text local envPort (Some port) detected = Some (base ("http://localhost:" +:+ text port)).
Proof. intros H. unfold getExecutionBaseUrl. by rewrite H. Qed.
