(* ===== verification/Dispatcher.v ===== *)
(** The platform dispatcher's delivery of one claimed job
    (src/dispatcher/dispatcher.ts, src/dispatcher/runner.ts): where the message
    goes, what becomes of it, and what the process keeps count of. *)
From S2P Require Import Prelude Model Bytes Slots Sdk Contract Timers Inflight Queue Schema.
Local Open Scope Z_scope.

(** ** Answers of the parts it calls *)

(** What [runLookup] finds of a run. *)
Record run_found := RunFound { rf_deploymentId : string; rf_status : RunStatus.t; rf_quarantined : bool }.

(** [Activation] *)
Record activation := Activation { ac_leaseId : string; ac_endpointPort : option Z; ac_endpointUrl : option string }.
(** [ActivationOutcome] *)
Inductive activation_outcome :=
| Activated (a : activation)
| NotActivatable (status : Z) (text : string)
| Unavailable (status : Z) (text : string).

(** [VqsResult] *)
Inductive vqs_result :=
| VqsCompleted
| VqsReschedule (timeoutSeconds : js_number)
| VqsError (status : Z) (text : bytes) (retryable : bool).

(** [Affinity] *)
Inductive affinity :=
| ToDeployment (deploymentId : string) (runId : option string)
| UnroutableTerminal
| UnroutableQuarantined.

(** The reasons of dead letters and retries. *)
Inductive reason :=
| DeploymentNotActivatable (deploymentId text : string)
| ActivationFailed (status : Z) (text : string)
| NeverSent (text : bytes)
| ExecutorRejected (status : Z) (text : bytes)
| ExecutorStreak (status count spanMs : Z) (text : bytes)
| DispatchFailed (status : Z) (text : bytes)
| DispatchThrew
| RetriesExhausted (last : reason).

(** [DispatchOutcome] *)
Inductive outcome :=
| OutCompleted
| OutRescheduled (timeoutSeconds : js_number)
| OutDeadLetter (r : reason)
| OutRetry (r : reason).

(** ** Streaks of executor failures *)

Record streak := Streak { sk_count : Z; sk_firstAt : instant }.

(** The runs with a streak, the one that advanced last at the end. *)
Definition streaks : Type := list (string * streak).

Record tracker_config := TrackerConfig { tc_limit : Z; tc_minSpanMs : Z; tc_trackedRuns : nat }.

Definition DEFAULT_EXECUTOR_FAILURE_LIMIT : Z := 5.
Definition DEFAULT_EXECUTOR_FAILURE_MIN_SPAN_MS : Z := 60000.

Fixpoint streak_of (key : string) (l : streaks) : option streak :=
  match l with
  | [] => None
  | (k, s) :: l => if String.eqb k key then Some s else streak_of key l
  end.

Definition drop_streak (key : string) (l : list (string * streak)) : list (string * streak) :=
  filter (fun p => p.1 <> key) l.

(** What [record] reports of the streak it advanced. *)
Record streak_report := StreakReport { sr_count : Z; sr_spanMs : Z; sr_exhausted : bool }.

Definition tracker_record (c : tracker_config) (at_ : instant) (key : string) (l : streaks) : streak_report * streaks :=
  let s := match streak_of key l with
           | Some p => Streak (sk_count p + 1) (sk_firstAt p)
           | None => Streak 1 at_
           end in
  let l := drop_streak key l ++ [(key, s)] in
  let l := if (tc_trackedRuns c <? length l)%nat then tail l else l in
  let spanMs := Z.max 0 (at_ - sk_firstAt s) in
  (StreakReport (sk_count s) spanMs ((tc_limit c <=? sk_count s) && (tc_minSpanMs c <=? spanMs)), l).

Definition tracker_reset (key : string) (l : streaks) : streaks := drop_streak key l.

(** ** Fairness *)

Inductive lane := LaneDelivery | LaneWake.
#[export] Instance lane_eq_dec : EqDecision lane.
Proof. solve_decision. Defined.

(** The deliveries in flight, per lane and tenant. *)
Record fairness := Fairness { fn_delivery : gmap string Z; fn_wake : gmap string Z }.

Definition lane_counts (l : lane) (f : fairness) : gmap string Z :=
  match l with LaneDelivery => fn_delivery f | LaneWake => fn_wake f end.
Definition set_lane (l : lane) (m : gmap string Z) (f : fairness) : fairness :=
  match l with LaneDelivery => Fairness m (fn_wake f) | LaneWake => Fairness (fn_delivery f) m end.

Definition acquire (tenantId : string) (l : lane) (f : fairness) : fairness :=
  set_lane l (<[tenantId := default 0 (lane_counts l f !! tenantId) + 1]> (lane_counts l f)) f.

Definition release (tenantId : string) (l : lane) (f : fairness) : fairness :=
  let next := default 1 (lane_counts l f !! tenantId) - 1 in
  set_lane l (if next <=? 0 then delete tenantId (lane_counts l f) else <[tenantId := next]> (lane_counts l f)) f.

Definition flag_of (l : lane) (tenantId : string) : string :=
  match l with LaneDelivery => tenantFlag tenantId | LaneWake => wakeFlag tenantId end.

Definition forbidden_in (cap : Z) (l : lane) (f : fairness) : list string :=
  (fun p => flag_of l p.1) <$> filter (fun p => cap <= p.2) (map_to_list (lane_counts l f)).
Definition forbiddenFlags (cap : Z) (f : fairness) : list string :=
  forbidden_in cap LaneDelivery f ++ forbidden_in cap LaneWake f.

Section Dispatch.
Context `{WorldSdk} `{QueueSdk}.

(** ** Routing *)

(** [createRunLookup]: the query on the run and the dead letters. *)
Definition run_lookup (tenantId runId : string) (d : Db) : option run_found :=
  (fun r => RunFound (run_deploymentId r) (run_status r)
     (existsb (fun l => String.eqb (dl_tenant l) tenantId && bool_decide (dl_run l = Some runId) &&
                        bool_decide (dl_resolvedAt l = None)) (db_deadLetters d)))
  <$> get_run tenantId runId d.

(** An empty run id counts as none. *)
Definition resolveAffinity (m : message) (found : option run_found) : affinity :=
  match given (readRunId m) with
  | None => ToDeployment (md_deploymentId m) None
  | Some runId =>
      match found with
      | None => ToDeployment (md_deploymentId m) (Some runId)
      | Some run =>
          match rf_status run with
          | RunStatus.completed | RunStatus.failed | RunStatus.cancelled => UnroutableTerminal
          | _ => if rf_quarantined run then UnroutableQuarantined else ToDeployment (rf_deploymentId run) (Some runId)
          end
      end
  end.

(** ** One message *)

(** What the parts answer while a message is dispatched, [Err] where they throw:
    the run lookup, the activation, the held request to the executor; whether
    the job that re-enqueues the message, and the row of a dead letter, are
    written. *)
Record answers := Answers {
  an_run : result unit (option run_found);
  an_activation : string -> result unit activation_outcome;
  an_result : activation -> result unit vqs_result;
  an_reenqueued : bool;
  an_recorded : bool
}.

(** The dispatcher's memory a delivery works on. *)
Record dispatch_input := DispatchInput {
  di_message : message;
  di_jobName : string;
  di_attempt : Z;
  di_deliveryCount : Z
}.

Definition failure_key (m : message) (runId : option string) : option string :=
  (fun r => md_tenantId m +:+ ":" +:+ r) <$> runId.

Definition reset_key (key : option string) (l : streaks) : streaks :=
  match key with Some k => tracker_reset k l | None => l end.

(** The executor's answer, put to the streaks: the outcome and the job added. *)
Definition settle_result (c : tracker_config) (now : instant) (i : dispatch_input) (runId : option string)
    (reenqueued : bool) (r : vqs_result) (l : streaks) : result unit outcome * option add_job * streaks :=
  let m := di_message i in
  let key := failure_key m runId in
  match r with
  | VqsCompleted => (Ok OutCompleted, None, reset_key key l)
  | VqsReschedule timeoutSeconds =>
      let l := reset_key key l in
      if negb reenqueued then (Err tt, None, l) else
      (Ok (OutRescheduled timeoutSeconds),
       Some (addDelayedDelivery now (di_jobName i)
         (continuationOf m (Delivery (di_attempt i) (di_deliveryCount i)) timeoutSeconds (readBody m)) timeoutSeconds
         (default (md_messageId m) (md_idempotencyKey m))), l)
  | VqsError status text retryable =>
      if negb retryable then
        (Ok (OutDeadLetter (if status =? 0 then NeverSent text else ExecutorRejected status text)), None, l)
      else
        let failed := (Ok (OutRetry (DispatchFailed status text)), None) in
        match key with
        | Some k =>
            if 500 <=? status then
              let '(report, l) := tracker_record c now k l in
              if sr_exhausted report
              then (Ok (OutDeadLetter (ExecutorStreak status (sr_count report) (sr_spanMs report) text)), None,
                    tracker_reset k l)
              else (failed, l)
            else (failed, l)
        | None => (failed, l)
        end
  end.

Definition dispatchMessage (c : tracker_config) (now : instant) (i : dispatch_input) (a : answers) (l : streaks) :
    result unit outcome * option add_job * streaks :=
  let m := di_message i in
  let routed := match given (readRunId m) with None => Ok None | Some _ => an_run a end in
  match routed with
  | Err _ => (Err tt, None, l)
  | Ok found =>
      match resolveAffinity m found with
      | UnroutableTerminal | UnroutableQuarantined => (Ok OutCompleted, None, l)
      | ToDeployment deploymentId runId =>
          match an_activation a deploymentId with
          | Err _ => (Err tt, None, l)
          | Ok (NotActivatable _ text) => (Ok (OutDeadLetter (DeploymentNotActivatable deploymentId text)), None, l)
          | Ok (Unavailable status text) => (Ok (OutRetry (ActivationFailed status text)), None, l)
          | Ok (Activated act) =>
              match an_result a act with
              | Err _ => (Err tt, None, l)
              | Ok r => settle_result c now i runId (an_reenqueued a) r l
              end
          end
      end
  end.

(** ** One job *)

(** What a handled job leaves: whether graphile is told to retry, the dead
    letter written, the job added, and the memory. *)
Record handled := Handled {
  hd_throws : bool;
  hd_deadLetter : option (message * reason);
  hd_added : option add_job;
  hd_streaks : streaks
}.

(** The end of the handler, on the outcome of a delivery that ran. A dead letter
    that cannot be written throws out of the handler, on the last attempt too. *)
Definition conclude (isFinalAttempt recorded : bool) (m : message) (o : outcome) (added : option add_job) (l : streaks) : handled :=
  let letter r := if recorded then Handled false (Some (m, r)) added l else Handled true None added l in
  match o with
  | OutCompleted | OutRescheduled _ => Handled false None added l
  | OutDeadLetter r => letter r
  | OutRetry r => if isFinalAttempt then letter (RetriesExhausted r) else Handled true None added l
  end.

(** [readIsFinalAttempt], of a job whose [attempts] and [max_attempts] are numbers or are not. *)
Definition readIsFinalAttempt (attempts maxAttempts : option Z) : bool :=
  match attempts, maxAttempts with Some n, Some k => k <=? n | _, _ => false end.

(** The handler for a message the duplicate filter lets run. *)
Definition handle (c : tracker_config) (now : instant) (jobName : string) (attempts maxAttempts : option Z) (m : message)
    (a : answers) (l : streaks) : handled :=
  let d := deliveryAccounting m attempts in
  let '(r, added, l) := dispatchMessage c now (DispatchInput m jobName (dl_attempt d) (dl_count d)) a l in
  let o := match r with Ok o => o | Err _ => OutRetry DispatchThrew end in
  conclude (readIsFinalAttempt attempts maxAttempts) (an_recorded a) m o added l.

(** [dedup.run]: what the duplicate filter has a delivery do. One without a key
    takes no part in it. *)
Definition dedup_run (idempotencyKey : option string) (d : dedup) : arrival :=
  match idempotencyKey with Some key => (dedup_arrive key d).1 | None => Execute end.

(** What the filter's execution is remembered by when it settles ([dedup_settle]). *)
Definition execution_completed (r : result unit outcome) : bool :=
  match r with Ok OutCompleted => true | _ => false end.

(** The handler. [joined] is how the execution of the same key ended that the
    delivery waited for. *)
Definition handle_delivery (c : tracker_config) (now : instant) (jobName : string) (attempts maxAttempts : option Z)
    (m : message) (joined : result unit unit) (a : answers) (l : streaks) (d : dedup) : handled :=
  match dedup_run (md_idempotencyKey m) d with
  | Execute => handle c now jobName attempts maxAttempts m a l
  | AlreadyDone => Handled false None None l
  | JoinRunning =>
      match joined with
      | Ok _ => Handled false None None l
      | Err _ => conclude (readIsFinalAttempt attempts maxAttempts) (an_recorded a) m (OutRetry DispatchThrew) None l
      end
  end.

(** The lane a job counts in, by its flags. *)
Definition readFairnessLane (flags : list string) (tenantId : string) : lane :=
  if bool_decide (wakeFlag tenantId ∈ flags) then LaneWake else LaneDelivery.

(** [onDeadLetter]: the row it inserts. *)
Definition onDeadLetter (m : message) (d : Db) : Db :=
  set_deadLetters d (db_deadLetters d ++ [DeadLetter (md_tenantId m) (readRunId m) None]).
End Dispatch.
