(* ===== verification/Reconciliation.v ===== *)
(** Host-driven reconciliation (src/reconciliation.ts): the host settles runs
    whose executor is gone, or parks them behind dead letters. *)
From S2P Require Import Prelude Model Bytes Prog Slots Sdk Tenant RunRetention Schema Contract Dispatcher.
Local Open Scope Z_scope.

Inductive disposition := DispFail | DispCancel | DispQuarantine.
#[export] Instance disposition_eq_dec : EqDecision disposition.
Proof. solve_decision. Defined.

Record reconcile_options := ReconcileOptions {
  rc_tenantId : string;
  rc_runIds : option (list string);
  rc_deploymentIds : option (list string);
  rc_disposition : disposition;
  rc_reason : string;
  rc_errorCode : option string
}.

(** [ReconciledWorkflowRun] *)
Record reconciled_run := ReconciledRun {
  rd_runId : string;
  rd_workflowName : string;
  rd_deploymentId : string;
  rd_previousStatus : RunStatus.t
}.

Definition DEFAULT_ERROR_CODE : string := "RUN_ORPHANED".

(** [status in ('pending', 'running')] *)
Definition run_active (r : run_row) : bool :=
  match run_status r with RunStatus.pending | RunStatus.running => true | _ => false end.

(** [any] of a selector that is given; one that is not narrows nothing. *)
Definition selected_by (ids : option (list string)) (id : string) : bool :=
  match ids with Some l => bool_decide (id ∈ l) | None => true end.

Definition unresolved_letter (tenant run : string) (l : dead_letter) : bool :=
  String.eqb (dl_tenant l) tenant && bool_decide (dl_run l = Some run) && bool_decide (dl_resolvedAt l = None).
Definition quarantined (d : Db) (r : run_row) : bool :=
  existsb (unresolved_letter (run_tenant r) (run_id r)) (db_deadLetters d).

Section Reconcile.
Context `{WorldSdk} `{QueueSdk}.
(** [JSON.stringify], as UTF-8. *)
Context (JSON_stringify : json -> bytes).
Context (options : reconcile_options).
Local Notation tenantId := (rc_tenantId options).

Definition selects (r : run_row) : bool :=
  String.eqb (run_tenant r) tenantId && run_active r &&
  selected_by (rc_runIds options) (run_id r) && selected_by (rc_deploymentIds options) (run_deploymentId r).

(** ** The terminal dispositions *)

Definition settled_status : RunStatus.t :=
  match rc_disposition options with DispFail => RunStatus.failed | _ => RunStatus.cancelled end.

(** The columns the update sets; the deprecated error text is left out. *)
Definition set_settled (now : instant) (r : run_row) : run_row :=
  RunRow (run_tenant r) (run_id r) (run_deploymentId r) (run_workflowName r) settled_status
    (run_queueNamespace r) (run_specVersion r) (run_input_ r) (run_output r) (run_error r)
    (match rc_disposition options with
     | DispFail => Some (default DEFAULT_ERROR_CODE (rc_errorCode options))
     | _ => run_errorCode r
     end) (run_executionContext r) (run_encryptionPublicKey r) (run_attributes r)
    (run_createdAt r) now (run_startedAt r) (Some now)
    (run_retentionClass r) (run_retentionRootRunId r)
    (run_compactAfter r) (run_expireAfter r) (run_detailExpireAfter r) (run_startHook r).

(** The rows the [for update] subquery locks. *)
Definition settled_runs (d : Db) : list run_row := filter (fun r => selects r = true) ((map_to_list (db_runs d)).*2).

(** The update; both triggers fire for each row it changes. *)
Definition settle_update : STMT (list run_row) := fun d =>
  let settled := settled_runs d in
  let d1 := set_runs d ((fun r => if selects r then set_run_retention_deadlines (set_settled (db_now d) r) else r) <$> db_runs d) in
  Ok (settled, set_deadLetters d1
    (fold_left (fun l r => resolve_dead_letters (db_now d) (run_tenant r) (run_id r) l) settled (db_deadLetters d))).

Definition report (r : run_row) : reconciled_run :=
  ReconciledRun (run_id r) (run_workflowName r) (run_deploymentId r) (run_status r).

Definition delete_waits_any (runIds : list string) : STMT unit := fun d =>
  Ok (tt, set_waits d (filter (fun kw => ~ (wt_tenant kw.2 = tenantId /\ wt_run kw.2 ∈ runIds)) (db_waits d))).

Definition settleRuns : P (list reconciled_run) :=
  let! settled := sql settle_update in
  match settled with
  | [] => Ret tt
  | _ =>
      let runIds : list string := run_id <$> settled in
      sql (delete_hooks tenantId (fun d h => bool_decide (hk_run h ∈ runIds) && hookRetentionEnded d h)) ;;;
      sql (delete_waits_any runIds)
  end ;;;
  Ret (map report settled).

(** ** Quarantine *)

(** The message a replay of the letter would deliver. *)
Definition reconcile_message (r : run_row) : message :=
  Message 1 None None ("msg_reconcile_" +:+ run_id r) None None (run_workflowName r)
    (JSON_stringify (JObj [("runId", JStr (run_id r))])) tenantId (run_deploymentId r)
    (Timers.given (run_queueNamespace r)).

Definition quarantine_candidates (d : Db) : list run_row :=
  filter (fun r => selects r && negb (quarantined d r) = true) ((map_to_list (db_runs d)).*2).

(** The letter's columns the model has. *)
Definition insert_letter (r : run_row) : STMT unit := fun d =>
  Ok (tt, set_deadLetters d (db_deadLetters d ++ [DeadLetter tenantId (Some (run_id r)) None])).

Fixpoint insert_letters (rows : list run_row) : P (list reconciled_run) :=
  match rows with
  | [] => Ret []
  | r :: rows => sql (insert_letter r) ;;; let! l := insert_letters rows in Ret (report r :: l)
  end.

Definition quarantineRuns : P (list reconciled_run) :=
  let! active := select quarantine_candidates in insert_letters active.

(** ** The entry point *)

Definition empty_selector (ids other : option (list string)) : bool :=
  match ids, other with Some [], None => true | _, _ => false end.

Definition reconcileWorkflowRuns : P (list reconciled_run) :=
  if negb (assertValidTenantId tenantId) then Throw PlainError else
  if bool_decide (rc_runIds options = None) && bool_decide (rc_deploymentIds options = None) then Throw InvalidType else
  if String.eqb (rc_reason options) "" then Throw InvalidType else
  if empty_selector (rc_runIds options) (rc_deploymentIds options) ||
     empty_selector (rc_deploymentIds options) (rc_runIds options) then Ret [] else
  transaction (if bool_decide (rc_disposition options = DispQuarantine) then quarantineRuns else settleRuns).
End Reconcile.
