(* ===== verification/Backfill.v ===== *)
(** The backfill of retention classes over run graphs (src/retention-backfill.ts):
    the runs that descend from marked roots, and their class changed in batches. *)
From S2P Require Import Prelude Model Prog Paging Slots Sdk Tenant JsText RunRetention Schema Retention Reconciliation.
From stdpp Require Import sorting.
Local Open Scope Z_scope.

(** [WorkflowRunRetentionBackfillSelector] *)
Record backfill_selector := BackfillSelector {
  bs_tenantId : string;
  bs_rootAttribute : string;
  bs_rootValue : string;
  bs_retentionClass : string
}.

(** A selector with its class resolved ([NormalizedSelector]). *)
Record normalized := Normalized {
  nm_tenantId : string;
  nm_rootAttribute : string;
  nm_rootValue : string;
  nm_class : string
}.

Definition normalizeSelector (s : backfill_selector) : result werror normalized :=
  if negb (assertValidTenantId (bs_tenantId s)) then Err PlainError else
  if blank (bs_rootAttribute s) then Err InvalidType else
  if blank (bs_rootValue s) then Err InvalidType else
  result_bind (resolveRunRetentionClass (Some (bs_retentionClass s)) None) (fun c =>
  Ok (Normalized (bs_tenantId s) (bs_rootAttribute s) (bs_rootValue s) (class_text c))).

(** [assertPositiveInteger], by [Number.isInteger]. *)
Definition assertPositive (value : js_number) : result werror nat :=
  match js_integer value with
  | Some n => if n <=? 0 then Err InvalidType else Ok (Z.to_nat n)
  | None => Err InvalidType
  end.

(** ** The graph *)

Section Graph.
Context (s : normalized).

Definition tenant_rows (d : Db) : list run_row :=
  filter (fun r => run_tenant r = nm_tenantId s) ((map_to_list (db_runs d)).*2).

(** [attributes ->> key = value], where null is no match. *)
Definition attribute_is (key : string) (value : string) (r : run_row) : bool :=
  bool_decide (run_attributes r !! key = Some value).

Definition is_root (r : run_row) : bool := attribute_is (nm_rootAttribute s) (nm_rootValue s) r.

(** The join condition of the recursive term. *)
Definition linked (child : run_row) (graph : string * string) : bool :=
  attribute_is "$parentRunId" graph.1 child || attribute_is "$eve.parent" graph.1 child ||
  attribute_is "$rootRunId" graph.2 child || attribute_is "$eve.root" graph.2 child.

(** Rows [(id, root_id)]; [union] keeps each once. *)
Definition roots (d : Db) : list (string * string) :=
  (fun r => (run_id r, run_id r)) <$> filter (fun r => is_root r = true) (tenant_rows d).

Definition joined_rows (d : Db) (g : list (string * string)) : list (string * string) :=
  concat ((fun child => (fun p => (run_id child, p.2)) <$> filter (fun p => linked child p = true) g) <$> tenant_rows d).

Definition new_rows_of (d : Db) (g : list (string * string)) : list (string * string) :=
  remove_dups (filter (fun p => p ∉ g) (joined_rows d g)).

(** The recursive term, until it yields no new row. *)
Fixpoint close (fuel : nat) (d : Db) (g : list (string * string)) : list (string * string) :=
  match fuel with
  | O => g
  | S fuel => match new_rows_of d g with [] => g | l => close fuel d (g ++ l) end
  end.

(** The fuel is the number of rows there can be, and one. *)
Definition graph (d : Db) : list (string * string) :=
  close (S (length (tenant_rows d) * length (tenant_rows d))) d (remove_dups (roots d)).

(** [join workflow_runs] on tenant and id. *)
Definition row_of (d : Db) (id : string) : option run_row := db_runs d !! (nm_tenantId s, id).
Definition graph_runs (d : Db) : list (run_row * string) :=
  omap (fun p => (fun r => (r, p.2)) <$> row_of d p.1) (graph d).

Definition eligible (r : run_row) : bool :=
  negb (String.eqb (run_retentionClass r) (nm_class s)) && negb (is_persistent r).

(** ** Preview and mismatches *)

(** The three counts of a preview. *)
Record preview_count := PreviewCount { pv_matchedRoots : Z; pv_eligibleRuns : Z; pv_excludedPersistentRuns : Z }.

Definition preview_counts (d : Db) : preview_count :=
  PreviewCount (Z.of_nat (length (roots d)))
    (Z.of_nat (length (filter (fun p => eligible p.1 = true) (graph_runs d))))
    (Z.of_nat (length (filter (fun p => is_persistent p.1 = true) (graph_runs d)))).

(** [WorkflowRunRetentionBackfillGroup], whose tenant is the selector's. *)
Record backfill_group := BackfillGroup {
  gr_rootTrigger : option string;
  gr_runType : option string;
  gr_workflowName : string;
  gr_status : RunStatus.t;
  gr_retentionClass : string;
  gr_runs : Z
}.

(** [status::text] *)
Definition status_text (x : RunStatus.t) : string :=
  match x with
  | RunStatus.pending => "pending"
  | RunStatus.running => "running"
  | RunStatus.completed => "completed"
  | RunStatus.failed => "failed"
  | RunStatus.cancelled => "cancelled"
  end.

Definition group_key : Type := option string * option string * string * RunStatus.t * string.

(** The columns grouped by, of a row whose root is joined. *)
Definition group_key_of (d : Db) (p : run_row * string) : option group_key :=
  root ← row_of d p.2;
  Some (run_attributes root !! "$eve.trigger", run_attributes p.1 !! "$eve.type", run_workflowName p.1, run_status p.1,
        run_retentionClass p.1).

(** Ascending, with nulls last. *)
Definition nullable_order (a b : option string) : comparison :=
  match a, b with
  | Some a, Some b => String.compare a b
  | Some _, None => Lt
  | None, Some _ => Gt
  | None, None => Eq
  end.

Definition group_order (a b : group_key) : comparison :=
  let '(t, y, n, x, c) := a in
  let '(t', y', n', x', c') := b in
  lex (nullable_order t t') (lex (nullable_order y y') (lex (String.compare n n')
  (lex (String.compare (status_text x) (status_text x')) (String.compare c c')))).

Definition group_of (keys : list group_key) (k : group_key) : backfill_group :=
  let '(t, y, n, x, c) := k in BackfillGroup t y n x c (Z.of_nat (length (filter (fun k' => k' = k) keys))).

Definition preview_groups (d : Db) : list backfill_group :=
  let keys := omap (group_key_of d) (graph_runs d) in group_of keys <$> sort_with group_order (remove_dups keys).

(** [WorkflowRunRetentionMismatch]; [mm_root] is the kind ["root-class"]. *)
Record mismatch := Mismatch { mm_root : bool; mm_run : run_row; mm_rootRun : run_row }.

Definition mismatch_of_row (d : Db) (p : run_row * string) : option mismatch :=
  root ← row_of d p.2;
  let isRoot := String.eqb (run_id p.1) p.2 in
  if negb (is_persistent p.1) &&
     (isRoot && negb (String.eqb (run_retentionClass p.1) (nm_class s)) ||
      negb isRoot && negb (String.eqb (run_retentionClass p.1) (run_retentionClass root)))
  then Some (Mismatch isRoot p.1 root) else None.

Definition mismatch_order (a b : mismatch) : comparison :=
  let kind x := if mm_root x then 0 else 1 in
  lex (Z.compare (kind a) (kind b))
  (lex (String.compare (run_id (mm_rootRun a)) (run_id (mm_rootRun b))) (String.compare (run_id (mm_run a)) (run_id (mm_run b)))).

Definition mismatches (limit : nat) (d : Db) : list mismatch * bool :=
  let rows := take (limit + 1) (sort_with mismatch_order (omap (mismatch_of_row d) (graph_runs d))) in
  (take limit rows, (limit <? length rows)%nat).

(** ** One batch *)

Definition backfill_order (a b : run_row * string) : comparison :=
  let kind x := if run_active x then 0 else 1 in
  lex (Z.compare (kind a.1) (kind b.1))
  (lex (Z.compare (run_createdAt a.1) (run_createdAt b.1)) (String.compare (run_id a.1) (run_id b.1))).

(** [skip locked]: the runs locked elsewhere are passed over. *)
Definition backfill_victims (locked : list string) (batchSize : nat) (d : Db) : list string :=
  (fun p => run_id p.1) <$> take batchSize (sort_with backfill_order
    (filter (fun p => eligible p.1 && negb (bool_decide (run_id p.1 ∈ locked)) = true) (graph_runs d))).

(** The update; the trigger sets the deadlines. Gives the number of runs updated. *)
Definition backfill_update (locked : list string) (batchSize : nat) : STMT nat := fun d =>
  let victims := backfill_victims locked batchSize d in
  let hit r := String.eqb (run_tenant r) (nm_tenantId s) && bool_decide (run_id r ∈ victims) in
  Ok (length (filter (fun r => hit r = true) ((map_to_list (db_runs d)).*2)),
      set_runs d ((fun r => if hit r then set_run_retention_deadlines (set_retention_class (nm_class s) r) else r) <$> db_runs d)).

Definition countRemaining (d : Db) : nat := length (filter (fun p => eligible p.1 = true) (graph_runs d)).

(** [WorkflowRunRetentionBackfillResult] *)
Record backfill_result := BackfillResult { bf_updatedRuns : Z; bf_remainingRuns : Z; bf_hitBatchLimit : bool }.

Definition backfill_tx (locked : list string) (batchSize : nat) : P backfill_result := transaction (
  let! updated := sql (backfill_update locked batchSize) in
  let! remainingRuns := select countRemaining in
  Ret (BackfillResult (Z.of_nat updated) (Z.of_nat remainingRuns) (0 <? remainingRuns)%nat)).
End Graph.

Definition backfillWorkflowRunRetentionClass (selector : backfill_selector) (batchSize : js_number) (locked : list string) :
    P backfill_result :=
  let! s := lift_result (normalizeSelector selector) in
  let! batchSize := lift_result (assertPositive batchSize) in
  backfill_tx s locked batchSize.

(** The two queries run side by side, each over what it finds: here the counts first. *)
Definition previewWorkflowRunRetentionBackfill (selector : backfill_selector) : P (preview_count * list backfill_group) :=
  let! s := lift_result (normalizeSelector selector) in
  let! counts := select (preview_counts s) in
  let! groups := select (preview_groups s) in
  Ret (counts, groups).

Definition inspectWorkflowRunRetentionMismatches (selector : backfill_selector) (limit : js_number) : P (list mismatch * bool) :=
  let! s := lift_result (normalizeSelector selector) in
  let! limit := lift_result (assertPositive limit) in
  select (mismatches s limit).
