(* ===== verification/Transport.v ===== *)
(** How a delivery reaches its executor: the activation of a deployment
    (src/dispatcher/activation-client.ts, src/dispatcher/static-activation.ts),
    the lease held meanwhile (src/dispatcher/lease.ts), and the POST of the
    message (src/dispatcher/vqs-client.ts). *)
From S2P Require Import Prelude Model Bytes Slots Sdk Tenant JsText HttpHeaders Contract Timers Queue Schema Dispatcher.
Local Open Scope Z_scope.

(** ** Addresses *)

(** What [new URL] gives, as far as it is read. *)
Record url := Url {
  url_protocol : string;
  url_username : string;
  url_password : string;
  url_pathname : string;
  url_search : string;
  url_hash : string;
  url_origin : string
}.

(** Why a text names no executor. *)
Inductive endpoint_error := NotAUrl | NotHttp | HasCredentials | NotAnOrigin | NoEndpoint.

Definition WORKFLOW_ROUTE_BASE : string := "/.well-known/workflow/v1".

(** The text of a number, as [String(port)] gives it. *)
Definition port_text (port : Z) : string := dec_text (Z.to_N port).

Section Addresses.
Context (URL_parse : string -> option url).

Definition parseEndpointUrl (value : string) : result endpoint_error string :=
  match URL_parse value with
  | None => Err NotAUrl
  | Some u =>
      if negb (String.eqb (url_protocol u) "http:") && negb (String.eqb (url_protocol u) "https:") then Err NotHttp
      else if negb (String.eqb (url_username u) "") || negb (String.eqb (url_password u) "") then Err HasCredentials
      else if (negb (String.eqb (url_pathname u) "/") && negb (String.eqb (url_pathname u) "")) ||
              negb (String.eqb (url_search u) "") || negb (String.eqb (url_hash u) "") then Err NotAnOrigin
      else Ok (url_origin u)
  end.

Definition flowUrl (endpointPort : option Z) (endpointUrl : option string) : result endpoint_error string :=
  match endpointUrl with
  | Some value => result_bind (parseEndpointUrl value) (fun origin => Ok (origin +:+ WORKFLOW_ROUTE_BASE +:+ "/flow"))
  | None =>
      match endpointPort with
      | None => Err NoEndpoint
      | Some port => Ok ("http://127.0.0.1:" +:+ port_text port +:+ WORKFLOW_ROUTE_BASE +:+ "/flow")
      end
  end.

(** ** The table of [createStaticActivationClient] *)

Fixpoint static_endpoints (entries : list (string * string)) (table : gmap string string) :
    result endpoint_error (gmap string string) :=
  match entries with
  | [] => Ok table
  | (deploymentId, value) :: entries =>
      result_bind (parseEndpointUrl value) (fun origin => static_endpoints entries (<[deploymentId := origin]> table))
  end.
End Addresses.

(** Activation by the table, with the number of leases given out so far. *)
Definition static_activate (table : gmap string string) (deploymentId : string) (leases : N) : activation_outcome * N :=
  match table !! deploymentId with
  | None => (NotActivatable 409 ("Deployment " +:+ deploymentId +:+ " has no static endpoint configured."), leases)
  | Some endpointUrl =>
      (Activated (Activation ("static:" +:+ deploymentId +:+ ":" +:+ dec_text (leases + 1)) None (Some endpointUrl)),
       (leases + 1)%N)
  end.

(** ** The control plane's activation *)

(** A response: its status and its body, parsed. *)
Record response := Response { re_status : Z; re_json : option json }.
Definition response_ok (r : response) : bool := (200 <=? re_status r) && (re_status r <=? 299).

(** [readError]; [None] for the text naming the status. *)
Definition readError (r : response) : option string := match re_json r with Some j => string_field "error" j | None => None end.
Definition error_text (status_text : Z -> string) (r : response) : string :=
  default (status_text (re_status r)) (readError r).

Definition number_field (key : string) (j : json) : option js_number :=
  match field key j with Some (JNum x) => Some x | _ => None end.

Definition js_gt (x : js_number) (n : Z) : bool :=
  match x with JsFinite a d => n * Zpos d <? a | JsInfinite negative => negb negative | JsNaN => false end.

(** A response to an activation that ended the drain retries: the outcome, and
    the lease given back at once if the selected protocol is not spoken. The
    port is read as far as it is an integer. A [workflow] that is [null] throws. *)
Definition activation_of (status_text : Z -> string) (r : response) : result unit (activation_outcome * option string) :=
  if re_status r =? 409 then Ok (NotActivatable 409 (error_text status_text r), None) else
  if negb (response_ok r) then Ok (Unavailable (re_status r) (error_text status_text r), None) else
  let invalid := Ok (Unavailable (re_status r) "Control API returned an invalid activation result.", None) in
  match re_json r with
  | None => invalid
  | Some value =>
      let sub key := match field key value with Some v => v | None => JNull end in
      let endpointPort := number_field "endpointPort" (sub "runtimeInstance") in
      let endpointUrl := string_field "endpointUrl" (sub "runtimeInstance") in
      match string_field "id" (sub "lease") with
      | None => invalid
      | Some leaseId =>
          if bool_decide (endpointPort = None) && bool_decide (endpointUrl = None) then invalid else
          let accepted := Ok (Activated (Activation leaseId (match endpointPort with Some x => js_integer x | None => None end)
                            endpointUrl), None) in
          let refused := Ok (NotActivatable 409 "Control API selected a dispatch protocol outside this dispatcher's window.",
                           Some leaseId) in
          match field "workflow" value with
          | None => accepted
          | Some JNull => Err tt
          | Some w => match number_field "selectedProtocol" w with
                      | Some p => if js_gt p DISPATCH_VERSION then refused else accepted
                      | None => refused
                      end
          end
      end
  end.

(** The loop of [activate] over the responses to come: [None] when they run out
    first, and otherwise the outcome and how many requests were made. *)
Fixpoint activate (status_text : Z -> string) (maxDrainRetries drainAttempts : nat) (responses : list response) :
    option (result unit (activation_outcome * option string) * nat) :=
  match responses with
  | [] => None
  | r :: responses =>
      if negb (re_status r =? 425) then Some (activation_of status_text r, 1%nat) else
      if (maxDrainRetries <? S drainAttempts)%nat
      then Some (Ok (Unavailable 425 "Deployment is still draining after the activation retry budget.", None), 1%nat)
      else match activate status_text maxDrainRetries (S drainAttempts) responses with
           | Some (o, n) => Some (o, S n)
           | None => None
           end
  end.

(** ** The lease *)

(** [allowedFailures]: [None] for no TTL. Both are positive integers of milliseconds. *)
Definition allowedFailures (leaseTtlMs : option Z) (renewIntervalMs : Z) : Z :=
  match leaseTtlMs with
  | Some ttl => if 0 <? renewIntervalMs then Z.max 0 (ttl / renewIntervalMs - 2) else 0
  | None => 0
  end.

Record lease_state := LeaseState { ls_failures : Z; ls_aborted : bool }.

(** The answer of a renewal: [true] when it renewed. *)
Definition lease_answer (allowed : Z) (renewed : bool) (s : lease_state) : lease_state :=
  if renewed then LeaseState 0 (ls_aborted s)
  else LeaseState (ls_failures s + 1) (ls_aborted s || (allowed <? ls_failures s + 1)).

Definition lease_run (allowed : Z) (answers : list bool) : lease_state :=
  fold_left (fun s a => lease_answer allowed a s) answers (LeaseState 0 false).

(** A dispatch that holds its lease: the time since the lease was given, the next
    tick of the interval timer, when the renewals were sent that are not answered
    yet, the counts, and when the lease runs out at the earliest: a time to live
    after it was given, or after the last renewal that went well was sent. *)
Record lease_hold := LeaseHold {
  lh_now : Z;
  lh_due : Z;
  lh_pending : list Z;
  lh_state : lease_state;
  lh_expires : Z
}.

Definition lease_begun (ttl interval : Z) : lease_hold := LeaseHold 0 interval [] (LeaseState 0 false) ttl.

(** Time passes; the timer ticks and a renewal is sent, whatever became of those
    before; the answer of one of them arrives, in whatever order. *)
Inductive lease_event := TimePasses (ms : Z) | RenewalSent | RenewalAnswered (i : nat) (renewed : bool).

(** [within] is a bound on how long a renewal stays unanswered: the code has none. *)
Definition in_time (within : option Z) (now sent : Z) : bool :=
  match within with Some bound => now <=? sent + bound | None => true end.

Definition lease_step (ttl interval allowed : Z) (within : option Z) (e : lease_event) (s : lease_hold) : option lease_hold :=
  match e with
  | TimePasses ms =>
      let now := lh_now s + ms in
      if (0 <=? ms) && (now <=? lh_due s) && forallb (in_time within now) (lh_pending s)
      then Some (LeaseHold now (lh_due s) (lh_pending s) (lh_state s) (lh_expires s)) else None
  | RenewalSent =>
      if lh_now s =? lh_due s
      then Some (LeaseHold (lh_now s) (lh_due s + interval) (lh_pending s ++ [lh_now s]) (lh_state s) (lh_expires s)) else None
  | RenewalAnswered i renewed =>
      match lh_pending s !! i with
      | None => None
      | Some sent =>
          Some (LeaseHold (lh_now s) (lh_due s) (delete i (lh_pending s)) (lease_answer allowed renewed (lh_state s))
            (if renewed then Z.max (lh_expires s) (sent + ttl) else lh_expires s))
      end
  end.

Fixpoint lease_trace (ttl interval allowed : Z) (within : option Z) (l : list lease_event) (s : lease_hold) : option lease_hold :=
  match l with
  | [] => Some s
  | e :: l => s' ← lease_step ttl interval allowed within e s; lease_trace ttl interval allowed within l s'
  end.

(** ** A failure of the transport, as it is told *)

(** What is thrown, or the cause of an error: nothing, the error at an address,
    or a value that is none, by its text. *)
Inductive thrown := NoValue | AnError (ref : nat) | OtherValue (text : string).

(** An error: its name, its code, its text, and its cause, which may lead back to it. *)
Record error_object := ErrorObject {
  eo_name : string;
  eo_code : option string;
  eo_text : string;
  eo_cause : thrown
}.

(** The errors there are, by their addresses. *)
Notation error_store := (list error_object).

Definition error_part (e : error_object) : string :=
  match eo_code e with
  | Some code => if includes code (eo_text e) then eo_text e else eo_text e +:+ " [" +:+ code +:+ "]"
  | None => eo_text e
  end.

(** The loop over the causes; [seen] is what it has been at. *)
Fixpoint error_parts (fuel : nat) (store : error_store) (seen : list nat) (current : thrown) : option (list string) :=
  match fuel with
  | O => None
  | S fuel =>
      match current with
      | NoValue => Some []
      | OtherValue text => Some [text]
      | AnError ref =>
          if bool_decide (ref ∈ seen) then Some [] else
          match store !! ref with
          | None => Some []
          | Some e => cons (error_part e) <$> error_parts fuel store (ref :: seen) (eo_cause e)
          end
      end
  end.

(** The fuel is one more than the errors there are. *)
Definition describeTransportError (store : error_store) (error : thrown) : string :=
  join_with " <- " (default [] (error_parts (S (length store)) store [] error)).

(** The text of the [catch]. *)
Definition failure_text (timeoutMs : Z) (store : error_store) (error : thrown) : string :=
  let name := match error with AnError ref => match store !! ref with Some e => eo_name e | None => "" end | _ => "" end in
  if String.eqb name "TimeoutError" || String.eqb name "AbortError"
  then "Dispatch timed out after " +:+ port_text timeoutMs +:+ "ms."
  else describeTransportError store error.

(** The causes come to an end, round a cycle too: each error is told once. *)
Lemma error_parts_end store : forall fuel seen current, NoDup seen -> (forall ref, ref ∈ seen -> (ref < length store)%nat) ->
  (length store < fuel + length seen)%nat ->
  exists parts, error_parts fuel store seen current = Some parts /\ (length parts + length seen <= S (length store))%nat.
Proof.
  induction fuel as [|fuel IH]; intros seen current Hn Hs Hl;
    (assert (Hle : (length seen <= length store)%nat);
     [rewrite <- (length_seq (length store) 0); apply submseteq_length, NoDup_submseteq; [done|];
      intros ref Hr; apply elem_of_seq; specialize (Hs _ Hr); lia|]); simpl in Hl; [lia|].
  destruct current as [|ref|text]; simpl; [by exists []; split; [|simpl; lia]| |by exists [text]; split; [|simpl; lia]].
  case_bool_decide as Hin; [by exists []; split; [|simpl; lia]|]. destruct (store !! ref) as [e|] eqn:E; [|by exists []; split; [|simpl; lia]].
  destruct (IH (ref :: seen) (eo_cause e)) as (parts & -> & Hp); simpl in *.
  - by apply NoDup_cons.
  - intros r [->|Hr]%elem_of_cons; [by eapply lookup_lt_Some|by apply Hs].
  - lia.
  - exists (error_part e :: parts). simpl. split; [done|lia].
Qed.

(** Two errors each of which is the other's cause. *)
Lemma causes_in_a_cycle :
  describeTransportError
    [ErrorObject "TypeError" None "TypeError: fetch failed" (AnError 1);
     ErrorObject "Error" (Some "ECONNRESET") "Error: read" (AnError 0)] (AnError 0) =
  "TypeError: fetch failed <- Error: read [ECONNRESET]".
Proof. reflexivity. Qed.

(** ** The request *)

Section Request.
Context `{WorldSdk} `{QueueSdk} (URL_parse : string -> option url).

(** [VqsRequest] *)
Record vqs_request := VqsRequest {
  vq_endpointPort : option Z;
  vq_endpointUrl : option string;
  vq_queueName : string;
  vq_messageId : string;
  vq_attempt : Z;
  vq_deliveryCount : option Z;
  vq_body : bytes;
  vq_headers : list (string * string);
  vq_tenantId : string;
  vq_deploymentId : string;
  vq_runId : option string;
  vq_runtimeSecret : string;
  vq_timeoutMs : Z
}.

(** The properties the contract writes over the message's own. *)
Definition contract_headers (r : vqs_request) : entries :=
  [("content-type", "application/json");
   (VQS_QUEUE_NAME_HEADER, vq_queueName r);
   (VQS_MESSAGE_ID_HEADER, vq_messageId r);
   (VQS_MESSAGE_ATTEMPT_HEADER, port_text (vq_attempt r));
   (VQS_MESSAGE_DELIVERY_COUNT_HEADER, port_text (default (vq_attempt r) (vq_deliveryCount r)));
   (RUNTIME_SECRET_HEADER, vq_runtimeSecret r);
   (DISPATCH_VERSION_HEADER, port_text DISPATCH_VERSION);
   (TENANT_HEADER, vq_tenantId r);
   (DEPLOYMENT_HEADER, vq_deploymentId r)] ++
  match given (vq_runId r) with Some run => [(RUN_HEADER, run)] | None => [] end.

Definition vqs_headers (r : vqs_request) : entries := spread (spread [] (vq_headers r)) (contract_headers r).

(** What the transport gives for a request: it throws, or an answer. *)
Inductive transported := TransportThrew (store : error_store) (error : thrown) | TransportAnswered (status : Z) (text : bytes).

(** The error texts of an address that cannot be used, and of the [TypeError] of
    headers that [new Headers] refuses. *)
Context (address_text : endpoint_error -> bytes) (headers_text : string) (text_of : json -> string).

Definition postVqsMessage (r : vqs_request) (fetch : string -> gmap string string -> transported) : vqs_result :=
  match flowUrl URL_parse (vq_endpointPort r) (vq_endpointUrl r) with
  | Err e => VqsError 0 (address_text e) false
  | Ok url =>
      match (match new_headers (vqs_headers r) with
             | Some h => fetch url h
             | None => TransportThrew [ErrorObject "TypeError" None headers_text NoValue] (AnError 0)
             end) with
      | TransportThrew store error => VqsError 0 (text_bytes (failure_text (vq_timeoutMs r) store error)) true
      | TransportAnswered status text =>
          if negb ((200 <=? status) && (status <=? 299)) then VqsError status text (500 <=? status) else
          match executor_answer text_of text with
          | HttpReschedule timeoutSeconds => VqsReschedule timeoutSeconds
          | _ => VqsCompleted
          end
      end
  end.

(** The request [dispatchMessage] makes of a message. *)
Definition request_of (runtimeSecret queueName : string) (dispatchTimeoutMs : Z) (i : dispatch_input) (a : activation) (deploymentId : string)
    (runId : option string) : vqs_request :=
  let m := di_message i in
  VqsRequest (ac_endpointPort a) (ac_endpointUrl a) queueName (md_messageId m) (di_attempt i) (Some (di_deliveryCount i))
    (md_data m) (default [] (md_headers m)) (md_tenantId m) deploymentId runId runtimeSecret
    dispatchTimeoutMs.

Definition full_queue_name (m : message) : string := getQueueTopicPrefix (md_queueNamespace m) +:+ md_id m.
End Request.
