(* ===== verification/Ownership.v ===== *)
(** Ownership of the database by one dispatcher (src/dispatcher/ownership.ts): a
    session-level advisory lock, acquired with retries, on a session that has to
    prove it is alive. *)
From S2P Require Import Prelude Model Slots Tenant JsText Paging.
From stdpp Require Import sorting.
Local Open Scope Z_scope.

Definition DISPATCHER_OWNERSHIP_LOCK_KEY : Z := 0x65766470.
Definition MIN_OWNERSHIP_LIVENESS_MS : Z := 3000.

(** [OwnershipLivenessSettings] *)
Record liveness := Liveness {
  lv_keepalivesIdleSeconds : Z;
  lv_keepalivesIntervalSeconds : Z;
  lv_keepalivesCount : Z;
  lv_idleSessionTimeoutMs : Z;
  lv_heartbeatIntervalMs : Z
}.

(** Of a whole number of milliseconds. *)
Definition deriveOwnershipLiveness (livenessMs : Z) : liveness :=
  let budget := Z.max MIN_OWNERSHIP_LIVENESS_MS livenessMs in
  let third := budget / 3 in
  Liveness (Z.max 1 (third / 1000)) (Z.max 1 (third / 3000)) 3 budget third.

(** ** Who holds the lock *)

(** A row of [pg_locks], with what [pg_stat_activity] has of its session. *)
Record pg_lock := PgLock {
  pl_advisory : bool;
  pl_thisDatabase : bool;
  pl_classid : Z;
  pl_objid : Z;
  pl_objsubid : Z;
  pl_granted : bool;
  pl_pid : Z;
  pl_application : option string;
  pl_clientAddr : option string;
  pl_backendStart : option string;
  pl_state : option string;
  pl_stateChange : option string
}.

(** [OwnershipHolder] *)
Record holder := Holder {
  oh_pid : Z;
  oh_application : option string;
  oh_clientAddr : option string;
  oh_backendStart : option string;
  oh_state : option string;
  oh_stateChange : option string
}.

Definition readDispatcherOwnershipHolder (locks : list pg_lock) (lockKey : Z) : option holder :=
  let classid := Z.shiftr lockKey 32 in
  let objid := Z.land lockKey 0xffffffff in
  (fun l => Holder (pl_pid l) (pl_application l) (pl_clientAddr l) (pl_backendStart l) (pl_state l) (pl_stateChange l)) <$>
  head (sort_with (fun a b => Z.compare (pl_pid a) (pl_pid b)) (filter (fun l =>
    pl_advisory l && pl_thisDatabase l && (pl_classid l =? classid) && (pl_objid l =? objid) &&
    (pl_objsubid l =? 1) && pl_granted l = true) locks)).

(** A text that counts as given. *)
Definition shown (label : string) (o : option string) : list string :=
  match o with Some s => if String.eqb s "" then [] else [label +:+ s] | None => [] end.

Definition describeOwnershipHolder (h : option holder) : string :=
  match h with
  | None => "holder not visible"
  | Some h =>
      join_with ", " (["pid " +:+ dec_text (Z.to_N (oh_pid h))] ++ shown "" (oh_application h) ++
        shown "from " (oh_clientAddr h) ++ shown "connected " (oh_backendStart h) ++
        match shown "" (oh_state h) with
        | s :: _ => [match shown "" (oh_stateChange h) with t :: _ => s +:+ " since " +:+ t | [] => s end]
        | [] => []
        end)
  end.

(** What [holderAttributes] says of a holder, each text where it is given. *)
Definition holderAttributes (h : holder) : list (string * (string + Z)) :=
  let attribute name o := match shown "" o with s :: _ => [(name, inl s)] | [] => [] end in
  [("ownership.holder.pid", inr (oh_pid h))] ++
  attribute "ownership.holder.application_name" (oh_application h) ++
  attribute "ownership.holder.client_addr" (oh_clientAddr h) ++
  attribute "ownership.holder.backend_start" (oh_backendStart h) ++
  attribute "ownership.holder.state" (oh_state h).

(** The operator's way out, over the row of [pg_terminate_backend]. *)
Definition terminateDispatcherOwnershipHolder (rows : list (option bool)) : bool :=
  match rows with Some true :: _ => true | _ => false end.

(** ** Acquiring it *)

(** What [pg_try_advisory_lock] answers, if it does not throw. *)
Inductive lock_answer := LockGiven | LockHeld | LockQueryFailed.

(** What one attempt meets: the answer; the holder seen otherwise ([None] where
    reading it fails); the time waited by then; and whether the session ends
    during the delay that follows. *)
Record attempt := Attempt {
  at_answer : lock_answer;
  at_holder : option holder;
  at_waitedMs : Z;
  at_sessionEnds : bool
}.

(** How it ends. No listener is on the client yet while it waits, so a session
    that ends then is an error event nobody handles, and the process dies of it. *)
Inductive acquisition :=
| Acquired (attempts : nat)
| OwnershipHeldElsewhere (h : option holder) (attempts : nat)
| AttemptFailed (attempts : nat)
| UnhandledError (attempts : nat)
| StillWaiting (attempts : nat).

(** What it does on the way: the wait it reports, the client given back, a
    setting the session takes, and the report of those it refused. *)
Inductive acquire_effect :=
| WaitReported (body : string) (attempt : nat) (waitedMs : Z) (holder_attributes : list (string * (string + Z)))
| ClientGivenBack
| SettingTaken (name : string) (value : Z)
| LivenessUnavailable (unavailable : list string).

Definition wait_body (retryIntervalMs : Z) (h : option holder) : string :=
  "another workflow dispatcher owns this database (" +:+ describeOwnershipHolder h +:+ "); retrying in " +:+
  dec_text (Z.to_N retryIntervalMs) +:+ "ms".

Definition report_wait (retryIntervalMs : Z) (n : nat) (a : attempt) : acquire_effect :=
  WaitReported (wait_body retryIntervalMs (at_holder a)) n (at_waitedMs a)
    (match at_holder a with Some h => holderAttributes h | None => [] end).

(** The bound on the wait is spent. *)
Definition wait_spent (waitMs : option Z) (a : attempt) : bool :=
  match waitMs with Some w => w <=? at_waitedMs a | None => false end.

(** [for (attempt = 1; ; ...)] over the attempts there are, [n] of them made. *)
Fixpoint acquire_attempts (waitMs : option Z) (retryIntervalMs : Z) (n : nat) (l : list attempt) :
    acquisition * list acquire_effect :=
  match l with
  | [] => (StillWaiting n, [])
  | a :: l =>
      match at_answer a with
      | LockGiven => (Acquired (S n), [])
      | LockQueryFailed => (AttemptFailed (S n), [])
      | LockHeld =>
          if wait_spent waitMs a then (OwnershipHeldElsewhere (at_holder a) (S n), []) else
          let report := report_wait retryIntervalMs (S n) a in
          if at_sessionEnds a then (UnhandledError (S n), [report]) else
          let '(r, reports) := acquire_attempts waitMs retryIntervalMs (S n) l in (r, report :: reports)
      end
  end.

(** The statements of [configureSessionLiveness], in order. *)
Definition liveness_settings (v : liveness) : list (string * Z) :=
  [("tcp_keepalives_idle", lv_keepalivesIdleSeconds v); ("tcp_keepalives_interval", lv_keepalivesIntervalSeconds v);
   ("tcp_keepalives_count", lv_keepalivesCount v); ("idle_session_timeout", lv_idleSessionTimeoutMs v)].

(** [refuses] gives the error a server has for a setting. *)
Definition configureSessionLiveness (refuses : string -> option string) (v : liveness) : list acquire_effect :=
  let taken := omap (fun p => match refuses p.1 with None => Some (SettingTaken p.1 p.2) | Some _ => None end) (liveness_settings v) in
  let unavailable := omap (fun p => (fun e => p.1 +:+ ": " +:+ e) <$> refuses p.1) (liveness_settings v) in
  taken ++ match unavailable with [] => [] | _ => [LivenessUnavailable unavailable] end.

(** [AcquireOwnershipOptions], without its callbacks. *)
Record acquire_options := AcquireOptions { ao_livenessMs : Z; ao_retryIntervalMs : Z; ao_waitMs : option Z }.

(** [acquireDispatcherOwnership] on a client of the pool, up to the session it holds. *)
Definition acquireDispatcherOwnership (o : acquire_options) (refuses : string -> option string) (l : list attempt) :
    acquisition * list acquire_effect :=
  let '(r, reports) := acquire_attempts (ao_waitMs o) (ao_retryIntervalMs o) 0 l in
  match r with
  | Acquired _ => (r, reports ++ configureSessionLiveness refuses (deriveOwnershipLiveness (ao_livenessMs o)))
  | OwnershipHeldElsewhere _ _ | AttemptFailed _ => (r, reports ++ [ClientGivenBack])
  | UnhandledError _ | StillWaiting _ => (r, reports)
  end.

(** ** Holding it *)

(** What happens to the owning session: a heartbeat is answered, or fails or
    does not answer in time; the client reports an error or its end; or the
    owner releases, and the unlock is answered or not. *)
Inductive session_event :=
| HeartbeatAnswered
| HeartbeatFailed
| ClientError
| ClientEnd
| Release (unlockAnswered : bool).

(** What the owner does about it. *)
Inductive session_effect := OnLost | Unlocked | ClientReleased (destroy : bool) | HeartbeatScheduled.

Record session := Session { se_lost : bool; se_released : bool }.

Definition markLost (s : session) : session * list session_effect :=
  if se_lost s || se_released s then (s, []) else (Session true (se_released s), [OnLost]).

Definition session_step (s : session) (e : session_event) : session * list session_effect :=
  match e with
  | HeartbeatAnswered => if se_lost s || se_released s then (s, []) else (s, [HeartbeatScheduled])
  | HeartbeatFailed | ClientError => markLost s
  | ClientEnd => if se_released s then (s, []) else markLost s
  | Release answered =>
      if se_released s then (s, [])
      else (Session (se_lost s) true,
        if se_lost s then [ClientReleased true]
        else (if answered then [Unlocked] else []) ++ [ClientReleased (negb answered)])
  end.

Fixpoint session_run (s : session) (l : list session_event) : session * list session_effect :=
  match l with
  | [] => (s, [])
  | e :: l => let '(s, effects) := session_step s e in let '(s, rest) := session_run s l in (s, effects ++ rest)
  end.

(** ** Heartbeats in time *)

(** One heartbeat, by the delays from its sending to the server's work on it and
    to the answer's arrival; [None] where either never happens. *)
Record beat := Beat { bt_processed : option Z; bt_answered : option Z }.

(** The owner's clock at the last answer, and the server's at the last statement. *)
Record beats := Beats { bs_answered : Z; bs_processed : Z }.

(** The heartbeat is sent an interval after the last answer and given up an
    interval later: [inr] is the time of the loss. *)
Definition beat_step (intervalMs : Z) (s : beats) (b : beat) : beats + (Z * beats) :=
  let sent := bs_answered s + intervalMs in
  let s' := Beats (bs_answered s) (default (bs_processed s) ((fun p => sent + p) <$> bt_processed b)) in
  match bt_answered b with
  | Some a => if a <=? intervalMs then inl (Beats (sent + a) (bs_processed s')) else inr (sent + intervalMs, s')
  | None => inr (sent + intervalMs, s')
  end.

Fixpoint beat_run (intervalMs : Z) (s : beats) (l : list beat) : beats + (Z * beats) :=
  match l with
  | [] => inl s
  | b :: l => match beat_step intervalMs s b with inl s => beat_run intervalMs s l | inr r => inr r end
  end.

(** ** What this shows *)

(** A server that answers does so after it has worked on the statement. *)
Definition causal (b : beat) : Prop :=
  match bt_processed b with Some p => 0 <= p | None => True end /\
  match bt_answered b with
  | Some a => match bt_processed b with Some p => p <= a | None => False end
  | None => True
  end.

Lemma beat_run_bound interval l : 0 < interval -> Forall causal l -> forall s,
  bs_processed s <= bs_answered s <= bs_processed s + interval ->
  match beat_run interval s l with
  | inl s' => bs_processed s' <= bs_answered s' <= bs_processed s' + interval
  | inr (lostAt, s') => lostAt = bs_answered s' + 2 * interval /\ lostAt <= bs_processed s' + 3 * interval
  end.
Proof.
  intros Hi Hl. induction l as [|b l IH]; intros s Hs; [done|]. apply Forall_cons in Hl as [[Hp Ha] Hl].
  cbn [beat_run]. unfold beat_step.
  destruct (bt_answered b) as [a|], (bt_processed b) as [p|]; try done;
    cbn [fmap option_fmap option_map default from_option]; unfold id;
    try (destruct (Z.leb_spec a interval); [apply (IH Hl)|]);
    cbn [bs_answered bs_processed]; lia.
Qed.

Lemma liveness_thirds livenessMs : MIN_OWNERSHIP_LIVENESS_MS <= livenessMs ->
  let v := deriveOwnershipLiveness livenessMs in
  lv_idleSessionTimeoutMs v = livenessMs /\ 0 < lv_heartbeatIntervalMs v /\ 3 * lv_heartbeatIntervalMs v <= livenessMs.
Proof.
  intros Hl v. unfold v, deriveOwnershipLiveness, MIN_OWNERSHIP_LIVENESS_MS in *.
  cbn [lv_heartbeatIntervalMs lv_idleSessionTimeoutMs]. rewrite Z.max_r by done.
  split_and!; [done|apply Z.div_str_pos; lia|apply Z.mul_div_le; lia].
Qed.

(** An owner that has lost its server stops before the server, by the idle
    timeout, gives its lock away: the loss is noticed two heartbeat intervals
    after the last answer, and no later than the idle timeout after the last statement the
    server worked on, however the delays fall. *)
Theorem owner_stops_before_lock_is_freed livenessMs s l lostAt s' :
  let v := deriveOwnershipLiveness livenessMs in
  bs_processed s <= bs_answered s <= bs_processed s + lv_heartbeatIntervalMs v -> Forall causal l ->
  beat_run (lv_heartbeatIntervalMs v) s l = inr (lostAt, s') ->
  lostAt = bs_answered s' + 2 * lv_heartbeatIntervalMs v /\
  lostAt <= bs_processed s' + lv_idleSessionTimeoutMs v.
Proof.
  intros v Hs Hl E. assert (Hv : 3 * lv_heartbeatIntervalMs v <= lv_idleSessionTimeoutMs v /\ 0 < lv_heartbeatIntervalMs v).
  { unfold v, deriveOwnershipLiveness, MIN_OWNERSHIP_LIVENESS_MS. cbn [lv_heartbeatIntervalMs lv_idleSessionTimeoutMs].
    split; [apply Z.mul_div_le; lia | apply Z.div_str_pos; lia]. }
  pose proof (beat_run_bound _ l (proj2 Hv) Hl s Hs) as H. rewrite E in H. lia.
Qed.

Lemma owner_stops_before_lock_is_freed_witness :
  let v := deriveOwnershipLiveness 90000 in
  beat_run (lv_heartbeatIntervalMs v) (Beats 100 40) [Beat (Some 20) (Some 29000); Beat (Some 5) None] =
    inr (119100, Beats 59100 89105 : beats) /\ 119100 <= 89105 + 90000.
Proof.
  intros v. assert (E : beat_run (lv_heartbeatIntervalMs v) (Beats 100 40) [Beat (Some 20) (Some 29000); Beat (Some 5) None] =
    inr (119100, Beats 59100 89105)) by (vm_compute; reflexivity).
  split; [exact E|].
  refine (proj2 (owner_stops_before_lock_is_freed 90000 (Beats 100 40) _ 119100 (Beats 59100 89105) _ _ E)).
  - vm_compute. split; discriminate.
  - repeat constructor; vm_compute; try exact I; discriminate.
Defined.

(** A dead peer is noticed by the keepalives in two thirds of a budget of nine
    seconds or more. *)
Lemma keepalives_in_time livenessMs : 9000 <= livenessMs ->
  let v := deriveOwnershipLiveness livenessMs in
  1000 * (lv_keepalivesIdleSeconds v + lv_keepalivesCount v * lv_keepalivesIntervalSeconds v) <= 2 * (livenessMs / 3).
Proof.
  intros Hl v. unfold v, deriveOwnershipLiveness, MIN_OWNERSHIP_LIVENESS_MS.
  cbn [lv_keepalivesIdleSeconds lv_keepalivesCount lv_keepalivesIntervalSeconds].
  rewrite (Z.max_r 3000) by lia. assert (3000 <= livenessMs / 3) by (apply Z.div_le_lower_bound; lia).
  set (t := livenessMs / 3) in *. assert (1 <= t / 3000) by (apply Z.div_le_lower_bound; lia).
  assert (1 <= t / 1000) by (apply Z.div_le_lower_bound; lia). rewrite !Z.max_r by lia.
  pose proof (Z.mul_div_le t 1000 ltac:(lia)). pose proof (Z.mul_div_le t 3000 ltac:(lia)). lia.
Qed.

(** Below that the whole seconds of the settings take longer than the budget. *)
Lemma keepalives_late : let v := deriveOwnershipLiveness 3000 in
  1000 * (lv_keepalivesIdleSeconds v + lv_keepalivesCount v * lv_keepalivesIntervalSeconds v) = 4000.
Proof. reflexivity. Qed.

(** An attempt after which the acquisition goes on. *)
Definition waits (waitMs : option Z) (a : attempt) : Prop :=
  at_answer a = LockHeld /\ wait_spent waitMs a = false /\ at_sessionEnds a = false.

(** The attempts before the one that decides all found the lock held within the
    bound, and each of them was reported, with its number. *)
Lemma acquire_attempts_split w i l : forall n r reports, acquire_attempts w i n l = (r, reports) ->
  exists before after, l = before ++ after /\ Forall (waits w) before /\
    match r with
    | StillWaiting k => after = [] /\ k = (n + length before)%nat
    | Acquired k => exists a t, after = a :: t /\ at_answer a = LockGiven /\ k = (n + S (length before))%nat
    | AttemptFailed k => exists a t, after = a :: t /\ at_answer a = LockQueryFailed /\ k = (n + S (length before))%nat
    | OwnershipHeldElsewhere h k => exists a t, after = a :: t /\ at_answer a = LockHeld /\ wait_spent w a = true /\
        h = at_holder a /\ k = (n + S (length before))%nat
    | UnhandledError k => exists a t, after = a :: t /\ at_answer a = LockHeld /\ wait_spent w a = false /\
        at_sessionEnds a = true /\ k = (n + S (length before))%nat
    end /\
    reports = imap (fun j => report_wait i (n + S j)%nat) (before ++ match r with UnhandledError _ => take 1 after | _ => [] end).
Proof.
  induction l as [|a l IH]; intros n r reports E; cbn [acquire_attempts] in E.
  { injection E as <- <-. exists [], []. rewrite Nat.add_0_r. done. }
  destruct (at_answer a) eqn:Ea.
  1,3: injection E as <- <-; exists [], (a :: l); rewrite Nat.add_1_r; by eauto 10.
  destruct (wait_spent w a) eqn:Es.
  { injection E as <- <-. exists [], (a :: l). rewrite Nat.add_1_r. by eauto 10. }
  destruct (at_sessionEnds a) eqn:Ed.
  { injection E as <- <-. exists [], (a :: l). cbn. rewrite Nat.add_1_r. by eauto 10. }
  destruct (acquire_attempts w i (S n) l) as [r' reports'] eqn:E'. injection E as <- <-.
  apply IH in E' as (before & after & -> & Hb & Hr & ->). exists (a :: before), after.
  split; [done|]. split; [by constructor|]. split.
  - by destruct r'; cbn; rewrite ?Nat.add_succ_r in *.
  - simpl. rewrite Nat.add_1_r. f_equal. apply imap_ext. intros j x _. simpl. by rewrite (Nat.add_succ_r n (S j)).
Qed.

Definition is_given_back (e : acquire_effect) : bool := match e with ClientGivenBack => true | _ => false end.
Definition gives_back (r : acquisition) : nat :=
  match r with OwnershipHeldElsewhere _ _ | AttemptFailed _ => 1 | _ => 0 end.

Lemma reports_give_nothing_back w i l : forall n,
  List.filter is_given_back (acquire_attempts w i n l).2 = [].
Proof.
  induction l as [|a l IH]; intros n; [done|]. cbn [acquire_attempts].
  destruct (at_answer a), (wait_spent w a), (at_sessionEnds a); try done.
  specialize (IH (S n)). by destruct (acquire_attempts w i (S n) l).
Qed.

Lemma configuring_gives_nothing_back refuses v : List.filter is_given_back (configureSessionLiveness refuses v) = [].
Proof. unfold configureSessionLiveness. cbn. by repeat (destruct (refuses _); cbn). Qed.

(** A client is given back exactly where the acquisition throws: once, last. *)
Lemma acquisition_gives_back o refuses l :
  let '(r, effects) := acquireDispatcherOwnership o refuses l in
  length (List.filter is_given_back effects) = gives_back r.
Proof.
  unfold acquireDispatcherOwnership. pose proof (reports_give_nothing_back (ao_waitMs o) (ao_retryIntervalMs o) l 0) as H.
  destruct (acquire_attempts (ao_waitMs o) (ao_retryIntervalMs o) 0 l) as [r reports]. cbn [snd] in H.
  destruct r; rewrite ?List.filter_app, H, ?configuring_gives_nothing_back; done.
Qed.

(** Every setting of the session is tried, whatever became of those before it:
    it is taken, or the report says why it was not. *)
Lemma liveness_settings_tried refuses v name x : (name, x) ∈ liveness_settings v ->
  match refuses name with
  | None => SettingTaken name x ∈ configureSessionLiveness refuses v
  | Some e => exists unavailable, LivenessUnavailable unavailable ∈ configureSessionLiveness refuses v /\
      name +:+ ": " +:+ e ∈ unavailable
  end.
Proof.
  intros Hin. unfold configureSessionLiveness. destruct (refuses name) as [e|] eqn:E.
  - set (unavailable := omap (fun p => (fun e => p.1 +:+ ": " +:+ e) <$> refuses p.1) (liveness_settings v)).
    assert (Hu : name +:+ ": " +:+ e ∈ unavailable) by (apply list_elem_of_omap; exists (name, x); cbn; by rewrite E).
    exists unavailable. split; [|done]. apply elem_of_app. right. destruct unavailable; [by apply elem_of_nil in Hu|by left].
  - apply elem_of_app. left. apply list_elem_of_omap. exists (name, x). cbn. by rewrite E.
Qed.

(** With no patience the first attempt decides, and nothing is reported. *)
Lemma no_patience o refuses a l : ao_waitMs o = Some 0 -> at_answer a = LockHeld -> 0 <= at_waitedMs a ->
  acquireDispatcherOwnership o refuses (a :: l) = (OwnershipHeldElsewhere (at_holder a) 1, [ClientGivenBack]).
Proof.
  intros Hw Ha Ht. unfold acquireDispatcherOwnership. cbn [acquire_attempts]. rewrite Ha, Hw. cbn [wait_spent].
  by rewrite (proj2 (Z.leb_le 0 (at_waitedMs a))) by done.
Qed.

(** A dispatcher that waits for a lock held elsewhere does not survive the end
    of its own session, where the owner's listener would have handled it. *)
Lemma waiting_session_is_unguarded o refuses h t :
  let a := Attempt LockHeld h t true in wait_spent (ao_waitMs o) a = false ->
  acquireDispatcherOwnership o refuses [a] = (UnhandledError 1, [report_wait (ao_retryIntervalMs o) 1 a]) /\
  session_step (Session false false) ClientError = (Session true false, [OnLost]).
Proof. intros a Hw. unfold acquireDispatcherOwnership, a in *. cbn [acquire_attempts at_answer]. by rewrite Hw. Qed.

(** Past its loss or its release the session does nothing more than release its
    client once. *)
Definition count_effect (f : session_effect -> bool) (l : list session_effect) : nat := length (List.filter f l).
Definition is_lost_effect (e : session_effect) : bool := match e with OnLost => true | _ => false end.
Definition is_release_effect (e : session_effect) : bool := match e with ClientReleased _ => true | _ => false end.

Lemma session_counts l : forall s,
  let '(s', effects) := session_run s l in
  (count_effect is_lost_effect effects + Nat.b2n (se_lost s) = Nat.b2n (se_lost s'))%nat /\
  (count_effect is_release_effect effects + Nat.b2n (se_released s) = Nat.b2n (se_released s'))%nat.
Proof.
  induction l as [|e l IH]; intros s; [done|]. cbn [session_run].
  destruct (session_step s e) as [s1 e1] eqn:E1. specialize (IH s1).
  destruct (session_run s1 l) as [s2 e2]. destruct IH as [IH1 IH2]. unfold count_effect in *.
  rewrite !List.filter_app, !length_app.
  assert (length (List.filter is_lost_effect e1) + Nat.b2n (se_lost s) = Nat.b2n (se_lost s1) /\
    length (List.filter is_release_effect e1) + Nat.b2n (se_released s) = Nat.b2n (se_released s1))%nat as [H1 H2]; [|lia].
  destruct s as [[] []], e as [| | | |[]]; cbn in E1; by simplify_eq.
Qed.

(** [onLost] is called once at most, and the client goes back to the pool once at
    most, whatever happens to the session and in whatever order. *)
Lemma session_once l : let effects := (session_run (Session false false) l).2 in
  (count_effect is_lost_effect effects <= 1)%nat /\ (count_effect is_release_effect effects <= 1)%nat.
Proof.
  pose proof (session_counts l (Session false false)) as H. destruct (session_run (Session false false) l) as [[x y] e].
  cbn [se_lost se_released snd Nat.b2n] in *. destruct x, y; cbn [Nat.b2n] in H; lia.
Qed.
