(* ===== verification/Handover.v ===== *)
(** Ownership between dispatchers (src/dispatcher/ownership.ts): any number of
    them, the server that holds the one lock, and the clock they share. A
    dispatcher tries for the lock, has its session configured, heartbeats and
    gives up by its own timers; the server ends a session it has not heard of for
    the idle timeout, or for any other reason at any time, and gives the lock to
    whoever asks next. *)
From S2P Require Import Prelude Model Slots Tenant JsText Paging Ownership.
Local Open Scope Z_scope.

(** What a dispatcher is doing about the lock. [Configuring] from the answer the
    server gave it at, while [configureSessionLiveness] runs, its last statement
    worked on at that time; [Owning] with the last answer heard, and the heartbeat
    that is out, if one is: when it was sent, and whether the server worked on it. *)
Inductive claimant :=
| Trying
| Configuring (heardAt : Z)
| Owning (answered : Z) (out : option (Z * bool))
| Gone.

(** The server's side: who holds the lock, and the time of the last statement the
    holder's session sent that the server worked on. *)
Record handover := Handover {
  ho_now : Z;
  ho_lock : option nat;
  ho_heard : Z;
  ho_claimants : list claimant
}.

Inductive handover_event :=
| TimePasses (until : Z)
| TryLock (i : nat)
| SettingHeard (i : nat)
| SettingsAnswered (i : nat)
| HeartbeatSent (i : nat)
| HeartbeatHeard (i : nat)
| HeartbeatHeardBack (i : nat)
| OwnerStops (i : nat)
| OwnerReleases (i : nat)
| UnlockHeard (i : nat)
| ProcessDies (i : nat)
| ProcessStarts (i : nat)
| SessionTimesOut
| SessionEnds.

(** The owner's timers: the next heartbeat, or giving up on the one that is out. *)
Definition deadline (interval : Z) (c : claimant) : option Z :=
  match c with
  | Owning answered None => Some (answered + interval)
  | Owning _ (Some (sent, _)) => Some (sent + interval)
  | _ => None
  end.

Section Steps.
(** The settings a session has, and how long at most it takes from the server's
    work on the last of them to its answer. *)
Context (v : liveness) (configureWithin : option Z).

Definition in_time (until : Z) (c : claimant) : bool :=
  match deadline (lv_heartbeatIntervalMs v) c with Some t => until <=? t | None => true end.

Definition holds (i : nat) (w : handover) : bool := bool_decide (ho_lock w = Some i).

Definition set_claimant (i : nat) (c : claimant) (w : handover) : handover :=
  Handover (ho_now w) (ho_lock w) (ho_heard w) (<[i := c]> (ho_claimants w)).
Definition set_lock (l : option nat) (w : handover) : handover := Handover (ho_now w) l (ho_heard w) (ho_claimants w).
(** The server works on a statement of the holder's session. *)
Definition hear (w : handover) : handover := Handover (ho_now w) (ho_lock w) (ho_now w) (ho_claimants w).

(** [UnlockHeard] is the unlock, or the closed socket of a dispatcher that is gone.
    A heartbeat that is out is given up when its time is over; so is a session
    whose end the client hears of, at any time. [SessionEnds] is the server, an
    operator or the network ending the session that has the lock: a restart, a
    [pg_terminate_backend], the keepalives; its client may not hear of it. *)
Definition handover_step (e : handover_event) (w : handover) : option handover :=
  let interval := lv_heartbeatIntervalMs v in
  match e with
  | TimePasses until =>
      if (ho_now w <=? until) && forallb (in_time until) (ho_claimants w)
      then Some (Handover until (ho_lock w) (ho_heard w) (ho_claimants w)) else None
  | TryLock i =>
      match ho_claimants w !! i, ho_lock w with
      | Some Trying, None => Some (hear (set_lock (Some i) (set_claimant i (Configuring (ho_now w)) w)))
      | _, _ => None
      end
  | SettingHeard i =>
      match ho_claimants w !! i with
      | Some (Configuring _) => if holds i w then Some (hear (set_claimant i (Configuring (ho_now w)) w)) else None
      | _ => None
      end
  | SettingsAnswered i =>
      match ho_claimants w !! i with
      | Some (Configuring heardAt) =>
          if match configureWithin with Some c => ho_now w <=? heardAt + c | None => true end
          then Some (set_claimant i (Owning (ho_now w) None) w) else None
      | _ => None
      end
  | HeartbeatSent i =>
      match ho_claimants w !! i with
      | Some (Owning answered None) =>
          if answered + interval <=? ho_now w then Some (set_claimant i (Owning answered (Some (ho_now w, false))) w) else None
      | _ => None
      end
  | HeartbeatHeard i =>
      match ho_claimants w !! i with
      | Some (Owning answered (Some (sent, false))) =>
          if holds i w then Some (hear (set_claimant i (Owning answered (Some (sent, true))) w)) else None
      | _ => None
      end
  | HeartbeatHeardBack i =>
      match ho_claimants w !! i with
      | Some (Owning _ (Some (sent, true))) => Some (set_claimant i (Owning (ho_now w) None) w)
      | _ => None
      end
  | OwnerStops i | OwnerReleases i =>
      match ho_claimants w !! i with Some (Owning _ _) => Some (set_claimant i Gone w) | _ => None end
  | UnlockHeard i =>
      match ho_claimants w !! i with
      | Some Gone | Some Trying => if holds i w then Some (set_lock None w) else None
      | _ => None
      end
  | ProcessDies i => match ho_claimants w !! i with Some _ => Some (set_claimant i Gone w) | None => None end
  | ProcessStarts i => match ho_claimants w !! i with Some Gone => Some (set_claimant i Trying w) | _ => None end
  | SessionTimesOut =>
      match ho_lock w with
      | Some _ => if ho_heard w + lv_idleSessionTimeoutMs v <? ho_now w then Some (set_lock None w) else None
      | None => None
      end
  | SessionEnds => match ho_lock w with Some _ => Some (set_lock None w) | None => None end
  end.

Fixpoint handover_run (l : list handover_event) (w : handover) : option handover :=
  match l with [] => Some w | e :: l => w' ← handover_step e w; handover_run l w' end.
End Steps.

(** Dispatchers that boot, [n] of them, with the lock free. *)
Definition boots (n : nat) (now : Z) : handover := Handover now None now (replicate n Trying).

Definition owns (i : nat) (w : handover) : Prop := exists answered out, ho_claimants w !! i = Some (Owning answered out).

(** ** One owner at a time *)

Section Exclusion.
Context (v : liveness) (c : Z).
Hypothesis interval_positive : 0 < lv_heartbeatIntervalMs v.
Hypothesis thirds : 3 * lv_heartbeatIntervalMs v <= lv_idleSessionTimeoutMs v.
Hypothesis configured_in_time : c <= lv_heartbeatIntervalMs v.
Local Notation I := (lv_heartbeatIntervalMs v).
Local Notation T := (lv_idleSessionTimeoutMs v).

(** What is known of a dispatcher from its own state: an owner has the lock, and
    its timers are ahead of the server's. *)
Definition claim_ok (w : handover) (i : nat) (x : claimant) : Prop :=
  match x with
  | Trying | Gone => True
  | Configuring heardAt => ho_lock w = Some i /\ ho_heard w = heardAt \/ heardAt + T < ho_now w
  | Owning a None => ho_lock w = Some i /\ ho_heard w <= a <= ho_heard w + I /\ a <= ho_now w <= a + I
  | Owning a (Some (sent, false)) =>
      ho_lock w = Some i /\ ho_heard w <= a <= ho_heard w + I /\ a <= sent <= a + I /\ sent <= ho_now w <= sent + I
  | Owning a (Some (sent, true)) => ho_lock w = Some i /\ sent <= ho_heard w <= ho_now w /\ ho_now w <= sent + I
  end.

Definition handover_ok (w : handover) : Prop :=
  ho_heard w <= ho_now w /\ forall (i : nat) x, ho_claimants w !! i = Some x -> claim_ok w i x.

Lemma boots_ok n now : handover_ok (boots n now).
Proof. split; [apply Z.le_refl|]. intros i x Hx. apply lookup_replicate in Hx as [-> _]. done. Qed.

(** A step that changes one dispatcher only. *)
Lemma set_claimant_ok i x w : handover_ok w -> claim_ok w i x -> handover_ok (set_claimant i x w).
Proof.
  intros [Hh Hw] Hx. split; [done|]. intros j y Hy. cbn in Hy. destruct (decide (i = j)) as [<-|Hne].
  - destruct (decide (i < length (ho_claimants w))%nat) as [Hl|Hl].
    + rewrite list_lookup_insert_eq in Hy by done. injection Hy as <-. exact Hx.
    + rewrite list_insert_ge in Hy by lia. apply lookup_lt_Some in Hy. lia.
  - rewrite list_lookup_insert_ne in Hy by done. exact (Hw j y Hy).
Qed.

(** One without the lock owns nothing, and what it configures is over, whatever
    becomes of the lock. *)
Lemma claim_other w (j : nat) x cs : ho_lock w <> Some j -> claim_ok w j x ->
  forall l h, claim_ok (Handover (ho_now w) l h cs) j x.
Proof. intros Hne Hx l h. destruct x as [|t|a [[s []]|]|]; cbn in *; try done; tauto. Qed.

(** The server works on a statement of the one that has, or gets, the lock. *)
Lemma heard_ok w i x : handover_ok w -> (ho_lock w = None \/ ho_lock w = Some i) ->
  let w' := hear (set_lock (Some i) (set_claimant i x w)) in
  claim_ok w' i x -> handover_ok w'.
Proof.
  intros [Hh Hw] Hl w' Hx. split; [apply Z.le_refl|]. intros j y Hy. cbn in Hy. destruct (decide (i = j)) as [<-|Hne].
  - destruct (decide (i < length (ho_claimants w))%nat) as [Hlt|Hlt].
    + rewrite list_lookup_insert_eq in Hy by done. injection Hy as <-. exact Hx.
    + rewrite list_insert_ge in Hy by lia. apply lookup_lt_Some in Hy. lia.
  - rewrite list_lookup_insert_ne in Hy by done. apply (claim_other w); [|by apply Hw]. destruct Hl as [->| ->]; congruence.
Qed.

Lemma heard_again_ok w i x : handover_ok w -> ho_lock w = Some i ->
  claim_ok (hear (set_claimant i x w)) i x -> handover_ok (hear (set_claimant i x w)).
Proof.
  intros Hok Hl Hx. assert (E : hear (set_claimant i x w) = hear (set_lock (Some i) (set_claimant i x w))).
  { unfold hear, set_lock, set_claimant. cbn. by rewrite Hl. }
  rewrite E in *. apply heard_ok; tauto.
Qed.

(** A lock is freed when no one that has it owns. *)
Lemma freed_ok w : handover_ok w ->
  (forall i, ho_lock w = Some i -> forall x, ho_claimants w !! i = Some x -> claim_ok (set_lock None w) i x) ->
  handover_ok (set_lock None w).
Proof.
  intros [Hh Hw] Hi. split; [done|]. intros j y Hy. cbn in Hy. destruct (decide (ho_lock w = Some j)) as [E|E]; [by apply Hi|].
  apply (claim_other w); [done|by apply Hw].
Qed.

Lemma time_ok w until : handover_ok w -> ho_now w <= until -> forallb (in_time v until) (ho_claimants w) = true ->
  handover_ok (Handover until (ho_lock w) (ho_heard w) (ho_claimants w)).
Proof.
  intros [Hh Hw] Hu Hall. split; [cbn; lia|]. intros i x Hx. cbn in Hx. pose proof (Hw i x Hx) as Hc.
  rewrite forallb_forall in Hall. assert (Ht : in_time v until x = true) by (apply Hall, list_elem_of_In; by eapply list_elem_of_lookup_2).
  unfold in_time in Ht. destruct x as [|t|a [[s []]|]|]; cbn in *; try done; bools; intuition lia.
Qed.

Lemma handover_step_ok e w w' : e <> SessionEnds -> handover_ok w -> handover_step v (Some c) e w = Some w' -> handover_ok w'.
Proof.
  intros He Hok E. pose proof Hok as [Hh Hw]. unfold handover_step, holds in E. destruct e as [until|i|i|i|i|i|i|i|i|i|i|i| |]; [..|done].
  1: { destruct (_ && _) eqn:Eg; [|done]. injection E as <-. bools. by apply time_ok. }
  12: { destruct (ho_lock w) as [k|] eqn:El; [|done]. destruct (Z.ltb_spec (ho_heard w + T) (ho_now w)); [|done]. injection E as <-.
        apply freed_ok; [done|]. intros i Hi x Hx. specialize (Hw i x Hx).
        destruct x as [|t|a [[s []]|]|]; cbn in *; try done; intuition lia. }
  all: destruct (ho_claimants w !! i) as [x|] eqn:Ex; [|done]; pose proof (Hw i x Ex) as Hx.
  all: destruct x as [|t|a [[s []]|]|]; try done.
  all: repeat match type of E with
       | context [bool_decide ?P] => destruct (bool_decide_reflect P); [|done]
       | (if ?b then _ else _) = _ => destruct b eqn:?; [|done]
       | match ?o with Some _ => None | None => _ end = _ => destruct o eqn:?; [done|]
       end.
  all: injection E as <-; bools; cbn in Hx.
  all: try (apply set_claimant_ok; [done|]; cbn; intuition lia).
  all: try (apply heard_again_ok; [done..|]; cbn; intuition lia).
  all: try (apply heard_ok; [done|tauto|]; cbn; intuition lia).
  all: apply freed_ok; [done|]; intros k Hk y Hy; assert (k = i) as -> by congruence; rewrite Ex in Hy; by injection Hy as <-.
Qed.

Lemma handover_run_ok l : forall w w', SessionEnds ∉ l -> handover_ok w -> handover_run v (Some c) l w = Some w' -> handover_ok w'.
Proof.
  induction l as [|e l IH]; intros w w' Hl Hw E; cbn [handover_run] in E; [by injection E as <-|].
  apply not_elem_of_cons in Hl as [He Hl].
  destruct (handover_step v (Some c) e w) as [w1|] eqn:E1; [|done]. apply (IH w1); [done| |done]. by eapply handover_step_ok.
Qed.

Lemma owner_has_lock w i : handover_ok w -> owns i w -> ho_lock w = Some i.
Proof. intros [_ Hw] (a & out & Hi). specialize (Hw i _ Hi). destruct out as [[s []]|]; cbn in Hw; tauto. Qed.
End Exclusion.

(** ** An owner whose session is gone *)

Section Loss.
Context (v : liveness) (within : option Z).
Local Notation I := (lv_heartbeatIntervalMs v).

(** The owner's timers run, whatever became of its session. *)
Definition timed (w : handover) (x : claimant) : Prop :=
  match x with
  | Owning a None => a <= ho_now w <= a + I
  | Owning a (Some (sent, _)) => sent <= ho_now w <= sent + I
  | _ => True
  end.
Definition all_timed (w : handover) : Prop := forall (i : nat) x, ho_claimants w !! i = Some x -> timed w x.

(** What one that lost its session by [since] has heard since: the answer of a
    heartbeat the server had worked on before, at most. *)
Definition lost_ok (since : Z) (i : nat) (w : handover) : Prop :=
  ho_lock w <> Some i /\
  match ho_claimants w !! i with
  | Some (Owning a None) => a <= since + I
  | Some (Owning a (Some (sent, true))) => sent <= since
  | Some (Owning a (Some (sent, false))) => sent <= since + 2 * I
  | Some (Configuring _) => False
  | _ => True
  end.

Hypothesis interval_positive : 0 < I.

(** What a step does to one dispatcher. *)
Lemma claimants_after e w w' i x' : handover_step v within e w = Some w' -> ho_claimants w' !! i = Some x' ->
  exists x, ho_claimants w !! i = Some x /\
    (x' = x /\ (ho_now w' = ho_now w \/ in_time v (ho_now w') x = true /\ ho_now w <= ho_now w') \/
     ho_now w' = ho_now w /\
     match x, x' with
     | Trying, Configuring _ => e = TryLock i
     | Configuring _, Configuring _ => holds i w = true
     | Configuring _, Owning a None => a = ho_now w
     | Owning a None, Owning a' (Some (sent, false)) => a' = a /\ sent = ho_now w
     | Owning a (Some (sent, false)), Owning a' (Some (sent', true)) => holds i w = true /\ a' = a /\ sent' = sent
     | Owning _ (Some (_, true)), Owning a None => a = ho_now w
     | _, (Gone | Trying) => True
     | _, _ => False
     end).
Proof.
  intros E Hx'. assert (Hset : forall j y, ho_claimants (set_claimant j y w) !! i = Some x' ->
    exists x, ho_claimants w !! i = Some x /\ (x' = x \/ j = i /\ x' = y)).
  { intros j y H. cbn in H. destruct (decide (j = i)) as [->|Hne].
    - assert (Hl : (i < length (ho_claimants w))%nat) by (apply lookup_lt_Some in H; by rewrite length_insert in H).
      rewrite list_lookup_insert_eq in H by done. injection H as <-.
      destruct (lookup_lt_is_Some_2 _ _ Hl) as [x Hx]. exists x. auto.
    - rewrite list_lookup_insert_ne in H by done. eauto. }
  unfold handover_step in E. destruct e as [until|j|j|j|j|j|j|j|j|j|j|j| |].
  1: { destruct (_ && _) eqn:Eg; [|done]. injection E as <-. apply andb_true_iff in Eg as [Hle Hall]. apply Z.leb_le in Hle.
       exists x'. split; [done|]. left. split; [done|]. right. split; [|done]. cbn. rewrite forallb_forall in Hall.
       apply Hall, list_elem_of_In. by eapply list_elem_of_lookup_2. }
  12: { destruct (ho_lock w); [|done]. destruct (_ <? _); [|done]. injection E as <-. exists x'. auto. }
  12: { destruct (ho_lock w); [|done]. injection E as <-. exists x'. auto. }
  all: destruct (ho_claimants w !! j) as [y|] eqn:Ey; [|done].
  all: destruct y as [|t|a [[s []]|]|]; try done.
  all: repeat match type of E with
       | context [holds ?i ?w] => destruct (holds i w) eqn:?; [|done]
       | (if ?b then _ else _) = _ => destruct b eqn:?; [|done]
       | match ?o with Some _ => None | None => _ end = _ => destruct o eqn:?; [done|]
       end.
  all: injection E as <-.
  all: try (exists x'; by auto).
  all: apply Hset in Hx' as (x & Hx & [->|[-> ->]]); exists x; split; [done|by auto|done|]; right; split; [done|].
  all: rewrite Ey in Hx; by injection Hx as <-.
Qed.

Lemma timed_step e w w' : all_timed w -> handover_step v within e w = Some w' -> all_timed w'.
Proof.
  intros Hw E i x' Hx'. destruct (claimants_after e w w' i x' E Hx') as (x & Hx & [[-> Hn]|[Hn Hc]]); specialize (Hw i x Hx).
  - unfold timed, in_time in *. destruct Hn as [->|[Ht Hle]]; [done|].
    destruct x as [|t|a [[s b]|]|]; try done; cbn in Ht; apply Z.leb_le in Ht; lia.
  - unfold timed in *. rewrite Hn. destruct x as [|t|a [[s []]|]|], x' as [|t'|a' [[s' []]|]|]; try done; destruct_and?; subst; lia.
Qed.

Lemma lost_step since i e w w' : e <> TryLock i -> all_timed w -> lost_ok since i w ->
  handover_step v within e w = Some w' -> lost_ok since i w'.
Proof.
  intros He Hw [Hl Hi] E. split.
  - unfold handover_step in E. destruct e as [until|j|j|j|j|j|j|j|j|j|j|j| |];
      repeat case_match; simplify_eq; cbn; try done; congruence.
  - destruct (ho_claimants w' !! i) as [x'|] eqn:Hx'; [|done].
    destruct (claimants_after e w w' i x' E Hx') as (x & Hx & [[-> _]|[Hn Hc]]); rewrite Hx in Hi; [done|].
    specialize (Hw i x Hx). unfold timed in Hw. assert (Hh : holds i w = true -> False) by (unfold holds; by intros ?%bool_decide_eq_true).
    destruct x as [|t|a [[s []]|]|], x' as [|t'|a' [[s' []]|]|]; try done; destruct_and?; subst; try tauto; lia.
Qed.

Lemma boots_timed n now : all_timed (boots n now).
Proof. intros i x Hx. apply lookup_replicate in Hx as [-> _]. done. Qed.

Lemma timed_run l : forall w w', all_timed w -> handover_run v within l w = Some w' -> all_timed w'.
Proof.
  induction l as [|e l IH]; intros w w' Hw E; cbn [handover_run] in E; [by injection E as <-|].
  destruct (handover_step v within e w) as [w1|] eqn:E1; [|done]. apply (IH w1); [|done]. by eapply timed_step.
Qed.

Lemma lost_run since i l : forall w w', TryLock i ∉ l -> all_timed w -> lost_ok since i w ->
  handover_run v within l w = Some w' -> all_timed w' /\ lost_ok since i w'.
Proof.
  induction l as [|e l IH]; intros w w' Hl Hw Hi E; cbn [handover_run] in E; [by injection E as <-|].
  apply not_elem_of_cons in Hl as [He Hl].
  destruct (handover_step v within e w) as [w1|] eqn:E1; [|done].
  apply (IH w1); [done|by eapply timed_step|by eapply lost_step|done].
Qed.

(** It stops within three intervals. *)
Lemma lost_owner_stops i l w w' : all_timed w -> owns i w -> ho_lock w <> Some i -> TryLock i ∉ l ->
  handover_run v within l w = Some w' -> owns i w' -> ho_now w' <= ho_now w + 3 * I.
Proof.
  intros Hw (a & out & Hi) Hl Hn E (a' & out' & Hi').
  destruct (lost_run (ho_now w) i l w w' Hn Hw) as [Hw' [_ Hb]]; [|done|].
  - split; [done|]. rewrite Hi. specialize (Hw i _ Hi). unfold timed in Hw. destruct out as [[s []]|]; lia.
  - rewrite Hi' in Hb. specialize (Hw' i _ Hi'). unfold timed in Hw'. destruct out' as [[s []]|]; lia.
Qed.
End Loss.

Lemma derived_thirds livenessMs : let v := deriveOwnershipLiveness livenessMs in
  0 < lv_heartbeatIntervalMs v /\ 3 * lv_heartbeatIntervalMs v <= lv_idleSessionTimeoutMs v.
Proof.
  unfold deriveOwnershipLiveness, MIN_OWNERSHIP_LIVENESS_MS. cbn [lv_heartbeatIntervalMs lv_idleSessionTimeoutMs].
  split; [apply Z.div_str_pos; lia|apply Z.mul_div_le; lia].
Qed.


(** A handover: the first owner's heartbeat is worked on, its answer is lost, it
    stops at 60 s, its session times out past 120 s, and the second takes over. *)
Definition demo_handover : list handover_event :=
  [TryLock 0; SettingHeard 0; SettingsAnswered 0; TimePasses 30000; HeartbeatSent 0; HeartbeatHeard 0; TimePasses 60000;
   OwnerStops 0; TimePasses 120001; SessionTimesOut; TryLock 1; SettingsAnswered 1].

(** A session the server ends at once, whose owner does not hear of it: the second
    dispatcher owns, and the first one's last heartbeat is out. *)
Definition demo_loss : list handover_event := [TryLock 0; SettingsAnswered 0; SessionEnds; TryLock 1; SettingsAnswered 1].


(** The code waits for the answers to the settings without a bound, and takes a
    session that ended meanwhile for one that refuses them: then two own. *)
Lemma late_settings_make_two_owners : exists w,
  handover_run (deriveOwnershipLiveness 90000) None
    [TryLock 0; TimePasses 90001; SessionTimesOut; TryLock 1; SettingsAnswered 1; SettingsAnswered 0] (boots 2 0) = Some w /\
  owns 0 w /\ owns 1 w.
Proof. eexists. split; [vm_compute; reflexivity|]. split; by exists 90001, None. Qed.

Lemma ended_session_is_acquired o a l : at_answer a = LockGiven ->
  acquireDispatcherOwnership o (fun _ => Some "Connection terminated") (a :: l) =
    (Acquired 1, [LivenessUnavailable (fmap (fun p => p.1 +:+ ": Connection terminated")
                   (liveness_settings (deriveOwnershipLiveness (ao_livenessMs o))))]).
Proof. intros Ha. unfold acquireDispatcherOwnership. cbn [acquire_attempts]. by rewrite Ha. Qed.

(** What a dispatcher that is gone leaves behind holds the lock no longer than the
    liveness budget, while the server ends sessions only for being idle: then any
    that still tries can have it. *)
Theorem ghost_is_evicted livenessMs c n now l w k i :
  let v := deriveOwnershipLiveness livenessMs in
  SessionEnds ∉ l -> c <= lv_heartbeatIntervalMs v -> handover_run v (Some c) l (boots n now) = Some w ->
  ho_lock w = Some k -> ~ owns k w -> ho_claimants w !! i = Some Trying ->
  let freed := Z.max (ho_now w) (ho_heard w + lv_idleSessionTimeoutMs v + 1) in
  exists w', handover_run v (Some c) [TimePasses freed; SessionTimesOut; TryLock i] w = Some w' /\
    ho_now w' = freed /\ ho_lock w' = Some i.
Proof.
  intros v Hs Hc E Hl Hk Hi freed. destruct (derived_thirds livenessMs) as [Hp Ht].
  pose proof (handover_run_ok v c Hp Ht Hc l _ _ Hs (boots_ok v n now) E) as Hw.
  assert (Hall : forallb (in_time v freed) (ho_claimants w) = true).
  { apply forallb_forall. intros x Hx. apply list_elem_of_In, list_elem_of_lookup in Hx as [j Hj].
    unfold in_time. destruct x as [|t|a out|]; try done. exfalso. apply Hk.
    assert (Ho : owns j w) by (by exists a, out). pose proof (owner_has_lock v w j Hw Ho). by replace k with j by congruence. }
  set (w1 := Handover freed (ho_lock w) (ho_heard w) (ho_claimants w)).
  assert (E1 : handover_step v (Some c) (TimePasses freed) w = Some w1).
  { unfold handover_step. by rewrite Hall, (proj2 (Z.leb_le (ho_now w) freed)) by (unfold freed; lia). }
  assert (E2 : handover_step v (Some c) SessionTimesOut w1 = Some (set_lock None w1)).
  { unfold handover_step, w1. cbn [ho_lock ho_heard ho_now]. by rewrite Hl, (proj2 (Z.ltb_lt _ freed)) by (unfold freed; lia). }
  eexists. cbn [handover_run]. rewrite E1. cbn [mbind option_bind]. rewrite E2. cbn [mbind option_bind].
  unfold handover_step, w1. cbn [set_lock ho_claimants ho_lock]. by rewrite Hi.
Qed.

(** The keepalives give a peer up in whole seconds, rounded down: with a budget
    of twenty seconds the server ends a session twelve seconds after the last it
    had of it, and its owner gives up 13.3 seconds after the last answer. *)
Lemma keepalives_can_be_first : let v := deriveOwnershipLiveness 20000 in
  1000 * (lv_keepalivesIdleSeconds v + lv_keepalivesCount v * lv_keepalivesIntervalSeconds v) = 12000 /\
  2 * lv_heartbeatIntervalMs v = 13332.
Proof. done. Qed.
