(* ===== verification/Config.v ===== *)
(** What the two ends read from their environment: the World's configuration
    (src/config.ts and the resolvers of src/index.ts), the dispatcher's
    (src/dispatcher/config.ts, [parseStaticEndpoints] of
    src/dispatcher/static-activation.ts) and its secrets (src/dispatcher/secrets.ts). *)
From S2P Require Import Prelude Model Slots Sdk Tenant JsText Contract Timers Queue Dispatcher Transport Ownership.
From Stdlib Require Import Strings.Ascii.
Local Open Scope Z_scope.

(** A variable of the environment, if it is set. *)
Definition environment : Type := string -> option string.

(** [a ?? b] *)
Definition coalesce {A} (a b : option A) : option A := match a with Some x => Some x | None => b end.
Infix "??" := coalesce (at level 60, right associativity) : wfw_scope.

(** What the resolvers throw. *)
Inductive config_error :=
| InvalidRunnerMode (value : string)
| InvalidCompaction (value : string)
| MissingValue (name : string)
| InvalidTenant
| LeaseIntervalTooLong
| BothActivations
| NoActivation
| PoolTooSmall
| LivenessTooShort
| BadStaticEntry (entry : string)
| DuplicateDeployment (deploymentId : string)
| BadStaticEndpoint (deploymentId : string) (e : endpoint_error)
| NoStaticEndpoint.

(** ** src/config.ts *)

(** [true] for [embedded] *)
Definition resolveRunnerMode (value : option string) : result config_error bool :=
  match value with
  | Some "external" => Ok false
  | Some "embedded" | None | Some "" => Ok true
  | Some v => Err (InvalidRunnerMode v)
  end.

Definition resolveStreamCompaction (value : option string) : result config_error bool :=
  match value with
  | None | Some "" | Some "on" | Some "true" | Some "1" => Ok true
  | Some "off" | Some "false" | Some "0" => Ok false
  | Some v => Err (InvalidCompaction v)
  end.

Definition resolveConnectionString (env : environment) : result config_error string :=
  match given (env "WORKFLOW_WORLD_URL" ?? env "EVELAND_WORKFLOW_WORLD_URL") with
  | Some url => Ok url
  | None => Err (MissingValue "WORKFLOW_WORLD_URL")
  end.

(** ** Numbers of the environment *)

Definition positiveNumber (value : option string) (fallback : Z) : Z :=
  match finite_integer (parseInt (default "" value)) with
  | Some parsed => if 0 <? parsed then parsed else fallback
  | None => fallback
  end.

Definition optionalNonNegativeNumber (value : option string) : option Z :=
  match finite_integer (parseInt (default "" value)) with
  | Some parsed => if 0 <=? parsed then Some parsed else None
  | None => None
  end.

Definition nonNegativeNumber (value : option string) (fallback : Z) : Z :=
  default fallback (optionalNonNegativeNumber value).

(** ** The World *)

(** [required] *)
Definition required (value : option string) (name : string) : result config_error string :=
  match given value with Some v => Ok v | None => Err (MissingValue name) end.

(** The configuration given to [createWorld], as far as it is resolved. *)
Record world_config := WorldConfig {
  wc_tenantId : option string;
  wc_deploymentId : option string;
  wc_embedded : option bool;
  wc_queueNamespace : option string;
  wc_queueConcurrency : option js_number;
  wc_compactStreamSnapshots : option bool
}.

Record resolved_config := ResolvedConfig {
  rc_queue : queue_config;
  rc_queueConcurrency : js_number;
  rc_compactStreamSnapshots : bool
}.

(** [resolveConfig]; [resolveQueueNamespace] is [@workflow/world]'s. *)
Definition resolveConfig (resolveQueueNamespace : option string -> option string) (env : environment) (c : world_config) :
    result config_error resolved_config :=
  result_bind (required (wc_tenantId c ?? env "WORKFLOW_WORLD_TENANT_ID" ?? env "EVELAND_PROJECT_ID")
    "WORKFLOW_WORLD_TENANT_ID") (fun tenantId =>
  if negb (assertValidTenantId tenantId) then Err InvalidTenant else
  result_bind (required (wc_deploymentId c ?? env "WORKFLOW_WORLD_DEPLOYMENT_ID" ?? env "EVELAND_DEPLOYMENT_ID")
    "WORKFLOW_WORLD_DEPLOYMENT_ID") (fun deploymentId =>
  result_bind (match wc_embedded c with
               | Some e => Ok e
               | None => resolveRunnerMode (env "WORKFLOW_WORLD_RUNNER" ?? env "EVELAND_WORKFLOW_RUNNER")
               end) (fun embedded =>
  let queueConcurrency :=
    match wc_queueConcurrency c with
    | Some n => n
    | None => match parseInt (default "" (env "WORKFLOW_POSTGRES_WORKER_CONCURRENCY")) with
              | JsNaN | JsFinite 0 _ => JsFinite 50 1
              | n => n
              end
    end in
  result_bind (match wc_compactStreamSnapshots c with
               | Some b => Ok b
               | None => resolveStreamCompaction
                           (env "WORKFLOW_WORLD_STREAM_COMPACTION" ?? env "EVELAND_WORKFLOW_STREAM_COMPACTION")
               end) (fun compact =>
  Ok (ResolvedConfig (QueueConfig tenantId deploymentId embedded (resolveQueueNamespace (wc_queueNamespace c)))
        queueConcurrency compact))))).

(** [createWorld]'s guard on the concurrency. *)
Definition queue_concurrency (n : js_number) : js_number :=
  if is_finite n && js_positive n then n else JsFinite 50 1.

Definition getDefaultMaxPoolSize (env : environment) : option Z :=
  match finite_integer (parseInt (default "" (env "WORKFLOW_POSTGRES_MAX_POOL_SIZE"))) with
  | Some parsed => if 0 <? parsed then Some parsed else None
  | None => None
  end.

(** ** The dispatcher *)

Definition DEFAULT_ACTIVATION_LEASE_TTL_MS : Z := 180000.
Definition DEFAULT_BOOT_RECOVERY_DEPLOYMENTS_PER_WAVE : Z := 4.
Definition DEFAULT_BOOT_RECOVERY_WAVE_INTERVAL_MS : Z := 30000.
Definition MIN_DISPATCHER_POOL_SIZE : Z := 4.
Definition DEFAULT_OWNERSHIP_LIVENESS_MS : Z := 90000.
Definition DEFAULT_TIMER_SWEEP_INTERVAL_MS : Z := 30000.

Definition deriveMaxInFlightPerTenant (cpuCoreCount : Z) : Z := Z.max 2 (Z.min 16 cpuCoreCount).

(** [DispatcherConfiguration] *)
Record dispatcher_config := DispatcherConfig {
  dc_worldUrl : string;
  dc_apiUrl : option string;
  dc_staticEndpoints : option (gmap string string);
  dc_poolSize : Z;
  dc_concurrency : Z;
  dc_pollIntervalMs : Z;
  dc_maxInFlightPerTenant : Z;
  dc_dispatchTimeoutMs : Z;
  dc_leaseRenewIntervalMs : Z;
  dc_activationLeaseTtlMs : Z;
  dc_queueGcIntervalMs : Z;
  dc_timerSweepIntervalMs : Z;
  dc_bootRecoveryDeploymentsPerWave : Z;
  dc_bootRecoveryWaveIntervalMs : Z;
  dc_executorFailureLimit : Z;
  dc_executorFailureMinSpanMs : Z;
  dc_maintenanceIntervalMs : Z;
  dc_maintenanceStreamBatchSize : Z;
  dc_maintenanceMaxBatches : Z;
  dc_maintenanceMaxStreamsToPack : Z;
  dc_maintenanceRunBatchSize : Z;
  dc_maintenanceCompactSnapshots : bool;
  dc_ownershipLivenessMs : Z;
  dc_ownershipRetryIntervalMs : Z;
  dc_ownershipWaitMs : option Z
}.

Section Dispatcher.
Context (URL_parse : string -> option url).

(** One entry of the list, and the table with it. *)
Definition static_entry (text : string) (endpoints : gmap string string) : result config_error (gmap string string) :=
  let entry := trim text in
  if String.eqb entry "" then Ok endpoints else
  let '(deploymentId, origin) :=
    match cut_at "="%char entry with Some (d, o) => (trim d, trim o) | None => ("", "") end in
  if String.eqb deploymentId "" || String.eqb origin "" then Err (BadStaticEntry entry) else
  if bool_decide (is_Some (endpoints !! deploymentId)) || bool_decide (deploymentId ∈ object_prototype_names)
  then Err (DuplicateDeployment deploymentId) else
  match parseEndpointUrl URL_parse origin with
  | Err e => Err (BadStaticEndpoint deploymentId e)
  | Ok o => Ok (<[deploymentId := o]> endpoints)
  end.

Fixpoint static_entries (l : list string) (endpoints : gmap string string) : result config_error (gmap string string) :=
  match l with
  | [] => Ok endpoints
  | entry :: l => result_bind (static_entry entry endpoints) (static_entries l)
  end.

Definition parseStaticEndpoints (value : string) : result config_error (gmap string string) :=
  result_bind (static_entries (split_on ","%char value) ∅) (fun endpoints =>
  if bool_decide (endpoints = ∅) then Err NoStaticEndpoint else Ok endpoints).

(** [cpus] is the number of cores, [os.cpus().length]. *)
Definition resolveDispatcherConfig (cpus : Z) (env : environment) : result config_error dispatcher_config :=
  match given (env "WORKFLOW_WORLD_BOOTSTRAP_URL" ?? env "EVELAND_WORKFLOW_WORLD_BOOTSTRAP_URL" ??
               env "WORKFLOW_WORLD_URL" ?? env "EVELAND_WORKFLOW_WORLD_URL") with
  | None => Err (MissingValue "WORKFLOW_WORLD_URL")
  | Some worldUrl =>
  let ttl := positiveNumber (env "WORKFLOW_DISPATCHER_ACTIVATION_LEASE_TTL_MS") DEFAULT_ACTIVATION_LEASE_TTL_MS in
  let renew := positiveNumber (env "WORKFLOW_DISPATCHER_LEASE_RENEW_INTERVAL_MS") (Z.max 1000 (ttl / 3)) in
  if ttl <=? renew then Err LeaseIntervalTooLong else
  let apiUrl := given (env "WORKFLOW_DISPATCHER_ACTIVATION_API_URL") in
  result_bind (match given (env "WORKFLOW_DISPATCHER_STATIC_ENDPOINTS") with
               | Some v => result_bind (parseStaticEndpoints v) (fun t => Ok (Some t))
               | None => Ok None
               end) (fun staticEndpoints =>
  match apiUrl, staticEndpoints with
  | Some _, Some _ => Err BothActivations
  | None, None => Err NoActivation
  | _, _ =>
  let poolSize := positiveNumber (env "WORKFLOW_DISPATCHER_POOL_SIZE") 10 in
  if poolSize <? MIN_DISPATCHER_POOL_SIZE then Err PoolTooSmall else
  let concurrency := positiveNumber (env "WORKFLOW_DISPATCHER_CONCURRENCY") (Z.max 1 (poolSize - 2)) in
  let livenessMs := positiveNumber (env "WORKFLOW_DISPATCHER_OWNERSHIP_LIVENESS_MS") DEFAULT_OWNERSHIP_LIVENESS_MS in
  if livenessMs <? MIN_OWNERSHIP_LIVENESS_MS then Err LivenessTooShort else
  result_bind (resolveStreamCompaction
    (env "WORKFLOW_WORLD_STREAM_COMPACTION" ?? env "EVELAND_WORKFLOW_STREAM_COMPACTION")) (fun compactSnapshots =>
  Ok (DispatcherConfig worldUrl apiUrl staticEndpoints poolSize concurrency
    (positiveNumber (env "WORKFLOW_DISPATCHER_POLL_INTERVAL_MS") 500)
    (positiveNumber (env "WORKFLOW_DISPATCHER_MAX_INFLIGHT_PER_TENANT") (deriveMaxInFlightPerTenant cpus))
    (positiveNumber (env "WORKFLOW_DISPATCHER_DISPATCH_TIMEOUT_MS") 900000)
    renew ttl
    (positiveNumber (env "WORKFLOW_DISPATCHER_QUEUE_GC_INTERVAL_MS") 300000)
    (positiveNumber (env "WORKFLOW_DISPATCHER_TIMER_SWEEP_INTERVAL_MS") DEFAULT_TIMER_SWEEP_INTERVAL_MS)
    (positiveNumber (env "WORKFLOW_DISPATCHER_BOOT_RECOVERY_DEPLOYMENTS_PER_WAVE")
      DEFAULT_BOOT_RECOVERY_DEPLOYMENTS_PER_WAVE)
    (nonNegativeNumber (env "WORKFLOW_DISPATCHER_BOOT_RECOVERY_WAVE_INTERVAL_MS") DEFAULT_BOOT_RECOVERY_WAVE_INTERVAL_MS)
    (positiveNumber (env "WORKFLOW_DISPATCHER_EXECUTOR_FAILURE_LIMIT") DEFAULT_EXECUTOR_FAILURE_LIMIT)
    (nonNegativeNumber (env "WORKFLOW_DISPATCHER_EXECUTOR_FAILURE_MIN_SPAN_MS") DEFAULT_EXECUTOR_FAILURE_MIN_SPAN_MS)
    (nonNegativeNumber (env "WORKFLOW_DISPATCHER_MAINTENANCE_INTERVAL_MS") 60000)
    (positiveNumber (env "WORKFLOW_DISPATCHER_MAINTENANCE_STREAM_BATCH_SIZE") 50000)
    (positiveNumber (env "WORKFLOW_DISPATCHER_MAINTENANCE_MAX_BATCHES") 20)
    (positiveNumber (env "WORKFLOW_DISPATCHER_MAINTENANCE_MAX_STREAMS_TO_PACK") 100)
    (positiveNumber (env "WORKFLOW_DISPATCHER_MAINTENANCE_RUN_BATCH_SIZE") 1000)
    compactSnapshots livenessMs
    (positiveNumber (env "WORKFLOW_DISPATCHER_OWNERSHIP_RETRY_INTERVAL_MS") 5000)
    (optionalNonNegativeNumber (env "WORKFLOW_DISPATCHER_OWNERSHIP_WAIT_MS"))))
  end)
  end.
End Dispatcher.

(** ** Secrets *)

Definition resolveSecretWithDevFallback (env : environment) (explicitValue : option string) (developmentFallback : string) :
    option string :=
  match given explicitValue with
  | Some v => Some v
  | None => match env "NODE_ENV" with
            | Some "development" | Some "test" => Some developmentFallback
            | _ => None
            end
  end.

Definition resolveDispatchRuntimeSecret (env : environment) : option string :=
  resolveSecretWithDevFallback env (readRuntimeSecretFromEnv env) "eveland-dev-scheduler-runtime-secret".

(** ** What the service resolves before it touches the database (src/dispatcher/service.ts) *)

Inductive startup_error := ConfigRefused (e : config_error) | NoRuntimeSecret | NoActivationToken | NothingToDispatchTo.

(** The client of the activations: the static table, or the control API with its token. *)
Inductive activation_source := StaticActivation (endpoints : gmap string string) | ApiActivation (apiUrl serviceToken : string).

Definition requiredServiceToken (env : environment) : result startup_error string :=
  match resolveSecretWithDevFallback env (env "WORKFLOW_DISPATCHER_ACTIVATION_TOKEN") "eveland-dev-gateway-token" with
  | Some token => Ok token
  | None => Err NoActivationToken
  end.

Definition resolveActivation (c : dispatcher_config) (env : environment) : result startup_error activation_source :=
  match dc_staticEndpoints c with
  | Some endpoints => Ok (StaticActivation endpoints)
  | None =>
      match given (dc_apiUrl c) with
      | None => Err NothingToDispatchTo
      | Some apiUrl => result_bind (requiredServiceToken env) (fun token => Ok (ApiActivation apiUrl token))
      end
  end.

(** The configuration, the runtime secret and the activation of a service whose
    host overrides none of them. *)
Definition resolve_startup (URL_parse : string -> option url) (cpus : Z) (env : environment) :
    result startup_error (dispatcher_config * string * activation_source) :=
  match resolveDispatcherConfig URL_parse cpus env with
  | Err e => Err (ConfigRefused e)
  | Ok c =>
      match resolveDispatchRuntimeSecret env with
      | None => Err NoRuntimeSecret
      | Some secret => result_bind (resolveActivation c env) (fun a => Ok (c, secret, a))
      end
  end.
