(* ===== verification/Service.v ===== *)
(** The dispatcher as a service (src/dispatcher/service.ts, src/dispatcher/main.ts):
    the order it starts and stops its parts in, what it undoes when a start
    fails, and what it does when the session that owns the database is lost. *)
From S2P Require Import Prelude.

(** ** What is observed *)

(** [DispatcherLifecyclePhase] *)
Inductive phase := ownership_acquired | migrations_applied | boot_recovery_completed | ready | ownership_lost | stopped.
#[export] Instance phase_eq_dec : EqDecision phase.
Proof. solve_decision. Defined.

Inductive effect :=
| Emitted (p : phase)
| MigrationsRun
| UtilsMade
| PreflightRun
| RunsReenqueued
| ClaimingStarted
| MaintenanceStarted
| MaintenanceStopped
| ClaimingStopped
| UtilsReleased
| OwnershipReleased
| PoolEnded
| TelemetryShutDown.
#[export] Instance effect_eq_dec : EqDecision effect.
Proof. solve_decision. Defined.

(** What is awaited while starting. *)
Inductive stage := Acquiring | Migrating | MakingUtils | Preflight | Recovering | StartingRunner.
#[export] Instance stage_eq_dec : EqDecision stage.
Proof. solve_decision. Defined.

(** What the service holds. [stopping] is the promise of a stop under way. *)
Record service := Service {
  sv_lost : bool;
  sv_owned : bool;
  sv_utils : bool;
  sv_runtime : bool;
  sv_maintenance : bool;
  sv_stopping : bool
}.

Definition set_lost (s : service) := Service true (sv_owned s) (sv_utils s) (sv_runtime s) (sv_maintenance s) (sv_stopping s).
Definition set_owned (b : bool) (s : service) := Service (sv_lost s) b (sv_utils s) (sv_runtime s) (sv_maintenance s) (sv_stopping s).
Definition set_utils (s : service) := Service (sv_lost s) (sv_owned s) true (sv_runtime s) (sv_maintenance s) (sv_stopping s).
Definition set_runtime (s : service) := Service (sv_lost s) (sv_owned s) (sv_utils s) true (sv_maintenance s) (sv_stopping s).
Definition set_maintenance (s : service) := Service (sv_lost s) (sv_owned s) (sv_utils s) (sv_runtime s) true (sv_stopping s).
Definition set_stopping (s : service) := Service (sv_lost s) (sv_owned s) (sv_utils s) (sv_runtime s) (sv_maintenance s) true.

Definition new_service : service := Service false false false false false false.

(** ** A small monad: the state, the effects so far, and an exception *)

Definition svc (A : Type) : Type := service -> result unit A * service * list effect.
Definition sret {A} (a : A) : svc A := fun s => (Ok a, s, []).
Definition sthrow {A} : svc A := fun s => (Err tt, s, []).
Definition sbind {A B} (p : svc A) (f : A -> svc B) : svc B := fun s =>
  match p s with
  | (Ok a, s, l) => let '(r, s, l') := f a s in (r, s, l ++ l')
  | (Err e, s, l) => (Err e, s, l)
  end.
Definition act (e : effect) (f : service -> service) : svc unit := fun s => (Ok tt, f s, [e]).
Definition get : svc service := fun s => (Ok s, s, []).
(** [p.catch(() => {})] *)
Definition swallow (p : svc unit) : svc unit := fun s => let '(_, s, l) := p s in (Ok tt, s, l).
Declare Scope svc_scope.
Notation "p ;; q" := (sbind p (fun _ => q)) (at level 100, q at level 200, right associativity) : svc_scope.
Local Open Scope svc_scope.

Section Service.
(** Whether the host's [onPhase] throws at a phase, and whether a stage fails. *)
Context (throws : phase -> bool) (fails : stage -> bool).
(** Whether there is a [beforeBootRecovery]. *)
Context (preflight : bool).
(** The stage the loss of the owning session is reported in, if it is while starting. *)
Context (lost_in : option stage).

Definition emitPhase (p : phase) : svc unit := fun s => (if throws p then Err tt else Ok tt, s, [Emitted p]).

(** [onLost] before there is anything to stop; the owner swallows what it throws. *)
Definition onLost_starting : svc unit :=
  fun s => let '(_, s, l) := emitPhase ownership_lost (set_lost s) in (Ok tt, s, l).

(** An [await] of a stage, in which the loss may be reported. *)
Definition await_stage (k : stage) : svc unit :=
  (if bool_decide (lost_in = Some k) then onLost_starting else sret tt) ;;
  if fails k then sthrow else sret tt.

(** [ownership.release()], which does something once. *)
Definition releaseOwnership : svc unit := fun s =>
  (Ok tt, set_owned false s, if sv_owned s then [OwnershipReleased] else []).

(** [runtime.stop()]: the runner stops claiming; the worker utils are given back
    whether it could or not. *)
Definition stopRuntime : svc unit := act ClaimingStopped id ;; act UtilsReleased id.

(** [stopEverything]: an operation that fails is noted, and the next is tried. *)
Definition stopEverything : svc unit :=
  sbind get (fun s =>
  (if sv_maintenance s then act MaintenanceStopped id else sret tt) ;;
  (if sv_runtime s then stopRuntime else act UtilsReleased id) ;;
  releaseOwnership ;;
  act PoolEnded id ;;
  act TelemetryShutDown id ;;
  emitPhase stopped).

Definition mark_stopping : svc unit := fun s => (Ok tt, set_stopping s, []).

(** [stop()]: [stopping ??= stopEverything()] *)
Definition service_stop : svc unit :=
  sbind get (fun s => if sv_stopping s then sret tt else mark_stopping ;; stopEverything).

(** [startClaiming] *)
Definition startClaiming : svc unit :=
  await_stage StartingRunner ;;
  act ClaimingStarted set_runtime ;;
  act MaintenanceStarted set_maintenance ;;
  emitPhase ready.

(** The body of the [try]. *)
Definition start_body : svc unit :=
  await_stage Migrating ;;
  act MigrationsRun id ;;
  emitPhase migrations_applied ;;
  await_stage MakingUtils ;;
  act UtilsMade set_utils ;;
  (if preflight then await_stage Preflight ;; act PreflightRun id else sret tt) ;;
  await_stage Recovering ;;
  act RunsReenqueued id ;;
  emitPhase boot_recovery_completed ;;
  startClaiming ;;
  sbind get (fun s => if sv_lost s then swallow service_stop ;; sthrow else sret tt).

(** The [catch]. *)
Definition start_cleanup : svc unit :=
  sbind get (fun s =>
  (if sv_runtime s then stopRuntime else if sv_utils s then act UtilsReleased id else sret tt) ;;
  releaseOwnership ;;
  act PoolEnded id ;;
  act TelemetryShutDown id).

(** [startDispatcherService] from the acquisition on: whether it returns a
    service, with what it then holds and what it has done. *)
Definition startDispatcherService : result unit unit * service * list effect :=
  if fails Acquiring then (Err tt, new_service, [PoolEnded]) else
  match emitPhase ownership_acquired (set_owned true new_service) with
  | (Err e, s, l) => (Err e, s, l)
  | (Ok _, s, l) =>
      let '(r, s, l1) := start_body s in
      match r with
      | Ok _ => (Ok tt, s, l ++ l1)
      | Err e => let '(_, s, l2) := start_cleanup s in (Err e, s, l ++ l1 ++ l2)
      end
  end.

(** ** A service that runs *)

(** The owning session is found dead; the host calls [stop]. *)
Inductive service_event := SessionLost | StopCalled.

(** [onLost] once [stopOnLoss] is set: an exception of the host's callback ends
    it there. The owner calls it once, and not after the release. *)
Definition service_react (e : service_event) : svc unit :=
  match e with
  | SessionLost => sbind get (fun s =>
      if sv_lost s || negb (sv_owned s) then sret tt else
      swallow ((fun s => emitPhase ownership_lost (set_lost s)) ;; service_stop))
  | StopCalled => service_stop
  end.

Fixpoint service_run (es : list service_event) (s : service) : service * list effect :=
  match es with
  | [] => (s, [])
  | e :: es => let '(_, s, l) := service_react e s in let '(s, l') := service_run es s in (s, l ++ l')
  end.

(** The whole life of a service. *)
Definition service_life (es : list service_event) : service * list effect :=
  match startDispatcherService with
  | (Ok _, s, l) => let '(s, l') := service_run es s in (s, l ++ l')
  | (Err _, s, l) => (s, l)
  end.
End Service.

(** ** The process around it *)

Definition SHUTDOWN_TIMEOUT_EXIT_CODE : Z := 75.

(** Whether a shutdown is under way, and the code the process has exited with. *)
Record process := Process { pr_shuttingDown : bool; pr_exited : option Z }.

Inductive process_event := Signal | StopSettled (ok : bool) | GraceOver.

(** [exit] of a process that is still there. *)
Definition exit (code : Z) (p : process) : process :=
  match pr_exited p with None => Process (pr_shuttingDown p) (Some code) | Some _ => p end.

(** The first signal begins the shutdown, later ones change nothing; the stop
    that began settles, or the grace period is over. *)
Definition process_step (p : process) (e : process_event) : process :=
  match pr_exited p with
  | Some _ => p
  | None =>
      match e with
      | Signal => Process true None
      | StopSettled ok => if pr_shuttingDown p then exit (if ok then 0 else 1)%Z p else p
      | GraceOver => if pr_shuttingDown p then exit SHUTDOWN_TIMEOUT_EXIT_CODE p else p
      end
  end.
