(* ===== verification/World.v ===== *)
(** The life of a world's queue (src/queue.ts: [start], [close] and the start of
    the embedded runner) and of the world around it (src/index.ts: [close]).

    Every call is where its [await] is; a step is what one of them does from
    there to its next [await], so that the steps of any number of calls interleave
    as the code's do. *)
From S2P Require Import Prelude.

(** ** Where the asynchronous calls are *)

(** The two promises of an attempt to start the runner: that of the call, and
    that of the start it may defer. *)
Notation promise := (nat * bool)%type.

Inductive wait :=
| Resolving                      (* [getExecutionBaseUrl] *)
| Probing                        (* [canConnectToLoopbackTarget] *)
| Sleeping                       (* between two probes of a deferred start *)
| SettingUp                      (* [setupListeners] *)
| Ended (r : result unit unit)   (* settled but for its [finally] *)
| Settled (r : result unit unit).

(** An attempt: its controller and its promises. *)
Record attempt := Attempt { at_first : wait; at_later : option wait; at_aborted : bool }.

(** The asynchronous body behind [startPromise]. *)
Inductive body := MakingUtils | MigratingQueue | AwaitingRunner (c : nat) | BodyDone (r : result unit unit).

(** A call of [start] and one of [close]. *)
Inductive starter := AwaitingBody (i : nat) | AwaitingAttempt (c : nat) | Started (r : result unit unit).
Inductive closer :=
| AwaitAttempt (p : promise)
| AwaitStart (i : option nat)
| StoppingRunner (k : nat)
| ReleasingUtils (u : nat)
| ClosingLocal
| Closed (r : result unit unit).

(** The variables of [createQueue], the worker utils and runners ever made with
    whether they live, and the calls under way. *)
Record world := World {
  w_closing : bool;
  w_workerUtils : option nat;
  w_runner : option nat;
  w_runnerStart : option promise;
  w_startPromise : option nat;
  w_utils : list bool;
  w_runners : list bool;
  w_attempts : list attempt;
  w_bodies : list body;
  w_starters : list starter;
  w_closers : list closer
}.

Definition new_world : world := World false None None None None [] [] [] [] [] [].

Definition set_closing (s : world) : world :=
  World true (w_workerUtils s) (w_runner s) (w_runnerStart s) (w_startPromise s) (w_utils s) (w_runners s)
    (w_attempts s) (w_bodies s) (w_starters s) (w_closers s).
Definition set_workerUtils (x : option nat) (made : list bool) (s : world) : world :=
  World (w_closing s) x (w_runner s) (w_runnerStart s) (w_startPromise s) made (w_runners s)
    (w_attempts s) (w_bodies s) (w_starters s) (w_closers s).
Definition set_runner (x : option nat) (made : list bool) (s : world) : world :=
  World (w_closing s) (w_workerUtils s) x (w_runnerStart s) (w_startPromise s) (w_utils s) made
    (w_attempts s) (w_bodies s) (w_starters s) (w_closers s).
Definition set_runnerStart (x : option promise) (s : world) : world :=
  World (w_closing s) (w_workerUtils s) (w_runner s) x (w_startPromise s) (w_utils s) (w_runners s)
    (w_attempts s) (w_bodies s) (w_starters s) (w_closers s).
Definition set_startPromise (x : option nat) (s : world) : world :=
  World (w_closing s) (w_workerUtils s) (w_runner s) (w_runnerStart s) x (w_utils s) (w_runners s)
    (w_attempts s) (w_bodies s) (w_starters s) (w_closers s).
Definition set_attempts (l : list attempt) (s : world) : world :=
  World (w_closing s) (w_workerUtils s) (w_runner s) (w_runnerStart s) (w_startPromise s) (w_utils s) (w_runners s)
    l (w_bodies s) (w_starters s) (w_closers s).
Definition set_bodies (l : list body) (s : world) : world :=
  World (w_closing s) (w_workerUtils s) (w_runner s) (w_runnerStart s) (w_startPromise s) (w_utils s) (w_runners s)
    (w_attempts s) l (w_starters s) (w_closers s).
Definition set_starters (l : list starter) (s : world) : world :=
  World (w_closing s) (w_workerUtils s) (w_runner s) (w_runnerStart s) (w_startPromise s) (w_utils s) (w_runners s)
    (w_attempts s) (w_bodies s) l (w_closers s).
Definition set_closers (l : list closer) (s : world) : world :=
  World (w_closing s) (w_workerUtils s) (w_runner s) (w_runnerStart s) (w_startPromise s) (w_utils s) (w_runners s)
    (w_attempts s) (w_bodies s) (w_starters s) l.

Definition promise_at (s : world) (p : promise) : option wait :=
  w_attempts s !! p.1 ≫= fun a => if p.2 then at_later a else Some (at_first a).
Definition put_wait (p : promise) (x : wait) (a : attempt) : attempt :=
  if p.2 then Attempt (at_first a) (Some x) (at_aborted a) else Attempt x (at_later a) (at_aborted a).
Definition set_promise (p : promise) (x : wait) (s : world) : world :=
  set_attempts (alter (put_wait p x) p.1 (w_attempts s)) s.
Definition abort (c : nat) (s : world) : world :=
  set_attempts (alter (fun a => Attempt (at_first a) (at_later a) true) c (w_attempts s)) s.
(** [controller.signal.aborted] *)
Definition aborted (s : world) (c : nat) : bool :=
  match w_attempts s !! c with Some a => at_aborted a | None => false end.

(** ** The start of the runner *)

(** What an [await] is answered. *)
Inductive answer := Yes | No | Fails.

Section World.
(** [config.runner === "external"] *)
Context (external : bool).

(** [startRunnerUnlessAborted] *)
Definition startRunnerUnlessAborted (p : promise) (s : world) : world :=
  if aborted s p.1 then set_promise p (Ended (Ok tt)) s else set_promise p SettingUp s.

(** [deferRunnerStart]: the loop of [waitForLoopbackAndStartRunner] is entered, and
    the call that defers returns. *)
Definition deferRunnerStart (c : nat) (s : world) : world :=
  let s := set_promise (c, true) Probing s in
  let s := set_runnerStart (Some (c, true)) s in
  set_promise (c, false) (Ended (Ok tt)) s.

(** [run] has resolved. *)
Definition runner_started (s : world) : world :=
  set_runner (Some (length (w_runners s))) (w_runners s ++ [true]) s.

(** The [finally] of a promise. *)
Definition settle (p : promise) (r : result unit unit) (s : world) : world :=
  set_promise p (Settled r)
    (if bool_decide (w_runnerStart s = Some p) then set_runnerStart None s else s).

(** The head of the loop of [waitForLoopbackAndStartRunner]. *)
Definition waitForLoopbackAndStartRunner (p : promise) (s : world) : world :=
  if aborted s p.1 then startRunnerUnlessAborted p s else set_promise p Probing s.

(** [startRunnerWhenExecutorIsReady] and the loop of a deferred start, from one
    [await] to the next. A base URL that resolves has a loopback target, or none. *)
Definition promise_step (p : promise) (ans : answer) (s : world) : option world :=
  match promise_at s p, ans with
  | Some Resolving, Yes => Some (set_promise p Probing s)
  | Some Resolving, No => Some (startRunnerUnlessAborted p s)
  | Some Resolving, Fails => Some (set_promise p (Ended (Err tt)) s)
  | Some Probing, Yes => Some (startRunnerUnlessAborted p s)
  | Some Probing, No =>
      Some (if p.2 then set_promise p Sleeping s
            else if aborted s p.1 then set_promise p (Ended (Ok tt)) s
            else deferRunnerStart p.1 s)
  | Some Sleeping, Yes => Some (waitForLoopbackAndStartRunner p s)
  | Some SettingUp, Yes => Some (set_promise p (Ended (Ok tt)) (runner_started s))
  | Some SettingUp, Fails => Some (set_promise p (Ended (if p.2 then Ok tt else Err tt)) s)
  | Some (Ended r), Yes => Some (settle p r s)
  | _, _ => None
  end.

(** The guard of [startRunnerWhenExecutorIsReady]: the attempt it begins. *)
Definition request_runner (s : world) : option nat * world :=
  if external || w_closing s || bool_decide (is_Some (w_runner s)) || bool_decide (is_Some (w_runnerStart s))
  then (None, s)
  else let c := length (w_attempts s) in
    (Some c, set_runnerStart (Some (c, false)) (set_attempts (w_attempts s ++ [Attempt Resolving None false]) s)).

(** ** [start] *)

Definition set_body (i : nat) (b : body) (s : world) : world := set_bodies (<[i := b]> (w_bodies s)) s.

(** The body returns, or its [catch] lets the next call start again. *)
Definition body_end (i : nat) (r : result unit unit) (s : world) : world :=
  set_body i (BodyDone r) (if is_ok r then s else set_startPromise None s).

Definition body_step (i : nat) (ans : answer) (s : world) : option world :=
  match w_bodies s !! i, ans with
  | Some MakingUtils, Yes =>
      Some (set_body i MigratingQueue (set_workerUtils (Some (length (w_utils s))) (w_utils s ++ [true]) s))
  | Some MigratingQueue, Yes =>
      let '(c, s) := request_runner s in
      Some (match c with Some c => set_body i (AwaitingRunner c) s | None => body_end i (Ok tt) s end)
  | Some (MakingUtils | MigratingQueue), Fails => Some (body_end i (Err tt) s)
  | Some (AwaitingRunner c), Yes =>
      match promise_at s (c, false) with Some (Settled r) => Some (body_end i r s) | _ => None end
  | _, _ => None
  end.

Definition add_starter (x : starter) (s : world) : world := set_starters (w_starters s ++ [x]) s.
Definition set_starter (j : nat) (x : starter) (s : world) : world := set_starters (<[j := x]> (w_starters s)) s.

(** A call of [start] up to its first [await]. *)
Definition call_start (s : world) : world :=
  if w_closing s then add_starter (Started (Ok tt)) s else
  match w_startPromise s with
  | Some i => add_starter (AwaitingBody i) s
  | None =>
      let i := length (w_bodies s) in
      add_starter (AwaitingBody i) (set_startPromise (Some i) (set_bodies (w_bodies s ++ [MakingUtils]) s))
  end.

Definition starter_step (j : nat) (s : world) : option world :=
  match w_starters s !! j with
  | Some (AwaitingBody i) =>
      match w_bodies s !! i with
      | Some (BodyDone (Ok _)) =>
          if negb (w_closing s) && negb (bool_decide (is_Some (w_runner s))) && negb (bool_decide (is_Some (w_runnerStart s)))
          then let '(c, s) := request_runner s in
               Some (set_starter j (match c with Some c => AwaitingAttempt c | None => Started (Ok tt) end) s)
          else Some (set_starter j (Started (Ok tt)) s)
      | Some (BodyDone (Err e)) => Some (set_starter j (Started (Err e)) s)
      | _ => None
      end
  | Some (AwaitingAttempt c) =>
      match promise_at s (c, false) with Some (Settled r) => Some (set_starter j (Started r) s) | _ => None end
  | _ => None
  end.

(** ** [close] *)

Definition add_closer (x : closer) (s : world) : world := set_closers (w_closers s ++ [x]) s.
Definition set_closer (m : nat) (x : closer) (s : world) : world := set_closers (<[m := x]> (w_closers s)) s.

Definition call_close (s : world) : world :=
  let s := set_closing s in
  match w_runnerStart s with
  | Some p => add_closer (AwaitAttempt p) (abort p.1 s)
  | None => add_closer (AwaitStart (w_startPromise s)) s
  end.

(** What [close] goes on with behind the utils, the runner and the start. *)
Definition behind_utils (m : nat) (s : world) : world := set_closer m ClosingLocal (set_startPromise None s).
Definition behind_runner (m : nat) (s : world) : world :=
  match w_workerUtils s with Some u => set_closer m (ReleasingUtils u) s | None => behind_utils m s end.
Definition behind_start (m : nat) (s : world) : world :=
  match w_runner s with Some k => set_closer m (StoppingRunner k) s | None => behind_runner m s end.

Definition closer_step (m : nat) (ans : answer) (s : world) : option world :=
  match w_closers s !! m, ans with
  | Some (AwaitAttempt p), Yes =>
      match promise_at s p with
      | Some (Settled (Ok _)) => Some (set_closer m (AwaitStart (w_startPromise s)) (set_runnerStart None s))
      | Some (Settled (Err e)) => Some (set_closer m (Closed (Err e)) s)
      | _ => None
      end
  | Some (AwaitStart None), Yes => Some (behind_start m s)
  | Some (AwaitStart (Some i)), Yes =>
      match w_bodies s !! i with Some (BodyDone _) => Some (behind_start m s) | _ => None end
  | Some (StoppingRunner k), Yes => Some (behind_runner m (set_runner None (<[k := false]> (w_runners s)) s))
  | Some (ReleasingUtils u), Yes => Some (behind_utils m (set_workerUtils None (<[u := false]> (w_utils s)) s))
  | Some ClosingLocal, Yes => Some (set_closer m (Closed (Ok tt)) s)
  | Some (StoppingRunner _ | ReleasingUtils _ | ClosingLocal), Fails => Some (set_closer m (Closed (Err tt)) s)
  | _, _ => None
  end.

(** ** The queue as a transition system *)

(** A call, or the answer to the [await] a call is at. *)
Inductive label :=
| CallStart
| CallClose
| AtPromise (p : promise) (ans : answer)
| AtBody (i : nat) (ans : answer)
| AtStarter (j : nat)
| AtCloser (m : nat) (ans : answer).

Definition world_step (s : world) (l : label) : option world :=
  match l with
  | CallStart => Some (call_start s)
  | CallClose => Some (call_close s)
  | AtPromise p ans => promise_step p ans s
  | AtBody i ans => body_step i ans s
  | AtStarter j => starter_step j s
  | AtCloser m ans => closer_step m ans s
  end.

Fixpoint world_steps (s : world) (ls : list label) : option world :=
  match ls with [] => Some s | l :: ls => world_step s l ≫= fun s => world_steps s ls end.
End World.

(** ** The world around it *)

(** What [close] of the world has done: the listener closed, the queue closed,
    the pool ended. *)
Inductive closing_effect := ListenerClosed | QueueClosed | WorldPoolEnded.

(** [close] of a world: [queue_closes] is what the [close] of its queue comes to. *)
Definition closeWorld (own_pool : bool) (queue_closes : result unit unit) (closed : bool) :
    result unit unit * bool * list closing_effect :=
  if closed then (Ok tt, true, [])
  else match queue_closes with
       | Err e => (Err e, true, [ListenerClosed])
       | Ok _ => (Ok tt, true, [ListenerClosed; QueueClosed] ++ if own_pool then [WorldPoolEnded] else [])
       end.
