(* ===== verification/Sweeps.v ===== *)
(** The two intervals of a running dispatcher and its stop
    (src/dispatcher/runner.ts: [collectQueues], [sweepTimers], [stop]). *)
From S2P Require Import Prelude.

(** Where a call of [sweepTimers] is: registering the timer task, moving the
    deliveries, collecting the queues they left empty, or over. *)
Inductive sweep := Registering | Moving | Collecting | SweepDone.

(** Where a call of [stop] is. *)
Inductive stopper := StoppingRunner | ReleasingUtils (runner : result unit unit) | StopReturned (r : result unit unit).

(** What has been done to the database. *)
Inductive sweep_effect := TaskRegistered | DeliveriesMoved (jobs : nat) | QueuesCollected.

Record sweeper := Sweeper {
  sp_sweeping : bool;
  sp_timerTaskRegistered : bool;
  sp_cleared : bool;  (** both intervals *)
  sp_sweeps : list sweep;
  sp_stops : list stopper;
  sp_effects : list sweep_effect
}.

Inductive sweep_event :=
| GcFired (ok : bool)                     (** [collectQueues] swallows a failure *)
| SweepFired
| SweepAnswered (i : nat) (answer : option nat)  (** [None] for an exception *)
| StopAsked
| StopAnswered (j : nat) (ok : bool).

Definition begin_sweep (s : sweeper) : sweeper :=
  if sp_sweeping s then s else
  Sweeper true (sp_timerTaskRegistered s) (sp_cleared s)
    (sp_sweeps s ++ [if sp_timerTaskRegistered s then Moving else Registering]) (sp_stops s) (sp_effects s).

(** The [finally] of a sweep. *)
Definition end_sweep (i : nat) (es : list sweep_effect) (s : sweeper) : sweeper :=
  Sweeper false (sp_timerTaskRegistered s) (sp_cleared s) (<[i := SweepDone]> (sp_sweeps s)) (sp_stops s) (sp_effects s ++ es).

Definition sweep_goes_on (i : nat) (x : sweep) (registered : bool) (es : list sweep_effect) (s : sweeper) : sweeper :=
  Sweeper (sp_sweeping s) registered (sp_cleared s) (<[i := x]> (sp_sweeps s)) (sp_stops s) (sp_effects s ++ es).

(** A collection that fails has been logged. *)
Definition sweep_answered (i : nat) (answer : option nat) (s : sweeper) : option sweeper :=
  match sp_sweeps s !! i, answer with
  | Some Registering, Some _ => Some (sweep_goes_on i Moving true [TaskRegistered] s)
  | Some Moving, Some moved =>
      Some (if (0 <? moved)%nat then sweep_goes_on i Collecting (sp_timerTaskRegistered s) [DeliveriesMoved moved] s
            else end_sweep i [DeliveriesMoved moved] s)
  | Some (Registering | Moving), None => Some (end_sweep i [] s)
  | Some Collecting, Some _ => Some (end_sweep i [QueuesCollected] s)
  | Some Collecting, None => Some (end_sweep i [] s)
  | _, _ => None
  end.

Definition set_stop (j : nat) (x : stopper) (s : sweeper) : sweeper :=
  Sweeper (sp_sweeping s) (sp_timerTaskRegistered s) (sp_cleared s) (sp_sweeps s) (<[j := x]> (sp_stops s)) (sp_effects s).

(** [runner.stop()], and the utils in its [finally] whatever it came to. *)
Definition stop_answered (j : nat) (ok : bool) (s : sweeper) : option sweeper :=
  match sp_stops s !! j with
  | Some StoppingRunner => Some (set_stop j (ReleasingUtils (if ok then Ok tt else Err tt)) s)
  | Some (ReleasingUtils r) => Some (set_stop j (StopReturned (if ok then r else Err tt)) s)
  | _ => None
  end.

Definition sweeper_step (s : sweeper) (e : sweep_event) : option sweeper :=
  match e with
  | GcFired ok =>
      if sp_cleared s then None else
      Some (Sweeper (sp_sweeping s) (sp_timerTaskRegistered s) (sp_cleared s) (sp_sweeps s) (sp_stops s)
              (sp_effects s ++ if ok then [QueuesCollected] else []))
  | SweepFired => if sp_cleared s then None else Some (begin_sweep s)
  | SweepAnswered i answer => sweep_answered i answer s
  | StopAsked => Some (Sweeper (sp_sweeping s) (sp_timerTaskRegistered s) true (sp_sweeps s) (sp_stops s ++ [StoppingRunner]) (sp_effects s))
  | StopAnswered j ok => stop_answered j ok s
  end.

Fixpoint sweeper_steps (s : sweeper) (es : list sweep_event) : option sweeper :=
  match es with [] => Some s | e :: es => sweeper_step s e ≫= fun s => sweeper_steps s es end.

(** The dispatcher as it starts: the first sweep is under way. *)
Definition started_sweeper : sweeper := begin_sweep (Sweeper false false false [] [] []).
