(* ===== verification/Events.v ===== *)
(** Writing the event log: slot allocation, the in-band writer fence, the
    retried event insert, and the creation of a run with its [run_created]
    event (src/storage.ts, lines 92 to 635). *)
From S2P Require Import Prelude Model Paging Prog Slots Sdk Tenant RunRetention Schema.
Local Open Scope Z_scope.

(** ** The storage's closure: what [createEventsStorage] was given *)

(** [PendingFence]; [pf_cell] names the mutable cell of [consumed]. *)
Record pending_fence := PendingFence {
  pf_tenantId : string;
  pf_runId : string;
  pf_expected : Z;
  pf_occurredAt : option instant;
  pf_cell : N
}.

(** [s_fence] is the ambient [pendingFence] store, [s_ambientRetention] the
    ambient retention intent. *)
Record storage := Storage {
  s_tenantId : string;
  s_queueNamespace : option string;
  s_specVersion : Z;
  s_hookRetentionLimitMs : Z;
  s_maxEvents : Z;
  s_ambientRetention : option retention_class;
  s_fence : option pending_fence
}.

Definition SLOT_INSERT_MAX_ATTEMPTS : nat := 40.
Definition SLOT_INSERT_IMMEDIATE_ATTEMPTS : nat := 8.
Definition SLOT_INSERT_BASE_DELAY_MS : Z := 2.
Definition SLOT_INSERT_MAX_DELAY_MS : Z := 40.

(** The bound of the random delay after a collision; none for the first ones. *)
Definition slot_insert_delay (attempt : nat) : option Z :=
  if (SLOT_INSERT_IMMEDIATE_ATTEMPTS <=? attempt)%nat then
    Some (Z.min SLOT_INSERT_MAX_DELAY_MS
      (SLOT_INSERT_BASE_DELAY_MS * 2 ^ Z.of_nat (attempt - SLOT_INSERT_IMMEDIATE_ATTEMPTS)))
  else None.

(** [pgErr.code === "23505"] with the claim index as its constraint. *)
Definition isHookTokenClaimViolation (e : werror) : bool :=
  match e with UniqueViolation c => String.eqb c HOOK_TOKEN_CLAIM_UNIQUE | _ => false end.

(** [pgErrorOf(error).constraint] *)
Definition constraint_of (e : werror) : option string :=
  match e with UniqueViolation c => Some c | _ => None end.

Definition isCorrelatedEventUniqueViolation `{WorldSdk} (constraint : option string) (tenantId : string) : bool :=
  match constraint with
  | Some c => negb (String.eqb c "") &&
      (String.eqb c "workflow_events_entity_creation_unique" ||
       String.eqb c (dedupIndexName sha256_hex tenantId))
  | None => false
  end.

(** Whole seconds up, as [Math.ceil(x / n)]. *)
Definition ceil_div (a b : Z) : Z := - (- a / b).

Definition ownerRecheckSeconds (startedAt : option instant) (now : instant) : Z :=
  let running := match startedAt with Some t => now - t | None => 0 end in
  Z.min 300 (Z.max 30 (ceil_div running 10000)).

Definition ownerMessageIdOf (d : option step_data) : option string := d ← d; sd_ownerMessageId d.

(** [Number(WORKFLOW_POSTGRES_HOOK_RETENTION_LIMIT_DAYS ?? 30)] in whole
    milliseconds; instants are whole, so the part below one never decides. *)
Definition getHookRetentionLimitMs (days : option js_number) : result werror Z :=
  match default (JsFinite 30 1) days with
  | JsFinite n d => if n <=? 0 then Err (WorldError (Some 400) None) else Ok (n * DAY_MS / Zpos d)
  | _ => Err (WorldError (Some 400) None)
  end.

Definition DEFAULT_MAX_EVENTS_PER_RUN : Z := 25000.

(** [Number(process.env.WORKFLOW_MAX_EVENTS)], unset as [None]. *)
Definition getMaxEventsPerRun (raw : option js_number) : Z :=
  match raw ≫= js_integer with
  | Some n => if 0 <? n then n else DEFAULT_MAX_EVENTS_PER_RUN
  | None => DEFAULT_MAX_EVENTS_PER_RUN
  end.

Section Events.
Context `{WorldSdk}.

(** ** Slots *)

(** A slot expression for v6 runs, or a fresh legacy ULID for pre-v6 runs. *)
Definition allocateEventId (tenantId runId : string) : P event_id_expr :=
  let! marker := select (fun d => db_slots d !! (tenantId, runId)) in
  match marker with
  | Some _ => Ret IdNextSlot
  | None => let! u := ulid in Ret (IdText ("wevt_" +:+ u))
  end.

Definition advanceFence (fence : pending_fence) : P unit :=
  let! advanced := sql (bump_seq_in_band (pf_tenantId fence) (pf_runId fence) (pf_expected fence)) in
  if advanced : bool then Ret tt else
  let! current := select (fun d => db_slots d !! (pf_tenantId fence, pf_runId fence)) in
  match current with
  | None => Ret tt
  | Some n => Throw (InBandSuperseded n)
  end.

Definition fence_consumed (f : pending_fence) : P bool :=
  js (fun m => (bool_decide (pf_cell f ∈ m_consumed m), m)).
Definition consume_fence (f : pending_fence) : P unit :=
  js (fun m => (tt, Mem (m_now m) (m_ulids m) (m_collide m) (m_refs m) ({[pf_cell f]} ∪ m_consumed m))).

(** Whether a concurrent insert takes the slot the next [INSERT] computes. *)
Definition slot_collision : P bool :=
  js (fun m => match m_collide m with
    | b :: l => (b, Mem (m_now m) (m_ulids m) l (m_refs m) (m_consumed m))
    | [] => (false, m)
    end).

Definition allocates_slot (id : event_id_expr) : bool :=
  match id with IdNextSlot => true | IdText _ => false end.

(** The attempts of [insertEventRow]; [remaining] of them may still follow. *)
Fixpoint insert_attempts (remaining : nat) (fence : option pending_fence) (values : event_values) :
    P (option (string * instant)) :=
  let! collided := (if allocates_slot (vl_id values) then slot_collision else Ret false) in
  let! row := sql (if collided : bool then query (fun _ => None) else insert_event true values) in
  match row with
  | Some e =>
      match fence with
      | Some f => consume_fence f ;;; advanceFence f ;;; Ret (Some (ev_id e, ev_createdAt e))
      | None => Ret (Some (ev_id e, ev_createdAt e))
      end
  | None =>
      if allocates_slot (vl_id values) then
        match remaining with
        | O => Throw (WorldError (Some 503) None)
        | S remaining => insert_attempts remaining fence values
        end
      else Ret None
  end.

Definition with_createdAt (v : event_values) (t : option instant) : event_values :=
  match t with
  | Some t => EventValues (vl_tenant v) (vl_run v) (vl_id v) (vl_correlationId v) (vl_body v)
                (vl_specVersion v) (Some t)
  | None => v
  end.

Definition insertEventRow (store : option pending_fence) (values : event_values) :
    P (option (string * instant)) :=
  let! fence :=
    match store with
    | Some f =>
        let! consumed := fence_consumed f in
        Ret (if allocates_slot (vl_id values) && negb consumed &&
                String.eqb (pf_tenantId f) (vl_tenant values) && String.eqb (pf_runId f) (vl_run values)
             then Some f else None)
    | None => Ret None
    end in
  insert_attempts SLOT_INSERT_MAX_ATTEMPTS fence
    (with_createdAt values (f ← fence; pf_occurredAt f)).

Definition openEventSlots (tenantId runId : string) : P string :=
  sql (insert_slots tenantId runId) ;;; Ret (slotToEventId FIRST_EVENT_SLOT).

(** ** Runs *)

(** The run row, its slot marker and its first event. *)
Definition insert_run_and_event (runValues : instant -> result werror run_row) (eventData : run_input)
    (specVersion : option Z) : P (option (run_row * string * instant)) :=
  let! run := sql (insert_run runValues) in
  match run with
  | None => Ret None
  | Some run =>
      let! eventId := openEventSlots (run_tenant run) (run_id run) in
      let! created := sql (insert_event false
        (EventValues (run_tenant run) (run_id run) (IdText eventId) None (RunCreated eventData)
           specVersion None)) in
      match created with
      | Some e => Ret (Some (run, eventId, ev_createdAt e))
      | None => Throw PlainError
      end
  end.

(** [admission] declines by answering false; nothing is created then. What it
    decided, which the code keeps in a variable it closes over, is returned. *)
Definition insertRunWithCreatedEvent {D} (runValues : instant -> result werror run_row)
    (eventData : run_input) (specVersion : option Z) (admission : option (P (bool * D))) :
    P (option D * option (run_row * string * instant)) :=
  transaction (
    let! (admitted, decided) := match admission with
      | Some a => let! (b, x) := a in Ret (b, Some x)
      | None => Ret (true, None)
      end in
    if negb admitted then Ret (decided, None) else
    let! created := insert_run_and_event runValues eventData specVersion in
    Ret (decided, created)).

(** ** Reports *)

(** [order by id] *)
Definition order_by_id (l : list event_row) : list event_row := sort_by ev_id l.

(** The events occupying slots a stale writer skipped over. *)
Definition reportSkippedSlots (tenantId runId committedEventId : string) (askedFor : N)
    (resolveData : resolve_data) : P (option (list event_row * bool)) :=
  match eventIdToSlot committedEventId with
  | None => Ret None
  | Some committedSlot =>
      if ((askedFor <? FIRST_EVENT_SLOT) || (committedSlot <=? askedFor + 1))%N then Ret None else
      let! rows := select (fun d => order_by_id (filter (fun e =>
        str_lt (slotToEventId askedFor) (ev_id e) = true /\ str_lt (ev_id e) committedEventId = true)
        (run_events tenantId runId d))) in
      let skipped := map (fun e => stripEventDataRefs e resolveData) rows in
      Ret (Some (skipped, (N.of_nat (length skipped) <? committedSlot - askedFor - 1)%N))
  end.

(** The redirect of a delivery to a hook whose token was taken over. *)
Definition forceClaimRefusal (tenantId runId hookId : string) (requestToken : option string) :
    P (option werror) :=
  let! disposal := select (fun d => head (filter (fun e =>
    ev_correlationId e = Some hookId /\ ev_type e = hook_disposed) (run_events tenantId runId d))) in
  let disposalData :=
    match disposal with Some e => match ev_body e with HookDisposed d => d | _ => None end | None => None end in
  match (d ← disposalData; dd_forceClaimedBy d) with
  | None => Ret None
  | Some (claimerRun, claimerHook) =>
      let token := match requestToken with Some t => Some t | None => d ← disposalData; dd_token d end in
      let! successor :=
        match token with
        | None => Ret None
        | Some t => select (fun d => head (select_hooks tenantId (hookTokenEquals t) d))
        end in
      Ret (Some (HookForceClaimed (default "" token)
        (match successor with Some h => hk_run h | None => claimerRun end)
        (match successor with Some h => hk_id h | None => claimerHook end)))
  end.

(** Whether a worker holds the job of this message. A failed read answers no;
    the read runs in a savepoint, so the failure aborts only that. *)
Definition read_jobs (messageId : string) : STMT bool := fun d =>
  match db_jobs d with
  | None => Err BadSql
  | Some jobs => Ok (existsb (fun j =>
      bool_decide (jb_messageId j = Some messageId) &&
      match jb_lockedAt j with Some t => db_now d - 4 * 60 * 60 * 1000 <? t | None => false end) jobs, d)
  end.

Definition deliveryInFlight (messageId : string) : P bool :=
  try_catch (transaction (sql (read_jobs messageId)))
    (fun r => Ret (match r with Ok b => b | Err _ => false end)).
End Events.
