(* ===== verification/StartHook.v ===== *)
(** Atomic start Hook admission (src/start-hook.ts): one immutable decision per
    candidate run, taken in the transaction that would create the run. *)
From S2P Require Import Prelude Model Prog Slots Sdk Schema Events.
Local Open Scope Z_scope.

(** [replayed] of an acceptance: the run already exists. *)
Inductive start_hook_decision :=
| DAccepted (replayed : bool)
| DRejected (conflictingRunId : string)
| DOrdinary.
#[export] Instance start_hook_decision_eq_dec : EqDecision start_hook_decision.
Proof. solve_decision. Defined.

Section StartHook.
Context `{WorldSdk}.

Definition admittedStartHook (runId : string) (h : start_hook) : start_hook :=
  StartHook (sh_token h) (sh_tokenRetentionUntil h) (sh_metadata h) (Some (startHookId runId)).

(** What the run row keeps: no metadata. *)
Definition runStartHook (runId : string) (h : start_hook) : start_hook :=
  StartHook (sh_token h) (sh_tokenRetentionUntil h) None (Some (startHookId runId)).

Definition assertStartHookAdmissible (h : start_hook) (retentionLimitMs : Z) : P unit :=
  match sh_tokenRetentionUntil h with
  | None => Ret tt
  | Some until =>
      let! now := Date_now in
      if now + retentionLimitMs <? until then Throw (WorldError (Some 400) (Some "invalid"))
      else Ret tt
  end.

Definition startHookCandidateExpired : werror := WorldError (Some 400) (Some "expired").

Definition startHookConflict (h : start_hook) (conflictingRunId : string) : werror :=
  HookConflict (sh_token h) conflictingRunId.

(** The decision recorded for the candidate, if any. *)
Definition recordedDecision (tenantId runId : string) (h : start_hook) : P (option start_hook_decision) :=
  let! existing := select (fun d => db_admissions d !! (tenantId, runId)) in
  match existing with
  | None => Ret None
  | Some a =>
      if String.eqb (ad_token a) (sh_token h) then
        Ret (Some match ad_decision a with
                  | Accepted => DAccepted true
                  | Rejected c => DRejected (default "" c)
                  end)
      else Throw (WorldError (Some 400) (Some "token_mismatch"))
  end.

Definition recordDecision (tenantId runId : string) (h : start_hook) (row : admission_decision)
    (decided : start_hook_decision) : P start_hook_decision :=
  let! inserted := sql (insert_admission (fun now => AdmissionRow tenantId runId (sh_token h) row now)) in
  if inserted : bool then Ret decided else
  let! recorded := recordedDecision tenantId runId h in
  match recorded with
  | None => Throw (WorldError (Some 503) None)
  | Some r =>
      match row, r with
      | Accepted, DRejected _ | Accepted, DOrdinary => Throw (WorldError (Some 503) None)
      | _, _ => Ret r
      end
  end.

(** At most 100 decisions older than every candidate window, and an hour. *)
Definition deleteExpiredDecisions : P unit :=
  let! now := Date_now in
  sql (delete_old_admissions (now - START_HOOK_CANDIDATE_MAX_AGE_MS - 60 * 60 * 1000) 100).

(** The run of a row of the token that still holds it, other than the candidate's. *)
Definition findActiveTokenOwner (tenantId runId token : string) : P (option string) :=
  select (fun d => option_map hk_run (head (select_hooks tenantId (fun x =>
    hookTokenEquals token x && negb (String.eqb (hk_run x) runId) && hookAvailable tenantId d x) d))).

Definition start_hook_row (tenantId runId : string) (h : start_hook) (specVersion : Z) : hook_row :=
  HookRow tenantId runId (startHookId runId) (sh_token h) (sh_tokenRetentionUntil h) (sh_metadata h)
    (Some specVersion) (Some false) (Some false) None true.

(** [runId.replace(/^wrun_/, "")] *)
Definition strip_wrun (runId : string) : string :=
  if String.prefix "wrun_" runId then String.substring 5 (String.length runId - 5) runId else runId.

Definition decideStartHookAdmission (tenantId runId : string) (h : start_hook) (specVersion : Z) :
    P start_hook_decision :=
  let! recorded := recordedDecision tenantId runId h in
  match recorded with
  | Some r => Ret r
  | None =>
  let! now := Date_now in
  if match ulidToDate (strip_wrun runId) with
     | Some t => START_HOOK_CANDIDATE_MAX_AGE_MS <? now - t
     | None => false
     end
  then Throw startHookCandidateExpired else
  let! run := select (get_run tenantId runId) in
  match run with
  | Some _ => Ret DOrdinary
  | None =>
  deleteExpiredDecisions ;;;
  sql (delete_hooks tenantId (fun d x =>
    hookTokenEquals (sh_token h) x && ownerRunIsTerminal tenantId d x && hookRetentionEnded d x)) ;;;
  let! owner := findActiveTokenOwner tenantId runId (sh_token h) in
  let! startHookRow :=
    match owner with
    | Some o => if String.eqb o "" then sql (insert_hook Untargeted (start_hook_row tenantId runId h specVersion))
                else Ret None
    | None => sql (insert_hook Untargeted (start_hook_row tenantId runId h specVersion))
    end in
  match startHookRow with
  | Some _ => recordDecision tenantId runId h Accepted (DAccepted false)
  | None =>
      let! raced := recordedDecision tenantId runId h in
      match raced with
      | Some r => Ret r
      | None =>
          let! conflictingRunId :=
            match owner with
            | Some o => Ret (Some o)
            | None => findActiveTokenOwner tenantId runId (sh_token h)
            end in
          if truthy conflictingRunId then
            let c := default "" conflictingRunId in
            recordDecision tenantId runId h (Rejected (Some c)) (DRejected c)
          else Throw (WorldError (Some 503) None)
      end
  end end end.
End StartHook.
