(* ===== verification/CreateRun.v ===== *)
(** [events.create] on the events of a run: its creation, direct or through a
    resilient [run_started]; its start; its end; its attributes; and the
    handler of runs that predate event sourcing (src/storage.ts, lines 836 to
    2067). *)
From S2P Require Import Prelude Model Prog Slots Sdk RunRetention Schema Events StartHook.
Local Open Scope Z_scope.

(** ** Row updates: the [set] clauses *)

Definition run_update (r : run_row) (status : RunStatus.t) (output error : option payload)
    (errorCode : option string) (attributes : gmap string string) (updatedAt : instant)
    (startedAt completedAt : option instant) : run_row :=
  RunRow (run_tenant r) (run_id r) (run_deploymentId r) (run_workflowName r) status
    (run_queueNamespace r) (run_specVersion r) (run_input_ r) output error errorCode
    (run_executionContext r) (run_encryptionPublicKey r) attributes (run_createdAt r) updatedAt
    startedAt completedAt (run_retentionClass r) (run_retentionRootRunId r)
    (run_compactAfter r) (run_expireAfter r) (run_detailExpireAfter r) (run_startHook r).

Definition set_run_started (now : instant) (r : run_row) : run_row :=
  run_update r RunStatus.running (run_output r) (run_error r) (run_errorCode r) (run_attributes r)
    now (Some now) (run_completedAt r).
(** A column set to [undefined] is left out of the [set] clause. *)
Definition set_run_completed (output : option payload) (now : instant) (r : run_row) : run_row :=
  run_update r RunStatus.completed (match output with Some o => Some o | None => run_output r end)
    (run_error r) (run_errorCode r) (run_attributes r) now (run_startedAt r) (Some now).
Definition set_run_failed (error : option payload) (errorCode : option string) (now : instant)
    (r : run_row) : run_row :=
  run_update r RunStatus.failed (run_output r) (match error with Some e => Some e | None => run_error r end)
    (match errorCode with Some c => Some c | None => run_errorCode r end) (run_attributes r) now
    (run_startedAt r) (Some now).
Definition set_run_cancelled (now : instant) (r : run_row) : run_row :=
  run_update r RunStatus.cancelled (run_output r) (run_error r) (run_errorCode r) (run_attributes r)
    now (run_startedAt r) (Some now).

(** [jsonb_set] for a set, [-] for a removal. *)
Definition apply_change (m : gmap string string) (c : attr_change) : gmap string string :=
  match ac_value c with Some v => <[ac_key c := v]> m | None => delete (ac_key c) m end.
Definition apply_changes (cs : list attr_change) (m : gmap string string) : gmap string string :=
  fold_left apply_change cs m.
Definition set_run_attributes (cs : list attr_change) (now : instant) (r : run_row) : run_row :=
  run_update r (run_status r) (run_output r) (run_error r) (run_errorCode r)
    (apply_changes cs (run_attributes r)) now (run_startedAt r) (run_completedAt r).

(** [filterRunData]: without the payloads under [resolveData: "none"]. *)
Definition filterRunData (r : run_row) (resolveData : resolve_data) : run_row :=
  match resolveData with
  | ResolveNone =>
      RunRow (run_tenant r) (run_id r) (run_deploymentId r) (run_workflowName r) (run_status r)
        (run_queueNamespace r) (run_specVersion r) None None (run_error r) (run_errorCode r)
        (run_executionContext r) (run_encryptionPublicKey r) (run_attributes r) (run_createdAt r)
        (run_updatedAt r) (run_startedAt r) (run_completedAt r) (run_retentionClass r)
        (run_retentionRootRunId r) (run_compactAfter r) (run_expireAfter r) (run_detailExpireAfter r)
        (run_startHook r)
  | _ => r
  end.

Section CreateRun.
Context `{WorldSdk} (s : storage).
Local Notation tenantId := (s_tenantId s).

(** ** Reads of the validation *)

Record run_state := RunState { rs_status : RunStatus.t; rs_specVersion : option Z }.
Definition run_state_of (r : run_row) : run_state := RunState (run_status r) (run_specVersion r).

Definition getRunForValidation (runId : string) : P (option run_state) :=
  select (fun d => option_map run_state_of (get_run tenantId runId d)).

Definition select_run (runId : string) : P (option run_row) := select (get_run tenantId runId).

Definition max_events (run : option run_row) : option Z :=
  match run with Some _ => Some (s_maxEvents s) | None => None end.

(** The stored class of an ancestor; the column only ever holds a class. *)
Definition class_of_text (t : string) : retention_class :=
  match resolveRunRetentionClass (Some t) None with Ok c => c | Err _ => Interactive end.

Definition getAncestorRetention (runId : string) : P (option run_retention_identity) :=
  select (fun d => option_map (fun r =>
    RetentionIdentity (class_of_text (run_retentionClass r)) (run_retentionRootRunId r))
    (get_run tenantId runId d)).

Definition resolveCreationRetention (runId : string) (ri : run_input) : P run_retention_identity :=
  resolveRunRetentionForCreation (s_ambientRetention s) runId (ri_retentionClass ri)
    (ri_attributes ri) getAncestorRetention.

(** ** Creating a run *)

Definition attribute_entries (ri : run_input) : list attr_change :=
  map (fun kv => AttrChange kv.1 (Some kv.2)) (default [] (ri_attributes ri)).

Definition run_values (runId : string) (ri : run_input) (startHook : option start_hook)
    (specVersion : Z) (rr : run_retention_identity) (now : instant) : result werror run_row :=
  result_bind (not_null "deployment_id" (ri_deploymentId ri)) (fun deploymentId =>
  result_bind (not_null "name" (ri_workflowName ri)) (fun workflowName =>
  Ok (RunRow tenantId runId deploymentId workflowName RunStatus.pending
        (Some (default "" (s_queueNamespace s))) (Some specVersion) (ri_input ri) None None None
        (ri_executionContext ri) (ri_encryptionPublicKey ri)
        (list_to_map (default [] (ri_attributes ri))) now now None None
        (class_text (rr_class rr)) (rr_root rr) None None None
        (option_map (runStartHook runId) startHook)))).

(** The stored [run_created] names the start Hook's id. *)
Definition created_event_data (runId : string) (ri : run_input) (startHook : option start_hook) : run_input :=
  RunInput (ri_deploymentId ri) (ri_workflowName ri) (ri_input ri) (ri_executionContext ri)
    (ri_attributes ri) (ri_allowReservedAttributes ri) (ri_encryptionPublicKey ri)
    (ri_retentionClass ri) (option_map (admittedStartHook runId) startHook).

Definition admits (x : start_hook_decision) : bool :=
  match x with DAccepted replayed => negb replayed | _ => false end.

(** Both creating writes: validate, resolve the retention, then decide and
    insert in one transaction. A refusal is thrown after its commit. *)
Definition createRun (runId : string) (ri : run_input) (startHook : option start_hook) (specVersion : Z) :
    P (option start_hook_decision * option (run_row * string * instant)) :=
  if negb (validateAttributeChanges (attribute_entries ri) [] (ri_allowReservedAttributes ri))
  then Throw AttributeInvalid else
  let! rr := resolveCreationRetention runId ri in
  let! (decided, created) := insertRunWithCreatedEvent
    (run_values runId ri startHook specVersion rr)
    (created_event_data runId ri startHook) (Some specVersion)
    (match startHook with
     | Some h => Some (let! x := decideStartHookAdmission tenantId runId h specVersion in
                       Ret (admits x, x))
     | None => None
     end) in
  match startHook, decided with
  | Some h, Some (DRejected c) => Throw (startHookConflict h c)
  | _, _ => Ret (decided, created)
  end.

(** Whether a [run_started] carries what creating its run takes. *)
Definition resilient_input (ri : run_input) : bool :=
  truthy (ri_deploymentId ri) && truthy (ri_workflowName ri) && bool_decide (is_Some (ri_input ri)).

(** A [run_started] for a run that is not there creates it first. *)
Definition resilientStart (runId : string) (ri : run_input) (specVersion : Z) : P (option run_state) :=
  if resilient_input ri then
    let! (_, created) := createRun runId ri (ri_startHook ri) specVersion in
    match created with
    | Some _ => Ret (Some (RunState RunStatus.pending (Some specVersion)))
    | None => getRunForValidation runId
    end
  else Ret None.

(** ** The branches: what each has set when the generic insert is reached *)

(** [ac_written] is the event's id and [createdAt] once it is in the log. *)
Record acc := Acc {
  ac_run : option run_row;
  ac_step : option step_row;
  ac_hook : option hook_row;
  ac_wait : option wait_row;
  ac_stepCreated : bool;
  ac_written : option (string * instant);
  ac_stored : body
}.
Definition acc0 (stored : body) : acc := Acc None None None None false None stored.

(** A branch ends in its accumulated state, or has answered already. *)
Inductive branch := Continue (a : acc) | Answer (r : event_result).

Definition result_of_run (run : option run_row) : event_result :=
  EventResult None run None None None false (max_events run) None.

Definition run_created_branch (runId : string) (ri : run_input) (specVersion : Z) (stored : body) : P branch :=
  let startHook := ri_startHook ri in
  let! (decided, created) := createRun runId ri startHook specVersion in
  match created, decided with
  | Some (run, eventId, createdAt), _ =>
      Ret (Continue (Acc (Some run) None None None false (Some (eventId, createdAt)) stored))
  | None, Some _ =>
      let! existingRun := select_run runId in
      let! existingEvent := select (fun d =>
        head (filter (fun e => ev_type e = run_created) (run_events tenantId runId d))) in
      match existingRun, existingEvent with
      | Some run, Some e =>
          Ret (Continue (Acc (Some run) None None None false (Some (ev_id e, ev_createdAt e)) stored))
      | _, _ => Throw (RunNotFound runId)
      end
  | None, None => Throw EntityConflict
  end.

Definition run_started_branch (runId : string) (currentRun : option run_state) (now : instant)
    (stored : body) : P branch :=
  let start : P branch :=
    let! run := sql (update_run tenantId runId true (fun _ => true) (set_run_started now)) in
    Ret (Continue (Acc run None None None false None stored)) in
  if bool_decide (option_map rs_status currentRun = Some RunStatus.running) then
    let! fullRun := select_run runId in
    match fullRun with
    | Some run => Ret (Answer (result_of_run (Some run)))
    | None => start
    end
  else start.

Definition run_not_terminal (r : run_row) : bool :=
  negb (bool_decide (run_status r ∈ TERMINAL_WORKFLOW_RUN_STATUSES)).

(** [run_completed], [run_failed] and [run_cancelled]: the guarded update, then
    the run's hooks, retained tokens apart, and waits. *)
Definition run_end_branch (runId : string) (set : run_row -> run_row) (stored : body) : P branch :=
  let! run := sql (update_run tenantId runId true run_not_terminal set) in
  match run with
  | Some _ => Ret tt
  | None =>
      let! existing := getRunForValidation runId in
      match existing with
      | None => Throw (RunNotFound runId)
      | Some r => if isTerminalWorkflowRunStatus (rs_status r) then Throw EntityConflict else Ret tt
      end
  end ;;;
  sql (delete_hooks tenantId (fun d h => String.eqb (hk_run h) runId && hookRetentionEnded d h)) ;;;
  sql (delete_waits tenantId runId) ;;;
  Ret (Continue (Acc run None None None false None stored)).

Definition attr_set_branch (runId : string) (correlationId : option string) (a : attr_data)
    (now : instant) (stored : body) : P branch :=
  let! duplicate :=
    if truthy correlationId && at_writerIsWorkflow a then
      select (fun d => bool_decide (filter (fun e =>
        ev_correlationId e = correlationId /\ ev_type e = attr_set) (run_events tenantId runId d) <> []))
    else Ret false in
  if duplicate : bool then Throw EntityConflict else
  let! existing := select_run runId in
  match existing with
  | None => Throw (RunNotFound runId)
  | Some r =>
      if negb (validateAttributeChanges (at_changes a) (elements (dom (run_attributes r)))
                 (at_allowReservedAttributes a))
      then Throw AttributeInvalid else
      let! run := sql (update_run tenantId runId false
        (fun r => (size (apply_changes (at_changes a) (run_attributes r)) <=? ATTRIBUTE_MAX_PER_RUN)%nat)
        (set_run_attributes (at_changes a) now)) in
      match run with
      | Some _ => Ret (Continue (Acc run None None None false None stored))
      | None =>
          let! stillExists := select_run runId in
          match stillExists with
          | None => Throw (RunNotFound runId)
          | Some _ => Throw AttributeInvalid
          end
      end
  end.

(** ** Runs that predate event sourcing *)

Definition insert_legacy_event (runId eventId : string) (rq : request) : P (option event_row) :=
  sql (insert_event false (EventValues tenantId runId (IdText eventId) (rq_correlationId rq)
    (rq_body rq) (Some (s_specVersion s)) None)).

Definition handleLegacyEventPostgres (runId eventId : string) (rq : request) (params : create_params) :
    P event_result :=
  let resolveData := match cp_resolveData params with Some ResolveNone => ResolveNone | _ => ResolveAll end in
  let answer (e : option event_row) :=
    EventResult (option_map (fun e => stripEventDataRefs
        (EventRow tenantId runId eventId (rq_body rq) (rq_correlationId rq) (rq_specVersion rq)
           (ev_createdAt e)) resolveData) e)
      None None None None false None None in
  match eventType rq with
  | run_cancelled =>
      let! now := Date_now in
      sql (update_run tenantId runId true (fun _ => true) (set_run_cancelled now)) ;;;
      sql (delete_hooks tenantId (fun _ h => String.eqb (hk_run h) runId)) ;;;
      sql (delete_waits tenantId runId) ;;;
      let! updatedRun := select_run runId in
      Ret (EventResult None (option_map (fun r => filterRunData r resolveData) updatedRun)
        None None None false None None)
  | wait_completed =>
      let! e := insert_legacy_event runId eventId rq in Ret (answer e)
  | hook_received =>
      let! e := transaction (
        let! runRow := select_run runId in
        match runRow with
        | None => Throw (RunNotFound runId)
        | Some r =>
            if isTerminalWorkflowRunStatus (run_status r) then Throw RunExpired
            else insert_legacy_event runId eventId rq
        end) in
      Ret (answer e)
  | _ => Throw PlainError
  end.
End CreateRun.
