(* ===== verification/CreateStep.v ===== *)
(** [events.create] on the events of a step (src/storage.ts, lines 1537 to 2440). *)
From S2P Require Import Prelude Model Prog Slots Sdk Schema Events CreateRun.
Local Open Scope Z_scope.

(** ** Row updates *)

Definition step_update (r : step_row) (status : StepStatus.t) (output error : option payload)
    (attempt : Z) (startedAt completedAt retryAfter : option instant) (owner : option string) : step_row :=
  StepRow (st_tenant r) (st_run r) (st_id r) (st_name r) status (st_input r) output error attempt
    startedAt completedAt (st_createdAt r) retryAfter (st_specVersion r) owner.

(** [startedAt] keeps the first start; the retry time is cleared, and a bare
    start clears the owner. *)
Definition set_step_started (owner : option string) (now : instant) (r : step_row) : step_row :=
  step_update r StepStatus.running (st_output r) (st_error r) (st_attempt r + 1)
    (Some (default now (st_startedAt r))) (st_completedAt r) None owner.
Definition set_step_completed (result : option payload) (now : instant) (r : step_row) : step_row :=
  step_update r StepStatus.completed (match result with Some o => Some o | None => st_output r end)
    (st_error r) (st_attempt r) (st_startedAt r) (Some now) (st_retryAfter r) (st_ownerMessageId r).
Definition set_step_failed (error : option payload) (now : instant) (r : step_row) : step_row :=
  step_update r StepStatus.failed (st_output r) (match error with Some e => Some e | None => st_error r end)
    (st_attempt r) (st_startedAt r) (Some now) (st_retryAfter r) (st_ownerMessageId r).
Definition set_step_retrying (error : option payload) (retryAfter : option instant) (r : step_row) : step_row :=
  step_update r StepStatus.pending (st_output r) (match error with Some e => Some e | None => st_error r end)
    (st_attempt r) (st_startedAt r) (st_completedAt r)
    (match retryAfter with Some t => Some t | None => st_retryAfter r end) (st_ownerMessageId r).

Section CreateStep.
Context `{WorldSdk} (s : storage).
Local Notation tenantId := (s_tenantId s).

Definition step_not_terminal (r : step_row) : bool :=
  negb (bool_decide (st_status r ∈ TERMINAL_STEP_STATUSES)).

Definition getStepForValidation (runId : string) (stepId : option string) : P (option step_row) :=
  select (get_step tenantId runId stepId).

Definition step_values (runId : string) (stepId : option string) (d : step_data) (specVersion : Z)
    (now : instant) : result werror step_row :=
  result_bind (not_null "step_id" stepId) (fun id =>
  result_bind (not_null "step_name" (sd_stepName d)) (fun name =>
  Ok (StepRow tenantId runId id name StepStatus.pending (sd_input d) None None 0 None None now None
        (Some specVersion) None))).

(** Ordering and terminal-state checks ahead of [step_started] and [step_retrying]. *)
Definition validate_step (runId : string) (rq : request) (currentRun : option run_state)
    (lazyStepStart : bool) : P (option step_row) :=
  if bool_decide (eventType rq ∈ [step_started; step_retrying]) && truthy (rq_correlationId rq) then
    let! validatedStep := getStepForValidation runId (rq_correlationId rq) in
    match validatedStep with
    | None => if lazyStepStart then Ret None else Throw (WorldError None None)
    | Some st =>
        if lazyStepStart then Throw EntityConflict
        else if isTerminalStepStatus (st_status st) then Throw EntityConflict
        else if match currentRun with
                | Some r => isTerminalWorkflowRunStatus (rs_status r)
                | None => false
                end && negb (bool_decide (st_status st = StepStatus.running))
        then Throw RunExpired
        else Ret (Some st)
    end
  else Ret None.

Definition step_created_branch (runId : string) (stepId : option string) (d : step_data)
    (specVersion : Z) (stored : body) : P branch :=
  let! step := sql (insert_step (step_values runId stepId d specVersion)) in
  Ret (Continue (Acc None step None None false None stored)).

(** The lazy start's claim: the row, and the [step_created] replay must see
    before the start, unless the start itself stands for it. *)
Definition lazy_create (runId : string) (rq : request) (d : step_data) (specVersion : Z)
    (startCreatesStep : bool) : P unit :=
  let! inserted := sql (insert_step (step_values runId (rq_correlationId rq) d specVersion)) in
  match inserted with
  | None => Throw EntityConflict
  | Some _ =>
      if startCreatesStep then Ret tt else
      try_catch
        (let! id := allocateEventId tenantId runId in
         insertEventRow (s_fence s) (EventValues tenantId runId id (rq_correlationId rq)
           (StepCreated (StepData (sd_stepName d) (sd_input d) None)) (Some specVersion) None))
        (fun r => match r with
         | Ok _ => Ret tt
         | Err e => if isCorrelatedEventUniqueViolation (constraint_of e) tenantId then Ret tt else Throw e
         end)
  end.

(** A step already running keeps its owner while that delivery is in flight. *)
Definition check_owner (runId : string) (stepId : option string) (validatedStep : option step_row)
    (stepCreatedLazily : bool) (ownerMessageId : option string) (now : instant) : P unit :=
  let other o := bool_decide (is_Some o) && negb (bool_decide (o = ownerMessageId)) in
  if negb stepCreatedLazily &&
     match validatedStep with
     | Some v => bool_decide (st_status v = StepStatus.running) && other (st_ownerMessageId v)
     | None => false
     end
  then
    let! current := select (get_step tenantId runId stepId) in
    match current with
    | Some c =>
        match st_ownerMessageId c with
        | Some o =>
            if bool_decide (st_status c = StepStatus.running) && other (Some o) then
              let! inFlight := deliveryInFlight o in
              if inFlight : bool then Throw (TooEarly (ownerRecheckSeconds (st_startedAt c) now)) else Ret tt
            else Ret tt
        | None => Ret tt
        end
    | None => Ret tt
    end
  else Ret tt.

Definition check_retry_after (validatedStep : option step_row) : P unit :=
  match v ← validatedStep; st_retryAfter v with
  | Some t =>
      let! now := Date_now in
      if now <? t then
        let! later := Date_now in Throw (TooEarly (ceil_div (t - later) 1000))
      else Ret tt
  | None => Ret tt
  end.

(** What a guarded update that met no row answers. *)
Definition step_not_updated (status : option StepStatus.t) : P unit :=
  match status with
  | None => Throw (WorldError None None)
  | Some st => if isTerminalStepStatus st then Throw EntityConflict else Ret tt
  end.

Definition step_started_tx (runId : string) (rq : request) (d : option step_data)
    (validatedStep : option step_row) (lazyStepStart startCreatesStep : bool) (specVersion : Z)
    (now : instant) (stored : body) : P (option step_row * bool * (string * instant)) :=
  transaction (
    let stepId := rq_correlationId rq in
    let! stepCreatedLazily :=
      if lazyStepStart && bool_decide (validatedStep = None) then
        lazy_create runId rq (default (StepData None None None) d) specVersion startCreatesStep ;;; Ret true
      else Ret false in
    let ownerMessageId := ownerMessageIdOf d in
    check_owner runId stepId validatedStep stepCreatedLazily ownerMessageId now ;;;
    check_retry_after validatedStep ;;;
    let! step := sql (update_step tenantId runId stepId step_not_terminal
                        (set_step_started ownerMessageId now)) in
    match step with
    | Some _ => Ret tt
    | None =>
        let! existing := select (get_step tenantId runId stepId) in
        step_not_updated (option_map st_status existing)
    end ;;;
    let! id := allocateEventId tenantId runId in
    let! eventValue := insertEventRow (s_fence s) (EventValues tenantId runId id stepId stored
      (Some specVersion) None) in
    match eventValue with
    | None => Throw EntityConflict
    | Some w => Ret (step, stepCreatedLazily, w)
    end).

Definition step_started_branch (runId : string) (rq : request) (d : option step_data)
    (validatedStep : option step_row) (lazyStepStart startCreatesStep : bool) (specVersion : Z)
    (now : instant) (stored : body) : P branch :=
  let! (step, stepCreatedLazily, w) := step_started_tx runId rq d validatedStep lazyStepStart
    startCreatesStep specVersion now stored in
  Ret (Continue (Acc None step None None stepCreatedLazily (Some w) stored)).

(** [step_completed], [step_failed] and [step_retrying]: the guarded update. *)
Definition step_update_branch (runId : string) (stepId : option string) (set : step_row -> step_row)
    (stored : body) : P branch :=
  let! step := sql (update_step tenantId runId stepId step_not_terminal set) in
  match step with
  | Some _ => Ret tt
  | None =>
      let! existing := getStepForValidation runId stepId in
      step_not_updated (option_map st_status existing)
  end ;;;
  Ret (Continue (Acc None step None None false None stored)).
End CreateStep.
