(* ===== verification/CreateHook.v ===== *)
(** [events.create] on the events of hooks and waits: creation of a hook, with
    the forced takeover of its token; disposal; delivery; and the two wait
    events (src/storage.ts, lines 1594 to 1628 and 2442 to 3120). *)
From S2P Require Import Prelude Model Prog Slots Sdk Tenant Schema Events CreateRun.
Local Open Scope Z_scope.

(** What a takeover attempt found: the token free, already this hook's, not to
    be taken, or taken. *)
Inductive takeover :=
| TFree
| TOwned
| TRefused (conflictingRunId : string)
| TTaken (inserted : option hook_row) (journaled : string * instant) (data : hook_data).

(** How the creation of a hook ended: created and journaled; an orphaned row
    whose event the generic insert still writes; or a [hook_conflict], with
    whether a takeover was declined over the victim's version. *)
Inductive hook_outcome :=
| HWritten (hook : option hook_row) (written : string * instant) (stored : body)
| HOrphan (hook : option hook_row)
| HConflict (victimSpecVersion : bool) (conflictingRunId : option string).

Section CreateHook.
Context `{WorldSdk} (s : storage).
Local Notation tenantId := (s_tenantId s).

(** The hook must exist; a hook another run took over redirects its delivery. *)
Definition validate_hook (runId : string) (rq : request) : P unit :=
  if isHookEventRequiringExistence (eventType rq) && truthy (rq_correlationId rq) then
    let hookId := default "" (rq_correlationId rq) in
    let! existingHook := select (get_hook tenantId hookId) in
    match existingHook with
    | Some _ => Ret tt
    | None =>
        let! refusal :=
          match rq_body rq with
          | HookReceived token _ => forceClaimRefusal tenantId runId hookId token
          | _ => Ret None
          end in
        match refusal with
        | Some e => Throw e
        | None => Throw (HookNotFound hookId)
        end
    end
  else Ret tt.

(** ** [hook_created] *)

(** The row a token resolves to: held by a live run, or retained. *)
Definition getHookByToken (token : string) : P (option hook_row) :=
  select (fun d => head (select_hooks tenantId (fun h => hookTokenEquals token h && hookAvailable tenantId d h) d)).

Definition hookRow (runId : string) (hookId : option string) (d : hook_data) (specVersion : Z)
    (claimedFrom : option claimed_from) : result werror hook_row :=
  result_bind (not_null "hook_id" hookId) (fun id =>
  Ok (HookRow tenantId runId id (hd_token d) (hd_tokenRetentionUntil d) (hd_metadata d)
        (Some specVersion) (Some (default true (hd_isWebhook d))) (Some (default false (hd_isSystem d)))
        claimedFrom true)).

Definition insert_hook_values (clause : hook_conflict_clause) (row : result werror hook_row) :
    STMT (option hook_row) :=
  fun d => match row with Ok h => insert_hook clause h d | Err e => Err e end.

(** Translates the violation of the correlated-event index. *)
Definition journaledHookCreated {A} (write : P A) : P A :=
  try_catch write (fun r => match r with
    | Ok a => Ret a
    | Err e =>
        if isCorrelatedEventUniqueViolation (constraint_of e) tenantId then Throw EntityConflict
        else Throw e
    end).

(** The row and its event in one transaction; [None] when another hook has the
    claim, in which case nothing was written. *)
Definition insertFreshHook (runId : string) (hookId : option string) (d : hook_data)
    (specVersion : Z) (stored : body) : P (option (option hook_row * (string * instant))) :=
  try_catch (journaledHookCreated (transaction (
    sql (delete_hooks tenantId (fun db h =>
      hookTokenEquals (hd_token d) h && ownerRunIsTerminal tenantId db h && hookRetentionEnded db h)) ;;;
    let! hookValue := sql (insert_hook_values OnHookId (hookRow runId hookId d specVersion None)) in
    let! id := allocateEventId tenantId runId in
    let! eventValue := insertEventRow (s_fence s) (EventValues tenantId runId id hookId stored
      (Some specVersion) None) in
    match eventValue with
    | None => Throw EntityConflict
    | Some w => Ret (hookValue, w)
    end)))
  (fun r => match r with
   | Ok x => Ret (Some x)
   | Err e => if isHookTokenClaimViolation e then Ret None else Throw e
   end).

Definition answerLostClaim (runId : string) (hookId : option string) (token : string) : P hook_outcome :=
  let! owner := getHookByToken token in
  match owner with
  | None => Throw (WorldError (Some 503) None)
  | Some o =>
      if String.eqb (hk_run o) runId && bool_decide (hookId = Some (hk_id o)) then Throw EntityConflict
      else Ret (HConflict false (Some (hk_run o)))
  end.

(** An ordinary creation of a hook whose token looked free. *)
Definition create_fresh (runId : string) (hookId : option string) (d : hook_data)
    (specVersion : Z) (stored : body) : P hook_outcome :=
  let! created := insertFreshHook runId hookId d specVersion stored in
  match created with
  | Some (hook, w) => Ret (HWritten hook w stored)
  | None => answerLostClaim runId hookId (hd_token d)
  end.

Definition with_forceClaimedFrom (d : hook_data) (c : claimed_from) : hook_data :=
  HookData (hd_token d) (hd_metadata d) (hd_isWebhook d) (hd_isSystem d) (hd_tokenRetentionUntil d)
    (hd_force d) (Some c).

(** The writes of a takeover: the disposal of a live victim's hook journaled in
    the victim's run, its row deleted, ours inserted and journaled. *)
Definition takeover_write (runId : string) (hookId : option string) (d : hook_data) (specVersion : Z)
    (victim : hook_row) (live : option run_row) : P takeover :=
  let claimedFrom := ClaimedFrom (hk_run victim) (hk_id victim)
    (option_map run_workflowName live) (option_map run_deploymentId live)
    (r ← live; run_specVersion r) in
  match live with
  | None => Ret tt
  | Some r =>
      let! id := allocateEventId tenantId (hk_run victim) in
      let! disposed := insertEventRow (s_fence s) (EventValues tenantId (hk_run victim) id
        (Some (hk_id victim))
        (HookDisposed (Some (DisposeData (Some (hd_token d)) (option_map (pair runId) hookId))))
        (Some (default specVersion (run_specVersion r))) None) in
      match disposed with None => Throw EntityConflict | Some _ => Ret tt end
  end ;;;
  sql (delete_hooks tenantId (fun _ h => String.eqb (hk_id h) (hk_id victim))) ;;;
  let! inserted := sql (insert_hook_values NoClause (hookRow runId hookId d specVersion (Some claimedFrom))) in
  let data := with_forceClaimedFrom d claimedFrom in
  let! id := allocateEventId tenantId runId in
  let! journaled := insertEventRow (s_fence s) (EventValues tenantId runId id hookId (HookCreated data)
    (Some specVersion) None) in
  match journaled with
  | None => Throw EntityConflict
  | Some w => Ret (TTaken inserted w data)
  end.

Definition takeoverAttempt (runId : string) (hookId : option string) (d : hook_data) (specVersion : Z) :
    P takeover :=
  transaction (
    let byToken db := head (select_hooks tenantId (hookTokenEquals (hd_token d)) db) in
    let! found := select byToken in
    match found with
    | None => Ret TFree
    | Some candidate =>
    let! victimRun := select (get_run tenantId (hk_run candidate)) in
    let! locked := select (fun db => option_map (fun h => (h, hookRetained db h)) (byToken db)) in
    match locked with
    | None => Ret TFree
    | Some (victim, retained) =>
    let live := match victimRun with
      | Some r => if isTerminalWorkflowRunStatus (run_status r) then None else Some r
      | None => None
      end in
    if negb (String.eqb (hk_run victim) (hk_run candidate) && String.eqb (hk_id victim) (hk_id candidate))
    then Throw OwnerChanged
    else if String.eqb (hk_run victim) runId && bool_decide (hookId = Some (hk_id victim))
    then Ret TOwned
    else if bool_decide (is_Some victimRun) && bool_decide (live = None) && negb (retained : bool)
    then Ret TFree
    else if match live with
            | Some r => default SPEC_VERSION_LEGACY (run_specVersion r) <? SPEC_VERSION_SUPPORTS_HOOK_FORCE_CLAIM
            | None => false
            end
    then Ret (TRefused (hk_run victim))
    else takeover_write runId hookId d specVersion victim live
    end end).

Definition MAX_OWNER_CHANGES : nat := 5.

(** Attempts until the owner holds still; [remaining] more may follow. *)
Fixpoint takeover_loop (remaining : nat) (runId : string) (hookId : option string) (d : hook_data)
    (specVersion : Z) : P takeover :=
  try_catch (takeoverAttempt runId hookId d specVersion) (fun r => match r with
    | Ok t => Ret t
    | Err e =>
        if bool_decide (e = OwnerChanged) || isHookTokenClaimViolation e then
          match remaining with
          | O => Throw (WorldError (Some 503) None)
          | S remaining => takeover_loop remaining runId hookId d specVersion
          end
        else Throw e
    end).

Definition takeover_hook (runId : string) (hookId : option string) (d : hook_data)
    (specVersion : Z) (stored : body) : P hook_outcome :=
  let! t := journaledHookCreated (takeover_loop MAX_OWNER_CHANGES runId hookId d specVersion) in
  match t with
  | TFree => create_fresh runId hookId d specVersion stored
  | TOwned => Throw EntityConflict
  | TRefused c => Ret (HConflict true (Some c))
  | TTaken inserted w data => Ret (HWritten inserted w (HookCreated data))
  end.

(** The token is this very hook's: its creation is repeated, or completed when only
    its row was written. *)
Definition same_hook (runId : string) (hookId : option string) (existingId : string) : P hook_outcome :=
  let! existingEvent := select (fun db => head (filter (fun e =>
    ev_correlationId e = hookId /\ ev_type e = hook_created) (run_events tenantId runId db))) in
  match existingEvent with
  | Some _ => Throw EntityConflict
  | None =>
      let! recovered := select (get_hook tenantId existingId) in
      Ret (HOrphan recovered)
  end.

Definition create_hook (runId : string) (hookId : option string) (d : hook_data) (specVersion : Z)
    (stored : body) : P hook_outcome :=
  if match hookId with Some h => isStartHookId runId h | None => false end
  then Throw (WorldError (Some 400) None) else
  let! existingHook := getHookByToken (hd_token d) in
  match existingHook with
  | None => create_fresh runId hookId d specVersion stored
  | Some x =>
      if String.eqb (hk_run x) runId && bool_decide (hookId = Some (hk_id x)) then
        same_hook runId hookId (hk_id x)
      else if negb (hd_force d) then Ret (HConflict false (Some (hk_run x)))
      else takeover_hook runId hookId d specVersion stored
  end.

Definition hook_created_branch (runId : string) (hookId : option string) (d : hook_data) (specVersion : Z)
    (resolveData : resolve_data) (stored : body) : P branch :=
  let! outcome := create_hook runId hookId d specVersion stored in
  match outcome with
  | HWritten hook w stored => Ret (Continue (Acc None None hook None false (Some w) stored))
  | HOrphan hook => Ret (Continue (Acc None None hook None false None stored))
  | HConflict victimSpecVersion conflictingRunId =>
      let data := HookConflicted (ConflictData (hd_token d) conflictingRunId victimSpecVersion) in
      let! id := allocateEventId tenantId runId in
      let! conflictValue := insertEventRow (s_fence s) (EventValues tenantId runId id hookId data
        (Some specVersion) None) in
      match conflictValue with
      | None => Throw EntityConflict
      | Some (eventId, createdAt) =>
          Ret (Answer (EventResult
            (Some (stripEventDataRefs (EventRow tenantId runId eventId data hookId None createdAt) resolveData))
            None None None None false None None))
      end
  end.

(** ** [hook_disposed]: the row and the disposal in one transaction *)

Definition hook_disposed_branch (runId : string) (correlationId : option string) (specVersion : Z)
    (stored : body) : P branch :=
  if truthy correlationId then
    let disposedHookId := default "" correlationId in
    let! w := transaction (
      let! deleted := sql (delete_hooks tenantId (fun _ h => String.eqb (hk_id h) disposedHookId)) in
      match deleted with
      | [] => Throw EntityConflict
      | _ :: _ =>
          let! id := allocateEventId tenantId runId in
          let! eventValue := insertEventRow (s_fence s) (EventValues tenantId runId id
            (Some disposedHookId) stored (Some specVersion) None) in
          match eventValue with None => Throw EntityConflict | Some w => Ret w end
      end) in
    Ret (Continue (Acc None None None None false (Some w) stored))
  else Ret (Continue (acc0 stored)).

(** ** [hook_received]: only while the run is live and the hook there *)

Definition hook_received_tx (runId : string) (correlationId : option string) (token : option string)
    (specVersion : Z) (stored : body) : P (string * instant) :=
  let! runRow := select (get_run tenantId runId) in
  match runRow with
  | None => Throw (RunNotFound runId)
  | Some r =>
      if isTerminalWorkflowRunStatus (run_status r) then Throw RunExpired else
      (if truthy correlationId then
         let hookId := default "" correlationId in
         let! liveHook := select (get_hook tenantId hookId) in
         match liveHook with
         | Some _ => Ret tt
         | None =>
             let! refusal := forceClaimRefusal tenantId runId hookId token in
             match refusal with Some e => Throw e | None => Throw (HookNotFound hookId) end
         end
       else Ret tt) ;;;
      let! id := allocateEventId tenantId runId in
      let! eventValue := insertEventRow (s_fence s) (EventValues tenantId runId id correlationId stored
        (Some specVersion) None) in
      match eventValue with None => Throw EntityConflict | Some w => Ret w end
  end.

Definition hook_received_branch (runId : string) (correlationId : option string) (token : option string)
    (specVersion : Z) (stored : body) : P branch :=
  let! w := transaction (hook_received_tx runId correlationId token specVersion stored) in
  Ret (Continue (Acc None None None None false (Some w) stored)).

(** ** Waits *)

(** The template text of [data.correlationId]. *)
Definition waitId_of (runId : string) (correlationId : option string) : string :=
  runId +:+ "-" +:+ default "undefined" correlationId.

Definition set_wait_completed (now : instant) (w : wait_row) : wait_row :=
  WaitRow (wt_tenant w) (wt_id w) (wt_run w) WaitStatus.completed (wt_resumeAt w) (Some now)
    (wt_specVersion w).

Definition wait_created_branch (runId : string) (correlationId : option string) (resumeAt : option instant)
    (specVersion : Z) (stored : body) : P branch :=
  let! wait := sql (insert_wait (WaitRow tenantId (waitId_of runId correlationId) runId WaitStatus.waiting
    resumeAt None (Some specVersion))) in
  match wait with
  | Some _ => Ret (Continue (Acc None None None wait false None stored))
  | None => Throw EntityConflict
  end.

Definition wait_completed_branch (runId : string) (correlationId : option string) (now : instant)
    (stored : body) : P branch :=
  let waitId := waitId_of runId correlationId in
  let! wait := sql (update_wait tenantId waitId
    (fun w => bool_decide (wt_status w = WaitStatus.waiting)) (set_wait_completed now)) in
  match wait with
  | Some _ => Ret tt
  | None =>
      let! existing := select (get_wait tenantId waitId) in
      match existing with
      | None => Throw (WorldError None None)
      | Some w => if bool_decide (wt_status w = WaitStatus.completed) then Throw EntityConflict else Ret tt
      end
  end ;;;
  Ret (Continue (Acc None None None wait false None stored)).
End CreateHook.
