(* ===== verification/Reads.v ===== *)
(** The reading side of the storage, and the attributes written outside the
    event log: [createRunsStorage], [createHooksStorage] and
    [createStepsStorage] (src/storage.ts, lines 609 to 793 and 3381 to 3582). *)
From S2P Require Import Prelude Model Paging Prog Slots Sdk Schema Events CreateRun CreateHook.
Local Open Scope Z_scope.

(** ** What a response leaves out *)

Definition filterStepData (r : step_row) (resolveData : resolve_data) : step_row :=
  match resolveData with
  | ResolveNone =>
      StepRow (st_tenant r) (st_run r) (st_id r) (st_name r) (st_status r) None None (st_error r)
        (st_attempt r) (st_startedAt r) (st_completedAt r) (st_createdAt r) (st_retryAfter r)
        (st_specVersion r) (st_ownerMessageId r)
  | _ => r
  end.

Definition hook_with (h : hook_row) (metadata : option payload) (isWebhook : option bool) : hook_row :=
  HookRow (hk_tenant h) (hk_run h) (hk_id h) (hk_token h) (hk_tokenRetentionUntil h) metadata
    (hk_specVersion h) isWebhook (hk_isSystem h) (hk_claimedFrom h) (hk_claimsToken h).

Definition filterHookData (h : hook_row) (resolveData : resolve_data) : hook_row :=
  match resolveData with ResolveNone => hook_with h None (hk_isWebhook h) | _ => h end.

(** [parsed.isWebhook ??= true] *)
Definition webhook_default (h : hook_row) : hook_row :=
  hook_with h (hk_metadata h) (Some (default true (hk_isWebhook h))).

Section Reads.
Context `{WorldSdk} (tenantId : string).

Definition resolve_of (resolveData : option resolve_data) : resolve_data := default ResolveAll resolveData.

(** ** Runs *)

(** The tenant's runs that meet [p]. *)
Definition tenant_runs (p : run_row -> bool) (d : Db) : list run_row :=
  filter (fun r => run_tenant r = tenantId /\ p r = true) (map_to_list (db_runs d)).*2.

Definition runs_get (runId : string) (resolveData : option resolve_data) : P run_row :=
  let! value := select (get_run tenantId runId) in
  match value with
  | None => Throw (RunNotFound runId)
  | Some r => Ret (filterRunData r (resolve_of resolveData))
  end.

(** One query for the distinct ids; a miss answers [None] in its place. *)
Definition runs_getMany (ids : list string) (resolveData : option resolve_data) : P (list (option run_row)) :=
  let uniqueIds := remove_dups ids in
  match uniqueIds with
  | [] => Ret []
  | _ =>
      let! values := select (tenant_runs (fun r => bool_decide (run_id r ∈ uniqueIds))) in
      let runsById : gmap string run_row := list_to_map (rev
        (map (fun r => (run_id r, filterRunData r (resolve_of resolveData))) values)) in
      Ret (map (fun i => runsById !! i) ids)
  end.

(** [eq] on a status is [inArray] of it alone. *)
Definition runs_list (workflowName : option string) (status : option (list RunStatus.t))
    (limit : option nat) (cursor : option string) (resolveData : option resolve_data) : P (page run_row) :=
  select (fun d =>
    let pg := key_page run_id (default 20%nat limit) Desc cursor (tenant_runs (fun r =>
      (if truthy workflowName then String.eqb (run_workflowName r) (default "" workflowName) else true) &&
      match status with Some l => bool_decide (run_status r ∈ l) | None => true end) d) in
    Page (map (fun r => filterRunData r (resolve_of resolveData)) (pg_data pg)) (pg_cursor pg) (pg_hasMore pg)).

Definition experimentalSetAttributes (runId : string) (changes : list attr_change)
    (allowReservedAttributes : bool) : P (gmap string string) :=
  let! existing := select (get_run tenantId runId) in
  match existing with
  | None => Throw (RunNotFound runId)
  | Some r =>
      if negb (validateAttributeChanges changes (elements (dom (run_attributes r))) allowReservedAttributes)
      then Throw AttributeInvalid else
      let! now := Date_now in
      let! updated := sql (update_run tenantId runId false
        (fun r => (size (apply_changes changes (run_attributes r)) <=? ATTRIBUTE_MAX_PER_RUN)%nat)
        (set_run_attributes changes now)) in
      match updated with
      | Some r => Ret (run_attributes r)
      | None =>
          let! stillThere := select (get_run tenantId runId) in
          match stillThere with
          | None => Throw (RunNotFound runId)
          | Some _ => Throw AttributeInvalid
          end
      end
  end.

(** ** Hooks *)

Definition hooks_get (hookId : string) (resolveData : option resolve_data) : P hook_row :=
  let! value := select (fun d => match get_hook tenantId hookId d with
    | Some h => if hookAvailable tenantId d h then Some h else None
    | None => None
    end) in
  match value with
  | None => Throw (HookNotFound hookId)
  | Some h => Ret (filterHookData (webhook_default h) (resolve_of resolveData))
  end.

Definition hooks_getByToken (token : string) (resolveData : option resolve_data) : P hook_row :=
  let! value := select (fun d => head (select_hooks tenantId (fun h =>
    hookTokenEquals token h && hookAvailable tenantId d h) d)) in
  match value with
  | None => Throw (HookNotFound token)
  | Some h => Ret (filterHookData (webhook_default h) (resolve_of resolveData))
  end.

Definition listed_hooks (runId : option string) (d : Db) : list hook_row :=
  select_hooks tenantId (fun h => hookAvailable tenantId d h &&
    (if truthy runId then String.eqb (hk_run h) (default "" runId) else true)) d.

Definition hooks_list (runId : option string) (limit : option nat) (order : sort_order)
    (cursor : option string) (resolveData : option resolve_data) : P (page hook_row) :=
  select (fun d =>
    let pg := key_page hk_id (default 100%nat limit) order cursor (listed_hooks runId d) in
    Page (map (fun h => filterHookData h (resolve_of resolveData)) (pg_data pg)) (pg_cursor pg) (pg_hasMore pg)).

(** ** Steps *)

Definition run_steps (runId : string) (d : Db) : list step_row :=
  filter (fun s => st_tenant s = tenantId /\ st_run s = runId) (map_to_list (db_steps d)).*2.

Definition steps_get (runId stepId : string) (resolveData : option resolve_data) : P step_row :=
  let! value := select (get_step tenantId runId (Some stepId)) in
  match value with
  | None => Throw (WorldError None None)
  | Some s => Ret (filterStepData s (resolve_of resolveData))
  end.

Definition steps_list (runId : string) (limit : option nat) (cursor : option string)
    (resolveData : option resolve_data) : P (page step_row) :=
  select (fun d =>
    let pg := key_page st_id (default 20%nat limit) Desc cursor (run_steps runId d) in
    Page (map (fun s => filterStepData s (resolve_of resolveData)) (pg_data pg)) (pg_cursor pg) (pg_hasMore pg)).
End Reads.

(** ** Facts *)

(** A table's rows under one tenant have distinct ids when each is under its own key. *)
Lemma distinct_ids {R} (tenant id : R -> string) (m : gmap (string * string) R) (q : R -> Prop)
    `{!forall r, Decision (q r)} T :
  (forall k r, m !! k = Some r -> k = (tenant r, id r)) -> (forall r, q r -> tenant r = T) ->
  NoDup (map id (filter q (map_to_list m).*2)).
Proof.
  intros Hk Hq.
  assert (Hin : forall kr, kr ∈ map_to_list m -> kr.1 = (tenant kr.2, id kr.2)).
  { intros [k r] Hr. apply elem_of_map_to_list in Hr. by apply Hk. }
  pose proof (NoDup_fst_map_to_list m) as Hd. revert Hin Hd.
  induction (map_to_list m) as [|[k r] l IH]; intros Hin Hd; [constructor|].
  simpl in Hd. inversion_clear Hd as [|? ? Hn Hd']. cbn [fmap list_fmap snd].
  assert (IH' : NoDup (map id (filter q l.*2))) by (apply IH; [intros kr Hr; apply Hin; by right|done]).
  rewrite filter_cons. destruct (decide (q r)) as [Hqr|]; [|done].
  cbn [map]. constructor; [|done]. rewrite list_elem_of_fmap. intros (r' & Eid & Hr').
  apply list_elem_of_filter in Hr' as [Hqr' Hr']. apply list_elem_of_fmap in Hr' as ([k' r''] & -> & Hkr).
  apply Hn. apply list_elem_of_fmap. exists (k', r''). split; [|done]. simpl.
  assert (E1 : k = (tenant r, id r)) by (apply (Hin (k, r)); by left).
  assert (E2 : k' = (tenant r'', id r'')) by (apply (Hin (k', r'')); by right).
  simpl in Eid, Hqr'. by rewrite E1, E2, (Hq _ Hqr), (Hq _ Hqr'), Eid.
Qed.
