(* ===== verification/BootRecovery.v ===== *)
(** Recovery on start: the dispatcher's, of every tenant's runs that have nothing
    left to wake them (src/dispatcher/boot-recovery.ts), and the embedded one,
    of a tenant's active runs (src/recovery.ts). Log lines are left out. *)
From S2P Require Import Prelude Model Bytes Prog Paging Slots Sdk Tenant RunRetention Schema Contract Timers Events.
From S2P Require Import Dispatcher Reconciliation CreateRun Reads.
From stdpp Require Import sorting.
Local Open Scope Z_scope.

(** ** The job tables of graphile-worker, as the sweep reads them *)

Record held_job := HeldJob { hj_job : job; hj_maxAttempts : Z; hj_lockedBy : option string }.

(** The jobs, and the queues by name with the worker that has each locked. *)
Record graphile := Graphile { gr_jobs : list held_job; gr_queues : gmap string (option string) }.

(** One that graphile will still deliver. *)
Definition deliverable (j : held_job) : bool := j_attempts (hj_job j) <? hj_maxAttempts j.

(** Graphile's worker utils, which are not in this repository: what a call leaves
    of the tables. *)
Class GraphileUtils := {
  addJob : add_job -> graphile -> graphile;
  forceUnlockWorkers : list string -> graphile -> graphile
}.

(** The job a call asked for, as graphile inserts it: no attempt made, no worker's. *)
Definition scheduled (j : add_job) (h : held_job) : Prop :=
  (j_task (hj_job h), j_payload (hj_job h), j_queue (hj_job h), j_key (hj_job h)) =
    (aj_identifier j, aj_payload j, ts_queueName (aj_spec j), ts_jobKey (aj_spec j)) /\
  j_flags (hj_job h) = ts_flags (aj_spec j) /\ j_attempts (hj_job h) = 0 /\
  hj_maxAttempts h = ts_maxAttempts (aj_spec j) /\ hj_lockedBy h = None.

(** Jobs that differ in who holds them only. *)
Definition but_lock (h h' : held_job) : Prop :=
  (j_task (hj_job h'), j_payload (hj_job h'), j_queue (hj_job h'), j_key (hj_job h')) =
    (j_task (hj_job h), j_payload (hj_job h), j_queue (hj_job h), j_key (hj_job h)) /\
  j_attempts (hj_job h') = j_attempts (hj_job h) /\ hj_maxAttempts h' = hj_maxAttempts h.

(** A key names one job. *)
Definition keys_unique (g : graphile) : Prop := forall h h' k,
  h ∈ gr_jobs g -> h' ∈ gr_jobs g -> j_key (hj_job h) = Some k -> j_key (hj_job h') = Some k -> h = h'.

(** Its documented behaviour, in the default key mode: a call leaves the job it
    asked for; the job that had its key gives way, replaced, or, when a worker
    holds it, without its key and its attempts; every other job stays; the queue
    named is there, with those there were; a key names one job. Unlocking workers
    changes who holds a job and nothing else. *)
Class GraphileLaws `{GraphileUtils} : Prop := {
  gl_scheduled j g : exists h, h ∈ gr_jobs (addJob j g) /\ scheduled j h;
  gl_others j g h : ts_unsafeDedupe (aj_spec j) = false -> h ∈ gr_jobs g ->
    ts_jobKey (aj_spec j) = None \/ j_key (hj_job h) <> ts_jobKey (aj_spec j) -> h ∈ gr_jobs (addJob j g);
  gl_nothing_else j g h : h ∈ gr_jobs (addJob j g) -> h ∈ gr_jobs g \/ scheduled j h \/ deliverable h = false;
  gl_queue j g q : ts_queueName (aj_spec j) = Some q -> is_Some (gr_queues (addJob j g) !! q);
  gl_queues j g q : is_Some (gr_queues g !! q) -> is_Some (gr_queues (addJob j g) !! q);
  gl_keys j g : keys_unique g -> keys_unique (addJob j g);
  gl_unlock_jobs ws g : Forall2 but_lock (gr_jobs g) (gr_jobs (forceUnlockWorkers ws g));
  gl_unlock_queues ws g q : is_Some (gr_queues (forceUnlockWorkers ws g) !! q) <-> is_Some (gr_queues g !! q)
}.

(** [payload ->> 'runQueue'] *)
Definition payload_run_queue (p : stored) : option string :=
  match p with StoredMessage _ (Some (JStr q)) => Some q | _ => None end.

(** The queues that held timers go back to. *)
Definition timer_queues (g : graphile) : list string :=
  omap (fun j => if String.eqb (j_task (hj_job j)) TIMER_JOB_NAME && deliverable j
                 then payload_run_queue (j_payload (hj_job j)) else None) (gr_jobs g).

(** ** The sweep's rows *)

Record boot_row := BootRow {
  br_run : run_row;
  br_lockedBy : option string;
  br_liveJob : bool;
  br_hook : bool;
  br_timer : bool
}.

Definition queue_of_run (r : run_row) : string := "wfrun:" +:+ run_tenant r +:+ ":" +:+ run_id r.

Definition has_live_job (g : graphile) (r : run_row) : bool :=
  bool_decide (is_Some (gr_queues g !! queue_of_run r)) &&
    existsb (fun j => bool_decide (j_queue (hj_job j) = Some (queue_of_run r)) && deliverable j) (gr_jobs g) ||
  bool_decide (queue_of_run r ∈ timer_queues g).

Definition has_hook (d : Db) (r : run_row) : bool :=
  existsb (fun h => String.eqb (hk_tenant h) (run_tenant r) && String.eqb (hk_run h) (run_id r)) (hook_list d).

Definition has_timer (d : Db) (r : run_row) : bool :=
  existsb (fun w => String.eqb (wt_tenant w) (run_tenant r) && String.eqb (wt_run w) (run_id r) &&
    bool_decide (wt_status w = WaitStatus.waiting) && bool_decide (is_Some (wt_resumeAt w)))
    (map_to_list (db_waits d)).*2.

Definition boot_row_of (d : Db) (g : graphile) (r : run_row) : boot_row :=
  BootRow r (mjoin (gr_queues g !! queue_of_run r)) (has_live_job g r) (has_hook d r) (has_timer d r).

(** [order by runs.tenant_id, runs.created_at] *)
Definition boot_order (a b : run_row) : comparison :=
  lex (String.compare (run_tenant a) (run_tenant b)) (Z.compare (run_createdAt a) (run_createdAt b)).

Definition boot_rows (d : Db) (g : graphile) : list boot_row :=
  boot_row_of d g <$> sort_with boot_order
    (filter (fun r => run_active r && negb (quarantined d r) = true) ((map_to_list (db_runs d)).*2)).

(** [!row.has_live_job && (!row.has_hook || row.has_timer)] *)
Definition is_candidate (b : boot_row) : bool := negb (br_liveJob b) && (negb (br_hook b) || br_timer b).

(** ** Locks of the generation before *)

(** The jobs in no queue that a worker has locked. *)
Definition unqueued_workers (g : graphile) : list string :=
  remove_dups (omap (fun j =>
    if bool_decide (j_task (hj_job j) ∈ [FLOW_JOB_NAME; TIMER_JOB_NAME]) && bool_decide (j_queue (hj_job j) = None)
    then hj_lockedBy j else None) (gr_jobs g)).

Definition old_workers (rows : list boot_row) (g : graphile) : list string :=
  remove_dups (omap (fun b => given (br_lockedBy b)) rows ++ unqueued_workers g).

(** ** Pacing *)

(** [BootRecoveryPacing] *)
Record pacing := Pacing { pc_deploymentsPerWave : Z; pc_waveIntervalMs : Z }.

(** [BootRecoveryRun] *)
Record boot_run := BootRun {
  bn_tenantId : string; bn_runId : string; bn_workflowName : string; bn_deploymentId : string;
  bn_queueNamespace : option string
}.
Definition boot_run_of (r : run_row) : boot_run :=
  BootRun (run_tenant r) (run_id r) (run_workflowName r) (run_deploymentId r) (run_queueNamespace r).

Definition deployment_of (r : run_row) : string * string := (run_tenant r, run_deploymentId r).

(** [waveByDeployment]: a deployment not met before gets the wave its number is in. *)
Fixpoint wave_of (w : list ((string * string) * Z)) (dep : string * string) : option Z :=
  match w with
  | [] => None
  | (k, n) :: w => if decide (k = dep) then Some n else wave_of w dep
  end.
Definition add_wave (perWave : Z) (w : list ((string * string) * Z)) (r : run_row) : list ((string * string) * Z) :=
  match wave_of w (deployment_of r) with
  | Some _ => w
  | None => w ++ [(deployment_of r, Z.of_nat (length w) / perWave)]
  end.
Definition waves (perWave : Z) (rows : list run_row) : list ((string * string) * Z) :=
  fold_left (add_wave perWave) rows [].

Definition paced (p : option pacing) : option pacing :=
  match p with
  | Some p => if (0 <? pc_waveIntervalMs p) && (0 <? pc_deploymentsPerWave p) then Some p else None
  | None => None
  end.

(** ** The sweep *)

Section Recover.
Context `{WorldSdk} `{QueueSdk} `{GraphileUtils}.
(** [JSON.stringify], as UTF-8. *)
Context (JSON_stringify : json -> bytes).

(** The key: stable per run, but for the tenant. *)
Definition recover_key (r : run_row) : string := "msg_recover_" +:+ run_id r.

Definition recover_message (r : run_row) : message :=
  Message 1 None None (recover_key r) None None (run_workflowName r)
    (JSON_stringify (JObj [("runId", JStr (run_id r))])) (run_tenant r) (run_deploymentId r)
    (given (run_queueNamespace r)).

Definition recover_job (p : option pacing) (w : list ((string * string) * Z)) (sweepStartedAt : instant) (r : run_row) : add_job :=
  let wave := default 0 (wave_of w (deployment_of r)) in
  AddJob FLOW_JOB_NAME (StoredMessage (recover_message r) None)
    (TaskSpec (Some (recover_key r)) false
       ((fun p => sweepStartedAt + wave * pc_waveIntervalMs p) <$> p)
       (Some (runQueueName (run_tenant r) (run_id r))) MAX_GRAPHILE_JOB_ATTEMPTS (Some [tenantFlag (run_tenant r)])).

(** The candidates the host lets through: it answers with runs, looked up by
    tenant and run, or throws. *)
Definition kept_by_host (filterRuns : option (list boot_run -> result unit (list boot_run))) (rows : list run_row) :
    result unit (list run_row) :=
  match filterRuns with
  | None => Ok rows
  | Some f =>
      result_bind (f (boot_run_of <$> rows)) (fun kept =>
      Ok (filter (fun r => (run_tenant r, run_id r) ∈ (fun k => (bn_tenantId k, bn_runId k)) <$> kept) rows))
  end.

(** The workers unlocked; the calls of [addJob] that went well, or the host's
    throw; and graphile's tables after them. *)
Record recovery := Recovery {
  rv_unlocked : list string; rv_added : result unit (list add_job); rv_graphile : graphile
}.

(** The calls in their order. One that fails changes nothing. *)
Definition add_jobs (jobs : list add_job) (g : graphile) : graphile := fold_left (fun g j => addJob j g) jobs g.

Definition recoverActiveRunsForAllTenants (reclaimOldWorkerLocks : bool) (sweepStartedAt : instant)
    (d : Db) (g : graphile) (pacing_ : option pacing)
    (filterRuns : option (list boot_run -> result unit (list boot_run))) (addJob_ok : add_job -> bool) : recovery :=
  let rows := boot_rows d g in
  let unlocked := if reclaimOldWorkerLocks then old_workers rows g else [] in
  let g1 := match unlocked with [] => g | _ => forceUnlockWorkers unlocked g end in
  match kept_by_host filterRuns (br_run <$> filter (fun b => is_candidate b = true) rows) with
  | Err e => Recovery unlocked (Err e) g1
  | Ok candidates =>
      let p := paced pacing_ in
      let w := match p with Some p => waves (pc_deploymentsPerWave p) candidates | None => [] end in
      let added := filter (fun j => addJob_ok j = true) (recover_job p w sweepStartedAt <$> candidates) in
      Recovery unlocked (Ok added) (add_jobs added g1)
  end.

(** ** The embedded recovery *)

(** [while (hasMore)] over the pages of one status. The cursor of a page is
    given only with more to come. *)
Fixpoint reenqueue_pages (fuel : nat) (list_runs : option string -> page run_row) (cursor : option string) : list run_row :=
  match fuel with
  | O => []
  | S fuel =>
      let pg := list_runs cursor in
      pg_data pg ++ if pg_hasMore pg then reenqueue_pages fuel list_runs (pg_cursor pg) else []
  end.

(** The runs whose enqueue was tried and those for which it went well. *)
Definition reenqueueTenantRuns (fuel : nat) (list_runs : RunStatus.t -> option string -> page run_row)
    (enqueue_ok : string -> json -> bool) : list (string * json) :=
  let prefix := getQueueTopicPrefix None in
  let calls status := (fun r => (prefix +:+ run_workflowName r, JObj [("runId", JStr (run_id r))])) <$>
    reenqueue_pages fuel (list_runs status) None in
  filter (fun c => enqueue_ok c.1 c.2 = true) (calls RunStatus.pending ++ calls RunStatus.running).
End Recover.
