(* ===== verification/CreateWorld.v ===== *)
(** The making of a world (src/index.ts: [createWorld], [createStorage]): its
    configuration resolved once and handed to the queue and the storage, what it
    declares to the runtime, and its [start]. Its [close] is in World.v. *)
From S2P Require Import Prelude Model Paging Prog Slots Sdk Tenant JsText RunRetention Contract Timers Inflight Queue Config Events BootRecovery.
Local Open Scope Z_scope.

(** ** What a world declares *)

(** [World.capabilities] *)
Record capabilities := Capabilities {
  cap_hookRetention_active : bool;
  cap_atomicStartHook_active : bool;
  cap_hookForceClaim : bool;
  cap_deploymentAffinity : bool;
  cap_inBandFence : bool;
  cap_maxConcurrency : bool
}.

Definition world_capabilities : capabilities := Capabilities true true true true true true.

(** [config.pool], or the pool made from a connection string and a [max]. *)
Inductive world_pool := CallersPool | OwnPool (connectionString : string) (max : option Z).

(** The rest of what [createWorld] is given; [wp_pool]: a pool is supplied. *)
Record world_params := WorldParams {
  wp_config : world_config;
  wp_pool : bool;
  wp_connectionString : option string;
  wp_maxPoolSize : option Z
}.

(** What the calls of a world close over. *)
Record created_world := CreatedWorld {
  cw_pool : world_pool;
  cw_queue : queue_config;
  cw_queueConcurrency : js_number;
  cw_specVersion : Z;
  cw_storage : storage;
  cw_compactSnapshots : bool;
  cw_capabilities : capabilities
}.

(** What [createWorld] throws: while resolving, or from [createEventsStorage]. *)
Inductive creation_error := BadConfig (e : config_error) | BadStorage (e : werror).

(** ** [createWorld] *)

Section CreateWorld.
(** [Number] of a text, and [@workflow/world]'s [mintedSpecVersion] (of the
    environment and [inBandFence]) and [resolveQueueNamespace]. *)
Context (js_Number : string -> js_number) (mintedSpecVersion : environment -> bool -> Z)
  (resolveQueueNamespace : option string -> option string).

Definition worldSpecVersion (env : environment) : Z := mintedSpecVersion env true.

(** [createStorage], the storage a call of [create] outside a fence and outside
    an ambient retention intent starts from. *)
Definition createStorage (env : environment) (tenantId : string) (queueNamespace : option string) (specVersion : Z) :
    result werror storage :=
  result_bind (getHookRetentionLimitMs (js_Number <$> env "WORKFLOW_POSTGRES_HOOK_RETENTION_LIMIT_DAYS")) (fun limit =>
  Ok (Storage tenantId queueNamespace specVersion limit (getMaxEventsPerRun (js_Number <$> env "WORKFLOW_MAX_EVENTS"))
        None None)).

(** The pool of a world. *)
Definition make_pool (env : environment) (p : world_params) : result config_error world_pool :=
  let maxPoolSize := wp_maxPoolSize p ?? getDefaultMaxPoolSize env in
  if wp_pool p then Ok CallersPool else
  match given (wp_connectionString p) with
  | Some url => Ok (OwnPool url maxPoolSize)
  | None => result_bind (resolveConnectionString env) (fun url => Ok (OwnPool url maxPoolSize))
  end.

Definition createWorld (env : environment) (p : world_params) : result creation_error created_world :=
  match resolveConfig resolveQueueNamespace env (wp_config p) with
  | Err e => Err (BadConfig e)
  | Ok resolved =>
      let concurrency := queue_concurrency (rc_queueConcurrency resolved) in
      match make_pool env p with
      | Err e => Err (BadConfig e)
      | Ok pool =>
          let queue := rc_queue resolved in
          let specVersion := worldSpecVersion env in
          match createStorage env (qc_tenantId queue) (qc_queueNamespace queue) specVersion with
          | Err e => Err (BadStorage e)
          | Ok storage =>
              Ok (CreatedWorld pool queue concurrency specVersion storage (rc_compactStreamSnapshots resolved)
                    world_capabilities)
          end
      end
  end.

(** [resolveLatestDeploymentId] *)
Definition resolveLatestDeploymentId (w : created_world) : string := qc_deploymentId (cw_queue w).

(** [close] ends only a pool the world made. *)
Definition own_pool (w : created_world) : bool := match cw_pool w with OwnPool _ _ => true | CallersPool => false end.

(** [start]: what it resolves to and the messages it re-enqueues. [queue_starts]
    is what the [start] of the queue comes to. *)
Definition startWorld `{QueueSdk} (fuel : nat) (queue_starts : result unit unit)
    (list_runs : string -> RunStatus.t -> option string -> page run_row) (enqueue_ok : string -> json -> bool)
    (w : created_world) : result unit unit * list (string * json) :=
  match queue_starts with
  | Err e => (Err e, [])
  | Ok _ =>
      if qc_embedded (cw_queue w)
      then (Ok tt, reenqueueTenantRuns fuel (list_runs (s_tenantId (cw_storage w))) enqueue_ok)
      else (Ok tt, [])
  end.

(** ** What a created world is *)

Lemma required_inv value name x : required value name = Ok x -> x <> "".
Proof. unfold required. destruct (given value) eqn:E; [|done]. intros [= <-]. by eapply given_some. Qed.

Lemma resolveConfig_inv env c r : resolveConfig resolveQueueNamespace env c = Ok r ->
  assertValidTenantId (qc_tenantId (rc_queue r)) = true /\ qc_deploymentId (rc_queue r) <> "" /\
  qc_queueNamespace (rc_queue r) = resolveQueueNamespace (wc_queueNamespace c).
Proof.
  unfold resolveConfig. destruct (required _ "WORKFLOW_WORLD_TENANT_ID") as [t|]; [|done]. cbn [result_bind].
  destruct (assertValidTenantId t) eqn:Et; [|done]. cbn [negb].
  destruct (required _ "WORKFLOW_WORLD_DEPLOYMENT_ID") as [d|] eqn:Ed; [|done]. cbn [result_bind].
  destruct (match wc_embedded c with Some _ => _ | None => _ end) as [e|]; [|done]. cbn [result_bind].
  destruct (match wc_compactStreamSnapshots c with Some _ => _ | None => _ end) as [k|]; [|done]. cbn [result_bind].
  intros [= <-]. cbn. split; [done|]. split; [by eapply required_inv|done].
Qed.

Lemma queue_concurrency_positive n : exists k d, queue_concurrency n = JsFinite k d /\ 0 < k.
Proof.
  unfold queue_concurrency. destruct n as [| |k d]; cbn; [by exists 50, 1%positive..|].
  destruct (Z.ltb_spec 0 k); [by exists k, d|by exists 50, 1%positive].
Qed.

Lemma hook_limit_nonnegative days l : getHookRetentionLimitMs days = Ok l -> 0 <= l.
Proof.
  unfold getHookRetentionLimitMs. destruct (default _ _) as [| |n d]; [done..|].
  destruct (Z.leb_spec n 0); [done|]. intros [= <-]. apply Z.div_pos; [apply Z.mul_nonneg_nonneg; [lia|done]|done].
Qed.

Lemma max_events_positive raw : 0 < getMaxEventsPerRun raw.
Proof. unfold getMaxEventsPerRun. destruct (raw ≫= js_integer) as [n|]; [destruct (Z.ltb_spec 0 n)|]; done. Qed.

Lemma make_pool_inv env p pool : make_pool env p = Ok pool ->
  match pool with
  | CallersPool => wp_pool p = true
  | OwnPool url max => wp_pool p = false /\ url <> "" /\ max = (wp_maxPoolSize p ?? getDefaultMaxPoolSize env)
  end.
Proof.
  unfold make_pool. destruct (wp_pool p); [by intros [= <-]|].
  destruct (given (wp_connectionString p)) as [u|] eqn:E; [intros [= <-]; split; [done|]; split; [by eapply given_some|done]|].
  unfold resolveConnectionString. destruct (given (env _ ?? _)) as [u|] eqn:E'; [|done]. cbn [result_bind].
  intros [= <-]. split; [done|]. split; [by eapply given_some|done].
Qed.

(** A world that is created is one: its queue and its storage serve the same
    valid tenant and tag runs with the same namespace; the version it declares
    to the runtime is the one its storage stamps, minted for a world with the
    fence it declares; it has a deployment and a positive concurrency and event
    limit; and a pool it ends is one it made, from a connection string. *)
Theorem created_world_coherent env p w : createWorld env p = Ok w ->
  assertValidTenantId (qc_tenantId (cw_queue w)) = true /\
  s_tenantId (cw_storage w) = qc_tenantId (cw_queue w) /\
  s_queueNamespace (cw_storage w) = qc_queueNamespace (cw_queue w) /\
  s_specVersion (cw_storage w) = cw_specVersion w /\
  cw_specVersion w = mintedSpecVersion env (cap_inBandFence (cw_capabilities w)) /\
  resolveLatestDeploymentId w <> "" /\
  (exists k d, cw_queueConcurrency w = JsFinite k d /\ 0 < k) /\
  0 < s_maxEvents (cw_storage w) /\ 0 <= s_hookRetentionLimitMs (cw_storage w) /\
  (own_pool w = true <-> wp_pool p = false) /\ (forall url max, cw_pool w = OwnPool url max -> url <> "").
Proof.
  unfold createWorld. destruct (resolveConfig _ _ _) as [r|] eqn:Er; [|done].
  destruct (make_pool env p) as [pool|] eqn:Ep; [|done].
  destruct (createStorage _ _ _ _) as [st|] eqn:Es; [|done]. intros [= <-]. cbn.
  apply resolveConfig_inv in Er as (Ht & Hd & _). apply make_pool_inv in Ep.
  unfold createStorage in Es. destruct (getHookRetentionLimitMs _) as [l|] eqn:El; [|done]. injection Es as <-. cbn.
  do 5 (split; [done|]). split; [done|]. split; [apply queue_concurrency_positive|].
  split; [apply max_events_positive|]. split; [by eapply hook_limit_nonnegative|].
  unfold own_pool. cbn. destruct pool as [|url max]; destruct_and?; (split; [naive_solver|]).
  - done.
  - by intros ? ? [= <- <-].
Qed.

(** The boot of an executor is no recovery event: in external mode [start] sends
    nothing, and in embedded mode it sends only what its own tenant's runs ask. *)
Lemma external_start_sends_nothing `{QueueSdk} fuel queue_starts list_runs ok w : qc_embedded (cw_queue w) = false ->
  startWorld fuel queue_starts list_runs ok w = (queue_starts, []).
Proof. intros E. unfold startWorld. rewrite E. by destruct queue_starts as [[]|]. Qed.

Lemma failed_start_sends_nothing `{QueueSdk} fuel e list_runs ok w :
  startWorld fuel (Err e) list_runs ok w = (Err e, []).
Proof. done. Qed.

(** No connection string and no pool: nothing is created, whatever the rest is. *)
Lemma no_database_no_world env p : wp_pool p = false -> given (wp_connectionString p) = None ->
  given (env "WORKFLOW_WORLD_URL" ?? env "EVELAND_WORKFLOW_WORLD_URL") = None ->
  exists e, createWorld env p = Err (BadConfig e).
Proof.
  intros Hp Hc Hu. unfold createWorld, make_pool. rewrite Hp, Hc. unfold resolveConnectionString. rewrite Hu.
  destruct (resolveConfig _ _ _) as [r|e]; [|by exists e]. cbn. eauto.
Qed.
End CreateWorld.

(** A deployment of the environment's: its tenant, its deployment, its database. *)
Definition demo_environment : environment := fun name =>
  if String.eqb name "EVELAND_PROJECT_ID" then Some "p1" else
  if String.eqb name "EVELAND_DEPLOYMENT_ID" then Some "d1" else
  if String.eqb name "WORKFLOW_WORLD_URL" then Some "postgres://db" else
  if String.eqb name "WORKFLOW_WORLD_RUNNER" then Some "external" else
  if String.eqb name "WORKFLOW_POSTGRES_WORKER_CONCURRENCY" then Some "-3" else None.
Definition demo_world_params : world_params :=
  WorldParams (WorldConfig None None None None None None) false None None.

Example created_from_environment :
  createWorld (fun _ => JsNaN) (fun _ _ => 8) id demo_environment demo_world_params =
  Ok (CreatedWorld (OwnPool "postgres://db" None) (QueueConfig "p1" "d1" false None) (JsFinite 50 1) 8
        (Storage "p1" None 8 (30 * DAY_MS) 25000 None None) true world_capabilities).
Proof. vm_compute. reflexivity. Qed.

Lemma created_world_coherent_witness : exists w,
  createWorld (fun _ => JsNaN) (fun _ _ => 8) id demo_environment demo_world_params = Ok w /\
  s_tenantId (cw_storage w) = "p1" /\ s_tenantId (cw_storage w) = qc_tenantId (cw_queue w) /\ own_pool w = true.
Proof.
  eexists. split; [apply created_from_environment|].
  destruct (created_world_coherent (fun _ => JsNaN) (fun _ _ => 8) id demo_environment demo_world_params _
    created_from_environment) as (_ & Ht & _ & _ & _ & _ & _ & _ & _ & Hp & _).
  split; [reflexivity|]. split; [exact Ht|]. by apply Hp.
Defined.
