(* ===== verification/Create.v ===== *)
(** [events.create]: the checks every request passes, the branch of its event
    type, the generic insert, and the page of events a response may carry;
    the in-band fence around it; and the other operations on the event log
    (src/storage.ts, lines 976 to 1087, 1212 to 1628 and 3112 to 3370). *)
From S2P Require Import Prelude Model Paging Prog Slots Sdk RunRetention Schema Events StartHook.
From S2P Require Import CreateRun CreateStep CreateHook.
Local Open Scope Z_scope.

Section Create.
Context `{WorldSdk} (s : storage).
Local Notation tenantId := (s_tenantId s).

(** ** The checks ahead of the branches *)

(** Refuse rather than clamp a token retention past the limit. *)
Definition check_hook_retention (rq : request) : P unit :=
  match rq_body rq with
  | HookCreated d =>
      match hd_tokenRetentionUntil d with
      | Some requested =>
          let! now := Date_now in
          if now + s_hookRetentionLimitMs s <? requested then Throw (WorldError (Some 400) None)
          else Ret tt
      | None => Ret tt
      end
  | _ => Ret tt
  end.

Definition startHook_of (rq : request) : option start_hook :=
  match rq_body rq with
  | RunCreated ri => ri_startHook ri
  | RunStarted (Some ri) => ri_startHook ri
  | _ => None
  end.

Definition effective_run_id (runId : option string) (rq : request) : P string :=
  match rq_body rq with
  | RunCreated _ =>
      if truthy runId then Ret (default "" runId) else let! u := ulid in Ret ("wrun_" +:+ u)
  | _ => if truthy runId then Ret (default "" runId) else Throw PlainError
  end.

Definition check_run_id (runId : option string) (rq : request) (effectiveRunId : string) : P unit :=
  match rq_body rq with
  | RunCreated _ =>
      if truthy runId then
        let! now := Date_now in
        if validateUlidTimestamp now effectiveRunId then Ret tt
        else Throw (match startHook_of rq with
                    | Some _ => WorldError (Some 400) (Some "expired")
                    | None => WorldError None None
                    end)
      else Ret tt
  | _ => Ret tt
  end.

(** The run's state, read once; a resilient start creates the run here. *)
Definition read_current_run (runId : string) (rq : request) (specVersion : Z) : P (option run_state) :=
  match rq_body rq with
  | RunCreated _ | StepCompleted _ | StepRetrying _ _ => Ret None
  | b =>
      let! currentRun := getRunForValidation s runId in
      match b, currentRun with
      | RunStarted (Some ri), None => resilientStart s runId ri specVersion
      | _, _ => Ret currentRun
      end
  end.

Definition storedEventData (runId : string) (rq : request) (startCreatesStep : bool) : body :=
  match rq_body rq with
  | RunStarted _ => RunStarted None
  | StepStarted (Some d) =>
      if startCreatesStep then StepStarted (Some d)
      else StepStarted (Some (StepData (sd_stepName d) None (sd_ownerMessageId d)))
  | RunCreated ri => RunCreated (created_event_data runId ri (ri_startHook ri))
  | b => b
  end.

(** The result's event: the request with what the insert returned. *)
Definition event_answer (runId : string) (rq : request) (stored : body) (w : string * instant) : event_row :=
  EventRow tenantId runId w.1 stored (rq_correlationId rq) (rq_specVersion rq) w.2.

(** A [run_cancelled] on a cancelled run is still recorded. *)
Definition cancel_again (runId : string) (rq : request) (specVersion : Z) (resolveData : resolve_data) :
    P event_result :=
  let! fullRun := select_run s runId in
  let! id := allocateEventId tenantId runId in
  let! value := insertEventRow (s_fence s) (EventValues tenantId runId id (rq_correlationId rq)
    (rq_body rq) (Some specVersion) None) in
  match value with
  | None => Throw EntityConflict
  | Some w =>
      Ret (EventResult (Some (stripEventDataRefs (event_answer runId rq (rq_body rq) w) resolveData))
        fullRun None None None false (max_events s fullRun) None)
  end.

(** The refusals of a terminal run, in the code's order. *)
Definition terminal_refusal (rq : request) : option werror :=
  match eventType rq with
  | run_started => Some RunExpired
  | t =>
      if isTerminalRunEventType t then Some EntityConflict
      else if isChildEntityCreationEvent rq then Some EntityConflict
      else if bool_decide (t = attr_set) then Some EntityConflict
      else None
  end.

(** ** The branches *)

Definition create_branch (runId : string) (rq : request) (currentRun : option run_state)
    (validatedStep : option step_row) (lazyStepStart startCreatesStep : bool) (specVersion : Z)
    (now : instant) (resolveData : resolve_data) (stored : body) : P branch :=
  let corr := rq_correlationId rq in
  match rq_body rq with
  | RunCreated ri => run_created_branch s runId ri specVersion stored
  | RunStarted _ => run_started_branch s runId currentRun now stored
  | RunCompleted output => run_end_branch s runId (set_run_completed output now) stored
  | RunFailed error code => run_end_branch s runId (set_run_failed error code now) stored
  | RunCancelled => run_end_branch s runId (set_run_cancelled now) stored
  | AttrSet a => attr_set_branch s runId corr a now stored
  | StepCreated d => step_created_branch s runId corr d specVersion stored
  | StepStarted d =>
      step_started_branch s runId rq d validatedStep lazyStepStart startCreatesStep specVersion now stored
  | StepCompleted result => step_update_branch s runId corr (set_step_completed result now) stored
  | StepFailed error => step_update_branch s runId corr (set_step_failed error now) stored
  | StepRetrying error retryAfter =>
      step_update_branch s runId corr (set_step_retrying error retryAfter) stored
  | HookCreated d => hook_created_branch s runId corr d specVersion resolveData stored
  | HookReceived token _ => hook_received_branch s runId corr token specVersion stored
  | HookDisposed _ => hook_disposed_branch s runId corr specVersion stored
  | WaitCreated resumeAt => wait_created_branch s runId corr resumeAt specVersion stored
  | WaitCompleted => wait_completed_branch s runId corr now stored
  | HookConflicted _ => Ret (Continue (acc0 stored))
  end.

Definition isDeduplicatedCorrelatedEvent (rq : request) : bool :=
  isChildEntityCreationEventType (eventType rq) ||
  match rq_body rq with AttrSet a => at_writerIsWorkflow a | _ => false end.

(** The generic insert, for a branch that has not written its event itself. *)
Definition generic_insert (runId : string) (rq : request) (specVersion : Z) (a : acc) :
    P (option (string * instant)) :=
  try_catch
    (match ac_written a with
     | Some w => Ret (Some w)
     | None =>
         let! id := allocateEventId tenantId runId in
         insertEventRow (s_fence s) (EventValues tenantId runId id (rq_correlationId rq) (ac_stored a)
           (Some specVersion) None)
     end)
    (fun r => match r with
     | Ok w => Ret w
     | Err e =>
         if isDeduplicatedCorrelatedEvent rq && isCorrelatedEventUniqueViolation (constraint_of e) tenantId
         then Throw EntityConflict else Throw e
     end).

(** ** The page a response may carry *)

Definition all_events (runId : string) : P (list event_row) :=
  select (fun d => order_by_id (run_events tenantId runId d)).

Definition last_id (l : list event_row) : option string := option_map ev_id (last l).

Definition event_page (runId : string) (rq : request) (params : create_params)
    (resolveData : resolve_data) (run : option run_row) (eventId : string) : P (option (page event_row)) :=
  let strip := map (fun e => stripEventDataRefs e resolveData) in
  let! reported :=
    match cp_eventCount params, cp_sinceCursor params with
    | Some askedFor, None =>
        let! report := reportSkippedSlots tenantId runId eventId askedFor resolveData in
        Ret (option_map (fun x => Page x.1 None x.2) report)
    | _, _ => Ret None
    end in
  let! preloaded :=
    if bool_decide (eventType rq = run_started) && bool_decide (is_Some run) && negb (cp_skipPreload params)
    then let! rows := all_events runId in
         let allEvents := strip rows in Ret (Some (Page allEvents (last_id allEvents) false))
    else Ret reported in
  match cp_sinceCursor params with
  | Some c =>
      let limit := 100%nat in
      let! rows := select (fun d => take (limit + 1) (order_by_id
        (filter (fun e => str_lt c (ev_id e) = true) (run_events tenantId runId d)))) in
      let delta := strip (take limit rows) in
      Ret (Some (Page delta (last_id delta) (limit <? length rows)%nat))
  | None => Ret preloaded
  end.

(** ** [create] *)

Definition create_after_checks (runId : string) (rq : request) (params : create_params) (specVersion : Z)
    (now : instant) (currentRun : option run_state) : P event_result :=
  let resolveData := default ResolveAll (cp_resolveData params) in
  let createsChildEntity := isChildEntityCreationEvent rq in
  let lazyStepStart := createsChildEntity && bool_decide (eventType rq = step_started) in
  let startCreatesStep := lazyStepStart &&
    (SPEC_VERSION_SINGLE_ORCHESTRATOR <=? default specVersion (r ← currentRun; rs_specVersion r)) in
  let terminal := match currentRun with Some r => isTerminalWorkflowRunStatus (rs_status r) | None => false end in
  if terminal && bool_decide (eventType rq = run_cancelled) &&
     bool_decide (option_map rs_status currentRun = Some RunStatus.cancelled)
  then cancel_again runId rq specVersion resolveData else
  match (if terminal then terminal_refusal rq else None) with
  | Some e => Throw e
  | None =>
      let! validatedStep := validate_step s runId rq currentRun lazyStepStart in
      validate_hook s runId rq ;;;
      let! b := create_branch runId rq currentRun validatedStep lazyStepStart startCreatesStep
                  specVersion now resolveData (storedEventData runId rq startCreatesStep) in
      match b with
      | Answer r => Ret r
      | Continue a =>
          let! written := generic_insert runId rq specVersion a in
          match written with
          | None => Throw EntityConflict
          | Some w =>
              let event := event_answer runId rq (ac_stored a) w in
              let! page := event_page runId rq params resolveData (ac_run a) (ev_id event) in
              Ret (EventResult (Some (stripEventDataRefs event resolveData)) (ac_run a) (ac_step a)
                (ac_hook a) (ac_wait a) (ac_stepCreated a) (max_events s (ac_run a)) page)
          end
      end
  end.

Definition create (runId : option string) (rq : request) (params : create_params) : P event_result :=
  check_hook_retention rq ;;;
  match startHook_of rq with
  | Some h => assertStartHookAdmissible h (s_hookRetentionLimitMs s)
  | None => Ret tt
  end ;;;
  let! runId' := effective_run_id runId rq in
  check_run_id runId rq runId' ;;;
  let specVersion := default (s_specVersion s) (rq_specVersion rq) in
  let! now := Date_now in
  let! currentRun := read_current_run runId' rq specVersion in
  if match currentRun with Some r => requiresNewerWorld (rs_specVersion r) | None => false end
  then Throw RunNotSupported else
  if match currentRun with Some r => isLegacySpecVersion (rs_specVersion r) | None => false end
  then let! u := ulid in handleLegacyEventPostgres s runId' ("wevt_" +:+ u) rq params else
  if bool_decide (eventType rq = attr_set) && negb (bool_decide (is_Some currentRun))
  then Throw (RunNotFound runId') else
  create_after_checks runId' rq params specVersion now currentRun.

(** ** The in-band fence around [create] *)

Definition with_fence (f : pending_fence) : storage :=
  Storage (s_tenantId s) (s_queueNamespace s) (s_specVersion s) (s_hookRetentionLimitMs s)
    (s_maxEvents s) (s_ambientRetention s) (Some f).

(** A fresh cell, holding [consumed: false]. *)
Definition new_cell : P N :=
  js (fun m => (m_refs m, Mem (m_now m) (m_ulids m) (m_collide m) (m_refs m + 1) (m_consumed m))).
End Create.

Section Fenced.
Context `{WorldSdk} (s : storage).
Local Notation tenantId := (s_tenantId s).

Definition expected_of (params : create_params) : option Z :=
  x ← cp_expectedSeqInBand params;
  if isSafeInteger x then n ← js_integer x; if 0 <=? n then Some n else None else None.

Definition create_fenced (runId : option string) (rq : request) (params : create_params) : P event_result :=
  if negb (cp_inBand params) || negb (truthy runId) || bool_decide (eventType rq = run_created)
  then create s runId rq params else
  match expected_of params with
  | None => Throw (WorldError (Some 400) None)
  | Some expected =>
      let occurredAt := t ← cp_occurredAt params; t in
      let run := default "" runId in
      transaction (
        let! row := select (fun d => db_slots d !! (tenantId, run)) in
        match row with
        | Some n => if n =? expected then Ret tt else Throw (InBandSuperseded n)
        | None => Ret tt
        end ;;;
        let! cell := new_cell in
        create (with_fence s (PendingFence tenantId run expected occurredAt cell)) runId rq params)
  end.

(** ** Reading the log *)

Record snapshot := Snapshot { sn_seq : N; sn_seqInBand : Z }.

(** The count and the highest slot, in one statement; [Err] is a failed cast. *)
Definition read_snapshot (runId : string) : STMT (option snapshot) := fun d =>
  match db_slots d !! (tenantId, runId) with
  | None => Ok (None, d)
  | Some n =>
      let slotted := filter (fun id => String.prefix EVENT_ID_PREFIX id = true)
        (map ev_id (run_events tenantId runId d)) in
      match max_id slotted with
      | None => Ok (Some (Snapshot 0 n), d)
      | Some id =>
          match cast_bigint (String.substring (String.length EVENT_ID_PREFIX)
                  (String.length id - String.length EVENT_ID_PREFIX) id) with
          | Some seq => Ok (Some (Snapshot seq n), d)
          | None => Err BadSql
          end
      end
  end.

Definition readEventLogSnapshot (runId : string) : P (option snapshot) := sql (read_snapshot runId).

(** A page of at most [limit] of the events that meet [p]. *)
Definition list_page (runId : string) (p : event_row -> bool) (limit : nat) (order : sort_order)
    (cursor : option string) (resolveData : resolve_data) (d : Db) : page event_row :=
  let pg := key_page ev_id limit order cursor (filter (fun e => p e = true) (run_events tenantId runId d)) in
  Page (map (fun e => stripEventDataRefs e resolveData) (pg_data pg)) (pg_cursor pg) (pg_hasMore pg).

Definition events_list (runId : string) (limit : option nat) (order : sort_order) (cursor : option string)
    (resolveData : resolve_data) : P (page event_row) :=
  select (list_page runId (fun _ => true) (default 100%nat limit) order cursor resolveData).

Definition events_listByCorrelationId (runId correlationId : string) (limit : option nat) (order : sort_order)
    (cursor : option string) (resolveData : resolve_data) : P (page event_row) :=
  select (list_page runId (fun e => bool_decide (ev_correlationId e = Some correlationId))
    (default 100%nat limit) order cursor resolveData).

Definition events_get (runId eventId : string) (resolveData : resolve_data) : P event_row :=
  let! value := select (fun d => head (filter (fun e => ev_id e = eventId) (run_events tenantId runId d))) in
  match value with
  | None => Throw (WorldError None None)
  | Some e => Ret (stripEventDataRefs e resolveData)
  end.

(** [list] with the fence snapshot, read before the page it goes with. *)
Definition list_fenced (runId : string) (limit : option nat) (order : sort_order) (cursor : option string)
    (resolveData : resolve_data) : P (page event_row * option snapshot) :=
  let read_page := events_list runId limit order cursor resolveData in
  let! snapshot := readEventLogSnapshot runId in
  let! page := read_page in
  if bool_decide (snapshot = None) && existsb (fun e => bool_decide (is_Some (eventIdToSlot (ev_id e)))) (pg_data page)
  then
    let! snapshot := readEventLogSnapshot runId in
    let! page := match snapshot with Some _ => read_page | None => Ret page end in
    Ret (page, snapshot)
  else Ret (page, snapshot).
End Fenced.
