(* ===== verification/StorageRel.v ===== *)
(** The interface between the storage code and the relations proved of it. A
    relation on databases that respects each kind of statement the code issues,
    and the two transactions that only keep it as a whole, is respected by
    every request, whatever it interleaves with. *)
From S2P Require Import Prelude Model Prog Slots Sdk RunRetention Schema Events StartHook.
From S2P Require Import CreateRun CreateStep CreateHook Create.
Local Open Scope Z_scope.

(** The [set] clauses that end a run, and those that move a step. *)
Inductive end_set : (run_row -> run_row) -> Prop :=
| end_completed o now : end_set (set_run_completed o now)
| end_failed e c now : end_set (set_run_failed e c now)
| end_cancelled now : end_set (set_run_cancelled now).

Inductive step_set : (step_row -> step_row) -> Prop :=
| step_set_started o now : step_set (set_step_started o now)
| step_set_completed o now : step_set (set_step_completed o now)
| step_set_failed e now : step_set (set_step_failed e now)
| step_set_retrying e t : step_set (set_step_retrying e t).

Definition fence_of_tenant (s : storage) : Prop :=
  forall f, s_fence s = Some f -> pf_tenantId f = s_tenantId s.

(** The id of an event row is a slot or a fresh text of the older scheme. *)
Definition allocated `{WorldSdk} (id : event_id_expr) : Prop :=
  id = IdNextSlot \/ exists n, id = IdText ("wevt_" +:+ ulidOf n).

Class StorageRel `{WorldSdk} (T : string) (allowed : hook_row -> Prop) (R : Db -> Db -> Prop) := {
  sr_preorder :: PreOrder R;
  sr_create_run values ed spec :
    (forall now r, values now = Ok r -> run_tenant r = T /\ run_status r = RunStatus.pending) ->
    frag_ok TxAborted R (insert_run_and_event values ed spec);
  sr_start_run run now : stmt_ok R (update_run T run true (fun _ => true) (set_run_started now));
  sr_end_run run set : end_set set -> stmt_ok R (update_run T run true run_not_terminal set);
  sr_legacy_cancel run now : stmt_ok R (update_run T run true (fun _ => true) (set_run_cancelled now));
  sr_attributes run guard cs now : stmt_ok R (update_run T run false guard (set_run_attributes cs now));
  sr_event v : vl_tenant v = T -> allocated (vl_id v) ->
    type_of (vl_body v) <> hook_received -> stmt_ok R (insert_event true v);
  sr_legacy_event v n : vl_tenant v = T -> vl_id v = IdText ("wevt_" +:+ ulidOf n) ->
    stmt_ok R (insert_event false v);
  sr_bump run n : stmt_ok R (bump_seq_in_band T run n);
  sr_insert_step values :
    (forall now r, values now = Ok r -> st_tenant r = T /\ st_status r = StepStatus.pending) ->
    stmt_ok R (insert_step values);
  sr_update_step run id set : step_set set -> stmt_ok R (update_step T run id step_not_terminal set);
  sr_insert_hook clause h : hk_tenant h = T -> hk_claimsToken h = true -> allowed h ->
    stmt_ok R (insert_hook clause h);
  sr_delete_hooks p : stmt_ok R (delete_hooks T p);
  sr_insert_wait w : wt_tenant w = T -> stmt_ok R (insert_wait w);
  sr_complete_wait id now : stmt_ok R (update_wait T id
    (fun w => bool_decide (wt_status w = WaitStatus.waiting)) (set_wait_completed now));
  sr_delete_waits run : stmt_ok R (delete_waits T run);
  sr_insert_admission values : (forall now, ad_tenant (values now) = T) -> stmt_ok R (insert_admission values);
  sr_delete_admissions cutoff n : stmt_ok R (delete_old_admissions cutoff n);
  sr_received s run corr token spec stored : s_tenantId s = T -> fence_of_tenant s ->
    type_of stored = hook_received ->
    frag_ok TxAborted R (hook_received_tx s run corr token spec stored)
}.

Section Respects.
Context `{WorldSdk} {T : string} {allowed : hook_row -> Prop} {R : Db -> Db -> Prop}.
Context `{!PreOrder R}.
Local Notation ok := (respects TxAborted R).

Lemma query_ok {X} (f : Db -> X) : stmt_ok R (query f).
Proof. intros d x d' [= <- <-]. reflexivity. Qed.

Lemma respects_select {X} (f : Db -> X) : ok (select f).
Proof. apply respects_sql, query_ok. Qed.

Lemma respects_insert_hook_values `{!StorageRel T allowed R} clause row :
  (forall h, row = Ok h -> hk_tenant h = T /\ hk_claimsToken h = true /\ allowed h) ->
  stmt_ok R (insert_hook_values clause row).
Proof.
  intros Hrow. unfold insert_hook_values. destruct row as [h|e]; [|by intros d x d' [=]].
  destruct (Hrow h eq_refl) as (? & ? & ?). by apply sr_insert_hook.
Qed.
End Respects.

(** The values a program can return, by the same traversal. *)
Ltac rets :=
  repeat match goal with
  | |- returns (Ret _) _ => cbn [returns]
  | |- returns (Throw _) _ => exact I
  | |- returns (match ?x with _ => _ end) _ => destruct x eqn:?
  | |- returns (bind _ _) _ => apply returns_bind_any; intros ?
  end.

(** One step of the traversal of a program. *)
Ltac resp_step :=
  match goal with
  | |- respects _ _ (Ret _) => exact I
  | |- respects _ _ (Throw _) => exact I
  | |- respects _ _ (js _) => apply respects_js
  | |- respects _ _ (select _) => apply respects_select
  | |- respects _ _ (lift_result _) => apply respects_lift
  | |- respects _ _ (transaction _) => apply respects_transaction'; [exact _|]
  | |- respects _ _ (let '(_, _) := ?x in _) => destruct x
  | |- respects _ _ (match ?x with _ => _ end) => destruct x eqn:?
  | |- respects _ _ (try_catch _ _) => apply respects_try; [|intros ?]
  | |- respects _ _ (sql _) => apply respects_sql
  | |- stmt_ok _ (query _) => apply query_ok
  | |- stmt_ok _ (if ?x then _ else _) => destruct x
  | |- stmt_ok _ _ => solve [eauto with wfw]
  | |- respects _ _ _ => solve [eauto with wfw]
  | |- respects _ _ (bind _ _) => apply respects_bind; [|intros ?]
  end.
Ltac resp := repeat resp_step.

#[export] Hint Resolve sr_start_run sr_end_run sr_legacy_cancel sr_attributes sr_bump sr_update_step
  sr_delete_hooks sr_event sr_complete_wait sr_delete_waits sr_delete_admissions : wfw.
#[export] Hint Constructors end_set step_set : wfw.

Section Append.
Context `{WorldSdk} {T : string} (R : Db -> Db -> Prop) `{!PreOrder R}.
Context (s : storage) (Hfence : fence_of_tenant s) (Htenant : s_tenantId s = T).
(** The events the relation admits, with their correlation id. *)
Context (E : body -> option string -> Prop).
Local Notation admitted v := (E (vl_body v) (vl_correlationId v)).
Context (Hev : forall v, vl_tenant v = T -> allocated (vl_id v) -> admitted v -> stmt_ok R (insert_event true v)).
Context (Hbump : forall run n, stmt_ok R (bump_seq_in_band T run n)).
Local Notation ok := (respects TxAborted R).

Lemma allocateEventId_respects t r : ok (allocateEventId t r).
Proof. unfold allocateEventId, ulid, next_ulid. resp. Qed.

Lemma allocateEventId_returns t r : returns (allocateEventId t r) allocated.
Proof.
  unfold allocateEventId, select, sql, ulid, next_ulid. simpl. intros [[|]|?]; simpl; [by left|..|done].
  intros u. right. by exists u.
Qed.

Lemma insert_attempts_respects n fence v :
  (forall f, fence = Some f -> pf_tenantId f = T) ->
  vl_tenant v = T -> allocated (vl_id v) -> admitted v -> ok (insert_attempts n fence v).
Proof.
  intros Hf Hv Hid Hb.
  assert (forall f, pf_tenantId f = T -> ok (advanceFence f)) as Hadv.
  { intros f Hft. unfold advanceFence. rewrite Hft. pose proof Hbump. resp. }
  induction n as [|n IH]; cbn [insert_attempts]; unfold slot_collision, consume_fence; resp;
    try (by apply Hadv, Hf); by apply Hev.
Qed.

Lemma insertEventRow_respects v :
  vl_tenant v = T -> allocated (vl_id v) -> admitted v -> ok (insertEventRow (s_fence s) v).
Proof.
  intros Hv Hid Hb. unfold insertEventRow.
  eapply respects_bind_returns with (F := fun fence => forall f, fence = Some f -> pf_tenantId f = T).
  - unfold fence_consumed. resp.
  - destruct (s_fence s) as [f|] eqn:Ef; simpl; [|done]. intros c g. destruct (_ && _); [|done].
    intros [= <-]. rewrite <- Htenant. by apply Hfence.
  - intros fence Hff. apply insert_attempts_respects; [done|..];
      unfold with_createdAt; destruct fence as [f|]; simpl; try destruct (pf_occurredAt f); done.
Qed.

(** Allocating an id and inserting a row with it, alone or followed by [k]. *)
Lemma append_respects_last t run (v : event_id_expr -> event_values) :
  (forall id, vl_id (v id) = id) -> (forall id, vl_tenant (v id) = T) -> (forall id, admitted (v id)) ->
  ok (let! id := allocateEventId t run in insertEventRow (s_fence s) (v id)).
Proof.
  intros Hid Ht Hb. eapply respects_bind_returns with (F := allocated).
  - apply allocateEventId_respects.
  - apply allocateEventId_returns.
  - intros id Ha. apply insertEventRow_respects; [done|by rewrite Hid|done].
Qed.

Lemma append_respects {A} t run (v : event_id_expr -> event_values) (k : option (string * instant) -> P A) :
  (forall id, vl_id (v id) = id) -> (forall id, vl_tenant (v id) = T) -> (forall id, admitted (v id)) ->
  (forall x, ok (k x)) ->
  ok (let! id := allocateEventId t run in let! w := insertEventRow (s_fence s) (v id) in k w).
Proof.
  intros Hid Ht Hb Hk. eapply respects_bind_returns with (F := allocated).
  - apply allocateEventId_respects.
  - apply allocateEventId_returns.
  - intros id Ha. apply respects_bind; [|done]. apply insertEventRow_respects; [done|by rewrite Hid|done].
Qed.
End Append.

Section Code.
Context `{WorldSdk} {T : string} {allowed : hook_row -> Prop} {R : Db -> Db -> Prop}.
Context `{!StorageRel T allowed R} (s : storage).
Context (Htenant : s_tenantId s = T) (Hfence : fence_of_tenant s).
Local Notation ok := (respects TxAborted R).

Lemma append_ok {A} t run (v : event_id_expr -> event_values) (k : option (string * instant) -> P A) :
  (forall id, vl_id (v id) = id) -> (forall id, vl_tenant (v id) = T) ->
  (forall id, type_of (vl_body (v id)) <> hook_received) -> (forall x, ok (k x)) ->
  ok (let! id := allocateEventId t run in let! w := insertEventRow (s_fence s) (v id) in k w).
Proof. apply (append_respects R s Hfence Htenant (fun b _ => type_of b <> hook_received)); eauto with wfw. Qed.

Lemma append_ok_last t run (v : event_id_expr -> event_values) :
  (forall id, vl_id (v id) = id) -> (forall id, vl_tenant (v id) = T) ->
  (forall id, type_of (vl_body (v id)) <> hook_received) ->
  ok (let! id := allocateEventId t run in insertEventRow (s_fence s) (v id)).
Proof. apply (append_respects_last R s Hfence Htenant (fun b _ => type_of b <> hook_received)); eauto with wfw. Qed.

Lemma forceClaimRefusal_ok run h tok : ok (forceClaimRefusal (s_tenantId s) run h tok).
Proof. unfold forceClaimRefusal. resp. Qed.

Lemma deliveryInFlight_ok m : ok (deliveryInFlight m).
Proof.
  unfold deliveryInFlight. resp. intros d x d'. unfold read_jobs.
  destruct (db_jobs d); [|done]. intros [= _ <-]. reflexivity.
Qed.

(** *** Runs *)

Lemma recordedDecision_ok t r h : ok (recordedDecision t r h).
Proof. unfold recordedDecision. resp. Qed.

Lemma recordDecision_ok r h row x : ok (recordDecision T r h row x).
Proof.
  unfold recordDecision. resp; try apply recordedDecision_ok. by apply sr_insert_admission.
Qed.

Lemma decideStartHookAdmission_ok r h sp :
  allowed (start_hook_row T r h sp) -> ok (decideStartHookAdmission T r h sp).
Proof.
  intros Ha. unfold decideStartHookAdmission, Date_now, deleteExpiredDecisions, Date_now, findActiveTokenOwner.
  resp; try apply recordedDecision_ok; try apply recordDecision_ok; by apply sr_insert_hook.
Qed.

Lemma run_values_tenant r ri h sp rr now row :
  run_values s r ri h sp rr now = Ok row -> run_tenant row = T /\ run_status row = RunStatus.pending.
Proof.
  unfold run_values. destruct (ri_deploymentId ri), (ri_workflowName ri); simpl; try done.
  intros [= <-]. by split.
Qed.

Lemma find_ancestors_ok (f : string -> P (option run_retention_identity)) ids :
  (forall i, ok (f i)) -> ok (find_ancestors f ids).
Proof. intros Hf. induction ids as [|i ids IH]; simpl; resp; auto. Qed.

Lemma resolveCreationRetention_ok r ri : ok (resolveCreationRetention s r ri).
Proof.
  unfold resolveCreationRetention, resolveRunRetentionForCreation. resp.
  apply find_ancestors_ok. intros i. unfold getAncestorRetention. resp.
Qed.

Definition start_hook_allowed (h : option start_hook) : Prop :=
  forall x r sp, h = Some x -> allowed (start_hook_row T r x sp).

Lemma createRun_ok r ri h sp : start_hook_allowed h -> ok (createRun s r ri h sp).
Proof.
  intros Hh. unfold createRun, insertRunWithCreatedEvent. destruct (negb _); [exact I|].
  apply respects_bind; [apply resolveCreationRetention_ok|intros rr].
  apply respects_bind; [|intros [x y]; resp].
  apply respects_transaction. apply frag_bind; [exact _|..].
  - apply respects_frag; [exact _|]. destruct h as [h|]; [|exact I]. rewrite Htenant. resp.
    apply decideStartHookAdmission_ok. by apply Hh.
  - intros [a x]. destruct (negb a); [by apply respects_frag; [exact _|]|].
    apply frag_bind; [exact _|..].
    + apply sr_create_run. intros now row. apply run_values_tenant.
    + intros c. by apply respects_frag; [exact _|].
Qed.

Lemma resilientStart_ok r ri sp : start_hook_allowed (ri_startHook ri) -> ok (resilientStart s r ri sp).
Proof.
  intros Hh. unfold resilientStart, getRunForValidation. destruct (resilient_input ri); [|exact I].
  apply respects_bind; [by apply createRun_ok|]. intros [x c]. resp.
Qed.

Lemma run_created_branch_ok r ri sp st :
  start_hook_allowed (ri_startHook ri) -> ok (run_created_branch s r ri sp st).
Proof.
  intros Hh. unfold run_created_branch, select_run. apply respects_bind; [by apply createRun_ok|].
  intros [x c]. resp.
Qed.

Lemma run_started_branch_ok r c now st : ok (run_started_branch s r c now st).
Proof. unfold run_started_branch, select_run. rewrite Htenant. resp. Qed.

Lemma run_end_branch_ok r set st : end_set set -> ok (run_end_branch s r set st).
Proof. intros He. unfold run_end_branch, getRunForValidation. rewrite Htenant. resp. Qed.

Lemma attr_set_branch_ok r c a now st : ok (attr_set_branch s r c a now st).
Proof. unfold attr_set_branch, select_run. rewrite Htenant. resp. Qed.

Lemma insert_legacy_event_ok r u rq : ok (insert_legacy_event s r ("wevt_" +:+ ulidOf u) rq).
Proof. unfold insert_legacy_event. apply respects_sql. by eapply sr_legacy_event. Qed.

Lemma handleLegacy_ok r u rq p : ok (handleLegacyEventPostgres s r ("wevt_" +:+ ulidOf u) rq p).
Proof.
  unfold handleLegacyEventPostgres, select_run, Date_now. rewrite Htenant.
  pose proof insert_legacy_event_ok. resp.
Qed.

(** *** Steps *)

Lemma step_values_ok r id d sp :
  forall now row, step_values s r id d sp now = Ok row -> st_tenant row = T /\ st_status row = StepStatus.pending.
Proof.
  intros now row. unfold step_values. destruct id, (sd_stepName d); simpl; try done.
  intros [= <-]. by split.
Qed.

Lemma validate_step_ok r rq c l : ok (validate_step s r rq c l).
Proof. unfold validate_step, getStepForValidation. resp. Qed.

Lemma step_created_branch_ok r id d sp st : ok (step_created_branch s r id d sp st).
Proof. unfold step_created_branch. resp. apply sr_insert_step, step_values_ok. Qed.

Lemma lazy_create_ok r rq d sp b : ok (lazy_create s r rq d sp b).
Proof.
  unfold lazy_create. apply respects_bind; [apply respects_sql, sr_insert_step, step_values_ok|].
  intros [x|]; [|exact I]. destruct b; [exact I|].
  apply respects_try; [by apply append_ok_last|intros y; resp].
Qed.

Lemma check_owner_ok r id v b o now : ok (check_owner s r id v b o now).
Proof. unfold check_owner. pose proof deliveryInFlight_ok. resp. Qed.

Lemma check_retry_after_ok v : ok (check_retry_after v).
Proof. unfold check_retry_after, Date_now. resp. Qed.

Lemma step_not_updated_ok o : ok (step_not_updated o).
Proof. unfold step_not_updated. resp. Qed.

Lemma step_started_tx_ok r rq d v l b sp now st :
  type_of st <> hook_received -> ok (step_started_tx s r rq d v l b sp now st).
Proof.
  intros Hst. unfold step_started_tx. apply respects_transaction'; [exact _|].
  pose proof lazy_create_ok. pose proof check_owner_ok. pose proof check_retry_after_ok.
  pose proof step_not_updated_ok.
  apply respects_bind; [resp|intros lz]. apply respects_bind; [auto|intros []].
  apply respects_bind; [auto|intros []]. rewrite Htenant.
  apply respects_bind; [resp|intros step]. apply respects_bind; [resp|intros []].
  rewrite <- Htenant. apply append_ok; try done. intros x. resp.
Qed.

Lemma step_update_branch_ok r id set st : step_set set -> ok (step_update_branch s r id set st).
Proof.
  intros He. unfold step_update_branch, getStepForValidation. rewrite Htenant.
  pose proof step_not_updated_ok. resp.
Qed.

(** *** Hooks and waits *)

Definition hook_allowed (id : option string) (b : body) : Prop :=
  match b with
  | HookCreated d => forall r sp cf row, hookRow s r id d sp cf = Ok row -> allowed row
  | _ => True
  end.

Lemma validate_hook_ok r rq : ok (validate_hook s r rq).
Proof. unfold validate_hook. pose proof forceClaimRefusal_ok. resp. Qed.

Lemma hookRow_ok r id d sp cf :
  hook_allowed id (HookCreated d) ->
  forall row, hookRow s r id d sp cf = Ok row -> hk_tenant row = T /\ hk_claimsToken row = true /\ allowed row.
Proof.
  intros Ha row E. pose proof (Ha _ _ _ _ E). unfold hookRow in E. destruct id; simpl in E; [|done].
  by injection E as <-.
Qed.

Lemma journaledHookCreated_ok {A} (p : P A) : ok p -> ok (journaledHookCreated s p).
Proof. intros Hp. unfold journaledHookCreated. resp. Qed.

Lemma insertFreshHook_ok r id d sp st :
  hook_allowed id (HookCreated d) -> type_of st <> hook_received -> ok (insertFreshHook s r id d sp st).
Proof.
  intros Ha Hst. unfold insertFreshHook. apply respects_try; [|intros ?; resp].
  apply journaledHookCreated_ok, respects_transaction'; [exact _|].
  apply respects_bind; [rewrite Htenant; resp|intros _]. apply respects_bind.
  - apply respects_sql, respects_insert_hook_values. by apply hookRow_ok.
  - intros hv. apply append_ok; try done. intros x. resp.
Qed.

Lemma create_fresh_ok r id d sp st :
  hook_allowed id (HookCreated d) -> type_of st <> hook_received -> ok (create_fresh s r id d sp st).
Proof.
  intros Ha Hst. unfold create_fresh, answerLostClaim, getHookByToken.
  apply respects_bind; [by apply insertFreshHook_ok|intros x]. resp.
Qed.

Lemma takeover_write_ok r id d sp v l :
  hook_allowed id (HookCreated d) -> ok (takeover_write s r id d sp v l).
Proof.
  intros Ha. unfold takeover_write. apply respects_bind.
  - destruct l; [|exact I]. apply append_ok; try done. intros x. resp.
  - intros _. apply respects_bind; [rewrite Htenant; resp|intros _]. apply respects_bind.
    + apply respects_sql, respects_insert_hook_values. by apply hookRow_ok.
    + intros h. apply append_ok; try done. intros x. resp.
Qed.

Lemma takeover_loop_ok n r id d sp :
  hook_allowed id (HookCreated d) -> ok (takeover_loop s n r id d sp).
Proof.
  intros Ha. assert (ok (takeoverAttempt s r id d sp)) as Hatt.
  { unfold takeoverAttempt. pose proof takeover_write_ok. resp. }
  induction n as [|n IH]; cbn [takeover_loop]; resp.
Qed.

Lemma create_hook_ok r id d sp st :
  hook_allowed id (HookCreated d) -> type_of st <> hook_received -> ok (create_hook s r id d sp st).
Proof.
  intros Ha Hst. unfold create_hook, same_hook, getHookByToken. pose proof create_fresh_ok.
  assert (ok (takeover_hook s r id d sp st)) as Htake.
  { unfold takeover_hook. apply respects_bind; [by apply journaledHookCreated_ok, takeover_loop_ok|].
    intros t. resp. }
  resp.
Qed.

Lemma hook_created_branch_ok r id d sp rd st :
  hook_allowed id (HookCreated d) -> type_of st <> hook_received -> ok (hook_created_branch s r id d sp rd st).
Proof.
  intros Ha Hst. unfold hook_created_branch. apply respects_bind; [by apply create_hook_ok|].
  intros [h w st'|h|b c]; [exact I..|]. apply append_ok; try done. intros x. resp.
Qed.

Lemma hook_disposed_branch_ok r c sp st : type_of st <> hook_received -> ok (hook_disposed_branch s r c sp st).
Proof.
  intros Hst. unfold hook_disposed_branch. destruct (truthy c); [|exact I].
  apply respects_bind; [|intros w; exact I]. apply respects_transaction'; [exact _|].
  apply respects_bind; [rewrite Htenant; resp|]. intros [|h l]; [exact I|].
  apply append_ok; try done. intros x. resp.
Qed.

Lemma hook_received_branch_ok r c tok sp st :
  type_of st = hook_received -> ok (hook_received_branch s r c tok sp st).
Proof.
  intros Hst. unfold hook_received_branch. apply respects_bind; [|intros w; exact I].
  by apply respects_transaction, sr_received.
Qed.

Lemma wait_created_branch_ok r c t sp st : ok (wait_created_branch s r c t sp st).
Proof. unfold wait_created_branch. resp. by apply sr_insert_wait. Qed.

Lemma wait_completed_branch_ok r c now st : ok (wait_completed_branch s r c now st).
Proof. unfold wait_completed_branch. rewrite Htenant. resp. Qed.

(** *** [create] *)

(** What the generic insert may find left to write. *)
Definition branch_event (b : branch) : Prop :=
  match b with
  | Continue a => ac_written a = None -> type_of (ac_stored a) <> hook_received
  | Answer _ => True
  end.

Definition request_allowed (rq : request) : Prop :=
  hook_allowed (rq_correlationId rq) (rq_body rq) /\ start_hook_allowed (startHook_of rq).

Lemma stored_type r rq b : type_of (storedEventData r rq b) = eventType rq.
Proof.
  unfold storedEventData, eventType. destruct (rq_body rq) as [| | | | | |[]| | | | | | | | | |]; try done. by destruct b.
Qed.

Lemma create_branch_ok r rq c v l b sp now rd st :
  request_allowed rq -> type_of st = eventType rq -> ok (create_branch s r rq c v l b sp now rd st).
Proof.
  intros [Hh Hs] Hst. unfold create_branch, eventType, startHook_of in *.
  destruct (rq_body rq) eqn:Eb; simpl in Hst.
  - by apply run_created_branch_ok.
  - apply run_started_branch_ok.
  - apply run_end_branch_ok. constructor.
  - apply run_end_branch_ok. constructor.
  - apply run_end_branch_ok. constructor.
  - apply step_created_branch_ok.
  - apply respects_bind; [|by intros [[??]?]]. apply step_started_tx_ok. congruence.
  - apply step_update_branch_ok. constructor.
  - apply step_update_branch_ok. constructor.
  - apply step_update_branch_ok. constructor.
  - apply hook_created_branch_ok; [done|congruence].
  - by apply hook_received_branch_ok.
  - apply hook_disposed_branch_ok. congruence.
  - exact I.
  - apply wait_created_branch_ok.
  - apply wait_completed_branch_ok.
  - apply attr_set_branch_ok.
Qed.

Lemma create_branch_returns r rq c v l b sp now rd st :
  type_of st = eventType rq -> returns (create_branch s r rq c v l b sp now rd st) branch_event.
Proof.
  intros Hst. unfold create_branch, eventType in *. destruct (rq_body rq); simpl in Hst.
  all: unfold run_created_branch, run_started_branch, run_end_branch, attr_set_branch, step_created_branch,
    step_started_branch, step_update_branch, hook_created_branch, hook_received_branch, hook_disposed_branch,
    wait_created_branch, wait_completed_branch; rets; simpl; intros; try congruence; try done.
Qed.

Lemma read_current_run_ok r rq sp : request_allowed rq -> ok (read_current_run s r rq sp).
Proof.
  intros [_ Hs]. unfold read_current_run, getRunForValidation, startHook_of in *.
  pose proof resilientStart_ok. destruct (rq_body rq); resp; simplify_eq; auto.
Qed.

Lemma cancel_again_ok r rq sp rd : eventType rq = run_cancelled -> ok (cancel_again s r rq sp rd).
Proof.
  intros He. unfold cancel_again, select_run. apply respects_bind; [resp|intros x].
  apply append_ok; try done; [|intros y; resp]. intros id. simpl. unfold eventType in He. congruence.
Qed.

Lemma generic_insert_ok r rq sp a :
  (ac_written a = None -> type_of (ac_stored a) <> hook_received) -> ok (generic_insert s r rq sp a).
Proof.
  intros Ha. unfold generic_insert. apply respects_try; [|intros y; resp].
  destruct (ac_written a) as [w|]; [exact I|]. apply append_ok_last; try done. intros id. by apply Ha.
Qed.

Lemma event_page_ok r rq p rd run id : ok (event_page s r rq p rd run id).
Proof. unfold event_page, reportSkippedSlots, all_events. resp. Qed.

Lemma create_after_checks_ok r rq p sp now c :
  request_allowed rq -> ok (create_after_checks s r rq p sp now c).
Proof.
  intros Ha. unfold create_after_checks. match goal with |- context [if ?b then cancel_again _ _ _ _ _ else _] => destruct b eqn:Eb end.
  { apply cancel_again_ok. bools. done. }
  match goal with |- respects _ _ (match ?x with _ => _ end) => destruct x end; [exact I|].
  apply respects_bind; [apply validate_step_ok|intros v].
  apply respects_bind; [apply validate_hook_ok|intros _].
  eapply respects_bind_returns with (F := branch_event).
  - apply create_branch_ok; [done|apply stored_type].
  - apply create_branch_returns, stored_type.
  - intros [a|x] Hb; [|exact I]. apply respects_bind; [by apply generic_insert_ok|].
    intros [w|]; [|exact I]. apply respects_bind; [apply event_page_ok|intros pg; exact I].
Qed.

Lemma create_ok run rq p : request_allowed rq -> ok (create s run rq p).
Proof.
  intros Ha. unfold create, check_hook_retention, assertStartHookAdmissible, Date_now,
    effective_run_id, check_run_id, Date_now, ulid, next_ulid.
  apply respects_bind; [resp|intros _]. apply respects_bind; [resp|intros _].
  apply respects_bind; [resp|intros r]. apply respects_bind; [resp|intros _].
  apply respects_bind; [resp|intros now]. apply respects_bind; [by apply read_current_run_ok|intros c].
  destruct (match c with Some _ => _ | None => _ end); [exact I|].
  destruct (match c with Some _ => _ | None => _ end).
  { intros n. apply handleLegacy_ok. }
  destruct (_ && _); [exact I|]. by apply create_after_checks_ok.
Qed.

Lemma list_fenced_ok r l o c rd : ok (list_fenced s r l o c rd).
Proof.
  assert (forall r, ok (readEventLogSnapshot s r)) as Hsnap.
  { intros r'. unfold readEventLogSnapshot. apply respects_sql. intros d x d'. unfold read_snapshot.
    repeat case_match; intros [=]; subst; reflexivity. }
  unfold list_fenced, events_list. resp.
Qed.
End Code.

(** Every request of a tenant respects every relation of the tenant. *)
Theorem create_fenced_ok `{WorldSdk} {T allowed R} `{!StorageRel T allowed R} (s : storage) run rq p :
  s_tenantId s = T -> s_fence s = None -> request_allowed (T:=T) (allowed:=allowed) s rq ->
  respects TxAborted R (create_fenced s run rq p).
Proof.
  intros Ht Hf Ha. unfold create_fenced.
  assert (Hs : fence_of_tenant s) by (intros f; rewrite Hf; done).
  destruct (_ || _); [by apply create_ok|]. destruct (expected_of p) as [n|]; [|exact I].
  apply respects_transaction'; [exact _|]. unfold new_cell.
  apply respects_bind; [apply respects_select|intros row].
  apply respects_bind; [resp|intros _]. apply respects_bind; [resp|intros cell].
  apply create_ok; [done|..|done]. intros f. simpl. by intros [= <-].
Qed.

(** ** The transaction that creates a run *)

Section CreateRunFrag.
Context `{WorldSdk} {T : string} (R : Db -> Db -> Prop) `{!PreOrder R}.
Context (Hrun : forall values,
  (forall now r, values now = Ok r -> run_tenant r = T /\ run_status r = RunStatus.pending) ->
  stmt_ok R (insert_run values)).
Context (Hslots : forall run, stmt_ok R (insert_slots T run)).
Context (Hfirst : forall v, vl_tenant v = T -> vl_id v = IdText (slotToEventId FIRST_EVENT_SLOT) ->
  type_of (vl_body v) = run_created -> stmt_ok R (insert_event false v)).

Lemma insert_run_row values d r d' : insert_run values d = Ok (Some r, d') ->
  exists r0 now, values now = Ok r0 /\ r = set_run_retention_deadlines r0 /\
    db_runs d !! (run_tenant r, run_id r) = None /\ d' = set_runs d (<[(run_tenant r, run_id r) := r]> (db_runs d)).
Proof.
  unfold insert_run. destruct (values (db_now d)) as [r0|] eqn:E; [|done].
  destruct (_ !! _) eqn:Ek; intros [= <- <-]. by exists r0, (db_now d).
Qed.

Lemma openEventSlots_returns t r : returns (openEventSlots t r) (fun id => id = slotToEventId FIRST_EVENT_SLOT).
Proof. unfold openEventSlots. rets. done. Qed.

Lemma create_run_frag values ed spec :
  (forall now r, values now = Ok r -> run_tenant r = T /\ run_status r = RunStatus.pending) ->
  frag_ok TxAborted R (insert_run_and_event values ed spec).
Proof.
  intros Hv t r t' Ht Hr Ht'. unfold insert_run_and_event in Hr. rewrite run_tx_bind in Hr.
  rewrite run_tx_sql in Hr by done.
  destruct (insert_run values (tx_db t)) as [[[row|] d]|e] eqn:E;
    [|injection Hr as <- <-; by eapply Hrun|by simplify_eq].
  transitivity d; [by eapply Hrun|].
  destruct (insert_run_row _ _ _ _ E) as (r0 & now & E0 & E1 & _ & _).
  destruct (Hv _ _ E0) as [HT _]. replace (run_tenant r0) with (run_tenant row) in HT by by subst.
  change d with (tx_db (TxSt (tx_mem t) d false)). revert Hr Ht'.
  apply (respects_frag TxAborted R); [|done]. rewrite HT.
  eapply respects_bind_returns; [|apply openEventSlots_returns|].
  - apply respects_bind; [apply respects_sql, Hslots|intros ?; exact I].
  - intros id ->. apply respects_bind; [by apply respects_sql, Hfirst|by intros [e|]].
Qed.
End CreateRunFrag.

(** ** The transaction of a delivery *)

Section ReceivedFrag.
Context `{WorldSdk} {T : string} (R : Db -> Db -> Prop) `{!PreOrder R}.
Context (Hbump : forall run n, stmt_ok R (bump_seq_in_band T run n)).

Lemma forceClaimRefusal_respects t run h tok : respects TxAborted R (forceClaimRefusal t run h tok).
Proof. unfold forceClaimRefusal. resp. Qed.

Lemma received_frag (s : storage) run corr token spec stored :
  s_tenantId s = T -> fence_of_tenant s ->
  (forall v, vl_tenant v = T -> allocated (vl_id v) -> vl_body v = stored -> vl_correlationId v = corr ->
    stmt_ok R (insert_event true v)) ->
  frag_ok TxAborted R (hook_received_tx s run corr token spec stored).
Proof.
  intros Ht Hf Hev. apply respects_frag; [exact _|]. unfold hook_received_tx.
  apply respects_bind; [apply respects_select|intros [r|]; [|exact I]].
  destruct (isTerminalWorkflowRunStatus _); [exact I|]. apply respects_bind.
  - pose proof forceClaimRefusal_respects. resp.
  - intros _. apply (append_respects (T:=T) R s Hf Ht (fun b c => b = stored /\ c = corr)); try done.
    + intros v ? ? [? ?]. by apply Hev.
    + intros x. resp.
Qed.
End ReceivedFrag.

(** ** Relations that single statements respect *)

(** The id of an event row as a statement writes it: allocated, or the first slot. *)
Inductive writes_event `{WorldSdk} (T : string) : bool -> event_values -> Prop :=
| writes_allocated v : vl_tenant v = T -> allocated (vl_id v) -> writes_event T true v
| writes_legacy v n : vl_tenant v = T -> vl_id v = IdText ("wevt_" +:+ ulidOf n) -> writes_event T false v
| writes_first v : vl_tenant v = T -> vl_id v = IdText (slotToEventId FIRST_EVENT_SLOT) -> writes_event T false v.

(** When every statement respects the relation, the two transactions do. *)
Class StatementRel `{WorldSdk} (T : string) (allowed : hook_row -> Prop) (R : Db -> Db -> Prop) := {
  st_preorder :: PreOrder R;
  st_insert_run values :
    (forall now r, values now = Ok r -> run_tenant r = T /\ run_status r = RunStatus.pending) ->
    stmt_ok R (insert_run values);
  st_update_run run b guard set :
    (forall r, run_tenant (set r) = run_tenant r /\ run_id (set r) = run_id r) ->
    stmt_ok R (update_run T run b guard set);
  st_event b v : writes_event T b v -> stmt_ok R (insert_event b v);
  st_slots run : stmt_ok R (insert_slots T run);
  st_bump run n : stmt_ok R (bump_seq_in_band T run n);
  st_insert_step values :
    (forall now r, values now = Ok r -> st_tenant r = T /\ st_status r = StepStatus.pending) ->
    stmt_ok R (insert_step values);
  st_update_step run id set : step_set set -> stmt_ok R (update_step T run id step_not_terminal set);
  st_insert_hook clause h : hk_tenant h = T -> hk_claimsToken h = true -> allowed h ->
    stmt_ok R (insert_hook clause h);
  st_delete_hooks p : stmt_ok R (delete_hooks T p);
  st_insert_wait w : wt_tenant w = T -> stmt_ok R (insert_wait w);
  st_complete_wait id now : stmt_ok R (update_wait T id
    (fun w => bool_decide (wt_status w = WaitStatus.waiting)) (set_wait_completed now));
  st_delete_waits run : stmt_ok R (delete_waits T run);
  st_insert_admission values : (forall now, ad_tenant (values now) = T) -> stmt_ok R (insert_admission values);
  st_delete_admissions cutoff n : stmt_ok R (delete_old_admissions cutoff n)
}.

Section Statements.
Context `{WorldSdk} {T : string} {allowed : hook_row -> Prop} {R : Db -> Db -> Prop}.
Context `{!StatementRel T allowed R}.

Lemma statement_create_run values ed spec :
  (forall now r, values now = Ok r -> run_tenant r = T /\ run_status r = RunStatus.pending) ->
  frag_ok TxAborted R (insert_run_and_event values ed spec).
Proof.
  apply create_run_frag; [exact _|apply st_insert_run|apply st_slots|].
  intros v Ht Hid _. apply st_event. by constructor 3.
Qed.

Lemma statement_event v : vl_tenant v = T -> allocated (vl_id v) -> stmt_ok R (insert_event true v).
Proof. intros Ht Ha. apply st_event. by constructor. Qed.

Lemma statement_received (s : storage) run corr token spec stored :
  s_tenantId s = T -> fence_of_tenant s ->
  frag_ok TxAborted R (hook_received_tx s run corr token spec stored).
Proof.
  intros Ht Hf. apply (received_frag (T:=T)); [exact _|apply st_bump|done..|].
  intros v ? ? _ _. by apply statement_event.
Qed.

#[export] Instance statement_storage_rel : StorageRel T allowed R.
Proof.
  split; intros; try (by eapply statement_create_run || by eapply statement_received); try exact _;
    try (apply st_update_run; done).
  - apply st_update_run. by destruct H0.
  - by apply statement_event.
  - apply st_event. by econstructor 2.
  - apply st_bump.
  - by apply st_insert_step.
  - by apply st_update_step.
  - by apply st_insert_hook.
  - apply st_delete_hooks.
  - by apply st_insert_wait.
  - apply st_complete_wait.
  - apply st_delete_waits.
  - by apply st_insert_admission.
  - apply st_delete_admissions.
Qed.
End Statements.
