(* ===== verification/StorageInv.v ===== *)
(** What holds of the storage under any interleaving of requests: the log only
    grows and its slots stay dense, a tenant touches its own rows only, ended
    steps and completed waits stay as they are, a token has one hook, and an
    admission decision does not change. *)
From S2P Require Import Prelude Model Prog Slots Sdk Tenant RunRetention Schema Events StartHook.
From S2P Require Import CreateRun CreateStep CreateHook Create StorageRel.
From stdpp Require Import relations.
Local Open Scope Z_scope.

(** ** Pools of requests *)

(** A request meeting [ok], with nothing ambient. *)
Definition is_request `{WorldSdk} (ok : storage -> request -> Prop)
    (t : thread (S:=Db) (M:=mem) (E:=werror)) : Prop :=
  exists s run rq p, s_fence s = None /\ ok s rq /\ t = Thread (create_fenced s run rq p).

(** A relation the requests respect holds across each of their interleavings. *)
Lemma pool_requests `{WorldSdk} (ok : storage -> request -> Prop) (allowed : storage -> hook_row -> Prop)
    (R : Db -> Db -> Prop) :
  PreOrder R ->
  (forall s rq, ok s rq -> StorageRel (s_tenantId s) (allowed s) R /\
    request_allowed (T:=s_tenantId s) (allowed:=allowed s) s rq) ->
  forall ts m d c,
  Forall (is_request ok) ts -> rtc (pool_step TxAborted) (ts, m, d) c -> R d c.2.
Proof.
  intros HP HR ts m d c Hts Hc.
  eapply (pool_respects TxAborted R) in Hc as [Hd _]; [done|]. simpl.
  eapply Forall_impl; [done|]. intros t (s & run & rq & p & Hf & Hok & ->).
  destruct (HR s rq Hok). by eapply create_fenced_ok.
Qed.

Definition any_request : storage -> request -> Prop := fun _ _ => True.

Lemma all_allowed `{WorldSdk} T s rq : request_allowed (T:=T) (allowed:=fun _ => True) s rq.
Proof. split; [|by intros ???]. unfold hook_allowed. by destruct (rq_body rq). Qed.

Lemma pool_any `{WorldSdk} (R : Db -> Db -> Prop) :
  PreOrder R -> (forall T, StorageRel T (fun _ => True) R) -> forall ts m d c,
  Forall (is_request any_request) ts -> rtc (pool_step TxAborted) (ts, m, d) c -> R d c.2.
Proof.
  intros HP HR ts m d c. apply (pool_requests any_request (fun _ _ => True)); [done|].
  intros s rq _. split; [apply HR|apply all_allowed].
Qed.

Ltac stmt_cases :=
  unfold insert_run, update_run, insert_event, insert_slots, bump_seq_in_band, insert_step, update_step,
    insert_hook, delete_hooks, insert_wait, update_wait, delete_waits, insert_admission,
    delete_old_admissions, get_step in *; simplify_eq/=;
  repeat match goal with
  | H : context [match ?x with _ => _ end] |- _ => destruct x eqn:?; simplify_eq/=
  end.

(** ** The log only grows *)

Section AppendOnly.
Context `{WorldSdk}.

Definition extends (d d' : Db) : Prop := exists new, db_events d' = db_events d ++ new.

#[export] Instance extends_preorder : PreOrder extends.
Proof.
  split.
  - intros d. exists []. by rewrite app_nil_r.
  - intros d1 d2 d3 [l1 E1] [l2 E2]. exists (l1 ++ l2). by rewrite E2, E1, app_assoc.
Qed.

Lemma extends_same d d' : db_events d' = db_events d -> extends d d'.
Proof. intros E. exists []. by rewrite app_nil_r. Qed.

Lemma extends_rel T : StatementRel T (fun _ => True) extends.
Proof.
  split; try exact _; intros; intros d x d' E; try (apply extends_same; stmt_cases; repeat case_match; done).
  stmt_cases; try (by apply extends_same); by eexists.
Qed.
End AppendOnly.

(** ** Slots are dense *)

Section Dense.
Context `{WorldSdkLaws}.
Local Notation W := EVENT_ID_BODY_LENGTH.

(** The slot numbers of a run, in commit order. *)
Definition slot_numbers (T r : string) (d : Db) : list N :=
  omap (fun e => eventIdToSlot (ev_id e)) (run_events T r d).

Definition known_id (id : string) : Prop :=
  is_Some (eventIdToSlot id) \/ exists n, id = "wevt_" +:+ ulidOf n.

(** Every run's slots are 1, 2, 3, ... in the order they were committed. *)
Definition dense (d : Db) : Prop :=
  (forall T r, exists n, slot_numbers T r d = N.of_nat <$> seq 1 n) /\
  Forall (fun e => known_id (ev_id e)) (db_events d).

Lemma max_id_none l : max_id l = None -> l = [].
Proof. destruct l as [|y l]; simpl; [done|]. repeat case_match; done. Qed.

Lemma max_id_spec l m : max_id l = Some m -> m ∈ l /\ forall i, i ∈ l -> str_le i m = true.
Proof.
  revert m. induction l as [|i l IH]; intros m; simpl; [done|].
  destruct (max_id l) as [j|] eqn:E.
  - destruct (IH j eq_refl) as [Hin Hle]. destruct (str_lt i j) eqn:Eij; intros [= <-].
    + split; [by right|]. intros k [->|Hk]%elem_of_cons; [|by apply Hle].
      apply str_lt_spec in Eij. apply str_le_spec. by right.
    + assert (str_le j i = true) as Hji.
      { rewrite str_lt_not_le in Eij. by apply negb_false_iff in Eij. }
      split; [by left|]. intros k [->|Hk]%elem_of_cons; [apply str_le_spec; by left|].
      apply Hle in Hk. apply str_le_spec in Hk as [->|Hk]; [done|].
      apply str_le_spec in Hji as [<-|Hji]; [apply str_le_spec; by right|].
      apply str_le_spec. right. by eapply str_compare_lt_trans.
  - intros [= <-]. apply max_id_none in E as ->.
    split; [by left|]. intros k [->|Hk]%elem_of_cons; [apply str_le_spec; by left|by apply elem_of_nil in Hk].
Qed.

Lemma slot_elem T r d n : n ∈ slot_numbers T r d <->
  exists e, e ∈ run_events T r d /\ eventIdToSlot (ev_id e) = Some n.
Proof. unfold slot_numbers. rewrite list_elem_of_omap. done. Qed.

Lemma elem_of_seq_N n k : k ∈ (N.of_nat <$> seq 1 n) <-> (1 <= k <= N.of_nat n)%N.
Proof.
  rewrite list_elem_of_fmap. setoid_rewrite elem_of_seq. split.
  - intros (y & -> & ?). lia.
  - intros ?. exists (N.to_nat k). lia.
Qed.

Lemma slot_id_self n : (n < 10 ^ N.of_nat W)%N -> eventIdToSlot (slot_id EVENT_ID_PREFIX W n) = Some n.
Proof. intros. by apply sdk_eventIdToSlot. Qed.

(** The greatest id of a dense log is that of its last slot. *)
Lemma greatest_slot T r d n e k :
  slot_numbers T r d = N.of_nat <$> seq 1 n -> e ∈ run_events T r d ->
  (forall id, id ∈ ev_id <$> run_events T r d -> str_le id (ev_id e) = true) ->
  eventIdToSlot (ev_id e) = Some k -> k = N.of_nat n /\ ev_id e = slot_id EVENT_ID_PREFIX W k /\ (k < 10 ^ N.of_nat W)%N.
Proof.
  intros Hn He Hmax Hslot. pose proof sdk_width as HW. pose proof Hslot as [Hid Hklt]%sdk_eventIdToSlot. split_and!; [|done|done].
  assert (k ∈ slot_numbers T r d) as Hkin by (apply slot_elem; eauto).
  rewrite Hn, elem_of_seq_N in Hkin.
  assert (N.of_nat n ∈ slot_numbers T r d) as Hnin by (rewrite Hn, elem_of_seq_N; lia).
  apply slot_elem in Hnin as (e' & He' & Hs'). apply sdk_eventIdToSlot in Hs' as [Hid' Hnlt].
  assert (str_le (ev_id e') (ev_id e) = true) as Hle by (apply Hmax, list_elem_of_fmap; eauto).
  apply str_le_spec in Hle as [E|E]; rewrite Hid, Hid' in E.
  - apply slot_id_inj in E; [lia|done|done|lia].
  - rewrite slot_id_compare in E by (done || lia). rewrite N.compare_lt_iff in E. lia.
Qed.

(** The cast of a slot-numbered id is its number. *)
Lemma cast_slotted k : (k < 10 ^ N.of_nat W)%N ->
  let id := slot_id EVENT_ID_PREFIX W k in
  cast_bigint (String.substring (String.length EVENT_ID_PREFIX) (String.length id - String.length EVENT_ID_PREFIX) id) = Some k.
Proof.
  intros Hk id. pose proof sdk_width as HW. assert (k <= BIGINT_MAX)%N as Hbig.
  { assert (10 ^ N.of_nat W <= 10 ^ 18)%N by (apply N.pow_le_mono_r; lia). unfold BIGINT_MAX. lia. }
  rewrite <- (cast_slot_id EVENT_ID_PREFIX W) at 1 by (done || lia). do 2 f_equal.
  unfold id, slot_id. rewrite string_length_app. destruct (lpad0_spec k W Hk ltac:(lia)) as [_ ->]. lia.
Qed.

(** The slot the next insert computes: the next number, or one already taken. *)
Lemma nextSlotId_dense T r d n s :
  slot_numbers T r d = N.of_nat <$> seq 1 n -> Forall (fun e => known_id (ev_id e)) (db_events d) ->
  nextSlotId T r d = Some s ->
  (eventIdToSlot s = Some (N.of_nat (S n))) \/ (exists e, e ∈ run_events T r d /\ ev_id e = s).
Proof.
  intros Hn Hk Hs. pose proof sdk_width as HW. unfold nextSlotId in Hs.
  destruct (max_id _) as [id|] eqn:Em.
  - apply max_id_spec in Em as [Hin Hmax].
    apply list_elem_of_fmap in Hin as (e & -> & He).
    assert (known_id (ev_id e)) as [[k Hslot]|[u Hu]].
    { rewrite Forall_forall in Hk. apply Hk. unfold run_events in He. by apply list_elem_of_filter in He as [_ ?]. }
    2: { rewrite Hu, sdk_legacy_number in Hs. done. }
    destruct (greatest_slot T r d n e k Hn He Hmax Hslot) as (-> & Hid & Hklt).
    rewrite Hid, cast_slotted in Hs by done. simpl in Hs. destruct (_ <=? _)%N; [|done]. injection Hs as <-.
    destruct (N.lt_ge_cases (N.of_nat n + 1) (10 ^ N.of_nat W)) as [Hlt|Hge].
    + left. replace (N.of_nat (S n)) with (N.of_nat n + 1)%N by lia.
      apply sdk_eventIdToSlot. by split.
    + right. replace (N.of_nat n + 1)%N with (10 ^ N.of_nat W)%N by lia.
      rewrite lpad0_overflow by lia.
      set (p := (10 ^ N.of_nat (W - 1))%N).
      assert (Hp : (10 ^ N.of_nat W = p * 10)%N).
      { unfold p. rewrite N.mul_comm, <- N.pow_succ_r'. f_equal. lia. }
      assert (0 < p)%N by (apply N.neq_0_lt_0; unfold p; apply N.pow_nonzero; lia).
      assert (p ∈ slot_numbers T r d) as Hpin by (rewrite Hn, elem_of_seq_N; lia).
      apply slot_elem in Hpin as (e' & He' & Hs'). apply sdk_eventIdToSlot in Hs' as [Hid' _]. eauto.
  - assert (run_events T r d = []) as Hnil.
    { apply max_id_none in Em. by destruct (run_events T r d). }
    unfold slot_numbers in Hn. rewrite Hnil in Hn. destruct n; [|done]. rewrite sdk_first in Hs.
    simpl in Hs. injection Hs as <-. left. apply sdk_eventIdToSlot. split; [done|].
    apply N.pow_gt_1; lia.
Qed.

(** Only the event insert matters to the slots. *)
Lemma dense_same d d' : db_events d' = db_events d -> dense d -> dense d'.
Proof. intros E [Hn Hk]. split; [|by rewrite E]. intros T r. unfold slot_numbers, run_events. rewrite E. apply Hn. Qed.

Lemma slot_numbers_app T r d e :
  slot_numbers T r (set_events d (db_events d ++ [e])) =
  slot_numbers T r d ++ (if decide (ev_tenant e = T /\ ev_run e = r) then option_list (eventIdToSlot (ev_id e)) else []).
Proof.
  unfold slot_numbers, run_events. simpl. rewrite filter_app, omap_app. f_equal. rewrite filter_cons.
  destruct (decide _); simpl; [|done]. by destruct (eventIdToSlot (ev_id e)).
Qed.

Lemma no_conflict_elem e d e' :
  existsb (same_event_key e) (db_events d) = false ->
  e' ∈ run_events (ev_tenant e) (ev_run e) d -> ev_id e' <> ev_id e.
Proof.
  intros Hc He' E. unfold run_events in He'. apply list_elem_of_filter in He' as [[H1 H2] Hin].
  assert (existsb (same_event_key e) (db_events d) = true); [|congruence].
  apply existsb_exists. exists e'. split; [by apply list_elem_of_In|].
  unfold same_event_key. by rewrite H1, H2, E, !String.eqb_refl.
Qed.

Lemma insert_event_dense T b v d x d' :
  writes_event T b v -> insert_event b v d = Ok (x, d') -> dense d -> dense d'.
Proof.
  intros Hw Hi Hd. unfold insert_event in Hi.
  destruct (match vl_id v with IdText _ => _ | IdNextSlot => _ end) as [s|] eqn:Es; [|done].
  destruct (existsb (same_event_key _) _) eqn:Ec; [destruct b; by simplify_eq|].
  destruct (existsb (dedup_conflict _) _); [done|]. injection Hi as <- <-.
  set (e := event_of v s (db_now d)) in *. destruct Hd as [Hn Hk].
  assert (Hslot : (exists n, slot_numbers (vl_tenant v) (vl_run v) d = N.of_nat <$> seq 1 n /\
                    eventIdToSlot s = Some (N.of_nat (S n))) \/ (exists u, s = "wevt_" +:+ ulidOf u)).
  { destruct Hw as [v Ht [Hid|[u Hid]]|v u Ht Hid|v Ht Hid]; rewrite Hid in Es.
    - left. destruct (Hn (vl_tenant v) (vl_run v)) as [n En]. exists n. split; [done|].
      destruct (nextSlotId_dense _ _ _ _ _ En Hk Es) as [?|(e' & He' & Eid)]; [done|].
      by apply (no_conflict_elem e) in He'.
    - injection Es as <-. right. by exists u.
    - injection Es as <-. right. by exists u.
    - injection Es as <-. left. destruct (Hn (vl_tenant v) (vl_run v)) as [[|n] En].
      + exists 0%nat. split; [done|]. rewrite sdk_slotToEventId, sdk_first. apply slot_id_self.
        apply N.pow_gt_1; [lia|]. pose proof sdk_width. lia.
      + assert (1%N ∈ slot_numbers (vl_tenant v) (vl_run v) d) as H1 by (rewrite En, elem_of_seq_N; lia).
        apply slot_elem in H1 as (e' & He' & Hs'). apply sdk_eventIdToSlot in Hs' as [Hid' _].
        apply (no_conflict_elem e) in He'; [|done]. destruct He'. unfold e. simpl.
        by rewrite Hid', sdk_slotToEventId, sdk_first. }
  split.
  - intros T' r'. rewrite slot_numbers_app. unfold e; simpl.
    destruct (decide _) as [[<- <-]|_]; [|rewrite app_nil_r; apply Hn].
    destruct Hslot as [(n & En & ->)|[u ->]].
    + exists (S n). rewrite En, seq_S, fmap_app. done.
    + rewrite sdk_legacy_id, app_nil_r. apply Hn.
  - simpl. apply Forall_app. split; [done|]. constructor; [|done]. unfold e, known_id; simpl.
    destruct Hslot as [(n & _ & ->)|Hu]; [by left; eexists|by right].
Qed.

Definition keeps_dense (d d' : Db) : Prop := dense d -> dense d'.
#[export] Instance keeps_dense_preorder : PreOrder keeps_dense.
Proof. split; unfold keeps_dense; [intros d|intros d1 d2 d3]; auto. Qed.

Lemma dense_rel T : StatementRel T (fun _ => True) keeps_dense.
Proof.
  split; try exact _; intros; intros d x d' E;
    try (refine (dense_same _ _ _); stmt_cases; repeat case_match; done).
  intros Hd. by eapply insert_event_dense.
Qed.
End Dense.
