(* ===== verification/Lifecycle.v ===== *)
(** Tenants and lifecycles under interleaving: a tenant's requests change that
    tenant's rows only; an ended step and a completed wait stay as they are; a
    token has one hook; an admission decision does not change. *)
From S2P Require Import Prelude Model Prog Slots Sdk Tenant RunRetention Schema Events StartHook.
From S2P Require Import CreateRun CreateStep CreateHook Create StorageRel StorageInv.
Local Open Scope Z_scope.

(** ** A tenant's rows *)

Section Isolation.
Context `{WorldSdk} (U : string).

(** Rows that are deleted by their columns are stored under them. *)
Definition well_keyed (d : Db) : Prop :=
  (forall k h, db_hooks d !! k = Some h -> k.1 = hk_tenant h) /\
  (forall k w, db_waits d !! k = Some w -> k.1 = wt_tenant w).

(** Nothing of tenant [U] changed, other than admissions past every window
    having been deleted. *)
Record untouched (d d' : Db) : Prop := Untouched {
  un_runs k : db_runs d' !! (U, k) = db_runs d !! (U, k);
  un_events : filter (fun e => ev_tenant e = U) (db_events d') = filter (fun e => ev_tenant e = U) (db_events d);
  un_slots k : db_slots d' !! (U, k) = db_slots d !! (U, k);
  un_steps k : db_steps d' !! (U, k) = db_steps d !! (U, k);
  un_hooks k : db_hooks d' !! (U, k) = db_hooks d !! (U, k);
  un_waits k : db_waits d' !! (U, k) = db_waits d !! (U, k);
  un_admissions k a : db_admissions d' !! (U, k) = Some a -> db_admissions d !! (U, k) = Some a;
  un_letters : filter (fun x => dl_tenant x = U) (db_deadLetters d') =
               filter (fun x => dl_tenant x = U) (db_deadLetters d)
}.

Definition isolates (d d' : Db) : Prop := well_keyed d -> well_keyed d' /\ untouched d d'.

#[export] Instance isolates_preorder : PreOrder isolates.
Proof.
  split.
  - intros d Hd. by split.
  - intros d1 d2 d3 H12 H23 Hd. destruct (H12 Hd) as [Hd2 [A1 A2 A3 A4 A5 A6 A7 A8]].
    destruct (H23 Hd2) as [Hd3 [B1 B2 B3 B4 B5 B6 B7 B8]]. split; [done|].
    split; intros; try congruence. by apply A7, B7.
Qed.

Lemma fold_delete_lookup {A} (l : list ((string * string) * A)) (m : gmap (string * string) A) k a :
  fold_right (fun ka m => delete ka.1 m) m l !! k = Some a -> m !! k = Some a.
Proof.
  induction l as [|[k' a'] l IH]; simpl; [done|]. intros Hk. apply lookup_delete_Some in Hk as [_ Hk]. auto.
Qed.

Lemma resolve_letters_other now T run l : T <> U ->
  filter (fun x => dl_tenant x = U) (resolve_dead_letters now T run l) = filter (fun x => dl_tenant x = U) l.
Proof.
  intros HT. induction l as [|x l IH]; simpl; [done|]. rewrite !filter_cons, IH.
  destruct (String.eqb (dl_tenant x) T) eqn:E; simpl; [|done].
  apply String.eqb_eq in E. destruct (_ && _); simpl; [|done]. rewrite E.
  destruct (decide (T = U)); [done|]. done.
Qed.

Lemma well_keyed_same d d' :
  db_hooks d' = db_hooks d -> db_waits d' = db_waits d -> well_keyed d -> well_keyed d'.
Proof. unfold well_keyed. by intros -> ->. Qed.

Lemma writes_event_tenant T b v : writes_event T b v -> vl_tenant v = T.
Proof. by destruct 1. Qed.

(** Every field but those given is the same. *)
Ltac isolate :=
  split; intros; simpl; try done; try (by rewrite lookup_insert_ne by congruence).

Lemma isolates_rel T : T <> U -> StatementRel T (fun _ => True) isolates.
Proof.
  intros HT. split; try exact _; intros; intros d x d' E Hwk; stmt_cases; try (by split).
  - destruct (H0 _ _ Heqr) as [HT' _]. split; [done|]. isolate.
  - match goal with |- context [if ?c then set_deadLetters _ _ else _] => destruct c end;
      (split; [done|]); isolate. by apply resolve_letters_other.
  - apply writes_event_tenant in H0. split; [done|]. isolate. rewrite filter_app, filter_cons.
    simpl. destruct (decide _); [congruence|]. apply app_nil_r.
  - apply writes_event_tenant in H0. split; [done|]. isolate. rewrite filter_app, filter_cons.
    simpl. destruct (decide _); [congruence|]. apply app_nil_r.
  - split; [done|]. isolate.
  - split; [done|]. isolate.
  - destruct (H0 _ _ Heqr) as [HT' _]. split; [done|]. isolate.
  - split; [done|]. isolate.
  - destruct Hwk as [Hh Hw]. split; [|isolate]. split; [|done]. simpl.
    intros k y [[<- <-]|[_ Hk]]%lookup_insert_Some; [done|auto].
  - destruct Hwk as [Hh Hw]. split; [split; [|done]|isolate]; simpl.
    + intros k y [Hk _]%map_lookup_filter_Some. auto.
    + destruct (db_hooks d !! (U, k)) as [h|] eqn:Ek; [|by apply map_lookup_filter_None; left].
      apply map_lookup_filter_Some. split; [done|]. simpl. apply Hh in Ek. simpl in Ek. intros [? _]. congruence.
  - destruct Hwk as [Hh Hw]. split; [|isolate]. split; [done|]. simpl.
    intros k y [[<- <-]|[_ Hk]]%lookup_insert_Some; [done|auto].
  - destruct Hwk as [Hh Hw]. split; [|isolate]. split; [done|]. simpl.
    intros k y [[<- <-]|[_ Hk]]%lookup_insert_Some; [|auto]. by apply Hw in Heqo.
  - destruct Hwk as [Hh Hw]. split; [split; [done|]|isolate]; simpl.
    + intros k y [Hk _]%map_lookup_filter_Some. auto.
    + destruct (db_waits d !! (U, k)) as [h|] eqn:Ek; [|by apply map_lookup_filter_None; left].
      apply map_lookup_filter_Some. split; [done|]. simpl. apply Hw in Ek. simpl in Ek. intros [? _]. congruence.
  - split; [done|]. isolate. revert H1. simpl. rewrite lookup_insert_ne; [done|].
    rewrite (H0 (db_now d)). congruence.
  - split; [done|]. isolate. match goal with Hk : _ !! _ = Some _ |- _ => by apply fold_delete_lookup in Hk end.
Qed.
End Isolation.

(** ** Ended steps *)

Section Steps.
Context `{WorldSdkLaws}.

Definition steps_keyed (d : Db) : Prop :=
  forall k st, db_steps d !! k = Some st -> k.2 = st_id st.

(** A step in a terminal status keeps its row, unchanged. *)
Definition keeps_ended (d d' : Db) : Prop :=
  steps_keyed d -> steps_keyed d' /\ forall k st,
    db_steps d !! k = Some st -> isTerminalStepStatus (st_status st) = true -> db_steps d' !! k = Some st.

#[export] Instance keeps_ended_preorder : PreOrder keeps_ended.
Proof.
  split; [by intros d|]. intros d1 d2 d3 H12 H23 Hk. destruct (H12 Hk) as [Hk2 E12].
  destruct (H23 Hk2) as [Hk3 E23]. split; [done|]. intros k st Hst Ht. apply E23; [by apply E12|done].
Qed.

Lemma keeps_ended_same d d' : db_steps d' = db_steps d -> keeps_ended d d'.
Proof. unfold keeps_ended, steps_keyed. by intros ->. Qed.

Lemma step_set_id set st : step_set set -> st_id (set st) = st_id st.
Proof. by destruct 1. Qed.

Lemma steps_keyed_insert d k st : steps_keyed d -> k.2 = st_id st ->
  steps_keyed (set_steps d (<[k := st]> (db_steps d))).
Proof. intros Hk E i y. simpl. intros [[<- <-]|[_ Hy]]%lookup_insert_Some; auto. Qed.

Lemma keeps_ended_rel T : StatementRel T (fun _ => True) keeps_ended.
Proof.
  split; try exact _; intros; intros d x d' E;
    try (apply keeps_ended_same; stmt_cases; repeat case_match; done).
  - stmt_cases; try reflexivity. intros Hk. split; [by apply steps_keyed_insert|].
    intros k y Hy Ht. simpl. rewrite lookup_insert_ne; [done|]. intros <-. congruence.
  - unfold update_step in E. destruct (get_step T run id d) as [st|] eqn:Eg; [|by simplify_eq].
    unfold get_step in Eg. destruct id as [i|]; [|done]. simpl in Eg.
    destruct (db_steps d !! (T, i)) as [st'|] eqn:El; [|done]. simpl in Eg.
    destruct (String.eqb _ _); [|done]. injection Eg as ->.
    destruct (step_not_terminal st) eqn:Eg; [|by simplify_eq]. injection E as <- <-.
    intros Hk. pose proof (Hk _ _ El) as Hi. simpl in Hi. subst i.
    split; [by apply steps_keyed_insert; [|rewrite step_set_id]|].
    intros k y Hy Ht. simpl. rewrite lookup_insert_ne; [done|]. intros <-.
    rewrite El in Hy. injection Hy as <-. unfold step_not_terminal in Eg.
    apply negb_true_iff, bool_decide_eq_false in Eg. by apply Eg, sdk_terminal_step.
Qed.
End Steps.

(** ** One hook per token *)

Section Tokens.
Context `{WorldSdk}.

(** Every hook claims its token, under its own key, and no other hook of the
    tenant has the same token. *)
Record tokens_unique (d : Db) : Prop := TokensUnique {
  tu_claims k h : db_hooks d !! k = Some h -> hk_claimsToken h = true;
  tu_keyed k h : db_hooks d !! k = Some h -> k = (hk_tenant h, hk_id h);
  tu_unique k1 k2 h1 h2 : db_hooks d !! k1 = Some h1 -> db_hooks d !! k2 = Some h2 ->
    hk_tenant h1 = hk_tenant h2 -> hk_token h1 = hk_token h2 -> k1 = k2
}.

Definition keeps_tokens (d d' : Db) : Prop := tokens_unique d -> tokens_unique d'.
#[export] Instance keeps_tokens_preorder : PreOrder keeps_tokens.
Proof. split; unfold keeps_tokens; [intros d|intros d1 d2 d3]; auto. Qed.

Lemma keeps_tokens_sub d d' :
  (forall k h, db_hooks d' !! k = Some h -> db_hooks d !! k = Some h) -> keeps_tokens d d'.
Proof. intros Hs [A B C]. split; eauto. Qed.

Lemma elem_of_hook_list d h : h ∈ hook_list d <-> exists k, db_hooks d !! k = Some h.
Proof.
  unfold hook_list. rewrite list_elem_of_fmap. split.
  - intros ([k x] & -> & Hin). exists k. by apply elem_of_map_to_list in Hin.
  - intros [k Hk]. exists (k, h). split; [done|]. by apply elem_of_map_to_list.
Qed.

Lemma insert_hook_tokens clause h d x d' :
  hk_claimsToken h = true -> insert_hook clause h d = Ok (x, d') -> keeps_tokens d d'.
Proof.
  intros Hc E. unfold insert_hook in E.
  destruct (db_hooks d !! _) eqn:Ek; [destruct clause; simplify_eq; reflexivity|].
  destruct (existsb _ _) eqn:Ex; [destruct clause; simplify_eq; reflexivity|].
  injection E as <- <-. intros [A B C].
  assert (Hfresh : forall k y, db_hooks d !! k = Some y -> hk_tenant y = hk_tenant h -> hk_token y <> hk_token h).
  { intros k y Hy Ht Hk. assert (existsb (claim_conflict h) (hook_list d) = true); [|congruence].
    apply existsb_exists. exists y. split; [apply list_elem_of_In, elem_of_hook_list; eauto|].
    unfold claim_conflict. by rewrite Hc, (A _ _ Hy), Ht, Hk, !String.eqb_refl. }
  split; simpl.
  - intros k y [[<- <-]|[_ Hy]]%lookup_insert_Some; eauto.
  - intros k y [[<- <-]|[_ Hy]]%lookup_insert_Some; eauto.
  - intros k1 k2 h1 h2 [[<- <-]|[_ H1]]%lookup_insert_Some [[<- <-]|[_ H2]]%lookup_insert_Some Ht Hk; try done.
    + by destruct (Hfresh _ _ H2).
    + by destruct (Hfresh _ _ H1).
    + by eapply C.
Qed.

Lemma keeps_tokens_rel T : StatementRel T (fun _ => True) keeps_tokens.
Proof.
  split; try exact _; intros; intros d x d' E;
    try (by eapply insert_hook_tokens); apply keeps_tokens_sub; intros k y;
    stmt_cases; repeat case_match; try done.
  by intros [? _]%map_lookup_filter_Some.
Qed.
End Tokens.

(** ** A run's first event *)

Section FirstEvent.
Context `{WorldSdk}.

Definition has_first_event (T r : string) (d : Db) : Prop :=
  is_Some (db_slots d !! (T, r)) /\
  exists e, e ∈ run_events T r d /\ ev_id e = slotToEventId FIRST_EVENT_SLOT /\ ev_type e = run_created.

(** Every run is slot-numbered and has its [run_created] in the first slot. *)
Definition runs_begun (d : Db) : Prop :=
  forall T r, is_Some (db_runs d !! (T, r)) -> has_first_event T r d.

Definition keeps_begun (d d' : Db) : Prop := runs_begun d -> runs_begun d'.
#[export] Instance keeps_begun_preorder : PreOrder keeps_begun.
Proof. split; unfold keeps_begun; [intros d|intros d1 d2 d3]; auto. Qed.

Lemma run_events_extends T r d d' e : extends d d' -> e ∈ run_events T r d -> e ∈ run_events T r d'.
Proof.
  intros [new E]. unfold run_events. rewrite E, filter_app, elem_of_app. by left.
Qed.

(** No new run, no slot marker gone, no event gone. *)
Lemma keeps_begun_grow d d' :
  extends d d' -> (forall k, is_Some (db_slots d !! k) -> is_Some (db_slots d' !! k)) ->
  (forall k, is_Some (db_runs d' !! k) -> is_Some (db_runs d !! k)) -> keeps_begun d d'.
Proof.
  intros He Hs Hr Hd T r Hrun. destruct (Hd T r (Hr _ Hrun)) as [Hsl (e & Hin & Hid & Ht)].
  split; [auto|]. exists e. split; [|done]. by eapply run_events_extends.
Qed.

Lemma keeps_begun_insert_event b v : stmt_ok keeps_begun (insert_event b v).
Proof.
  intros d x d' E. apply keeps_begun_grow; stmt_cases; try (by apply extends_same); try done; by eexists.
Qed.

Lemma keeps_begun_create_run T values ed spec :
  (forall now r, values now = Ok r -> run_tenant r = T /\ run_status r = RunStatus.pending) ->
  frag_ok TxAborted keeps_begun (insert_run_and_event values ed spec).
Proof.
  intros _ t res t' Ht Hr Ht'. unfold insert_run_and_event in Hr. rewrite run_tx_bind in Hr.
  rewrite run_tx_sql in Hr by done.
  destruct (insert_run values (tx_db t)) as [[[row|] d]|e] eqn:E; [|..|by simplify_eq].
  2: { injection Hr as <- <-. simpl. unfold insert_run in E. repeat case_match; simplify_eq. reflexivity. }
  destruct (insert_run_row _ _ _ _ E) as (r0 & now & _ & _ & Hnew & Ed).
  rewrite run_tx_bind in Hr. unfold openEventSlots in Hr. rewrite run_tx_bind in Hr.
  rewrite run_tx_sql in Hr by done. simpl tx_db in Hr. simpl tx_mem in Hr.
  set (k := (run_tenant row, run_id row)) in *.
  destruct (insert_slots (run_tenant row) (run_id row) d) as [[[] d1]|e1] eqn:E1; [|by simplify_eq].
  cbn [run_tx] in Hr. rewrite run_tx_bind, run_tx_sql in Hr by done. simpl tx_db in Hr.
  destruct (insert_event _ _ d1) as [[[e|] d2]|e2] eqn:E2; [|..|by simplify_eq].
  2: { unfold insert_event in E2. repeat case_match; simplify_eq. }
  cbn [run_tx] in Hr. injection Hr as <- <-. simpl in Ht' |- *.
  assert (Hs1 : db_events d1 = db_events d /\ db_runs d1 = db_runs d /\ is_Some (db_slots d1 !! k) /\
                forall i, is_Some (db_slots d !! i) -> is_Some (db_slots d1 !! i)).
  { unfold insert_slots in E1. fold k in E1. case_match; simplify_eq; simpl; [eauto|].
    split; [done|]. split; [done|]. split; [apply lookup_insert_is_Some'; by left|].
    intros i Hi. apply lookup_insert_is_Some'. by right. }
  destruct Hs1 as (Ev1 & Er1 & Hk1 & Hsl1).
  assert (He2 : d2 = set_events d1 (db_events d1 ++ [e]) /\ ev_id e = slotToEventId FIRST_EVENT_SLOT /\
                ev_type e = run_created /\ ev_tenant e = run_tenant row /\ ev_run e = run_id row).
  { unfold insert_event in E2. simpl in E2. repeat case_match; by simplify_eq. }
  destruct He2 as (-> & Hid & Hty & Htn & Hrn).
  intros Hd T' r' Hrun. simpl in Hrun. rewrite Er1, Ed in Hrun. simpl in Hrun.
  destruct (decide ((T', r') = k)) as [Ek|Hne].
  - unfold k in Ek. injection Ek as -> ->. split; [done|]. exists e. split; [|done].
    unfold run_events. simpl. rewrite filter_app, elem_of_app. right.
    apply list_elem_of_filter. split; [done|by left].
  - rewrite lookup_insert_ne in Hrun by done. destruct (Hd _ _ Hrun) as [Hs (e' & Hin & Hrest)].
    split; [simpl; apply Hsl1; by rewrite Ed|]. exists e'. split; [|done].
    unfold run_events in *. simpl. rewrite filter_app, elem_of_app. left. rewrite Ev1, Ed. done.
Qed.

#[export] Instance keeps_begun_rel T : StorageRel T (fun _ => True) keeps_begun.
Proof.
  assert (Hb : forall run n, stmt_ok keeps_begun (bump_seq_in_band T run n)).
  { intros run n d x d' E. apply keeps_begun_grow; stmt_cases; try (by apply extends_same); try done.
    intros k Hk. apply lookup_insert_is_Some'. by right. }
  split; try exact _; intros; try (by apply keeps_begun_insert_event); try done.
  all: try (by eapply keeps_begun_create_run).
  all: try (by apply (received_frag (T:=T)); [exact _|done..|intros; apply keeps_begun_insert_event]).
  all: intros d x d' E; apply keeps_begun_grow; stmt_cases; repeat case_match; try (by apply extends_same); try done.
  all: simpl; intros k Hk; apply lookup_insert_is_Some' in Hk as [<-|Hk]; [by eexists|done].
Qed.
End FirstEvent.

(** ** No delivery behind a disposal *)

Section Received.
Context `{WorldSdkLaws} (T0 h : string) (Hh : h <> "").

(** The slot-numbered deliveries to the hook. *)
Definition deliveries (d : Db) : list event_row :=
  filter (fun e => ev_tenant e = T0 /\ ev_correlationId e = Some h /\ ev_type e = hook_received /\
                   is_Some (eventIdToSlot (ev_id e))) (db_events d).

(** Once the hook's row is gone it stays so, and no delivery to it is journaled. *)
Definition stays_gone (d d' : Db) : Prop :=
  db_hooks d !! (T0, h) = None -> db_hooks d' !! (T0, h) = None /\ deliveries d' = deliveries d.

#[export] Instance stays_gone_preorder : PreOrder stays_gone.
Proof.
  split; [by intros d|]. intros d1 d2 d3 H12 H23 Hn. destruct (H12 Hn) as [Hn2 E12].
  destruct (H23 Hn2) as [Hn3 E23]. split; [done|congruence].
Qed.

Lemma stays_gone_same d d' : db_hooks d' = db_hooks d -> db_events d' = db_events d -> stays_gone d d'.
Proof. unfold stays_gone, deliveries. by intros -> ->. Qed.

Lemma stays_gone_sub d d' :
  (db_hooks d !! (T0, h) = None -> db_hooks d' !! (T0, h) = None) -> db_events d' = db_events d ->
  stays_gone d d'.
Proof. unfold stays_gone, deliveries. intros Hk ->. auto. Qed.

(** An event that is no delivery to the hook. *)
Lemma stays_gone_event b v :
  (forall s, ~ (vl_tenant v = T0 /\ vl_correlationId v = Some h /\ type_of (vl_body v) = hook_received /\
                (match vl_id v with IdText t => s = t | IdNextSlot => True end) /\ is_Some (eventIdToSlot s))) ->
  stmt_ok stays_gone (insert_event b v).
Proof.
  intros Hv d x d' E. unfold insert_event in E.
  destruct (match vl_id v with IdText _ => _ | IdNextSlot => _ end) as [s|] eqn:Es; [|done].
  destruct (existsb (same_event_key _) _); [destruct b; simplify_eq; reflexivity|].
  destruct (existsb (dedup_conflict _) _); [done|]. injection E as <- <-. intros Hn. split; [done|].
  unfold deliveries. simpl. rewrite filter_app, filter_cons. destruct (decide _) as [Hd|_]; [|apply app_nil_r].
  unfold ev_type in Hd. simpl in Hd. destruct (Hv s). destruct Hd as (? & ? & ? & ?).
  split_and!; try done; destruct (vl_id v); by simplify_eq.
Qed.

Lemma stays_gone_received s run corr token spec stored :
  s_tenantId s = T0 -> corr = Some h ->
  forall t r t', db_hooks (tx_db t) !! (T0, h) = None -> tx_failed t = false ->
  run_tx TxAborted (hook_received_tx s run corr token spec stored) t = (r, t') ->
  tx_failed t' = false -> tx_db t' = tx_db t.
Proof.
  intros Hs -> t r t' Hn Ht Hr Ht'. unfold hook_received_tx in Hr. rewrite run_tx_bind in Hr.
  rewrite run_tx_select in Hr by done.
  destruct (get_run _ _ _) as [row|]; [|by simplify_eq/=].
  destruct (isTerminalWorkflowRunStatus _); [by simplify_eq/=|].
  rewrite run_tx_bind in Hr.
  assert (truthy (Some h) = true) as Htr. { simpl. apply negb_true_iff. by apply String.eqb_neq. }
  rewrite Htr in Hr. change (default "" (Some h)) with h in Hr.
  rewrite run_tx_bind, run_tx_select in Hr by done.
  unfold get_hook in Hr. cbn [tx_db] in Hr. rewrite Hs, Hn, run_tx_bind in Hr.
  destruct (run_tx TxAborted (forceClaimRefusal _ _ _ _) _) as [x t1] eqn:Ex.
  assert (t' = t1) as ->. { by destruct x as [[e|]|e]; simplify_eq/=. }
  assert (PreOrder (fun d d' : Db => d' = d)) as HP by (split; [by intros ?|intros ??? -> ->; done]).
  pose proof (forceClaimRefusal_respects (fun d d' : Db => d' = d) T0 run h token) as Hresp.
  apply respects_frag in Hresp; [|done].
  exact (Hresp (TxSt (tx_mem t) (tx_db t) false) _ _ eq_refl Ex Ht').
Qed.

Definition not_the_hook (x : hook_row) : Prop := ~ (hk_tenant x = T0 /\ hk_id x = h).

Lemma stays_gone_rel T : StorageRel T not_the_hook stays_gone.
Proof.
  split; try exact _; intros.
  - apply (create_run_frag (T:=T)); [exact _|..|done]; intros.
    + intros d x d' E. apply stays_gone_same; stmt_cases; done.
    + intros d x d' E. apply stays_gone_same; stmt_cases; done.
    + apply stays_gone_event. intros s (_ & _ & Ht & _). congruence.
  - intros d x d' E. apply stays_gone_same; stmt_cases; repeat case_match; done.
  - intros d x d' E. apply stays_gone_same; stmt_cases; repeat case_match; done.
  - intros d x d' E. apply stays_gone_same; stmt_cases; repeat case_match; done.
  - intros d x d' E. apply stays_gone_same; stmt_cases; repeat case_match; done.
  - apply stays_gone_event. by intros s (_ & _ & ? & _).
  - apply stays_gone_event. intros s (_ & _ & _ & Hid & [k Hk]).
    match goal with Hv : vl_id v = _ |- _ => rewrite Hv in Hid end. subst s. by rewrite sdk_legacy_id in Hk.
  - intros d x d' E. apply stays_gone_same; stmt_cases; repeat case_match; done.
  - intros d x d' E. apply stays_gone_same; stmt_cases; repeat case_match; done.
  - intros d x d' E. apply stays_gone_same; stmt_cases; repeat case_match; done.
  - intros d x d' E. stmt_cases; repeat case_match; simplify_eq; try reflexivity.
    apply stays_gone_sub; [|done]. simpl. rewrite lookup_insert_ne; [done|].
    intros [= ??]. by match goal with Hx : not_the_hook _ |- _ => apply Hx end.
  - intros d x d' E. stmt_cases. apply stays_gone_sub; [|done]. simpl. intros Hn.
    apply map_lookup_filter_None. by left.
  - intros d x d' E. apply stays_gone_same; stmt_cases; repeat case_match; done.
  - intros d x d' E. apply stays_gone_same; stmt_cases; repeat case_match; done.
  - intros d x d' E. apply stays_gone_same; stmt_cases; repeat case_match; done.
  - intros d x d' E. apply stays_gone_same; stmt_cases; repeat case_match; done.
  - intros d x d' E. apply stays_gone_same; stmt_cases; repeat case_match; done.
  - match goal with Ht : s_tenantId s = T |- _ => rename Ht into HT end.
    destruct (decide (T = T0 /\ corr = Some h)) as [[-> ->]|Hne].
    + intros t r t' Ht Hr Ht' Hn.
      rewrite (stays_gone_received s run (Some h) token spec stored HT eq_refl t r t') by done. done.
    + apply (received_frag (T:=T)); [exact _| |done|done|].
      * intros run' n d x d' E. apply stays_gone_same; stmt_cases; repeat case_match; done.
      * intros v ? ? ? ?. apply stays_gone_event. intros s' (? & ? & _). apply Hne. split; congruence.
Qed.
End Received.
