(* ===== verification/Demo.v ===== *)
(** A small World the witnesses of the storage properties evaluate: one tenant,
    its storage, and requests against it. *)
From S2P Require Import Prelude Model Prog Slots Sdk Tenant RunRetention Schema Events StartHook.
From S2P Require Import CreateRun CreateStep CreateHook Create StorageRel StorageInv Lifecycle.
Local Open Scope Z_scope.

Definition demo_storage (tenant : string) : storage :=
  Storage tenant None 8 1000000 25000 None None.

Definition demo_input : run_input :=
  RunInput (Some "dpl_1") (Some "workflow") (Some "input") None None false None None None.

Definition demo_request (b : body) (corr : option string) : request := Request b corr None.

(** [create] on run [r], unfenced. *)
Definition demo_create (tenant r : string) (b : body) (corr : option string) : P event_result :=
  create_fenced (demo_storage tenant) (Some r) (demo_request b corr) no_params.

Definition demo_hook (token : string) (force : bool) : body :=
  HookCreated (HookData token None None None None force None).
Definition demo_step : step_data := StepData (Some "step") (Some "arg") None.

(** A run created and started, with a step and a hook of token [token]. *)
Definition demo_setup : P unit :=
  demo_create "t1" "wrun_1" (RunCreated demo_input) None ;;;
  demo_create "t1" "wrun_1" (RunStarted None) None ;;;
  demo_create "t1" "wrun_1" (StepCreated demo_step) (Some "step_1") ;;;
  demo_create "t1" "wrun_1" (demo_hook "token" false) (Some "hook_1") ;;;
  Ret tt.

Definition demo_db : Db := (run TxAborted demo_setup (empty_mem 1000) (empty_db 1000)).2.

(** What holds of every row of a concrete table is decided by evaluation. *)
Ltac decide_rows P m :=
  let H := fresh in
  assert (H : map_Forall P m) by (apply (bool_decide_unpack (map_Forall P m)); vm_compute; exact I);
  exact H.

Lemma demo_db_keyed : well_keyed demo_db.
Proof.
  split.
  - decide_rows (fun (k : string * string) h => k.1 = hk_tenant h) (db_hooks demo_db).
  - decide_rows (fun (k : string * string) w => k.1 = wt_tenant w) (db_waits demo_db).
Qed.

(** Its one hook is [hook_1]. *)
Lemma demo_db_hooks k h : db_hooks demo_db !! k = Some h -> k = ("t1", "hook_1") /\ hk_tenant h = "t1" /\
  hk_id h = "hook_1" /\ hk_claimsToken h = true.
Proof.
  revert k h. decide_rows (fun (k : string * string) h => k = ("t1", "hook_1") /\ hk_tenant h = "t1" /\
    hk_id h = "hook_1" /\ hk_claimsToken h = true) (db_hooks demo_db).
Qed.

Definition demo_mem : mem := Mem 2000 0 [] 0 ∅.

(** Running one request alone, as an interleaving that ends in [d']. *)
Lemma demo_pool tenant r b corr m d d' :
  d' = (run TxAborted (demo_create tenant r b corr) m d).2 ->
  exists c, Forall (is_request any_request) [Thread (demo_create tenant r b corr)] /\
    rtc (pool_step TxAborted) ([Thread (demo_create tenant r b corr)], m, d) c /\ c.2 = d'.
Proof.
  destruct (run TxAborted (demo_create tenant r b corr) m d) as [[x m'] d''] eqn:E. simpl. intros ->.
  destruct (run_pool TxAborted _ _ _ _ _ _ E) as (p' & Hs & _).
  exists ([Thread p'], m', d''). split; [|done]. constructor; [|done].
  exists (demo_storage tenant), (Some r), (demo_request b corr), no_params. done.
Qed.
