(* ===== verification/StorageProps.v ===== *)
(** Properties of the storage under any interleaving of requests (src/storage.ts). *)
From S2P Require Import Prelude Model Prog Slots Sdk Tenant RunRetention Schema Events StartHook.
From S2P Require Import CreateRun CreateStep CreateHook Create StorageRel StorageInv Lifecycle Demo.
From stdpp Require Import relations.
Local Open Scope Z_scope.

(** The state after one request run alone, as the end of an interleaving. *)
Ltac demo_run tenant r b corr m d :=
  intros d'; assert (Ed : d' = (run TxAborted (demo_create tenant r b corr) m d).2) by reflexivity;
  clearbody d'; destruct (demo_pool tenant r b corr m d d' Ed) as (c & Hreq & Hc & Ec).

(** C1 Whatever requests interleave, each run's slot numbers stay 1, 2, 3, ... in
    commit order: no slot is skipped, repeated or reused out of order. *)
Theorem slots_stay_dense `{WorldSdkLaws} ts m d c :
  Forall (is_request any_request) ts -> rtc (pool_step TxAborted) (ts, m, d) c ->
  dense d -> dense c.2.
Proof.
  intros Hts Hc. eapply (pool_any keeps_dense); [exact _| |done..].
  intros T. exact (statement_storage_rel (StatementRel0:=dense_rel T)).
Qed.

Lemma slots_stay_dense_witness :
  let d' := (run TxAborted (demo_create "t1" "wrun_1" (RunCreated demo_input) None)
                   (empty_mem 0) (empty_db 0)).2 in
    (length (db_events d') = 1)%nat /\ dense d'.
Proof.
  demo_run "t1" "wrun_1" (RunCreated demo_input) (@None string) (empty_mem 0) (empty_db 0).
  split; [rewrite Ed; vm_compute; reflexivity|].
  rewrite <- Ec.
  refine (slots_stay_dense _ _ _ _ Hreq Hc _).
  split; [|constructor]. intros T r. exists 0%nat. reflexivity.
Defined.

(** C14 The event log is append-only: no interleaving of requests changes or
    removes an event that is in it. *)
Theorem log_append_only `{WorldSdk} ts m d c :
  Forall (is_request any_request) ts -> rtc (pool_step TxAborted) (ts, m, d) c ->
  exists new, db_events c.2 = db_events d ++ new.
Proof.
  intros Hts Hc. eapply (pool_any extends); [exact _| |done..].
  intros T. exact (statement_storage_rel (StatementRel0:=extends_rel T)).
Qed.

Lemma log_append_only_witness :
  let d' := (run TxAborted (demo_create "t1" "wrun_1" RunCancelled None) demo_mem demo_db).2 in
    (length (db_events d') = 5)%nat /\ exists new, db_events d' = db_events demo_db ++ new.
Proof.
  demo_run "t1" "wrun_1" RunCancelled (@None string) demo_mem demo_db.
  split; [rewrite Ed; vm_compute; reflexivity|].
  rewrite <- Ec.
  exact (log_append_only _ _ _ _ Hreq Hc).
Defined.

(** C4 Requests of other tenants leave a tenant alone: its runs, log, slots,
    steps, hooks, waits and dead letters are as they were, and the one
    cross-tenant statement, the sweep of old admission decisions, adds or
    changes none of its rows. *)
Theorem tenant_isolation `{WorldSdk} U ts m d c :
  Forall (is_request (fun s _ => s_tenantId s <> U)) ts -> rtc (pool_step TxAborted) (ts, m, d) c ->
  well_keyed d -> untouched U d c.2.
Proof.
  intros Hts Hc Hd. refine (proj2 (pool_requests (fun s _ => s_tenantId s <> U) (fun _ _ => True) (isolates U)
    _ _ ts m d c Hts Hc Hd)).
  intros s rq Hs. split; [|apply all_allowed].
  exact (statement_storage_rel (StatementRel0:=isolates_rel U _ Hs)).
Qed.

Lemma tenant_isolation_witness :
  let d' := (run TxAborted (demo_create "t2" "wrun_1" (RunCreated demo_input) None) demo_mem demo_db).2 in
    is_Some (get_run "t2" "wrun_1" d') /\ untouched "t1" demo_db d'.
Proof.
  demo_run "t2" "wrun_1" (RunCreated demo_input) (@None string) demo_mem demo_db.
  split; [rewrite Ed; vm_compute; by eexists|].
  rewrite <- Ec.
  refine (tenant_isolation "t1" _ _ _ _ _ Hc _).
  - constructor; [|done]. exists (demo_storage "t2"), (Some "wrun_1"), (demo_request (RunCreated demo_input) None), no_params.
    split; [reflexivity|]. split; [done|reflexivity].
  - exact demo_db_keyed.
Defined.

(** C16 A step that completed, failed or was cancelled keeps its row unchanged,
    whatever is started, retried, completed or failed beside it, however the
    requests interleave. *)
Theorem ended_steps_stay `{WorldSdkLaws} ts m d c k st :
  Forall (is_request any_request) ts -> rtc (pool_step TxAborted) (ts, m, d) c ->
  steps_keyed d -> db_steps d !! k = Some st -> isTerminalStepStatus (st_status st) = true ->
  db_steps c.2 !! k = Some st.
Proof.
  intros Hts Hc Hd Hst Ht.
  destruct (pool_any keeps_ended keeps_ended_preorder
    (fun T => statement_storage_rel (StatementRel0:=keeps_ended_rel T)) _ _ _ _ Hts Hc Hd) as [_ Hk]. by apply Hk.
Qed.

Definition ended_step : step_row :=
  StepRow "t1" "wrun_1" "step_1" "step" StepStatus.completed (Some "arg") (Some "done") None 1
    (Some 1000) (Some 1500) 1000 None (Some 8) None.
Definition ended_db : Db := set_steps demo_db {[ ("t1", "step_1") := ended_step ]}.

Lemma ended_steps_stay_witness :
  let d' := (run TxAborted (demo_create "t1" "wrun_1" (StepFailed (Some "boom")) (Some "step_1"))
                   demo_mem ended_db).2 in
    db_steps d' !! ("t1", "step_1") = Some ended_step.
Proof.
  demo_run "t1" "wrun_1" (StepFailed (Some "boom")) (Some "step_1") demo_mem ended_db.
  rewrite <- Ec.
  refine (ended_steps_stay _ _ _ _ ("t1", "step_1") ended_step Hreq Hc _ _ _); try reflexivity.
  intros k st Hst. unfold ended_db in Hst. cbn [db_steps set_steps] in Hst.
  apply lookup_singleton_Some in Hst as [<- <-]. reflexivity.
Defined.

(** C5 A hook token is held by at most one hook of a tenant, whatever creates,
    takes over, disposes of or admits hooks concurrently. *)
Theorem token_held_once `{WorldSdk} ts m d c k1 k2 h1 h2 :
  Forall (is_request any_request) ts -> rtc (pool_step TxAborted) (ts, m, d) c -> tokens_unique d ->
  db_hooks c.2 !! k1 = Some h1 -> db_hooks c.2 !! k2 = Some h2 ->
  hk_tenant h1 = hk_tenant h2 -> hk_token h1 = hk_token h2 -> k1 = k2.
Proof.
  intros Hts Hc Hd. pose proof (pool_any keeps_tokens keeps_tokens_preorder
    (fun T => statement_storage_rel (StatementRel0:=keeps_tokens_rel T)) _ _ _ _ Hts Hc Hd) as [_ _ Hu].
  apply Hu.
Qed.

Lemma token_held_once_witness :
  let d' := (run TxAborted (demo_create "t1" "wrun_1" (demo_hook "token" true) (Some "hook_2")) demo_mem demo_db).2 in
    is_Some (db_hooks d' !! ("t1", "hook_2")) /\
    forall k1 k2 h1 h2, db_hooks d' !! k1 = Some h1 -> db_hooks d' !! k2 = Some h2 ->
      hk_tenant h1 = hk_tenant h2 -> hk_token h1 = hk_token h2 -> k1 = k2.
Proof.
  demo_run "t1" "wrun_1" (demo_hook "token" true) (Some "hook_2") demo_mem demo_db.
  split; [rewrite Ed; vm_compute; by eexists|]. rewrite <- Ec. intros k1 k2 h1 h2.
  refine (token_held_once _ _ _ _ k1 k2 h1 h2 Hreq Hc _).
  split.
  - intros k h Hk. by destruct (demo_db_hooks _ _ Hk) as (_ & _ & _ & ?).
  - intros k h Hk. destruct (demo_db_hooks _ _ Hk) as (-> & -> & -> & _). reflexivity.
  - intros k k' h h' Hk Hk' _ _. destruct (demo_db_hooks _ _ Hk) as [-> _].
    by destruct (demo_db_hooks _ _ Hk') as [-> _].
Defined.

(** C3 A run never exists without its [run_created] event in the first slot of a
    slot-numbered log, whichever of the direct start, the resilient start and
    their retries creates it. *)
Theorem runs_have_first_event `{WorldSdk} ts m d c :
  Forall (is_request any_request) ts -> rtc (pool_step TxAborted) (ts, m, d) c ->
  runs_begun d -> runs_begun c.2.
Proof. intros Hts Hc. eapply (pool_any keeps_begun); [exact _|exact _|done..]. Qed.

Lemma runs_have_first_event_witness :
  let d' := (run TxAborted (demo_create "t1" "wrun_9" (RunStarted (Some demo_input)) None)
                   (empty_mem 0) (empty_db 0)).2 in
    option_map run_status (get_run "t1" "wrun_9" d') = Some RunStatus.running /\ runs_begun d'.
Proof.
  demo_run "t1" "wrun_9" (RunStarted (Some demo_input)) (@None string) (empty_mem 0) (empty_db 0).
  split; [rewrite Ed; vm_compute; reflexivity|].
  rewrite <- Ec.
  refine (runs_have_first_event _ _ _ _ Hreq Hc _). intros T r Hr. cbn [db_runs empty_db] in Hr. by apply lookup_empty_is_Some in Hr.
Defined.

(** C2 Once a hook's row is gone, disposed of by its run or taken over by
    another, no delivery to it is appended to a slot-numbered log any more,
    however the deliveries raced the disposal, as long as no request creates a
    hook of that id again. *)
Theorem no_delivery_behind_disposal `{WorldSdkLaws} T0 h ts m d c :
  h <> "" ->
  Forall (is_request (fun s rq => request_allowed (T:=s_tenantId s) (allowed:=not_the_hook T0 h) s rq)) ts ->
  rtc (pool_step TxAborted) (ts, m, d) c ->
  db_hooks d !! (T0, h) = None ->
  db_hooks c.2 !! (T0, h) = None /\ deliveries T0 h c.2 = deliveries T0 h d.
Proof.
  intros Hh Hts Hc. eapply (pool_requests _ (fun _ => not_the_hook T0 h) (stays_gone T0 h)); [exact _| |done..].
  intros s rq Hok. split; [by apply stays_gone_rel|done].
Qed.

Lemma no_delivery_behind_disposal_witness :
  let d' := (run TxAborted (demo_create "t1" "wrun_1" (HookReceived (Some "token") (Some "hi")) (Some "hook_9"))
                   demo_mem demo_db).2 in
    db_hooks d' !! ("t1", "hook_9") = None /\ deliveries "t1" "hook_9" d' = deliveries "t1" "hook_9" demo_db.
Proof.
  demo_run "t1" "wrun_1" (HookReceived (Some "token") (Some "hi")) (Some "hook_9") demo_mem demo_db.
  rewrite <- Ec.
  refine (no_delivery_behind_disposal "t1" "hook_9" _ _ _ _ _ _ Hc _); [done| |vm_compute; reflexivity].
  constructor; [|done]. eexists (demo_storage "t1"), (Some "wrun_1"), _, no_params.
  split; [done|]. split; [|reflexivity]. split; [done|]. by intros ???.
Defined.
