(* ===== verification/LogProps.v ===== *)
(** The event log's operations, run alone: what an insert writes whatever slots
    are taken under it, what the in-band fence refuses, and what a page, a
    report of skipped slots and a snapshot contain (src/storage.ts, lines 285 to
    430, 958 to 1060 and 3276 to 3377). *)
From S2P Require Import Prelude Model Paging Prog Slots Sdk Tenant RunRetention Schema Events StartHook.
From S2P Require Import CreateRun CreateStep CreateHook Create StorageRel StorageInv Demo.
From Stdlib Require Import Sorting.Sorted.
Local Open Scope Z_scope.

Notation exec := (run TxAborted).

(** ** Inserts *)

Section Insert.
Context `{WorldSdkLaws}.
Local Notation W := EVENT_ID_BODY_LENGTH.

(** The run's ids are all slots: nothing of the older scheme is among them. *)
Definition all_slotted (T r : string) (d : Db) : Prop :=
  Forall (fun e => is_Some (eventIdToSlot (ev_id e))) (run_events T r d).

Lemma nextSlotId_exact T r d n :
  slot_numbers T r d = N.of_nat <$> seq 1 n -> all_slotted T r d ->
  (N.of_nat (S n) < 10 ^ N.of_nat W)%N ->
  nextSlotId T r d = Some (slotToEventId (N.of_nat (S n))).
Proof.
  intros Hn Hall Hlt. pose proof sdk_width as HW.
  assert (HB : (N.of_nat (S n) <= BIGINT_MAX)%N).
  { assert (10 ^ N.of_nat W <= 10 ^ 18)%N by (apply N.pow_le_mono_r; lia). unfold BIGINT_MAX. lia. }
  unfold nextSlotId.
  assert (Hgo : forall k, k = N.of_nat n -> (if (k + 1 <=? BIGINT_MAX)%N
      then Some (EVENT_ID_PREFIX +:+ lpad0 (dec_text (k + 1)) W) else None) =
      Some (slotToEventId (N.of_nat (S n)))).
  { intros k ->. replace (N.of_nat n + 1)%N with (N.of_nat (S n)) by lia.
    destruct (N.leb_spec (N.of_nat (S n)) BIGINT_MAX); [|lia]. by rewrite sdk_slotToEventId. }
  destruct (max_id _) as [id|] eqn:Em.
  - apply max_id_spec in Em as [Hin Hmax]. apply list_elem_of_fmap in Hin as (e & -> & He).
    unfold all_slotted in Hall. rewrite Forall_forall in Hall. destruct (Hall e He) as [k Hk].
    destruct (greatest_slot T r d n e k Hn He Hmax Hk) as (-> & Hid & Hklt).
    rewrite Hid, cast_slotted by done. simpl. by apply Hgo.
  - assert (run_events T r d = []) as Hnil.
    { apply max_id_none in Em. by destruct (run_events T r d). }
    unfold slot_numbers in Hn. rewrite Hnil in Hn. destruct n; [|done].
    rewrite sdk_first. exact (Hgo 0%N eq_refl).
Qed.

(** The next slot is free. *)
Lemma next_slot_free T r d n e :
  slot_numbers T r d = N.of_nat <$> seq 1 n -> (N.of_nat (S n) < 10 ^ N.of_nat W)%N ->
  ev_tenant e = T -> ev_run e = r -> ev_id e = slotToEventId (N.of_nat (S n)) ->
  existsb (same_event_key e) (db_events d) = false.
Proof.
  intros Hn Hlt <- <- Hid. apply not_true_iff_false. intros Hex.
  apply existsb_exists in Hex as (x & Hin & Hsame). unfold same_event_key in Hsame. bools.
  assert (N.of_nat (S n) ∈ slot_numbers (ev_tenant e) (ev_run e) d) as Hs.
  { apply slot_elem. exists x. split.
    - apply list_elem_of_filter. split; [done|]. by apply list_elem_of_In.
    - match goal with E : ev_id e = ev_id x |- _ => rewrite <- E end.
      rewrite Hid, sdk_slotToEventId. by apply slot_id_self. }
  rewrite Hn, elem_of_seq_N in Hs. lia.
Qed.

(** What the insert of [v] into the next slot makes of the database. *)
Definition appended (v : event_values) (slot : N) (d : Db) : Db :=
  set_events d (db_events d ++ [event_of v (slotToEventId slot) (db_now d)]).

Lemma insert_event_next v d n :
  slot_numbers (vl_tenant v) (vl_run v) d = N.of_nat <$> seq 1 n ->
  all_slotted (vl_tenant v) (vl_run v) d -> (N.of_nat (S n) < 10 ^ N.of_nat W)%N ->
  vl_id v = IdNextSlot ->
  existsb (dedup_conflict (event_of v (slotToEventId (N.of_nat (S n))) (db_now d))) (db_events d) = false ->
  insert_event true v d =
    Ok (Some (event_of v (slotToEventId (N.of_nat (S n))) (db_now d)), appended v (N.of_nat (S n)) d).
Proof.
  intros Hn Hall Hlt Hid Hdd. unfold insert_event. rewrite Hid, (nextSlotId_exact _ _ _ n) by done.
  by rewrite (next_slot_free (vl_tenant v) (vl_run v) d n), Hdd.
Qed.

(** The memory once [k] collisions and one success, or none, were answered. *)
Definition collided (l : list bool) (m : mem) : mem :=
  Mem (m_now m) (m_ulids m) l (m_refs m) (m_consumed m).

Lemma run_collision m d :
  exec slot_collision m d = (Ok (default false (head (m_collide m))), collided (tail (m_collide m)) m, d).
Proof. destruct m as [a b l c e]. unfold slot_collision. simpl. by destruct l. Qed.

Lemma insert_attempts_run v d n k : forall remaining m rest,
  slot_numbers (vl_tenant v) (vl_run v) d = N.of_nat <$> seq 1 n ->
  all_slotted (vl_tenant v) (vl_run v) d -> (N.of_nat (S n) < 10 ^ N.of_nat W)%N ->
  vl_id v = IdNextSlot ->
  existsb (dedup_conflict (event_of v (slotToEventId (N.of_nat (S n))) (db_now d))) (db_events d) = false ->
  m_collide m = repeat true k ++ rest -> head rest <> Some true ->
  exec (insert_attempts remaining None v) m d =
  if (k <=? remaining)%nat
  then (Ok (Some (slotToEventId (N.of_nat (S n)), default (db_now d) (vl_createdAt v))),
        collided (tail rest) m, appended v (N.of_nat (S n)) d)
  else (Err (WorldError (Some 503) None), collided (drop (S remaining) (m_collide m)) m, d).
Proof.
  induction k as [|k IH]; intros remaining m rest Hn Hall Hlt Hid Hdd Hm Hrest;
    destruct remaining as [|remaining]; cbn [insert_attempts]; rewrite Hid; cbn [allocates_slot];
    rewrite run_bind, run_collision, Hm; cbn [repeat app head tail default from_option id].
  1, 2: destruct rest as [|[] rest]; [|done|]; cbn [head tail from_option id];
    rewrite run_bind, run_sql; unfold exec_stmt; cbn [from_option id];
    change (id false) with false; cbv iota;
    rewrite (insert_event_next v d n) by done; reflexivity.
  - rewrite run_bind, run_sql. unfold exec_stmt, query. cbn. done.
  - rewrite run_bind, run_sql. unfold exec_stmt, query.
    rewrite (IH remaining (collided (repeat true k ++ rest) m) rest) by done.
    change (S k <=? S remaining)%nat with (k <=? remaining)%nat.
    destruct (k <=? remaining)%nat; done.
Qed.
End Insert.

(** A slot-allocating insert lands in the run's next slot whatever the number
    of concurrent inserts that take it first, up to [SLOT_INSERT_MAX_ATTEMPTS];
    past those it throws a 503 and has written nothing. *)
Theorem insert_survives_collisions `{WorldSdkLaws} v m d n k rest :
  slot_numbers (vl_tenant v) (vl_run v) d = N.of_nat <$> seq 1 n ->
  all_slotted (vl_tenant v) (vl_run v) d -> (N.of_nat (S n) < 10 ^ N.of_nat EVENT_ID_BODY_LENGTH)%N ->
  vl_id v = IdNextSlot ->
  existsb (dedup_conflict (event_of v (slotToEventId (N.of_nat (S n))) (db_now d))) (db_events d) = false ->
  m_collide m = repeat true k ++ rest -> head rest <> Some true ->
  let '(r, m', d') := exec (insertEventRow None v) m d in
  if (k <=? SLOT_INSERT_MAX_ATTEMPTS)%nat
  then r = Ok (Some (slotToEventId (N.of_nat (S n)), default (db_now d) (vl_createdAt v))) /\
       d' = appended v (N.of_nat (S n)) d /\
       slot_numbers (vl_tenant v) (vl_run v) d' = N.of_nat <$> seq 1 (S n)
  else r = Err (WorldError (Some 503) None) /\ d' = d.
Proof.
  intros Hn Hall Hlt Hid Hdd Hm Hr. unfold insertEventRow. cbn [bind with_createdAt mbind option_bind].
  rewrite (insert_attempts_run v d n k _ m rest) by done.
  destruct (k <=? SLOT_INSERT_MAX_ATTEMPTS)%nat; [|done]. split; [done|]. split; [done|].
  unfold appended. rewrite slot_numbers_app, Hn. cbn [ev_tenant ev_run ev_id event_of].
  rewrite decide_True by done. rewrite seq_S, fmap_app. f_equal.
  rewrite sdk_slotToEventId, slot_id_self by done. done.
Qed.

Definition busy_mem : mem := Mem 2000 0 (repeat true 3) 0 ∅.
Definition demo_event : event_values :=
  EventValues "t1" "wrun_1" IdNextSlot None RunCancelled (Some 8) None.

Lemma insert_survives_collisions_witness :
  let '(r, _, d') := exec (insertEventRow None demo_event) busy_mem demo_db in
    r = Ok (Some ("evnt_000000000005", 1000)) /\ d' = appended demo_event 5 demo_db /\
    slot_numbers "t1" "wrun_1" d' = N.of_nat <$> seq 1 5.
Proof.
  assert (H1 : slot_numbers "t1" "wrun_1" demo_db = N.of_nat <$> seq 1 4) by (vm_compute; reflexivity).
  assert (H2 : all_slotted "t1" "wrun_1" demo_db) by (apply (bool_decide_unpack _); vm_compute; exact I).
  pose proof (insert_survives_collisions demo_event busy_mem demo_db 4 3 [] H1 H2 ltac:(vm_compute; reflexivity)
    eq_refl ltac:(vm_compute; reflexivity) eq_refl ltac:(done)) as Hp.
  destruct (exec _ _ _) as [[r m'] d']. destruct Hp as (-> & -> & Hs). split; [vm_compute; reflexivity|].
  split; [reflexivity|exact Hs].
Defined.

(** ** The fence *)

(** C13 A stale or malformed in-band write is refused before it touches anything:
    with the run's count at [n], a fenced request for another count answers
    [InBandSuperseded n], one without a count a 400, and neither the database
    nor the process's memory has moved. *)
Theorem stale_writer_refused `{WorldSdk} s r rq p m d n :
  r <> "" -> eventType rq <> run_created -> cp_inBand p = true ->
  db_slots d !! (s_tenantId s, r) = Some n -> expected_of p <> Some n ->
  exec (create_fenced s (Some r) rq p) m d =
    (Err (match expected_of p with Some _ => InBandSuperseded n | None => WorldError (Some 400) None end), m, d).
Proof.
  intros Hr Ht Hp Hn He. unfold create_fenced. rewrite Hp. cbn [truthy].
  rewrite (proj2 (String.eqb_neq r "") Hr), bool_decide_false by done. cbn [negb orb].
  destruct (expected_of p) as [e|]; [|done]. rewrite run_transaction. unfold atomically.
  rewrite run_tx_bind, run_tx_select by done. cbn [tx_db]. cbn [from_option default]. unfold id. rewrite Hn.
  destruct (Z.eqb_spec n e) as [->|]; [done|]. done.
Qed.

Definition in_band (expected : Z) : create_params :=
  CreateParams None None None false true (Some (JsFinite expected 1)) None.

Lemma stale_writer_refused_witness :
  exec (create_fenced (demo_storage "t1") (Some "wrun_1") (demo_request RunCancelled None) (in_band 7)) demo_mem demo_db =
  (Err (InBandSuperseded 1), demo_mem, demo_db).
Proof.
  refine (stale_writer_refused (demo_storage "t1") "wrun_1" (demo_request RunCancelled None) (in_band 7)
    demo_mem demo_db 1 _ _ _ _ _); [done|done|done|vm_compute; reflexivity|done].
Defined.

(** ** A slot-numbered log in order *)

Section Slotted.
Context `{WorldSdkLaws}.
Local Notation W := EVENT_ID_BODY_LENGTH.

(** A run's log of [n] events, all slot-numbered, that the width can number. *)
Record slotted_log (T r : string) (d : Db) (n : nat) : Prop := SlottedLog {
  sl_slots : slot_numbers T r d = N.of_nat <$> seq 1 n;
  sl_all : all_slotted T r d;
  sl_width : (N.of_nat n < 10 ^ N.of_nat W)%N
}.

Lemma omap_all {A B} (f : A -> option B) l ys :
  Forall (fun x => is_Some (f x)) l -> omap f l = ys -> map f l = Some <$> ys.
Proof.
  intros Hl <-. induction Hl as [|x l [y Hy] Hl IH]; [done|]. simpl. rewrite Hy, IH. done.
Qed.

Lemma slotted_ids T r d n : slotted_log T r d n ->
  map ev_id (run_events T r d) = map (fun k => slotToEventId (N.of_nat k)) (seq 1 n).
Proof.
  intros [Hn Hall _]. unfold slot_numbers in Hn. pose proof (omap_all _ _ _ Hall Hn) as Hm.
  clear Hn. unfold all_slotted in Hall. revert Hm. generalize (seq 1 n). induction (run_events T r d) as [|e l IH]; intros [|k ks] Hm; try done.
  simpl in Hm. injection Hm as He Hm. inversion_clear Hall as [|? ? _ Hall'].
  simpl. f_equal; [|by apply IH]. apply sdk_eventIdToSlot in He as [-> _]. by rewrite sdk_slotToEventId.
Qed.

Lemma slot_lt a b : (a < b)%nat -> (N.of_nat b < 10 ^ N.of_nat W)%N ->
  str_lt (slotToEventId (N.of_nat a)) (slotToEventId (N.of_nat b)) = true.
Proof.
  intros Hab Hb. pose proof sdk_width. rewrite !sdk_slotToEventId. apply str_lt_spec.
  rewrite slot_id_compare by lia. rewrite N.compare_lt_iff. lia.
Qed.

Lemma slot_not_lt a b : (b <= a)%nat -> (N.of_nat a < 10 ^ N.of_nat W)%N ->
  str_lt (slotToEventId (N.of_nat a)) (slotToEventId (N.of_nat b)) = false.
Proof.
  intros Hab Ha. pose proof sdk_width. apply not_true_iff_false. rewrite !sdk_slotToEventId, str_lt_spec.
  rewrite slot_id_compare by lia. rewrite N.compare_lt_iff. lia.
Qed.

Lemma sort_sorted {A} (key : A -> string) l : StronglySorted (key_le key) l -> sort_by key l = l.
Proof.
  induction 1 as [|x l Hl IH Hx]; simpl; [done|]. rewrite IH. by apply insert_by_front.
Qed.

Lemma slotted_order T r d n : slotted_log T r d n -> order_by_id (run_events T r d) = run_events T r d.
Proof.
  intros Hl. apply sort_sorted. pose proof (slotted_ids _ _ _ _ Hl) as Hi. destruct Hl as [_ _ Hw].
  assert (Hlt : forall a k, (a + k <= S n)%nat -> (0 < a)%nat -> forall l,
    map ev_id l = map (fun k => slotToEventId (N.of_nat k)) (seq a k) -> StronglySorted (key_le ev_id) l).
  { intros a k. revert a. induction k as [|k IH]; intros a Ha Hpos [|e l] E; try done; [constructor|].
    simpl in E. injection E as Ee E. constructor; [apply (IH (S a)); [lia|lia|done]|].
    rewrite Forall_forall. intros e' He'. unfold key_le.
    assert (ev_id e' ∈ map ev_id l) as Hin by (apply list_elem_of_fmap; eauto).
    rewrite E, list_elem_of_fmap in Hin. destruct Hin as (j & -> & Hj%elem_of_seq). rewrite Ee.
    apply str_le_spec. right. apply str_lt_spec, slot_lt; lia. }
  apply (Hlt 1%nat n); [lia|lia|done].
Qed.

(** The events strictly between two slots are a segment of the log. *)
Lemma between_slots T r d n a c : slotted_log T r d n -> (1 <= a)%nat -> (a < c <= n)%nat ->
  filter (fun e => str_lt (slotToEventId (N.of_nat a)) (ev_id e) = true /\
                   str_lt (ev_id e) (slotToEventId (N.of_nat c)) = true) (run_events T r d) =
  take (c - a - 1) (drop a (run_events T r d)).
Proof.
  intros Hl Ha Hc. pose proof (slotted_ids _ _ _ _ Hl) as Hi. destruct Hl as [_ _ Hw].
  set (l := run_events T r d) in *.
  assert (Hid : forall i e, l !! i = Some e -> (i < n)%nat /\ ev_id e = slotToEventId (N.of_nat (S i))).
  { intros i e He. assert ((map ev_id l) !! i = Some (ev_id e)) as Hm by (by rewrite list_lookup_fmap, He).
    rewrite Hi, list_lookup_fmap in Hm. destruct (seq 1 n !! i) as [k|] eqn:Ek; [|done]. simpl in Hm.
    apply lookup_seq in Ek as [-> ?]. by injection Hm as <-. }
  rewrite <- (take_drop a l) at 1. rewrite <- (take_drop (c - a - 1) (drop a l)) at 1.
  rewrite !filter_app, (filter_none _ (take a l)), (filter_all _ (take _ (drop a l))), (filter_none _ (drop _ (drop a l))).
  - by rewrite app_nil_r.
  - intros e He [_ Hlt]. apply list_elem_of_lookup in He as [i He]. rewrite !lookup_drop in He.
    destruct (Hid _ _ He) as [Hi2 Ee]. rewrite Ee, slot_not_lt in Hlt; [done|lia|lia].
  - intros e He. apply list_elem_of_lookup in He as [i He].
    apply lookup_take_Some in He as [He Hlt]. rewrite lookup_drop in He. destruct (Hid _ _ He) as [Hi2 Ee].
    rewrite Ee. split; apply slot_lt; lia.
  - intros e He [Hlt _]. apply list_elem_of_lookup in He as [i He].
    apply lookup_take_Some in He as [He Hlti]. destruct (Hid _ _ He) as [Hi2 Ee].
    rewrite Ee, slot_not_lt in Hlt; [done|lia|lia].
Qed.
End Slotted.

(** A writer that had read up to slot [a] and committed slot [c] is told of
    every event in the slots between, in order, and told that none is missing;
    a writer that skipped none is told nothing. *)
Theorem skipped_slots_reported `{WorldSdkLaws} T r d n a c rd m :
  slotted_log T r d n -> (1 <= a)%nat -> (a < c <= n)%nat ->
  exec (reportSkippedSlots T r (slotToEventId (N.of_nat c)) (N.of_nat a) rd) m d =
  (Ok (if (c =? S a)%nat then None
       else Some (map (fun e => stripEventDataRefs e rd) (take (c - a - 1) (drop a (run_events T r d))), false)),
   m, d).
Proof.
  intros Hl Ha Hc. unfold reportSkippedSlots. rewrite sdk_slotToEventId at 1.
  rewrite slot_id_self by (destruct Hl; lia). rewrite sdk_first.
  destruct (N.ltb_spec (N.of_nat a) 1); [lia|]. cbn [orb].
  destruct (Nat.eqb_spec c (S a)) as [->|Hne].
  - destruct (N.leb_spec (N.of_nat (S a)) (N.of_nat a + 1)); [done|lia].
  - destruct (N.leb_spec (N.of_nat c) (N.of_nat a + 1)); [lia|].
    rewrite run_bind, run_select. unfold order_by_id. rewrite filter_sort_by.
    fold (order_by_id (run_events T r d)). rewrite (slotted_order _ _ _ n Hl), (between_slots _ _ _ n a c Hl Ha Hc).
    cbn [run]. do 5 f_equal. rewrite length_map, length_take, length_drop.
    assert (length (run_events T r d) = n) as ->.
    { pose proof (slotted_ids _ _ _ _ Hl) as Hi. apply (f_equal length) in Hi. by rewrite !length_map, length_seq in Hi. }
    apply N.ltb_ge. lia.
Qed.

(** ** Pages *)

(** What a client gets that asks page by page, of a database at rest. *)
Definition page_read {A} (q : option string -> P (page A)) (m : mem) (d : Db) (c : option string) : page A :=
  match exec (q c) m d with (Ok p, _, _) => p | _ => Page [] None false end.

Lemma read_pages_map {A B} (f : A -> B) fuel (next : option string -> page A) c :
  read_pages fuel (fun c => Page (map f (pg_data (next c))) (pg_cursor (next c)) (pg_hasMore (next c))) c =
  option_map (map f) (read_pages fuel next c).
Proof.
  revert c. induction fuel as [|fuel IH]; intros c; [done|]. rewrite !read_pages_S. cbn [pg_hasMore pg_data pg_cursor].
  destruct (pg_hasMore (next c)); [|done]. rewrite IH. destruct (read_pages fuel next _); simpl; [|done].
  by rewrite map_app.
Qed.

(** Listing a run's events page by page, by the cursor of each page and in
    either order, reads every event of the run (or of one correlation id of it)
    exactly once and in order of ids. *)
Theorem events_paged `{WorldSdk} s r (corr : option string) limit o rd m d :
  (0 < limit)%nat -> NoDup (map ev_id (run_events (s_tenantId s) r d)) ->
  Forall (fun e => ev_id e <> "") (run_events (s_tenantId s) r d) ->
  let wanted := match corr with
    | None => run_events (s_tenantId s) r d
    | Some c => filter (fun e => ev_correlationId e = Some c) (run_events (s_tenantId s) r d)
    end in
  read_pages (S (length wanted)) (page_read (fun cursor => match corr with
    | None => events_list s r (Some limit) o cursor rd
    | Some c => events_listByCorrelationId s r c (Some limit) o cursor rd
    end) m d) None = Some (map (fun e => stripEventDataRefs e rd) (ordered ev_id o wanted)).
Proof.
  intros Hl Hd Hk wanted.
  assert (Hgen : forall p, read_pages (S (length (filter (fun e => p e = true) (run_events (s_tenantId s) r d))))
    (fun c => list_page s r p limit o c rd d) None =
    Some (map (fun e => stripEventDataRefs e rd) (ordered ev_id o (filter (fun e => p e = true) (run_events (s_tenantId s) r d))))).
  { intros p. unfold list_page. rewrite (read_pages_map (fun e => stripEventDataRefs e rd)), read_pages_all; [done|done|..].
    - revert Hd. clear. induction (run_events (s_tenantId s) r d) as [|e l IH]; intros Hd; [constructor|].
      simpl in Hd. inversion_clear Hd as [|? ? Hn Hd']. rewrite filter_cons. destruct (decide _); [|by apply IH].
      simpl. constructor; [|by apply IH]. intros Hin. apply Hn. apply list_elem_of_fmap in Hin as (x & E & Hx).
      apply list_elem_of_filter in Hx as [_ Hx]. rewrite E. apply list_elem_of_fmap. eauto.
    - rewrite Forall_forall in *. intros x Hx. apply list_elem_of_filter in Hx as [_ Hx]. by apply Hk. }
  unfold page_read. destruct corr as [c|].
  - specialize (Hgen (fun e => bool_decide (ev_correlationId e = Some c))).
    assert (E : filter (fun e => bool_decide (ev_correlationId e = Some c) = true) (run_events (s_tenantId s) r d) = wanted).
    { unfold wanted. apply list_filter_iff. intros e. apply bool_decide_eq_true. }
    cbv beta in Hgen. rewrite E in Hgen. exact Hgen.
  - specialize (Hgen (fun _ => true)).
    assert (E : filter (fun _ => true = true) (run_events (s_tenantId s) r d) = wanted) by (by apply filter_all).
    cbv beta in Hgen. rewrite E in Hgen. exact Hgen.
Qed.

Lemma demo_log : slotted_log "t1" "wrun_1" demo_db 4.
Proof.
  split; [vm_compute; reflexivity|apply (bool_decide_unpack _); vm_compute; exact I|vm_compute; reflexivity].
Qed.

Lemma skipped_slots_reported_witness :
  match exec (reportSkippedSlots "t1" "wrun_1" (slotToEventId 4) 1 ResolveAll) demo_mem demo_db with
  | (Ok (Some (l, missing)), _, _) => map ev_id l = ["evnt_000000000002"; "evnt_000000000003"] /\ missing = false
  | _ => False
  end.
Proof.
  pose proof (skipped_slots_reported "t1" "wrun_1" demo_db 4 1 4 ResolveAll demo_mem demo_log
    ltac:(lia) ltac:(lia)) as Hp.
  change (N.of_nat 4) with 4%N in Hp. change (N.of_nat 1) with 1%N in Hp. rewrite Hp.
  split; [vm_compute; reflexivity|reflexivity].
Defined.

Lemma events_paged_witness :
  option_map (map ev_id) (read_pages 5 (page_read (fun cursor =>
    events_list (demo_storage "t1") "wrun_1" (Some 3%nat) Desc cursor ResolveAll) demo_mem demo_db) None) =
  Some ["evnt_000000000004"; "evnt_000000000003"; "evnt_000000000002"; "evnt_000000000001"].
Proof.
  pose proof (events_paged (demo_storage "t1") "wrun_1" None 3 Desc ResolveAll demo_mem demo_db ltac:(lia)
    ltac:(apply (bool_decide_unpack _); vm_compute; exact I)
    ltac:(apply (bool_decide_unpack _); vm_compute; exact I)) as Hp.
  assert (E : length (run_events (s_tenantId (demo_storage "t1")) "wrun_1" demo_db) = 4%nat) by (vm_compute; reflexivity).
  cbv beta iota zeta in Hp. rewrite E in Hp. rewrite Hp. vm_compute. reflexivity.
Defined.
