(* ===== verification/RunProps.v ===== *)
(** What the events of a run do: the refusals of an ended run, the ending of a
    live one with all it releases, and the one race that undoes an ending
    (src/storage.ts, lines 1416 to 1970). *)
From S2P Require Import Prelude Model Paging Prog Slots Sdk Tenant RunRetention Schema Events StartHook.
From S2P Require Import CreateRun CreateStep CreateHook Create StorageRel StorageInv Demo LogProps Ending.
From stdpp Require Import relations.
Local Open Scope Z_scope.

(** ** A late start *)

(** A run created and not started yet. *)
Definition pending_db : Db :=
  (run TxAborted (demo_create "t1" "wrun_1" (RunCreated demo_input) None) (empty_mem 1000) (empty_db 1000)).2.

Definition start_and_cancel : list (thread (S:=Db) (M:=mem) (E:=werror)) :=
  [Thread (demo_create "t1" "wrun_1" (RunStarted None) None); Thread (demo_create "t1" "wrun_1" RunCancelled None)].

Definition seen (c : list (thread (S:=Db) (M:=mem) (E:=werror)) * mem * Db) :
    option (RunStatus.t * option instant) * list event_type :=
  (option_map (fun r => (run_status r, run_expireAfter r)) (get_run "t1" "wrun_1" c.2),
   map ev_type (run_events "t1" "wrun_1" c.2)).

Lemma schedule_app {A B C} (l1 l2 : list nat) (c c1 : list (thread (S:=A) (M:=B) (E:=C)) * B * A) e :
  schedule e l1 c = Some c1 -> schedule e (l1 ++ l2) c = schedule e l2 c1.
Proof.
  revert c. induction l1 as [|i l1 IH]; intros [[ts m] d] H; simpl in *; [by simplify_eq|].
  destruct (ts !! i) as [t|]; [|done]. destruct (step_thread e t m d) as [[[t' m'] d']|]; [|done]. by apply IH.
Qed.

(** A [run_started] that read the run before another request cancelled it,
    and writes after, sets the cancelled run running again and clears the
    deadlines that would have expired it: the update behind the check has no
    status guard, unlike the ones that end a run. *)
Theorem late_start_revives_a_run : exists c1 c2,
  rtc (pool_step TxAborted) (start_and_cancel, demo_mem, pending_db) c1 /\ rtc (pool_step TxAborted) c1 c2 /\
  seen c1 = (Some (RunStatus.cancelled, Some 86402000), [run_created; run_cancelled]) /\
  seen c2 = (Some (RunStatus.running, None), [run_created; run_cancelled; run_started]).
Proof.
  set (l1 := [0; 0; 1; 1; 1; 1; 1; 1; 1; 1]%nat). set (l2 := [0; 0; 0; 0; 0]%nat).
  set (c := (start_and_cancel, demo_mem, pending_db)).
  assert (H1 : option_map seen (schedule TxAborted l1 c) =
    Some (Some (RunStatus.cancelled, Some 86402000), [run_created; run_cancelled])) by (vm_compute; reflexivity).
  assert (H2 : option_map seen (schedule TxAborted (l1 ++ l2) c) =
    Some (Some (RunStatus.running, None), [run_created; run_cancelled; run_started])) by (vm_compute; reflexivity).
  clearbody c l1 l2. destruct (schedule TxAborted l1 c) as [c1|] eqn:E1; [|done].
  rewrite (schedule_app _ _ _ _ _ E1) in H2.
  destruct (schedule TxAborted l2 c1) as [c2|] eqn:E2; [|done].
  exists c1, c2. simpl in H1, H2. injection H1 as H1 H. injection H2 as H2 H0.
  split; [by eapply schedule_sound|]. split; [by eapply schedule_sound|]. unfold seen. by rewrite H1, H, H2, H0.
Qed.

(** ** The checks of [create] *)

(** The request's own token retention is within the limit at [now]. *)
Definition retention_in_limit (s : storage) (rq : request) (now : instant) : Prop :=
  match rq_body rq with
  | HookCreated h => match hd_tokenRetentionUntil h with Some u => u <= now + s_hookRetentionLimitMs s | None => True end
  | _ => True
  end.

(** The event types whose request reads the run it is of. *)
Definition reads_run (rq : request) : Prop :=
  eventType rq <> run_created /\ eventType rq <> step_completed /\ eventType rq <> step_retrying.

(** A request [create] takes to its branches: nothing in it is refused by the
    checks that come first. *)
Record well_formed (s : storage) (rq : request) (now : instant) : Prop := WellFormed {
  wf_start : startHook_of rq = None;
  wf_retention : retention_in_limit s rq now;
  wf_reads : reads_run rq
}.

(** A run of this World's era. *)
Definition current_run `{WorldSdk} (T r : string) (d : Db) (row : run_row) : Prop :=
  get_run T r d = Some row /\ requiresNewerWorld (run_specVersion row) = false /\
  isLegacySpecVersion (run_specVersion row) = false.

Lemma run_check_hook_retention `{WorldSdk} s rq m d :
  retention_in_limit s rq (m_now m) -> exec (check_hook_retention s rq) m d = (Ok tt, m, d).
Proof.
  unfold check_hook_retention, retention_in_limit. destruct (rq_body rq); try done.
  destruct (hd_tokenRetentionUntil _); [|done]. intros Hle. simpl.
  destruct (Z.ltb_spec (m_now m + s_hookRetentionLimitMs s) i); [lia|done].
Qed.

Definition spec_of (s : storage) (rq : request) : Z := default (s_specVersion s) (rq_specVersion rq).

Lemma create_reads_run `{WorldSdk} s r rq p m d row :
  r <> "" -> well_formed s rq (m_now m) -> current_run (s_tenantId s) r d row ->
  exec (create s (Some r) rq p) m d =
  exec (create_after_checks s r rq p (spec_of s rq) (m_now m) (Some (run_state_of row))) m d.
Proof.
  intros Hr [Hs Hret (Hn1 & Hn2 & Hn3)] (Hrow & Hnew & Hleg). unfold create.
  rewrite run_bind, run_check_hook_retention by done. cbv iota. rewrite run_bind, Hs. cbn [run]. cbv iota.
  assert (Hid : forall m d, exec (effective_run_id (Some r) rq) m d = (Ok r, m, d)).
  { intros m' d'. unfold effective_run_id. cbn [truthy]. rewrite (proj2 (String.eqb_neq r "") Hr).
    unfold eventType in Hn1. by destruct (rq_body rq). }
  rewrite run_bind, Hid. cbv iota.
  assert (Hck : exec (check_run_id (Some r) rq r) m d = (Ok tt, m, d)).
  { unfold check_run_id. unfold eventType in Hn1. by destruct (rq_body rq). }
  rewrite run_bind, Hck. cbv iota zeta. rewrite run_bind. unfold Date_now at 1. cbn [run js]. cbv iota.
  assert (Hcur : exec (read_current_run s r rq (spec_of s rq)) m d = (Ok (Some (run_state_of row)), m, d)).
  { unfold read_current_run, getRunForValidation. unfold eventType in *.
    destruct (rq_body rq) as [| [|] | | | | | | | | | | | | | | |]; try done;
      rewrite run_bind, run_select, Hrow; done. }
  rewrite run_bind. fold (spec_of s rq). rewrite Hcur. cbv iota. unfold run_state_of at 1 2. cbn [rs_specVersion].
  rewrite Hnew, Hleg. cbn [is_Some]. rewrite (bool_decide_true (is_Some _)) by by eexists.
  by rewrite andb_false_r.
Qed.

(** C15 An ended run accepts nothing that would move it: a start answers
    [RunExpired]; an end, a step, hook or wait created on it, or an attribute
    write answers [EntityConflict]; and the database is as it was. Cancelling a
    cancelled run is the one exception. *)
Theorem ended_run_refuses `{WorldSdkLaws} s r rq p m d row :
  r <> "" -> well_formed s rq (m_now m) -> current_run (s_tenantId s) r d row ->
  isTerminalWorkflowRunStatus (run_status row) = true ->
  ~ (eventType rq = run_cancelled /\ run_status row = RunStatus.cancelled) ->
  eventType rq = run_started \/ isTerminalRunEventType (eventType rq) = true \/
    isChildEntityCreationEvent rq = true \/ eventType rq = attr_set ->
  exec (create s (Some r) rq p) m d =
    (Err (if bool_decide (eventType rq = run_started) then RunExpired else EntityConflict), m, d).
Proof.
  intros Hr Hwf Hrow Ht Hc Hty. rewrite (create_reads_run _ _ _ _ _ _ _ Hr Hwf Hrow).
  unfold create_after_checks. cbn [run_state_of rs_status rs_specVersion option_map]. rewrite Ht. cbn [andb].
  destruct (bool_decide (eventType rq = run_cancelled) &&
            bool_decide (Some (run_status row) = Some RunStatus.cancelled)) eqn:E.
  { bools. destruct Hc. split; [done|congruence]. }
  assert (Href : terminal_refusal rq =
    Some (if bool_decide (eventType rq = run_started) then RunExpired else EntityConflict)).
  { destruct (decide (eventType rq = run_started)) as [E1|E1].
    - unfold terminal_refusal. rewrite E1. by rewrite bool_decide_true.
    - rewrite (bool_decide_false (eventType rq = run_started)) by done. unfold terminal_refusal.
      destruct Hty as [Hty|[Hty|[Hty|Hty]]]; [done|destruct (eventType rq) eqn:Ety; try done; by rewrite Hty
        |destruct (eventType rq); try done; rewrite Hty; by case_match|].
      rewrite Hty. by repeat case_match. }
  by rewrite Href.
Qed.

Definition cancelled_db : Db := (run TxAborted (demo_create "t1" "wrun_1" RunCancelled None) demo_mem demo_db).2.

Lemma ended_run_refuses_witness :
  option_map run_status (get_run "t1" "wrun_1" cancelled_db) = Some RunStatus.cancelled /\
  exec (create (demo_storage "t1") (Some "wrun_1") (demo_request (StepCreated demo_step) (Some "step_2")) no_params)
    demo_mem cancelled_db = (Err EntityConflict, demo_mem, cancelled_db).
Proof.
  assert (E : exists row, get_run "t1" "wrun_1" cancelled_db = Some row /\ run_status row = RunStatus.cancelled /\
    run_specVersion row = Some 8).
  { assert (H : option_map (fun r => (run_status r, run_specVersion r)) (get_run "t1" "wrun_1" cancelled_db) =
      Some (RunStatus.cancelled, Some 8)) by (vm_compute; reflexivity).
    destruct (get_run "t1" "wrun_1" cancelled_db) as [row|]; [|done]. exists row. by injection H as <- <-. }
  destruct E as (row & E & Es & Ev). split; [by rewrite E; simpl; rewrite Es|].
  refine (ended_run_refuses (demo_storage "t1") "wrun_1" (demo_request (StepCreated demo_step) (Some "step_2"))
    no_params demo_mem cancelled_db row _ _ _ _ _ _); [done|..].
  - split; [done|exact I|split; [done|split; done]].
  - split; [exact E|]. rewrite Ev. split; reflexivity.
  - rewrite Es. reflexivity.
  - by intros [? _].
  - right. right. by left.
Defined.

(** ** Ending a run *)

(** The status an ending request gives its run, with its [set] clause. *)
Definition ending (b : body) (now : instant) : option (terminal_run_status * (run_row -> run_row)) :=
  match b with
  | RunCompleted output => Some (TCompleted, set_run_completed output now)
  | RunFailed error code => Some (TFailed, set_run_failed error code now)
  | RunCancelled => Some (TCancelled, set_run_cancelled now)
  | _ => None
  end.

Lemma ending_row b now st set row : ending b now = Some (st, set) ->
  run_status (set row) = run_status_of st /\ run_completedAt (set row) = Some now /\
  run_retentionClass (set row) = run_retentionClass row.
Proof. destruct b; intros [= <- <-]; done. Qed.

Section Ending.
Context `{WorldSdkLaws} (s : storage) (r : string) (d : Db) (row : run_row).
Local Notation T := (s_tenantId s).

(** The state the four statements of an ending leave, in their order: the run's
    row, its dead letters, its hooks, its waits. *)
Definition ended_run (set : run_row -> run_row) : run_row := set_run_retention_deadlines (set row).
Definition released (set : run_row -> run_row) : Db :=
  let d1 := set_deadLetters (set_runs d (<[(T, r) := ended_run set]> (db_runs d)))
    (resolve_dead_letters (db_now d) T r (db_deadLetters d)) in
  let d2 := set_hooks d1 (filter (fun kh => ~ (hk_tenant kh.2 = T /\
    String.eqb (hk_run kh.2) r && hookRetentionEnded d1 kh.2 = true)) (db_hooks d1)) in
  set_waits d2 (filter (fun kw => ~ (wt_tenant kw.2 = T /\ wt_run kw.2 = r)) (db_waits d2)).

Lemma not_terminal_guard :
  isTerminalWorkflowRunStatus (run_status row) = false -> run_not_terminal row = true.
Proof.
  intros Ht. unfold run_not_terminal. apply negb_true_iff, bool_decide_eq_false. intros Hin.
  apply sdk_terminal_run in Hin. congruence.
Qed.

Lemma run_end_branch_live b now st set stored m :
  get_run T r d = Some row -> isTerminalWorkflowRunStatus (run_status row) = false ->
  ending b now = Some (st, set) ->
  exec (run_end_branch s r set stored) m d =
    (Ok (Continue (Acc (Some (ended_run set)) None None None false None stored)), m, released set).
Proof.
  intros Hrow Ht Hb. destruct (ending_row _ _ _ _ row Hb) as (Hst & _ & _).
  assert (Hterm : run_is_terminal (run_status (ended_run set)) &&
    negb (bool_decide (run_status row = run_status (ended_run set))) = true).
  { change (run_status (ended_run set)) with (run_status (set row)). rewrite Hst.
    rewrite bool_decide_false; [by destruct st|]. intros E. rewrite E in Ht.
    assert (isTerminalWorkflowRunStatus (run_status_of st) = true); [|congruence].
    apply sdk_terminal_run, sdk_terminal_runs. destruct st; simpl; auto. }
  unfold run_end_branch. rewrite run_bind, run_sql. unfold exec_stmt, update_run.
  unfold get_run in Hrow. rewrite Hrow, not_terminal_guard by done. fold (ended_run set). rewrite andb_true_l, Hterm.
  cbn [fst snd]. rewrite run_bind. cbn [run]. rewrite run_bind, run_sql. unfold exec_stmt, delete_hooks.
  cbv iota. rewrite run_bind, run_sql. unfold exec_stmt, delete_waits. cbv iota. cbn [run]. done.
Qed.

Lemma released_hooks set k h : db_hooks (released set) !! k = Some h <->
  db_hooks d !! k = Some h /\ ~ (hk_tenant h = T /\ hk_run h = r /\ hookRetentionEnded d h = true).
Proof.
  unfold released. cbn [db_hooks set_waits set_hooks set_deadLetters set_runs].
  rewrite map_lookup_filter_Some. simpl. change (hookRetentionEnded _ h) with (hookRetentionEnded d h) at 1.
  rewrite andb_true_iff, String.eqb_eq. done.
Qed.

Lemma released_waits set k w : db_waits (released set) !! k = Some w <->
  db_waits d !! k = Some w /\ ~ (wt_tenant w = T /\ wt_run w = r).
Proof. unfold released. cbn [db_waits set_waits set_hooks set_deadLetters set_runs]. by rewrite map_lookup_filter_Some. Qed.
End Ending.

(** The event insert of a request on a slot-numbered run, with no collision. *)
Lemma generic_insert_run `{WorldSdkLaws} s r rq spec a m d n :
  s_fence s = None -> ac_written a = None -> slotted_log (s_tenantId s) r d n ->
  is_Some (db_slots d !! (s_tenantId s, r)) -> (N.of_nat (S n) < 10 ^ N.of_nat EVENT_ID_BODY_LENGTH)%N ->
  m_collide m = [] -> deduplicated (type_of (ac_stored a)) = false ->
  let v := EventValues (s_tenantId s) r IdNextSlot (rq_correlationId rq) (ac_stored a) (Some spec) None in
  exec (generic_insert s r rq spec a) m d =
    (Ok (Some (slotToEventId (N.of_nat (S n)), db_now d)), m, appended v (N.of_nat (S n)) d).
Proof.
  intros Hf Ha [Hn Hall _] [x Hx] Hw Hm Hd v. unfold generic_insert. rewrite Ha, run_try, run_bind, Hf.
  unfold allocateEventId. rewrite run_bind, run_select, Hx. cbn [run]. cbv iota. unfold insertEventRow.
  cbn [bind with_createdAt mbind option_bind].
  rewrite (insert_attempts_run _ d n 0 _ m []); try done.
  - cbn [Nat.leb tail]. destruct m; simpl in Hm; subst; done.
  - apply not_true_iff_false. intros Hex. apply existsb_exists in Hex as (e & _ & He).
    unfold dedup_conflict in He. unfold ev_type in He. cbn [ev_body event_of vl_body v] in He. by rewrite Hd in He.
Qed.

(** The request itself: the answer, and the database without what the run held and
    with the event. *)
Lemma ending_request `{WorldSdkLaws} s r rq m d row n st set :
  s_fence s = None -> rq_correlationId rq = None -> ending (rq_body rq) (m_now m) = Some (st, set) ->
  current_run (s_tenantId s) r d row -> isTerminalWorkflowRunStatus (run_status row) = false ->
  slotted_log (s_tenantId s) r d n -> is_Some (db_slots d !! (s_tenantId s, r)) ->
  (N.of_nat (S n) < 10 ^ N.of_nat EVENT_ID_BODY_LENGTH)%N -> m_collide m = [] ->
  let rel := released s r d row set in
  exec (create_after_checks s r rq no_params (spec_of s rq) (m_now m) (Some (run_state_of row))) m d =
    (Ok (EventResult (Some (stripEventDataRefs (event_answer s r rq (rq_body rq)
       (slotToEventId (N.of_nat (S n)), db_now rel)) ResolveAll))
       (Some (ended_run row set)) None None None false (Some (s_maxEvents s)) None), m,
     appended (EventValues (s_tenantId s) r IdNextSlot None (rq_body rq) (Some (spec_of s rq)) None)
       (N.of_nat (S n)) rel).
Proof.
  intros Hf Hcorr Hb Hrow Ht Hl Hslot Hw Hm rel.
  unfold create_after_checks. cbn [run_state_of rs_status rs_specVersion option_map]. rewrite Ht. cbn [andb].
  assert (Hv : forall l, validate_step s r rq (Some (run_state_of row)) l = Ret None).
  { intros l. unfold validate_step. rewrite Hcorr. by rewrite andb_false_r. }
  rewrite run_bind. fold (run_state_of row). rewrite Hv. cbn [run]. cbv iota.
  assert (Hvh : validate_hook s r rq = Ret tt).
  { unfold validate_hook. rewrite Hcorr. by rewrite andb_false_r. }
  rewrite run_bind, Hvh. cbn [run]. cbv iota. rewrite run_bind.
  assert (Hbr : forall l1 l2 sp, create_branch s r rq (Some (run_state_of row)) None l1 l2 sp (m_now m) ResolveAll
    (storedEventData r rq l2) = run_end_branch s r set (rq_body rq)).
  { intros l1 l2 sp. unfold create_branch, storedEventData. destruct (rq_body rq); try discriminate Hb; injection Hb as <- <-; done. }
  change (default ResolveAll (cp_resolveData no_params)) with ResolveAll. rewrite Hbr.
  rewrite (run_end_branch_live s r d row (rq_body rq) (m_now m) st set) by (done || apply Hrow). cbv iota.
  rewrite run_bind. fold rel.
  rewrite (generic_insert_run s r rq _ _ m rel n); [|done|done| |done|done|done|].
  - cbv iota. cbn [ac_stored ac_run]. rewrite run_bind.
    assert (Hpage : forall x id m d, exec (event_page s r rq no_params ResolveAll x id) m d = (Ok None, m, d)).
    { intros x id m' d'. unfold event_page. cbn [no_params cp_eventCount cp_sinceCursor cp_skipPreload bind].
      rewrite bool_decide_false; [done|]. unfold eventType. destruct (rq_body rq); done. }
    rewrite Hpage, Hcorr. cbv iota. cbn [run]. done.
  - destruct Hl as [A B C]. split; [exact A|exact B|exact C].
  - cbn [ac_stored]. destruct (rq_body rq); done.
Qed.

(** What an ending event says of the run's columns: the status it ends with, and
    its output, error and error code, which are the event's where it carries one
    and what they were where it does not. *)
Definition outcome_of (b : body) (row : run_row) :
    option (terminal_run_status * option payload * option payload * option string) :=
  let or_old {A} (given old : option A) := match given with Some x => Some x | None => old end in
  match b with
  | RunCompleted output => Some (TCompleted, or_old output (run_output row), run_error row, run_errorCode row)
  | RunFailed error code =>
      Some (TFailed, run_output row, or_old error (run_error row), or_old code (run_errorCode row))
  | RunCancelled => Some (TCancelled, run_output row, run_error row, run_errorCode row)
  | _ => None
  end.

(** The statement that ends the run leaves that row. *)
Lemma ended_run_contract b now row st output error code c :
  outcome_of b row = Some (st, output, error, code) -> run_retentionClass row = class_text c ->
  exists set, ending b now = Some (st, set) /\ run_ended st c now output error code row (ended_run row set).
Proof.
  intros Hb Hc. unfold outcome_of in Hb.
  destruct b; try discriminate Hb; injection Hb as <- <- <- <-; eexists; (split; [reflexivity|]);
    by apply (run_ended_by_trigger _ c).
Qed.

Lemma released_contract `{WorldSdkLaws} s r d row set v slot :
  released_by (s_tenantId s) (fun i => i = r) d (appended v slot (released s r d row set)).
Proof.
  split; try reflexivity.
  - intros k h. change (db_hooks (appended _ _ _)) with (db_hooks (released s r d row set)).
    by rewrite released_hooks, retention_over_iff.
  - intros k w. apply (released_waits s r d row set).
  - apply letters_resolved_one.
Qed.

(** C6 Completing, failing or cancelling a live run outside the in-band fence: its
    row is ended as the contract of an ending says, every column of it; the event
    is appended to the log in the run's next slot; the run lets go of its hooks
    whose token is not retained, its waits and its open dead letters; and nothing
    else of any table changed. The answer carries the event and the row. *)
Theorem run_ends `{WorldSdkLaws} s r rq m d row n c st output error code :
  r <> "" -> s_fence s = None -> rq_correlationId rq = None ->
  outcome_of (rq_body rq) row = Some (st, output, error, code) ->
  current_run (s_tenantId s) r d row -> isTerminalWorkflowRunStatus (run_status row) = false ->
  run_retentionClass row = class_text c ->
  slotted_log (s_tenantId s) r d n -> is_Some (db_slots d !! (s_tenantId s, r)) ->
  (N.of_nat (S n) < 10 ^ N.of_nat EVENT_ID_BODY_LENGTH)%N -> m_collide m = [] ->
  let T := s_tenantId s in
  let id := slotToEventId (N.of_nat (S n)) in
  exists e row' d',
    exec (create s (Some r) rq no_params) m d =
      (Ok (EventResult (Some e) (Some row') None None None false (Some (s_maxEvents s)) None), m, d') /\
    ev_id e = id /\
    run_ended st c (m_now m) output error code row row' /\ db_runs d' = <[(T, r) := row']> (db_runs d) /\
    db_events d' = db_events d ++
      [EventRow T r id (rq_body rq) None (Some (default (s_specVersion s) (rq_specVersion rq))) (db_now d)] /\
    released_by T (fun i => i = r) d d'.
Proof.
  intros Hr Hf Hcorr Hb Hrow Ht Hc Hl Hslot Hw Hm T id.
  destruct (ended_run_contract _ (m_now m) _ _ _ _ _ _ Hb Hc) as (set & Hs & Hend).
  assert (Hwf : well_formed s rq (m_now m)).
  { split; unfold startHook_of, retention_in_limit, reads_run, eventType; destruct (rq_body rq); done. }
  rewrite (create_reads_run _ _ _ _ _ _ _ Hr Hwf Hrow), (ending_request s r rq m d row n st set) by done.
  eexists _, _, _. split; [reflexivity|]. rewrite sdk_strip.
  split; [reflexivity|]. split; [exact Hend|]. split; [reflexivity|]. split; [reflexivity|]. apply released_contract.
Qed.

(** A row of a concrete database, without the row itself in sight. *)
Lemma demo_run_row : exists row, get_run "t1" "wrun_1" demo_db = Some row /\ run_status row = RunStatus.running /\
  run_specVersion row = Some 8 /\ run_retentionClass row = "interactive".
Proof.
  assert (H : option_map (fun r => (run_status r, run_specVersion r, run_retentionClass r))
    (get_run "t1" "wrun_1" demo_db) = Some (RunStatus.running, Some 8, "interactive")) by (vm_compute; reflexivity).
  destruct (get_run "t1" "wrun_1" demo_db) as [row|]; [|done]. exists row. by injection H as <- <- <-.
Qed.

Lemma run_ends_witness : exists d',
  (exec (create (demo_storage "t1") (Some "wrun_1") (demo_request (RunCompleted (Some "out")) None) no_params)
    demo_mem demo_db).2 = d' /\
  option_map (fun r => (run_status r, run_output r)) (get_run "t1" "wrun_1" d') = Some (RunStatus.completed, Some "out") /\
  is_Some (db_hooks demo_db !! ("t1", "hook_1")) /\ db_hooks d' !! ("t1", "hook_1") = None.
Proof.
  destruct demo_run_row as (row & E & Es & Ev & Ec).
  assert (Hslot : is_Some (db_slots demo_db !! ("t1", "wrun_1"))) by (vm_compute; by eexists).
  destruct (run_ends (demo_storage "t1") "wrun_1" (demo_request (RunCompleted (Some "out")) None) demo_mem demo_db
    row 4 Interactive TCompleted _ _ _ ltac:(done) eq_refl eq_refl eq_refl
    (conj E (conj (eq_trans (f_equal requiresNewerWorld Ev) eq_refl) (eq_trans (f_equal isLegacySpecVersion Ev) eq_refl)))
    (eq_trans (f_equal isTerminalWorkflowRunStatus Es) eq_refl) Ec demo_log Hslot eq_refl eq_refl)
    as (e & row' & d' & Hx & _ & Hend & Hruns & _ & Hrel).
  assert (Hh : option_map (fun h => (hk_tenant h, hk_run h, hookRetentionEnded demo_db h))
    (db_hooks demo_db !! ("t1", "hook_1")) = Some ("t1", "wrun_1", true)) by (vm_compute; reflexivity).
  exists d'. split; [exact (f_equal snd Hx)|]. split; [|split].
  - unfold get_run. rewrite Hruns. rewrite lookup_insert_eq. cbn [option_map].
    destruct Hend as [Hst _ _ Ho _ _ _ _ _ _ _ _]. by rewrite Hst, Ho.
  - destruct (db_hooks demo_db !! _); [by eexists|done].
  - destruct (db_hooks d' !! ("t1", "hook_1")) as [h|] eqn:Eh; [|done].
    destruct Hrel as [Hk _ _ _ _ _ _]. apply Hk in Eh as [Eh Hn]. rewrite Eh in Hh. injection Hh as H1 H2 H3. destruct Hn.
    apply retention_over_iff in H3. exact (conj H1 (conj H2 H3)).
Defined.
