(* ===== verification/HookProps.v ===== *)
(** Hooks: the forced takeover of a token and where deliveries to its former
    owner are sent, and the admission of a run that starts with a hook
    (src/storage.ts, lines 430 to 520 and 2442 to 3120; src/start-hook.ts). *)
From S2P Require Import Prelude Model Paging Prog Slots Sdk Tenant RunRetention Schema Events StartHook.
From S2P Require Import CreateRun CreateStep CreateHook Create StorageRel StorageInv Lifecycle Demo LogProps RunProps.
Local Open Scope Z_scope.

Notation exec_tx := (run_tx TxAborted).
(** The state of an open transaction that has not failed. *)
Notation "'tx' m d" := (TxSt m d false) (at level 10, m at level 9, d at level 9).

Section Appending.
Context `{WorldSdkLaws}.

Lemma exec_tx_allocate T r m d : is_Some (db_slots d !! (T, r)) ->
  exec_tx (allocateEventId T r) (tx m d) = (Ok IdNextSlot, tx m d).
Proof. intros [x Hx]. unfold allocateEventId. rewrite run_tx_bind, run_tx_select by done. cbn [tx_db]. by rewrite Hx. Qed.

(** An event appended to a slot-numbered run inside a transaction, no fence
    and no collision about. *)
Lemma exec_tx_insert v m d n :
  slotted_log (vl_tenant v) (vl_run v) d n -> vl_id v = IdNextSlot ->
  (N.of_nat (S n) < 10 ^ N.of_nat EVENT_ID_BODY_LENGTH)%N -> m_collide m = [] ->
  existsb (dedup_conflict (event_of v (slotToEventId (N.of_nat (S n))) (db_now d))) (db_events d) = false ->
  exec_tx (insertEventRow None v) (tx m d) =
    (Ok (Some (slotToEventId (N.of_nat (S n)), default (db_now d) (vl_createdAt v))),
     tx m (appended v (N.of_nat (S n)) d)).
Proof.
  intros [Hn Hall _] Hid Hw Hm Hd. unfold insertEventRow. cbn [bind with_createdAt mbind option_bind].
  unfold SLOT_INSERT_MAX_ATTEMPTS. cbn [insert_attempts]. rewrite Hid. cbn [allocates_slot].
  rewrite run_tx_bind. unfold slot_collision at 1. cbn [run_tx js tx_mem]. rewrite Hm. cbv iota.
  rewrite run_tx_bind, run_tx_sql by done. cbn [tx_db]. rewrite (insert_event_next v d n) by done. done.
Qed.

(** Appending to one run leaves the other logs and every marker alone. *)
Lemma appended_other v slot T r d n :
  (vl_tenant v <> T \/ vl_run v <> r) -> slotted_log T r d n -> slotted_log T r (appended v slot d) n.
Proof.
  intros Hne [A B C]. unfold appended. split; [|..|done].
  - rewrite slot_numbers_app, A. cbn [ev_tenant ev_run event_of]. rewrite decide_False by naive_solver. by rewrite app_nil_r.
  - unfold all_slotted, run_events in *. cbn [db_events set_events]. rewrite filter_app.
    apply Forall_app. split; [exact B|]. rewrite filter_cons_False by (cbn; naive_solver). constructor.
Qed.

Lemma no_dedup v id now (l : list event_row) :
  deduplicated (type_of (vl_body v)) = false -> existsb (dedup_conflict (event_of v id now)) l = false.
Proof.
  intros Hd. apply not_true_iff_false. intros Hex. apply existsb_exists in Hex as (e & _ & He).
  unfold dedup_conflict, ev_type in He. cbn [ev_body event_of] in He. by rewrite Hd in He.
Qed.
End Appending.

(** ** The takeover *)

(** The only hook of the token. *)
Definition sole_holder (T token : string) (d : Db) (h : hook_row) : Prop :=
  db_hooks d !! (T, hk_id h) = Some h /\ hk_tenant h = T /\ hk_token h = token.

Section Takeover.
Context `{WorldSdkLaws} (s : storage) (r hid : string) (hd : hook_data) (d : Db).
Local Notation T := (s_tenantId s).

Lemma hookTokenEquals_iff token h : hookTokenEquals token h = true <-> hk_token h = token.
Proof.
  unfold hookTokenEquals. rewrite andb_true_iff, !String.eqb_eq. split; [tauto|]. by intros ->.
Qed.

Lemma select_sole (p : hook_row -> bool) h (db : Db) :
  tokens_unique db -> sole_holder T (hd_token hd) db h -> (forall x, p x = true -> hk_token x = hd_token hd) ->
  p h = true -> head (select_hooks T p db) = Some h.
Proof.
  intros [_ Hk Hu] (Hh & Ht & Htok) Hp Hph. unfold select_hooks.
  assert (Hin : h ∈ filter (fun x => hk_tenant x = T /\ p x = true) (hook_list db)).
  { apply list_elem_of_filter. split; [done|]. apply elem_of_hook_list. eauto. }
  destruct (filter _ _) as [|x l] eqn:E; [by apply elem_of_nil in Hin|]. simpl. f_equal.
  assert (Hx : x ∈ filter (fun x => hk_tenant x = T /\ p x = true) (hook_list db)) by (rewrite E; by left).
  apply list_elem_of_filter in Hx as [[Hxt Hxp] Hx]. apply elem_of_hook_list in Hx as [k Hx].
  assert (k = (T, hk_id h)) as ->.
  { eapply Hu; [done..| |]; [by rewrite Hxt, Ht|by rewrite Htok; apply Hp]. }
  congruence.
Qed.

Lemma select_sole_token h (db : Db) : tokens_unique db -> sole_holder T (hd_token hd) db h ->
  head (select_hooks T (hookTokenEquals (hd_token hd)) db) = Some h.
Proof.
  intros Hu Hh. apply select_sole; try done; [apply hookTokenEquals_iff|]. apply hookTokenEquals_iff. apply Hh.
Qed.

(** What the takeover of [victim] makes of the database: the disposal in the
    victim's log, its row gone, ours in, our creation in our log. *)
Definition claim_of (victim : hook_row) (live : run_row) : claimed_from :=
  ClaimedFrom (hk_run victim) (hk_id victim) (Some (run_workflowName live)) (Some (run_deploymentId live))
    (run_specVersion live).
Definition taken_row (spec : Z) (victim : hook_row) (live : run_row) : hook_row :=
  HookRow T r hid (hd_token hd) (hd_tokenRetentionUntil hd) (hd_metadata hd) (Some spec)
    (Some (default true (hd_isWebhook hd))) (Some (default false (hd_isSystem hd)))
    (Some (claim_of victim live)) true.
Definition disposal (spec : Z) (victim : hook_row) (live : run_row) : event_values :=
  EventValues T (hk_run victim) IdNextSlot (Some (hk_id victim))
    (HookDisposed (Some (DisposeData (Some (hd_token hd)) (Some (r, hid)))))
    (Some (default spec (run_specVersion live))) None.
Definition creation (spec : Z) (victim : hook_row) (live : run_row) : event_values :=
  EventValues T r IdNextSlot (Some hid) (HookCreated (with_forceClaimedFrom hd (claim_of victim live)))
    (Some spec) None.
Definition taken (spec : Z) (victim : hook_row) (live : run_row) (nv n : nat) : Db :=
  let d1 := appended (disposal spec victim live) (N.of_nat (S nv)) d in
  let d2 := set_hooks d1 (filter (fun kh => ~ (hk_tenant kh.2 = T /\ String.eqb (hk_id kh.2) (hk_id victim) = true)) (db_hooks d1)) in
  let d3 := set_hooks d2 (<[(T, hid) := taken_row spec victim live]> (db_hooks d2)) in
  appended (creation spec victim live) (N.of_nat (S n)) d3.

(** A live victim whose World understands takeovers, of a run other than ours,
    and a hook id of ours that is new. *)
Record takes_over (spec : Z) (victim : hook_row) (live : run_row) (nv n : nat) : Prop := TakesOver {
  to_unique : tokens_unique d;
  to_victim : sole_holder T (hd_token hd) d victim;
  to_live : get_run T (hk_run victim) d = Some live;
  to_status : isTerminalWorkflowRunStatus (run_status live) = false;
  to_spec : exists v, run_specVersion live = Some v /\ SPEC_VERSION_SUPPORTS_HOOK_FORCE_CLAIM <= v;
  to_run : hk_run victim <> r;
  to_digest : forall k h, db_hooks d !! k = Some h -> hk_tenant h = T ->
    hook_token_digest (hk_token h) = hook_token_digest (hd_token hd) -> k = (T, hk_id victim);
  to_new : db_hooks d !! (T, hid) = None;
  to_first : existsb (dedup_conflict (event_of (creation spec victim live) (slotToEventId (N.of_nat (S n))) (db_now d)))
    (db_events d) = false;
  to_victim_log : slotted_log T (hk_run victim) d nv;
  to_log : slotted_log T r d n;
  to_victim_slots : is_Some (db_slots d !! (T, hk_run victim));
  to_slots : is_Some (db_slots d !! (T, r));
  to_victim_width : (N.of_nat (S nv) < 10 ^ N.of_nat EVENT_ID_BODY_LENGTH)%N;
  to_width : (N.of_nat (S n) < 10 ^ N.of_nat EVENT_ID_BODY_LENGTH)%N
}.

Lemma insert_hook_free h (db : Db) :
  db_hooks db !! (hk_tenant h, hk_id h) = None ->
  (forall k x, db_hooks db !! k = Some x -> hk_tenant x = hk_tenant h ->
     hook_token_digest (hk_token x) <> hook_token_digest (hk_token h)) ->
  insert_hook NoClause h db = Ok (Some h, set_hooks db (<[(hk_tenant h, hk_id h) := h]> (db_hooks db))).
Proof.
  intros Hn Hd. unfold insert_hook. rewrite Hn.
  destruct (existsb (claim_conflict h) (hook_list db)) eqn:E; [|done].
  apply existsb_exists in E as (x & Hx & Hc). apply list_elem_of_In, elem_of_hook_list in Hx as [k Hx].
  unfold claim_conflict in Hc. bools. by destruct (Hd k x Hx).
Qed.

(** The writes of a takeover, one after the other. *)
Lemma takeover_writes spec victim live nv n m :
  s_fence s = None -> m_collide m = [] -> takes_over spec victim live nv n ->
  exec_tx (takeover_write s r (Some hid) hd spec victim (Some live)) (tx m d) =
    (Ok (TTaken (Some (taken_row spec victim live)) (slotToEventId (N.of_nat (S n)), db_now d)
           (with_forceClaimedFrom hd (claim_of victim live))), tx m (taken spec victim live nv n)).
Proof.
  intros Hf Hm [Hu Hv Hl Hst (v & Hspec & Hle) Hr Hdig Hnew Hdd Hlv Hlog Hsv Hs Hwv Hw].
  unfold takeover_write. cbn [option_map mbind option_bind]. rewrite Hf, run_tx_bind, run_tx_bind.
  rewrite exec_tx_allocate by done. rewrite run_tx_bind.
  fold (claim_of victim live). fold (disposal spec victim live).
  rewrite (exec_tx_insert _ m d nv); [|exact Hlv|done|done|done|by apply no_dedup]. cbv iota. cbn [run_tx].
  set (d1 := appended (disposal spec victim live) (N.of_nat (S nv)) d).
  rewrite run_tx_bind, run_tx_sql by done. unfold delete_hooks. cbn [tx_db tx_mem].
  set (d2 := set_hooks d1 _). rewrite run_tx_bind, run_tx_sql by done. cbn [tx_db tx_mem].
  unfold insert_hook_values, hookRow. cbn [not_null result_bind].
  assert (Hd2 : forall k h, db_hooks d2 !! k = Some h -> db_hooks d !! k = Some h /\
    ~ (hk_tenant h = T /\ hk_id h = hk_id victim)).
  { intros k h. unfold d2. cbn [db_hooks set_hooks]. rewrite map_lookup_filter_Some. simpl.
    rewrite String.eqb_eq. done. }
  fold (taken_row spec victim live). rewrite insert_hook_free.
  2: { destruct (db_hooks d2 !! _) as [h|] eqn:E; [|done]. apply Hd2 in E as [E _].
       cbn [taken_row hk_tenant hk_id] in E. congruence. }
  2: { intros k h [Hk Hn]%Hd2 Ht Hdg. cbn [taken_row hk_tenant hk_token] in Ht, Hdg.
       pose proof (Hdig _ _ Hk Ht Hdg) as ->. apply Hn. split; [done|].
       pose proof (tu_keyed _ Hu _ _ Hk) as E. by injection E. }
  cbn [taken_row hk_tenant hk_id]. fold (taken_row spec victim live).
  set (d3 := set_hooks d2 _). rewrite run_tx_bind, exec_tx_allocate by done. rewrite run_tx_bind.
  fold (creation spec victim live). rewrite (exec_tx_insert _ m d3 n); [done| |done|done|done|].
  - destruct (appended_other (disposal spec victim live) (N.of_nat (S nv)) T r d n) as [A B C];
      [by right|done|]. split; [exact A|exact B|exact C].
  - unfold d3, d2, d1, appended. cbn [db_events set_hooks set_events db_now]. rewrite existsb_app.
    cbn [db_now]. rewrite Hdd. cbn [existsb]. rewrite orb_false_r. done.
Qed.

Lemma takeover_run spec victim live nv n m :
  s_fence s = None -> m_collide m = [] -> takes_over spec victim live nv n ->
  exec (takeoverAttempt s r (Some hid) hd spec) m d =
    (Ok (TTaken (Some (taken_row spec victim live)) (slotToEventId (N.of_nat (S n)), db_now d)
           (with_forceClaimedFrom hd (claim_of victim live))), m, taken spec victim live nv n).
Proof.
  intros Hf Hm Hto. pose proof (takeover_writes spec victim live nv n m Hf Hm Hto) as Hgo.
  destruct Hto as [Hu Hv Hl Hst (v & Hspec & Hle) Hr _ _ _ _ _ _ _ _ _]. unfold takeoverAttempt. rewrite run_transaction. unfold atomically.
  pose proof (select_sole_token victim d Hu Hv) as Hsel.
  rewrite run_tx_bind, run_tx_select by done. cbn [tx_db]. rewrite Hsel. cbv iota.
  rewrite run_tx_bind, run_tx_select by done. cbn [tx_db tx_mem]. unfold get_run in Hl |- *.
  rewrite Hl, run_tx_bind, run_tx_select by done. cbn [tx_db tx_mem].
  rewrite Hsel. cbn [option_map]. rewrite Hst, !String.eqb_refl. cbn [negb andb].
  rewrite (proj2 (String.eqb_neq _ _) Hr). cbn [andb].
  rewrite (bool_decide_false (Some live = None)) by done. rewrite andb_false_r. cbn [andb]. rewrite Hspec.
  cbn [from_option id default]. destruct (Z.ltb_spec v SPEC_VERSION_SUPPORTS_HOOK_FORCE_CLAIM); [lia|].
  rewrite Hgo. done.
Qed.

Lemma taken_hooks spec victim live nv n k h : takes_over spec victim live nv n ->
  db_hooks (taken spec victim live nv n) !! k = Some h <->
  (k = (T, hid) /\ h = taken_row spec victim live) \/
  (k <> (T, hid) /\ k <> (T, hk_id victim) /\ db_hooks d !! k = Some h).
Proof.
  intros [Hu (Hv & Hvt & _)]. unfold taken, appended. cbn [db_hooks set_hooks set_events].
  rewrite lookup_insert_Some, map_lookup_filter_Some. simpl. rewrite String.eqb_eq. split.
  - intros [[<- <-]|(Hne & Hk & Hn)]; [by left|]. right. split; [done|]. split; [|done].
    intros ->. assert (h = victim) as -> by congruence. by apply Hn.
  - intros [[-> ->]|(Hne & Hnv & Hk)]; [by left|]. right. split; [done|]. split; [done|].
    intros [Ht Hid]. apply Hnv. rewrite (tu_keyed _ Hu _ _ Hk). by rewrite Ht, Hid.
Qed.

Lemma taken_unique spec victim live nv n : takes_over spec victim live nv n ->
  tokens_unique (taken spec victim live nv n).
Proof.
  intros Ht. pose proof Ht as [[A B C] (Hv & Hvt & Hvk)].
  assert (Hfree : forall k h, k <> (T, hk_id victim) -> db_hooks d !! k = Some h -> hk_tenant h = T ->
    hk_token h <> hd_token hd).
  { intros k h Hk Hh Hht Htok. apply Hk. eapply C; [done..| |]; congruence. }
  split.
  - intros k h [[-> ->]|(_ & _ & Hk)]%taken_hooks; [done| |done]. by eapply A.
  - intros k h [[-> ->]|(_ & _ & Hk)]%taken_hooks; [done| |done]. by eapply B.
  - intros k1 k2 h1 h2 H1 H2. apply taken_hooks in H1; [|done]. apply taken_hooks in H2; [|done].
    destruct H1 as [[-> ->]|(_ & N1 & H1)], H2 as [[-> ->]|(_ & N2 & H2)]; cbn [taken_row hk_tenant hk_token];
      [done|intros E1 E2; by destruct (Hfree _ _ N2 H2)|intros E1 E2; by destruct (Hfree _ _ N1 H1)|by eapply C].
Qed.
End Takeover.

(** C7 Forcing the creation of a hook whose token a live run of this World's era
    holds: in one transaction the token's only hook becomes ours, marked with
    the claim, the victim's log has the disposal naming us and ours has the
    creation, each in its run's next slot, and nothing else has changed; and
    every later delivery to the victim's hook is refused with the run and hook
    the token went to. *)
Theorem takeover_redirects `{WorldSdkLaws} s r hid hd d spec victim live nv n m :
  s_fence s = None -> m_collide m = [] -> takes_over s r hid hd d spec victim live nv n ->
  let '(res, m', d') := exec (takeoverAttempt s r (Some hid) hd spec) m d in
  let T := s_tenantId s in
  (exists w data, res = Ok (TTaken (Some (taken_row s r hid hd spec victim live)) w data)) /\ m' = m /\
  (forall k h, db_hooks d' !! k = Some h <->
     (k = (T, hid) /\ h = taken_row s r hid hd spec victim live) \/
     (k <> (T, hid) /\ k <> (T, hk_id victim) /\ db_hooks d !! k = Some h)) /\
  db_events d' = db_events d ++
    [event_of (disposal s r hid hd spec victim live) (slotToEventId (N.of_nat (S nv))) (db_now d);
     event_of (creation s r hid hd spec victim live) (slotToEventId (N.of_nat (S n))) (db_now d)] /\
  (db_runs d' = db_runs d /\ db_steps d' = db_steps d /\ db_waits d' = db_waits d /\ db_slots d' = db_slots d) /\
  (forall token data p m2,
     hk_run victim <> "" -> hk_id victim <> "" -> current_run T (hk_run victim) d live ->
     token = None \/ token = Some (hd_token hd) ->
     Forall (fun e => ~ (ev_correlationId e = Some (hk_id victim) /\ ev_type e = hook_disposed))
       (run_events T (hk_run victim) d) -> hk_id victim <> hid ->
     exec (create s (Some (hk_run victim)) (Request (HookReceived token data) (Some (hk_id victim)) None) p) m2 d' =
       (Err (HookForceClaimed (hd_token hd) r hid), m2, d')).
Proof.
  intros Hf Hm Ht. rewrite (takeover_run s r hid hd d spec victim live nv n m Hf Hm Ht).
  split; [by eexists _, _|]. split; [done|]. split; [intros k h; by apply taken_hooks|].
  split; [unfold taken, appended; cbn; by rewrite <- app_assoc|]. split; [done|].
  intros token data p m2 Hr Hv Hcur Htok Hnone Hne.
  set (d' := taken s r hid hd d spec victim live nv n). set (rq := Request _ _ _).
  assert (Hwf : well_formed s rq (m_now m2)) by (split; done).
  rewrite (create_reads_run s (hk_run victim) rq p m2 d' live Hr Hwf Hcur).
  unfold create_after_checks. cbn [run_state_of rs_status]. rewrite (to_status _ _ _ _ _ _ _ _ _ _ Ht). cbn [andb].
  assert (Hstep : forall c l, validate_step s (hk_run victim) rq c l = Ret None) by done.
  rewrite run_bind, Hstep. cbn [run]. cbv iota. rewrite run_bind.
  assert (Hgone : db_hooks d' !! (s_tenantId s, hk_id victim) = None).
  { destruct (db_hooks d' !! _) as [h|] eqn:E; [|done].
    apply taken_hooks in E as [[E _]|(_ & E & _)]; [by injection E|done|done]. }
  assert (Hval : exec (validate_hook s (hk_run victim) rq) m2 d' =
    (Err (HookForceClaimed (hd_token hd) r hid), m2, d')); [|by rewrite Hval].
  unfold validate_hook. rewrite (proj2 (sdk_hook_event _)) by by left. cbn [rq rq_correlationId truthy rq_body default from_option id].
  rewrite (proj2 (String.eqb_neq _ _) Hv). cbn [negb andb]. rewrite run_bind, run_select. unfold get_hook.
  rewrite Hgone, run_bind. unfold forceClaimRefusal. rewrite run_bind, run_select.
  assert (Hdis : filter (fun e => ev_correlationId e = Some (hk_id victim) /\ ev_type e = hook_disposed)
    (run_events (s_tenantId s) (hk_run victim) d') =
    [event_of (disposal s r hid hd spec victim live) (slotToEventId (N.of_nat (S nv))) (db_now d)]).
  { unfold d', taken, appended, run_events. cbn [db_events set_hooks set_events].
    rewrite !filter_app. fold (run_events (s_tenantId s) (hk_run victim) d).
    rewrite filter_none; [|intros e He; rewrite Forall_forall in Hnone; by apply Hnone].
    rewrite (filter_cons_True _ (event_of (disposal _ _ _ _ _ _ _) _ _)) by done.
    rewrite (filter_cons_False _ (event_of (creation _ _ _ _ _ _ _) _ _)) by (cbn; pose proof (to_run _ _ _ _ _ _ _ _ _ _ Ht); naive_solver).
    rewrite filter_cons_True, !filter_nil by done. reflexivity. }
  rewrite Hdis. cbn [head ev_body event_of disposal vl_body dd_forceClaimedBy mbind option_bind]. cbv iota.
  assert (Htk : match token with Some t => Some t | None => dd_token (DisposeData (Some (hd_token hd)) (Some (r, hid))) end
    = Some (hd_token hd)) by (by destruct Htok as [-> | ->]).
  cbn [dd_token] in Htk |- *. rewrite Htk.
  assert (Hsel : head (select_hooks (s_tenantId s) (hookTokenEquals (hd_token hd)) d') =
    Some (taken_row s r hid hd spec victim live)).
  { apply select_sole_token; [by apply taken_unique|]. split; [|done]. apply taken_hooks; [done|]. by left. }
  rewrite run_bind, run_select, Hsel. done.
Qed.

(** A live victim whose World predates takeovers keeps its token: the attempt
    writes nothing and names the victim's run, which the creation then answers
    with a [hook_conflict] event. *)
Theorem old_victim_keeps_token `{WorldSdk} s r hid hd d spec victim live m :
  tokens_unique d -> sole_holder (s_tenantId s) (hd_token hd) d victim ->
  get_run (s_tenantId s) (hk_run victim) d = Some live ->
  isTerminalWorkflowRunStatus (run_status live) = false ->
  default SPEC_VERSION_LEGACY (run_specVersion live) < SPEC_VERSION_SUPPORTS_HOOK_FORCE_CLAIM ->
  hk_run victim <> r ->
  exec (takeover_hook s r (Some hid) hd spec (HookCreated hd)) m d = (Ok (HConflict true (Some (hk_run victim))), m, d).
Proof.
  intros Hu Hv Hl Hst Hlt Hr.
  assert (Hat : exec (takeoverAttempt s r (Some hid) hd spec) m d = (Ok (TRefused (hk_run victim)), m, d)).
  { unfold takeoverAttempt. rewrite run_transaction. unfold atomically.
    pose proof (select_sole_token s hd victim d Hu Hv) as Hsel.
    rewrite run_tx_bind, run_tx_select by done. cbn [tx_db]. rewrite Hsel. cbv iota.
    rewrite run_tx_bind, run_tx_select by done. cbn [tx_db tx_mem]. unfold get_run in Hl |- *.
    rewrite Hl, run_tx_bind, run_tx_select by done. cbn [tx_db tx_mem].
    rewrite Hsel. cbn [option_map]. rewrite Hst, !String.eqb_refl. cbn [negb andb].
    rewrite (proj2 (String.eqb_neq _ _) Hr). cbn [andb].
    rewrite (bool_decide_false (Some live = None)) by done. rewrite andb_false_r. cbn [andb].
    destruct (Z.ltb_spec (default SPEC_VERSION_LEGACY (run_specVersion live)) SPEC_VERSION_SUPPORTS_HOOK_FORCE_CLAIM);
      [done|lia]. }
  unfold takeover_hook, journaledHookCreated. rewrite run_bind, run_try. unfold MAX_OWNER_CHANGES.
  cbn [takeover_loop]. rewrite run_try, Hat. done.
Qed.

(** ** Witnesses *)

(** Two live runs; the first, of spec version [v], holds the token. *)
Definition two_runs (v : Z) : Db :=
  (run TxAborted (
    create_fenced (demo_storage "t1") (Some "wrun_1") (Request (RunCreated demo_input) None (Some v)) no_params ;;;
    demo_create "t1" "wrun_1" (demo_hook "token" false) (Some "hook_1") ;;;
    demo_create "t1" "wrun_2" (RunCreated demo_input) None ;;; Ret tt) (empty_mem 1000) (empty_db 1000)).2.

Lemma two_runs_hooks v : v = 5 \/ v = 8 -> tokens_unique (two_runs v) /\
  exists h, sole_holder "t1" "token" (two_runs v) h /\ hk_id h = "hook_1" /\ hk_run h = "wrun_1" /\
    forall k x, db_hooks (two_runs v) !! k = Some x -> k = ("t1", "hook_1").
Proof.
  intros Hv.
  assert (Hrows : forall k h, db_hooks (two_runs v) !! k = Some h ->
    k = ("t1", "hook_1") /\ hk_tenant h = "t1" /\ hk_id h = "hook_1" /\ hk_claimsToken h = true /\
    hk_token h = "token" /\ hk_run h = "wrun_1").
  { destruct Hv as [-> | ->];
      [decide_rows (fun (k : string * string) h => k = ("t1", "hook_1") /\ hk_tenant h = "t1" /\ hk_id h = "hook_1" /\
        hk_claimsToken h = true /\ hk_token h = "token" /\ hk_run h = "wrun_1") (db_hooks (two_runs 5))
      |decide_rows (fun (k : string * string) h => k = ("t1", "hook_1") /\ hk_tenant h = "t1" /\ hk_id h = "hook_1" /\
        hk_claimsToken h = true /\ hk_token h = "token" /\ hk_run h = "wrun_1") (db_hooks (two_runs 8))]. }
  assert (Hex : match db_hooks (two_runs v) !! ("t1", "hook_1") with Some _ => true | None => false end = true)
    by (destruct Hv as [-> | ->]; vm_compute; reflexivity).
  split.
  - split.
    + intros k h Hk. by apply Hrows in Hk as (_ & _ & _ & ? & _).
    + intros k h Hk. apply Hrows in Hk as (-> & -> & -> & _). reflexivity.
    + intros k1 k2 h1 h2 [-> _]%Hrows [-> _]%Hrows. reflexivity.
  - destruct (db_hooks (two_runs v) !! ("t1", "hook_1")) as [h|] eqn:E; [|discriminate Hex].
    exists h. destruct (Hrows _ _ E) as (_ & Ht & Hi & _ & Htok & Hr). split.
    + split; [rewrite Hi; exact E|]. by split.
    + split; [exact Hi|]. split; [exact Hr|]. by intros k x [-> _]%Hrows.
Qed.

Lemma two_runs_row v : v = 5 \/ v = 8 -> exists row, get_run "t1" "wrun_1" (two_runs v) = Some row /\
  run_status row = RunStatus.pending /\ run_specVersion row = Some v.
Proof.
  intros Hv. assert (H : option_map (fun r => (run_status r, run_specVersion r)) (get_run "t1" "wrun_1" (two_runs v)) =
    Some (RunStatus.pending, Some v)) by (destruct Hv as [-> | ->]; vm_compute; reflexivity).
  destruct (get_run "t1" "wrun_1" (two_runs v)) as [row|]; [|discriminate H]. exists row. by injection H as -> ->.
Qed.

Definition forced : hook_data := HookData "token" None None None None true None.

Lemma two_runs_takeover h row : sole_holder "t1" "token" (two_runs 8) h -> hk_id h = "hook_1" -> hk_run h = "wrun_1" ->
  get_run "t1" "wrun_1" (two_runs 8) = Some row -> run_status row = RunStatus.pending -> run_specVersion row = Some 8 ->
  takes_over (demo_storage "t1") "wrun_2" "hook_2" forced (two_runs 8) 8 h row 2 1.
Proof.
  intros Hh Hi Hr Hrow Hs Hv. destruct (two_runs_hooks 8 ltac:(auto)) as (Hu & _ & _ & _ & _ & Hall).
  assert (Hlogs : slotted_log "t1" "wrun_1" (two_runs 8) 2 /\ slotted_log "t1" "wrun_2" (two_runs 8) 1).
  { split; (split; [vm_compute; reflexivity|apply (bool_decide_unpack _); vm_compute; exact I|vm_compute; reflexivity]). }
  split; rewrite ?Hr.
  - exact Hu.
  - exact Hh.
  - exact Hrow.
  - rewrite Hs. reflexivity.
  - exists 8. split; [exact Hv|vm_compute; discriminate].
  - intros E. discriminate E.
  - intros k x Hk _ _. rewrite Hi. by eapply Hall.
  - vm_compute. reflexivity.
  - vm_compute. reflexivity.
  - apply Hlogs.
  - apply Hlogs.
  - vm_compute. by eexists.
  - vm_compute. by eexists.
  - reflexivity.
  - reflexivity.
Qed.

Lemma takeover_redirects_witness :
  let '(_, _, d') := exec (takeoverAttempt (demo_storage "t1") "wrun_2" (Some "hook_2") forced 8) demo_mem (two_runs 8) in
  option_map hk_run (db_hooks d' !! ("t1", "hook_2")) = Some "wrun_2" /\
  exec (create (demo_storage "t1") (Some "wrun_1") (Request (HookReceived None (Some "hi")) (Some "hook_1") None) no_params)
    demo_mem d' = (Err (HookForceClaimed "token" "wrun_2" "hook_2"), demo_mem, d').
Proof.
  destruct (two_runs_hooks 8 ltac:(auto)) as (_ & h & Hh & Hi & Hr & _).
  destruct (two_runs_row 8 ltac:(auto)) as (row & Hrow & Hs & Hv).
  pose proof (takeover_redirects (demo_storage "t1") "wrun_2" "hook_2" forced (two_runs 8) 8 h row 2 1 demo_mem
    eq_refl eq_refl (two_runs_takeover h row Hh Hi Hr Hrow Hs Hv)) as Hp.
  destruct (exec (takeoverAttempt _ _ _ _ _) _ _) as [[res m'] d'].
  destruct Hp as (_ & _ & Hk & _ & _ & Hd). rewrite Hr, Hi in Hd. split.
  - assert (E : db_hooks d' !! ("t1", "hook_2") = Some (taken_row (demo_storage "t1") "wrun_2" "hook_2" forced 8 h row)).
    { apply Hk. left. by split. }
    by rewrite E.
  - apply Hd; [discriminate|discriminate| |by left| |discriminate].
    + split; [exact Hrow|]. rewrite Hv. split; reflexivity.
    + apply (bool_decide_unpack _). vm_compute. exact I.
Defined.

Lemma old_victim_keeps_token_witness :
  exec (takeover_hook (demo_storage "t1") "wrun_2" (Some "hook_2") forced 8 (HookCreated forced)) demo_mem (two_runs 5) =
    (Ok (HConflict true (Some "wrun_1")), demo_mem, two_runs 5).
Proof.
  destruct (two_runs_hooks 5 ltac:(auto)) as (Hu & h & Hh & Hi & Hr & _).
  destruct (two_runs_row 5 ltac:(auto)) as (row & Hrow & Hs & Hv). rewrite <- Hr in Hrow |- *.
  refine (old_victim_keeps_token (demo_storage "t1") "wrun_2" "hook_2" forced (two_runs 5) 8 h row demo_mem
    Hu Hh Hrow _ _ _).
  - rewrite Hs. reflexivity.
  - rewrite Hv. vm_compute. reflexivity.
  - rewrite Hr. discriminate.
Defined.
