(* ===== verification/AdmissionProps.v ===== *)
(** Atomic admission of a run that starts with a hook: the decision, the run,
    the hook and the first event commit together, and a refusal is final
    (src/start-hook.ts; src/storage.ts, lines 430 to 480 and 1262 to 1414). *)
From S2P Require Import Prelude Model Paging Prog Slots Sdk Tenant RunRetention Schema Events StartHook.
From S2P Require Import CreateRun CreateStep CreateHook Create StorageRel StorageInv Lifecycle Demo LogProps.
From S2P Require Import RunProps HookProps.
Local Open Scope Z_scope.

Section Admission.
Context `{WorldSdk} (s : storage) (r : string) (ri : run_input) (h : start_hook) (spec : Z).
Local Notation T := (s_tenantId s).
Local Notation token := (sh_token h).

(** A candidate that was not decided yet, in time, whose run's attributes and
    retention are in order. *)
Record candidate (rr : run_retention_identity) (m : mem) (d : Db) : Prop := Candidate {
  ca_attributes : validateAttributeChanges (attribute_entries ri) [] (ri_allowReservedAttributes ri) = true;
  ca_retention : exec (resolveCreationRetention s r ri) m d = (Ok rr, m, d);
  ca_undecided : db_admissions d !! (T, r) = None;
  ca_in_time : match ulidToDate (strip_wrun r) with
    | Some t => m_now m - t <= START_HOOK_CANDIDATE_MAX_AGE_MS | None => True end;
  ca_no_run : get_run T r d = None;
  ca_tokens : tokens_unique d
}.

(** The decisions left by the sweep of the old ones. *)
Definition swept (m : mem) (d : Db) : gmap (string * string) admission_row :=
  let old := filter (fun ka => ad_createdAt ka.2 < m_now m - START_HOOK_CANDIDATE_MAX_AGE_MS - 60 * 60 * 1000)
    (map_to_list (db_admissions d)) in
  fold_right (fun ka a => delete ka.1 a) (db_admissions d) (take 100 old).

Lemma swept_none m d k : db_admissions d !! k = None -> swept m d !! k = None.
Proof.
  intros Hk. unfold swept. generalize (take 100 (filter (fun ka : string * string * admission_row =>
    ad_createdAt ka.2 < m_now m - START_HOOK_CANDIDATE_MAX_AGE_MS - 60 * 60 * 1000) (map_to_list (db_admissions d)))).
  intros l. induction l as [|ka l IH]; simpl; [done|]. by rewrite lookup_delete_None; right.
Qed.

(** The hooks the decision keeps: an ended run's hook of the token goes. *)
Definition kept (d : Db) : gmap (string * string) hook_row :=
  filter (fun kh => ~ (hk_tenant kh.2 = T /\
    hookTokenEquals token kh.2 && ownerRunIsTerminal T d kh.2 && hookRetentionEnded d kh.2 = true)) (db_hooks d).

Definition decided_db (m : mem) (d : Db) : Db := set_hooks (set_admissions d (swept m d)) (kept d).

Lemma exec_tx_undecided m d : db_admissions d !! (T, r) = None ->
  exec_tx (recordedDecision T r h) (tx m d) = (Ok None, tx m d).
Proof. intros Hd. unfold recordedDecision. rewrite run_tx_bind, run_tx_select by done. cbn [tx_db]. by rewrite Hd. Qed.

(** Up to the question who holds the token. *)
Lemma exec_tx_decide rr m d : candidate rr m d ->
  exec_tx (decideStartHookAdmission T r h spec) (tx m d) =
  exec_tx (
    let! owner := findActiveTokenOwner T r token in
    let! startHookRow :=
      match owner with
      | Some o => if String.eqb o "" then sql (insert_hook Untargeted (start_hook_row T r h spec)) else Ret None
      | None => sql (insert_hook Untargeted (start_hook_row T r h spec))
      end in
    match startHookRow with
    | Some _ => recordDecision T r h Accepted (DAccepted false)
    | None =>
        let! raced := recordedDecision T r h in
        match raced with
        | Some x => Ret x
        | None =>
            let! conflictingRunId :=
              match owner with
              | Some o => Ret (Some o)
              | None => findActiveTokenOwner T r token
              end in
            if truthy conflictingRunId then
              let c := default "" conflictingRunId in
              recordDecision T r h (Rejected (Some c)) (DRejected c)
            else Throw (WorldError (Some 503) None)
        end
    end) (tx m (decided_db m d)).
Proof.
  intros [_ _ Hu Ht Hr _]. unfold decideStartHookAdmission. rewrite run_tx_bind, exec_tx_undecided by done. cbv iota.
  rewrite run_tx_bind. unfold Date_now at 1. cbn [run_tx js]. cbv iota beta.
  assert (Ht' : match ulidToDate (strip_wrun r) with
    | Some t => START_HOOK_CANDIDATE_MAX_AGE_MS <? m_now m - t | None => false end = false).
  { destruct (ulidToDate _); [|done]. by apply Z.ltb_ge. }
  cbn [tx_mem]. rewrite Ht'. rewrite run_tx_bind, run_tx_select by done. cbn [tx_db]. rewrite Hr.
  rewrite run_tx_bind. unfold deleteExpiredDecisions. rewrite run_tx_bind. unfold Date_now at 1. cbn [run_tx js tx_mem tx_db tx_failed].
  cbv iota beta. rewrite run_tx_sql by done. cbn [tx_db delete_old_admissions]. fold (swept m d).
  rewrite run_tx_bind, run_tx_sql by done. unfold delete_hooks. cbn [tx_db tx_mem db_hooks set_admissions].
  reflexivity.
Qed.

(** Nobody shares the token's digest with the hook of a live other run. *)
Lemma kept_holder d x : tokens_unique d -> sole_holder T token d x -> ownerRunIsTerminal T d x = false ->
  kept d = db_hooks d.
Proof.
  intros [A B C] (Hx & Ht & Hk) Ho. unfold kept. apply map_filter_id. intros k y Hy. simpl. intros [Hty Hp]. bools.
  match goal with E : hookTokenEquals _ _ = true |- _ => apply hookTokenEquals_iff in E end.
  assert (k = (T, hk_id x)) as -> by (eapply C; [exact Hy|exact Hx| |]; congruence).
  assert (y = x) as -> by congruence. congruence.
Qed.

Lemma exec_tx_record m d row x : db_admissions d !! (T, r) = None ->
  exec_tx (recordDecision T r h row x) (tx m d) =
    (Ok x, tx m (set_admissions d (<[(T, r) := AdmissionRow T r token row (db_now d)]> (db_admissions d)))).
Proof.
  intros Hn. unfold recordDecision. rewrite run_tx_bind, run_tx_sql by done. cbn [tx_db].
  unfold insert_admission. cbn [ad_tenant ad_run]. rewrite Hn. done.
Qed.
End Admission.

Lemma head_map_select `{WorldSdk} T (p : hook_row -> bool) token x (d : Db) :
  tokens_unique d -> sole_holder T token d x ->
  (forall y, p y = true -> hk_token y = token) -> p x = true ->
  option_map hk_run (head (select_hooks T p d)) = Some (hk_run x).
Proof.
  intros Hu Hx Hp Hpx.
  pose (sx := Storage T None 0 0 0 None None). pose (hx := HookData token None None None None false None).
  pose proof (select_sole sx hx p x d Hu Hx Hp Hpx) as E. change (s_tenantId sx) with T in E. by rewrite E.
Qed.

(** A start whose decision is on record is answered from the record alone. *)
Lemma recorded_start_is_answered `{WorldSdkLaws} s r ri h spec rr m d x t :
  validateAttributeChanges (attribute_entries ri) [] (ri_allowReservedAttributes ri) = true ->
  exec (resolveCreationRetention s r ri) m d = (Ok rr, m, d) ->
  db_admissions d !! (s_tenantId s, r) = Some (AdmissionRow (s_tenantId s) r (sh_token h) x t) ->
  exec (createRun s r ri (Some h) spec) m d =
    (match x with Accepted => Ok (Some (DAccepted true), None) | Rejected o => Err (startHookConflict h (default "" o)) end, m, d).
Proof.
  intros Ha Hrr Hd. unfold createRun. rewrite Ha. cbn [negb]. rewrite run_bind, Hrr. cbv iota. rewrite run_bind.
  unfold insertRunWithCreatedEvent. rewrite run_transaction. unfold atomically.
  rewrite run_tx_bind, run_tx_bind, run_tx_bind. unfold decideStartHookAdmission at 1. rewrite run_tx_bind.
  unfold recordedDecision at 1. rewrite run_tx_bind, run_tx_select by done. cbn [tx_db]. rewrite Hd.
  cbn [ad_token ad_decision]. rewrite String.eqb_refl. by destruct x.
Qed.

(** The refusal of a start whose token a live run holds. *)
Lemma held_token_is_refused `{WorldSdkLaws} s r ri h spec rr m d x row :
  candidate s r ri rr m d -> sole_holder (s_tenantId s) (sh_token h) d x ->
  get_run (s_tenantId s) (hk_run x) d = Some row -> isTerminalWorkflowRunStatus (run_status row) = false ->
  hk_run x <> r -> hk_run x <> "" ->
  let '(res, m', d') := exec (createRun s r ri (Some h) spec) m d in
  let T := s_tenantId s in
  res = Err (HookConflict (sh_token h) (hk_run x)) /\ m' = m /\
  db_runs d' = db_runs d /\ db_events d' = db_events d /\ db_hooks d' = db_hooks d /\ db_slots d' = db_slots d /\
  db_admissions d' !! (T, r) = Some (AdmissionRow T r (sh_token h) (Rejected (Some (hk_run x))) (db_now d)).
Proof.
  intros Hc Hx Hrow Hst Hne Hne0. pose proof Hc as [Ha Hrr Hu Ht Hr Htok].
  assert (Hlive : ownerRunIsTerminal (s_tenantId s) d x = false).
  { unfold ownerRunIsTerminal. unfold get_run in Hrow. rewrite Hrow. apply bool_decide_eq_false.
    intros Hin%sdk_terminal_run. congruence. }
  pose proof (kept_holder s h d x Htok Hx Hlive) as Hkept.
  assert (Hown : exec_tx (findActiveTokenOwner (s_tenantId s) r (sh_token h)) (tx m (decided_db s h m d)) =
    (Ok (Some (hk_run x)), tx m (decided_db s h m d))).
  { unfold findActiveTokenOwner. rewrite run_tx_select by done. cbn [tx_db tx_mem].
    rewrite (head_map_select _ _ (sh_token h) x); [done|..].
    - destruct Htok as [A B C]. split; unfold decided_db; cbn [db_hooks set_hooks]; rewrite Hkept; assumption.
    - unfold sole_holder, decided_db. cbn [db_hooks set_hooks]. by rewrite Hkept.
    - intros y Hy. bools. by apply hookTokenEquals_iff.
    - destruct Hx as (_ & _ & Hxk). rewrite (proj2 (hookTokenEquals_iff _ _) Hxk), (proj2 (String.eqb_neq _ _) Hne).
      unfold hookAvailable. change (ownerRunIsTerminal _ (decided_db s h m d) x) with (ownerRunIsTerminal (s_tenantId s) d x).
      by rewrite Hlive, orb_true_r. }
  set (d1 := decided_db s h m d) in *.
  assert (Hd1 : db_admissions d1 !! (s_tenantId s, r) = None) by by apply swept_none.
  assert (Hgo : exec (createRun s r ri (Some h) spec) m d =
    (Err (HookConflict (sh_token h) (hk_run x)), m, set_admissions d1 (<[(s_tenantId s, r) :=
       AdmissionRow (s_tenantId s) r (sh_token h) (Rejected (Some (hk_run x))) (db_now d)]> (db_admissions d1)))).
  { unfold createRun. rewrite Ha. cbn [negb]. rewrite run_bind, Hrr. cbv iota. rewrite run_bind.
    unfold insertRunWithCreatedEvent. rewrite run_transaction. unfold atomically.
    rewrite run_tx_bind, run_tx_bind, run_tx_bind, (exec_tx_decide s r ri h spec rr m d Hc). fold d1.
    rewrite run_tx_bind, Hown. cbv iota. rewrite run_tx_bind, (proj2 (String.eqb_neq _ _) Hne0). cbn [run_tx].
    rewrite run_tx_bind, exec_tx_undecided by done. cbv iota. rewrite run_tx_bind. cbn [run_tx truthy].
    rewrite (proj2 (String.eqb_neq _ _) Hne0). cbn [negb default from_option id].
    rewrite exec_tx_record by done. cbn [run_tx admits negb]. done. }
  rewrite Hgo. split_and!; try done. apply lookup_insert_eq.
Qed.

(** ** The requests that start a run *)

(** A [run_created], or a [run_started] that carries what creating its run takes. *)
Inductive starts (ri : run_input) : body -> Prop :=
  | starts_created : starts ri (RunCreated ri)
  | starts_resilient : resilient_input ri = true -> starts ri (RunStarted (Some ri)).

(** A request outside the in-band fence that starts [r] with the hook [h], and is
    let through by the checks that come first: the hook's retention is within
    the limit, the id it chose for its run is of the present, and a
    [run_started] does not find the run. *)
Record start_request `{WorldSdk} (s : storage) (r : string) (ri : run_input) (h : start_hook)
    (rq : request) (p : create_params) (m : mem) (d : Db) : Prop := StartRequest {
  sr_starts : starts ri (rq_body rq);
  sr_hook : ri_startHook ri = Some h;
  sr_run : r <> "";
  sr_unfenced : cp_inBand p = false \/ eventType rq = run_created;
  sr_retention : match sh_tokenRetentionUntil h with Some u => u <= m_now m + s_hookRetentionLimitMs s | None => True end;
  sr_timely : eventType rq = run_created -> validateUlidTimestamp (m_now m) r = true;
  sr_absent : eventType rq = run_started -> get_run (s_tenantId s) r d = None
}.

(** What [createRun] refuses such a request refuses. *)
Lemma start_refused `{WorldSdkLaws} s r ri h rq p m d e m' d' : start_request s r ri h rq p m d ->
  exec (createRun s r ri (Some h) (spec_of s rq)) m d = (Err e, m', d') ->
  exec (create_fenced s (Some r) rq p) m d = (Err e, m', d').
Proof.
  intros [Hst Hh Hr Hf Hret Hu Hn] He.
  assert (Htr : truthy (Some r) = true) by (cbn; by rewrite (proj2 (String.eqb_neq r "") Hr)).
  assert (E : create_fenced s (Some r) rq p = create s (Some r) rq p).
  { unfold create_fenced. destruct Hf as [->|Hc]; [done|]. by rewrite Hc, bool_decide_true, !orb_true_r by done. }
  assert (Hadm : exec (assertStartHookAdmissible h (s_hookRetentionLimitMs s)) m d = (Ok tt, m, d)).
  { unfold assertStartHookAdmissible. destruct (sh_tokenRetentionUntil h) as [u|]; [|done].
    rewrite run_bind. unfold Date_now. cbn [run js]. by rewrite (proj2 (Z.ltb_ge _ _)) by lia. }
  rewrite E. unfold create, check_hook_retention, startHook_of, effective_run_id, check_run_id, read_current_run.
  fold (spec_of s rq). clear E Hf. set (sp := spec_of s rq) in *. clearbody sp. destruct rq as [b corr sv].
  unfold eventType in Hu, Hn |- *. cbn [rq_body] in *. destruct Hst as [|Hres]; rewrite Hh; rewrite run_bind; cbn [run]; rewrite run_bind, Hadm; cbv iota; rewrite run_bind, Htr;
    cbn [run default from_option id].
  - rewrite run_bind, run_bind. unfold Date_now at 1. cbn [run js]. rewrite Hu by done. cbn [run].
    rewrite run_bind. unfold Date_now at 1. cbn [run js]. cbv iota. rewrite run_bind. cbn [run type_of].
    rewrite bool_decide_false by done. cbn [andb].
    unfold create_after_checks. cbn [andb option_map]. rewrite run_bind.
    unfold validate_step. unfold eventType at 1. cbn [rq_body type_of].
    rewrite bool_decide_false by (rewrite !elem_of_cons, elem_of_nil; naive_solver). cbn [andb run]. rewrite run_bind.
    assert (Hk : isHookEventRequiringExistence run_created = false).
    { apply not_true_iff_false. rewrite sdk_hook_event. by intros [|]. }
    unfold validate_hook, eventType at 1. cbn [rq_body type_of]. rewrite Hk. cbn [andb run]. rewrite run_bind. unfold create_branch.
    cbn [rq_body]. unfold run_created_branch. by rewrite run_bind, Hh, He.
  - rewrite run_bind. cbn [run]. rewrite run_bind. unfold Date_now at 1. cbn [run js]. rewrite run_bind, run_bind.
    unfold getRunForValidation. rewrite run_select, Hn by done. cbn [option_map].
    unfold resilientStart. rewrite Hres, Hh, run_bind, He. done.
Qed.


(** ** A run and its first event *)

Section FirstWrite.
Context `{WorldSdkLaws} (T r : string).

Definition slots_opened (d : Db) : Db :=
  match db_slots d !! (T, r) with Some _ => d | None => set_slots d (<[(T, r) := 1]> (db_slots d)) end.

Definition first_event (ed : run_input) (spec : option Z) : event_values :=
  EventValues T r (IdText (slotToEventId FIRST_EVENT_SLOT)) None (RunCreated ed) spec None.

(** The database with the run's row, its marker and its first event. *)
Definition run_begun (row : run_row) (ed : run_input) (spec : option Z) (d : Db) : Db :=
  let d1 := slots_opened (set_runs d (<[(T, r) := row]> (db_runs d))) in
  set_events d1 (db_events d1 ++ [event_of (first_event ed spec) (slotToEventId FIRST_EVENT_SLOT) (db_now d)]).

Lemma slots_opened_same d : db_events (slots_opened d) = db_events d /\ db_runs (slots_opened d) = db_runs d /\
  db_hooks (slots_opened d) = db_hooks d /\ db_admissions (slots_opened d) = db_admissions d /\
  db_now (slots_opened d) = db_now d /\ is_Some (db_slots (slots_opened d) !! (T, r)).
Proof.
  unfold slots_opened. destruct (db_slots d !! (T, r)) eqn:E; split_and!; try done.
  cbn [db_slots set_slots]. rewrite lookup_insert_eq. by eexists.
Qed.

Lemma exec_tx_insert_run values row ed spec m d :
  values (db_now d) = Ok row -> run_tenant row = T -> run_id row = r ->
  get_run T r d = None -> run_events T r d = [] ->
  exec_tx (insert_run_and_event values ed spec) (tx m d) =
    (Ok (Some (set_run_retention_deadlines row, slotToEventId FIRST_EVENT_SLOT, db_now d)),
     tx m (run_begun (set_run_retention_deadlines row) ed spec d)).
Proof.
  intros Hv HT Hr Hno Hnone. unfold insert_run_and_event. rewrite run_tx_bind, run_tx_sql by done. cbn [tx_db tx_mem].
  unfold insert_run. rewrite Hv, HT, Hr. unfold get_run in Hno. rewrite Hno.
  set (d1 := set_runs d _). unfold openEventSlots.
  cbn [set_run_retention_deadlines run_set_deadlines run_tenant run_id]. rewrite HT, Hr.
  assert (Hs : insert_slots T r d1 = Ok (tt, slots_opened d1)).
  { unfold insert_slots, slots_opened. by destruct (db_slots d1 !! (T, r)). }
  rewrite run_tx_bind, run_tx_bind, run_tx_sql by done. cbn [tx_db tx_mem]. rewrite Hs. cbn [run_tx].
  rewrite run_tx_bind, run_tx_sql by done. cbn [tx_db tx_mem]. fold (first_event ed spec).
  destruct (slots_opened_same d1) as (Hev & _ & _ & _ & Hnow & _).
  unfold insert_event. cbn [first_event vl_id]. fold (first_event ed spec). rewrite Hev, Hnow.
  change (db_events d1) with (db_events d). change (db_now d1) with (db_now d).
  set (e := event_of (first_event ed spec) (slotToEventId FIRST_EVENT_SLOT) (db_now d)).
  destruct (existsb (same_event_key e) (db_events d)) eqn:E1.
  - apply existsb_exists in E1 as (y & Hy & Hk). unfold same_event_key in Hk. bools.
    assert (y ∈ run_events T r d) as Hin by (apply list_elem_of_filter; split; [done|by apply list_elem_of_In]).
    rewrite Hnone in Hin. by apply elem_of_nil in Hin.
  - unfold e at 1. rewrite no_dedup by done. cbn [run_tx].
    unfold run_begun. fold d1. rewrite Hev. done.
Qed.
End FirstWrite.

(** The database with the hook and the acceptance of a start whose token is free. *)
Definition accepted_db `{WorldSdk} (s : storage) (r : string) (h : start_hook) (spec : Z) (m : mem) (d : Db) : Db :=
  let T := s_tenantId s in
  let d2 := set_hooks (decided_db s h m d) (<[(T, startHookId r) := start_hook_row T r h spec]> (db_hooks (decided_db s h m d))) in
  set_admissions d2 (<[(T, r) := AdmissionRow T r (sh_token h) Accepted (db_now d)]> (db_admissions d2)).

(** No kept hook of the tenant has the token, and the run's start hook is none of them. *)
Definition token_free `{WorldSdk} (s : storage) (r : string) (h : start_hook) (d : Db) : Prop :=
  (forall k y, kept s h d !! k = Some y -> hk_tenant y = s_tenantId s ->
     hook_token_digest (hk_token y) <> hook_token_digest (sh_token h)) /\
  kept s h d !! (s_tenantId s, startHookId r) = None.

Lemma free_token_is_accepted `{WorldSdkLaws} s r ri h spec rr m d : candidate s r ri rr m d -> token_free s r h d ->
  exec_tx (decideStartHookAdmission (s_tenantId s) r h spec) (tx m d) = (Ok (DAccepted false), tx m (accepted_db s r h spec m d)).
Proof.
  intros Hc [Hfree Hid]. set (d1 := decided_db s h m d).
  assert (Hd1 : db_admissions d1 !! (s_tenantId s, r) = None) by by apply swept_none, Hc.
  assert (Hsel : head (select_hooks (s_tenantId s) (fun x => hookTokenEquals (sh_token h) x &&
    negb (String.eqb (hk_run x) r) && hookAvailable (s_tenantId s) d1 x) d1) = None).
  { unfold select_hooks. rewrite filter_none; [done|]. intros y Hy [Hty Hp]. bools.
    match goal with E : hookTokenEquals _ _ = true |- _ => apply hookTokenEquals_iff in E as Ek end.
    apply elem_of_hook_list in Hy as [k Hk]. apply (Hfree k y Hk Hty). by rewrite Ek. }
  set (hrow := start_hook_row (s_tenantId s) r h spec).
  assert (Hins : insert_hook Untargeted hrow d1 =
    Ok (Some hrow, set_hooks d1 (<[(s_tenantId s, startHookId r) := hrow]> (db_hooks d1)))).
  { unfold insert_hook. cbn [hrow start_hook_row hk_tenant hk_id]. fold hrow. unfold d1 at 1, decided_db at 1.
    cbn [db_hooks set_hooks]. rewrite Hid.
    destruct (existsb (claim_conflict hrow) (hook_list d1)) eqn:E; [|done].
    apply existsb_exists in E as (y & Hy & Hcl). apply list_elem_of_In, elem_of_hook_list in Hy as [k Hy].
    unfold claim_conflict in Hcl. bools. by destruct (Hfree k y Hy). }
  rewrite (exec_tx_decide s r ri h spec rr m d Hc). fold d1. unfold findActiveTokenOwner.
  rewrite run_tx_bind, run_tx_select by done. cbn [tx_db tx_mem]. rewrite Hsel. cbn [option_map].
  rewrite run_tx_bind, run_tx_sql by done. cbn [tx_db tx_mem]. fold hrow. rewrite Hins.
  by rewrite exec_tx_record.
Qed.

(** C8 A start whose token is free commits whole: the run, pending and under its
    retention's deadlines, its hook, the acceptance, the slot marker and the
    [run_created] event in the first slot, together; a retry that races in
    behind it is told so instead of creating anything. *)
Theorem accepted_start_is_whole `{WorldSdkLaws} s r ri h spec rr m d :
  candidate s r ri rr m d -> ri_deploymentId ri <> None -> ri_workflowName ri <> None ->
  (forall k y, kept s h d !! k = Some y -> hk_tenant y = s_tenantId s ->
     hook_token_digest (hk_token y) <> hook_token_digest (sh_token h)) ->
  kept s h d !! (s_tenantId s, startHookId r) = None -> run_events (s_tenantId s) r d = [] ->
  let '(res, m', d') := exec (createRun s r ri (Some h) spec) m d in
  let T := s_tenantId s in
  m' = m /\
  (exists row, res = Ok (Some (DAccepted false), Some (row, slotToEventId FIRST_EVENT_SLOT, db_now d)) /\
     get_run T r d' = Some row /\ run_status row = RunStatus.pending /\
     run_startHook row = Some (runStartHook r h)) /\
  db_hooks d' !! (T, startHookId r) = Some (start_hook_row T r h spec) /\
  db_admissions d' !! (T, r) = Some (AdmissionRow T r (sh_token h) Accepted (db_now d)) /\
  is_Some (db_slots d' !! (T, r)) /\
  (exists e, db_events d' = db_events d ++ [e] /\ run_events T r d' = [e] /\ ev_type e = run_created /\
     ev_id e = slotToEventId FIRST_EVENT_SLOT) /\
  (forall rr2 m2 d2, exec (resolveCreationRetention s r ri) m2 d2 = (Ok rr2, m2, d2) ->
     db_admissions d2 !! (T, r) = db_admissions d' !! (T, r) ->
     exec (createRun s r ri (Some h) spec) m2 d2 = (Ok (Some (DAccepted true), None), m2, d2)).
Proof.
  intros Hc Hdep Hname Hfree Hid Hnone. pose proof Hc as [Ha Hrr Hu Ht Hr Htok].
  destruct (ri_deploymentId ri) as [dep|] eqn:Edep; [|done]. destruct (ri_workflowName ri) as [name|] eqn:Ename; [|done].
  pose proof (free_token_is_accepted s r ri h spec rr m d Hc (conj Hfree Hid)) as Hdec.
  set (d3 := accepted_db s r h spec m d) in *.
  set (row0 := RunRow (s_tenantId s) r dep name RunStatus.pending (Some (default "" (s_queueNamespace s))) (Some spec)
    (ri_input ri) None None None (ri_executionContext ri) (ri_encryptionPublicKey ri)
    (list_to_map (default [] (ri_attributes ri))) (db_now d) (db_now d) None None
    (class_text (rr_class rr)) (rr_root rr) None None None (Some (runStartHook r h))).
  set (row := set_run_retention_deadlines row0).
  set (d4 := run_begun (s_tenantId s) r row (created_event_data r ri (Some h)) (Some spec) d3).
  assert (Hrun : exec_tx (insert_run_and_event (run_values s r ri (Some h) spec rr)
      (created_event_data r ri (Some h)) (Some spec)) (tx m d3) =
    (Ok (Some (row, slotToEventId FIRST_EVENT_SLOT, db_now d)), tx m d4)).
  { refine (exec_tx_insert_run (s_tenantId s) r (run_values s r ri (Some h) spec rr) row0 _ _ m d3 _ _ _ _ _); try done.
    unfold run_values. by rewrite Edep, Ename. }
  assert (Hgo : exec (createRun s r ri (Some h) spec) m d =
    (Ok (Some (DAccepted false), Some (row, slotToEventId FIRST_EVENT_SLOT, db_now d)), m, d4)).
  { unfold createRun. rewrite Ha. cbn [negb]. rewrite run_bind, Hrr. cbv iota. rewrite run_bind.
    unfold insertRunWithCreatedEvent. rewrite run_transaction. unfold atomically.
    rewrite run_tx_bind, run_tx_bind, run_tx_bind, Hdec. cbn [run_tx admits negb]. rewrite run_tx_bind, Hrun. done. }
  destruct (slots_opened_same (s_tenantId s) r (set_runs d3 (<[(s_tenantId s, r) := row]> (db_runs d3))))
    as (Hev & Hru & Hho & Had & _ & Hsl).
  cbn [db_events set_runs] in Hev. change (db_events d3) with (db_events d) in Hev.
  rewrite Hgo. unfold d4, run_begun. cbn [db_hooks db_admissions db_slots db_events set_events].
  split_and!; [done|..].
  - exists row. split; [done|]. split; [|done]. unfold get_run. cbn [db_runs set_events]. rewrite Hru. apply lookup_insert_eq.
  - rewrite Hho. apply lookup_insert_eq.
  - rewrite Had. apply lookup_insert_eq.
  - done.
  - eexists. rewrite Hev. split; [done|]. split; [|done]. unfold run_events. cbn [db_events set_events].
    rewrite filter_app. unfold run_events in Hnone. rewrite Hnone, filter_cons_True by done. done.
  - intros rr2 m2 d2' Hrr2 Hd2. rewrite Had in Hd2. unfold d3, accepted_db in Hd2. cbn [db_admissions set_runs set_admissions] in Hd2.
    rewrite lookup_insert_eq in Hd2. by rewrite (recorded_start_is_answered _ _ _ _ _ _ _ _ _ _ Ha Hrr2 Hd2).
Qed.

(** ** Witnesses *)

Definition start_with (token : string) : start_hook := StartHook token None (Some "meta") None.

Lemma two_runs_candidate : candidate (demo_storage "t1") "wrun_3" demo_input
  (RetentionIdentity Interactive "wrun_3") demo_mem (two_runs 8).
Proof. split; [reflexivity|reflexivity|vm_compute; reflexivity|exact I|vm_compute; reflexivity|by apply two_runs_hooks; auto]. Qed.

Definition hooked_input : run_input :=
  RunInput (Some "dpl_1") (Some "workflow") (Some "input") None None false None None (Some (start_with "token")).

Lemma hooked_candidate : candidate (demo_storage "t1") "wrun_3" hooked_input
  (RetentionIdentity Interactive "wrun_3") demo_mem (two_runs 8).
Proof. split; [reflexivity|reflexivity|vm_compute; reflexivity|exact I|vm_compute; reflexivity|by apply two_runs_hooks; auto]. Qed.

Lemma hooked_request b d : b = RunCreated hooked_input \/ b = RunStarted (Some hooked_input) ->
  get_run "t1" "wrun_3" d = None ->
  start_request (demo_storage "t1") "wrun_3" hooked_input (start_with "token") (demo_request b None) no_params demo_mem d.
Proof. intros Hb Hd. split; [|reflexivity|discriminate|by left|exact I|reflexivity|done]. destruct Hb as [->| ->]; by constructor. Qed.


Lemma accepted_start_is_whole_witness :
  let '(res, m', d') := exec (createRun (demo_storage "t1") "wrun_3" demo_input (Some (start_with "other")) 8)
    demo_mem (two_runs 8) in
  option_map run_status (get_run "t1" "wrun_3" d') = Some RunStatus.pending /\
  option_map hk_run (db_hooks d' !! ("t1", startHookId "wrun_3")) = Some "wrun_3".
Proof.
  assert (Hrows : forall k y, kept (demo_storage "t1") (start_with "other") (two_runs 8) !! k = Some y ->
    hk_token y = "token" /\ k = ("t1", "hook_1")).
  { decide_rows (fun (k : string * string) y => hk_token y = "token" /\ k = ("t1", "hook_1"))
      (kept (demo_storage "t1") (start_with "other") (two_runs 8)). }
  pose proof (accepted_start_is_whole (demo_storage "t1") "wrun_3" demo_input (start_with "other") 8 _ demo_mem
    (two_runs 8) two_runs_candidate ltac:(discriminate) ltac:(discriminate)) as Hp.
  assert (H1 : forall k y, kept (demo_storage "t1") (start_with "other") (two_runs 8) !! k = Some y ->
    hk_tenant y = s_tenantId (demo_storage "t1") ->
    hook_token_digest (hk_token y) <> hook_token_digest (sh_token (start_with "other"))).
  { intros k y Hy _. destruct (Hrows k y Hy) as [-> _]. discriminate. }
  assert (H2 : kept (demo_storage "t1") (start_with "other") (two_runs 8) !! (s_tenantId (demo_storage "t1"), startHookId "wrun_3") = None).
  { destruct (kept _ _ _ !! _) as [y|] eqn:E; [|reflexivity]. apply Hrows in E as [_ E]. discriminate E. }
  assert (H3 : run_events (s_tenantId (demo_storage "t1")) "wrun_3" (two_runs 8) = []) by (vm_compute; reflexivity).
  specialize (Hp H1 H2 H3).
  destruct (exec (createRun _ _ _ _ _) _ (two_runs 8)) as [[res m'] d'].
  destruct Hp as (_ & (row & _ & Hrow & Hs & _) & Hh & _).
  change (get_run "t1" "wrun_3" d' = Some row) in Hrow.
  change (db_hooks d' !! ("t1", startHookId "wrun_3") = Some (start_hook_row "t1" "wrun_3" (start_with "other") 8)) in Hh.
  rewrite Hrow, Hh. cbn [option_map]. rewrite Hs. split; reflexivity.
Defined.
