(* ===== verification/HazardProps.v ===== *)
(** Two states the storage does not recover from: a slot-numbered run whose log
    has an id of the older scheme, and the lazy start of a step whose creation
    is in the log without its row (src/storage.ts, lines 266 to 283 and 2133 to
    2188). *)
From S2P Require Import Prelude Model Paging Prog Slots Sdk Tenant RunRetention Schema Events StartHook.
From S2P Require Import CreateRun CreateStep CreateHook Create StorageRel StorageInv Demo LogProps HookProps AdmissionProps.
Local Open Scope Z_scope.

(** A run created after an event of it was written cannot append any more:
    the event, inserted while the run had no slot marker, has a ULID id that
    sorts behind every slot, and the next slot is computed by casting the
    greatest id's body to a number, which fails. The reader of the snapshot
    leaves such ids out; the writer does not. *)
Theorem early_event_wedges_run `{WorldSdkLaws} v m d u :
  max_id (ev_id <$> run_events (vl_tenant v) (vl_run v) d) = Some ("wevt_" +:+ ulidOf u) ->
  vl_id v = IdNextSlot -> m_collide m = [] ->
  exec (insertEventRow None v) m d = (Err BadSql, m, d).
Proof.
  intros Hmax Hid Hm. unfold insertEventRow. cbn [bind with_createdAt mbind option_bind].
  unfold SLOT_INSERT_MAX_ATTEMPTS. cbn [insert_attempts]. rewrite Hid. cbn [allocates_slot].
  rewrite run_bind, run_collision, Hm. cbn [head tail from_option]. rewrite run_bind, run_sql.
  unfold exec_stmt, insert_event. change (id false) with false. cbv iota. rewrite Hid.
  unfold nextSlotId. rewrite Hmax, sdk_legacy_number. cbn [mbind option_bind]. unfold collided.
  destruct m; simpl in Hm; subst; done.
Qed.

(** A step created on a run that is created only then. *)
Definition early_step : P event_result :=
  demo_create "t1" "wrun_1" (StepCreated demo_step) (Some "step_1") ;;;
  demo_create "t1" "wrun_1" (RunCreated demo_input) None.

Lemma early_event_wedges_run_witness :
  let '(res, _, d) := exec early_step (empty_mem 1000) (empty_db 1000) in
  is_ok res = true /\ exec (insertEventRow None demo_event) demo_mem d = (Err BadSql, demo_mem, d).
Proof.
  destruct (exec early_step (empty_mem 1000) (empty_db 1000)) as [[res m] d] eqn:E.
  assert (H1 : is_ok (exec early_step (empty_mem 1000) (empty_db 1000)).1.1 = true) by (vm_compute; reflexivity).
  assert (H2 : max_id (ev_id <$> run_events "t1" "wrun_1" (exec early_step (empty_mem 1000) (empty_db 1000)).2) =
    Some ("wevt_" +:+ ulidOf 0)) by (vm_compute; reflexivity).
  rewrite E in H1, H2. split; [exact H1|].
  exact (early_event_wedges_run demo_event demo_mem d 0 H2 eq_refl eq_refl).
Defined.

(** A log with a step's creation, and no row of the step. *)
Definition orphaned_step : Db :=
  set_events demo_db (db_events demo_db ++
    [EventRow "t1" "wrun_1" "evnt_000000000005" (StepCreated demo_step) (Some "step_9") (Some 8) 1000]).

(** The lazy start of such a step means to go on past the duplicate creation
    event, and cannot: the caught unique violation has aborted the transaction,
    so every attempt to start the step fails and writes nothing. *)
Theorem caught_violation_aborts_start :
  let '(res, _, d') := exec (demo_create "t1" "wrun_1" (StepStarted (Some demo_step)) (Some "step_9")) demo_mem orphaned_step in
  res = Err TxAborted /\ d' = orphaned_step.
Proof. vm_compute. split; reflexivity. Qed.

(** A refusal answered to an in-band resilient start is not recorded. The
    refusal has to commit before it is thrown, and does so unfenced; inside the
    fence's transaction the throw rolls it back, so once the holder lets go of
    the token a redelivery of the refused start creates the run. *)
Lemma fenced_refusal_is_lost :
  let start := create_fenced (demo_storage "t1") (Some "wrun_3") (demo_request (RunStarted (Some hooked_input)) None) in
  (let '(res, _, d') := exec (start no_params) demo_mem (two_runs 8) in
   res = Err (HookConflict "token" "wrun_1") /\
   option_map ad_decision (db_admissions d' !! ("t1", "wrun_3")) = Some (Rejected (Some "wrun_1"))) /\
  (let '(res, _, d') := exec (start (in_band 1)) demo_mem (two_runs 8) in
   res = Err (HookConflict "token" "wrun_1") /\ d' = two_runs 8 /\
   let '(_, _, d1) := exec (demo_create "t1" "wrun_1" (HookDisposed None) (Some "hook_1")) demo_mem d' in
   let '(res2, _, d2) := exec (start (in_band 1)) demo_mem d1 in
   is_ok res2 = true /\ option_map run_status (get_run "t1" "wrun_3" d2) = Some RunStatus.running).
Proof. vm_compute. repeat split; reflexivity. Qed.
