(* ===== verification/DispatchProps.v ===== *)
(** What the dispatcher guarantees: no delivery ends without a trace, a run with
    an unresolved dead letter is left alone, a run is given up only after as many
    failures as configured, a tenant at its cap is skipped and no other, and a
    lease that cannot be renewed is given up in time
    (src/dispatcher/dispatcher.ts, runner.ts, lease.ts). *)
From S2P Require Import Prelude Model Bytes Slots Sdk Contract Timers Inflight Queue QueueProps Schema Dispatcher Reconciliation Transport Demo.
Local Open Scope Z_scope.

(** ** No delivery is lost *)

Section Handling.
Context `{WorldSdk} `{QueueSdk}.

(** What the answers say the message's delivery came to, before it is decided
    what to make of it. *)
Definition routed (m : message) (a : answers) : result unit affinity :=
  match given (readRunId m) with
  | None => Ok (resolveAffinity m None)
  | Some _ => match an_run a with Ok found => Ok (resolveAffinity m found) | Err _ => Err tt end
  end.

Definition delivered_to (m : message) (a : answers) (r : vqs_result) : Prop :=
  exists deploymentId runId act, routed m a = Ok (ToDeployment deploymentId runId) /\
    an_activation a deploymentId = Ok (Activated act) /\ an_result a act = Ok r.

Definition final_attempt (attempts maxAttempts : option Z) : Prop :=
  exists n k, attempts = Some n /\ maxAttempts = Some k /\ k <= n.

Lemma dispatch_routed c now i a l :
  dispatchMessage c now i a l =
  match routed (di_message i) a with
  | Err _ => (Err tt, None, l)
  | Ok (ToDeployment deploymentId runId) =>
      match an_activation a deploymentId with
      | Err _ => (Err tt, None, l)
      | Ok (NotActivatable _ text) => (Ok (OutDeadLetter (DeploymentNotActivatable deploymentId text)), None, l)
      | Ok (Unavailable status text) => (Ok (OutRetry (ActivationFailed status text)), None, l)
      | Ok (Activated act) =>
          match an_result a act with
          | Err _ => (Err tt, None, l)
          | Ok r => settle_result c now i runId (an_reenqueued a) r l
          end
      end
  | Ok _ => (Ok OutCompleted, None, l)
  end.
Proof.
  unfold dispatchMessage, routed. destruct (given (readRunId (di_message i))); [destruct (an_run a) as [found|]; [|done]|].
  all: by destruct (resolveAffinity _ _).
Qed.

(** What the executor's answer comes to. *)
Lemma settle_outcomes c now i runId re r l :
  let '(o, added, _) := settle_result c now i runId re r l in
  match o with
  | Ok OutCompleted => r = VqsCompleted /\ added = None
  | Ok (OutRescheduled t) => r = VqsReschedule t /\ added =
      Some (addDelayedDelivery now (di_jobName i) (continuationOf (di_message i) (Delivery (di_attempt i) (di_deliveryCount i)) t
        (readBody (di_message i))) t (default (md_messageId (di_message i)) (md_idempotencyKey (di_message i))))
  | _ => added = None
  end.
Proof.
  unfold settle_result. destruct r as [|t|status text retryable]; [done| |].
  - by destruct re.
  - destruct retryable; [|done]. destruct (failure_key _ _) as [k|]; [|done].
    destruct (500 <=? status); [|done]. destruct (tracker_record c now k l) as [report l']. by destruct (sr_exhausted report).
Qed.

(** The delivery was left to another of its key: one that had completed, as far as
    the process remembers, or one in flight, which has ended. *)
Definition left_to_its_key (m : message) (joined : result unit unit) (d : dedup) : Prop :=
  exists key, md_idempotencyKey m = Some key /\
    (key ∈ dd_completed d \/ key ∈ dd_inflight d /\ joined = Ok tt).

(** What a handled job leaves of its delivery. A job that throws has not made its
    last attempt, unless its dead letter could not be written. *)
Definition accounted (now : instant) (jobName : string) (attempts maxAttempts : option Z) (m : message)
    (joined : result unit unit) (a : answers) (d : dedup) (h : handled) : Prop :=
  match hd_throws h, hd_deadLetter h with
  | true, dead => dead = None /\ hd_added h = None /\ (final_attempt attempts maxAttempts -> an_recorded a = false)
  | false, Some (m', _) => m' = m /\ hd_added h = None /\ an_recorded a = true
  | false, None =>
      (hd_added h = None /\ (delivered_to m a VqsCompleted \/ routed m a = Ok UnroutableTerminal \/
         routed m a = Ok UnroutableQuarantined \/ left_to_its_key m joined d)) \/
      (exists t, delivered_to m a (VqsReschedule t) /\
         hd_added h = Some (addDelayedDelivery now jobName (continuationOf m (deliveryAccounting m attempts) t (readBody m)) t
           (default (md_messageId m) (md_idempotencyKey m))))
  end.

Lemma letter_accounted now jobName attempts maxAttempts m joined a d r l :
  accounted now jobName attempts maxAttempts m joined a d
    (if an_recorded a then Handled false (Some (m, r)) None l else Handled true None None l).
Proof. destruct (an_recorded a) eqn:E; [done|]. by split_and!. Qed.

Lemma retry_accounted now jobName attempts maxAttempts m joined a d r l :
  accounted now jobName attempts maxAttempts m joined a d
    (conclude (readIsFinalAttempt attempts maxAttempts) (an_recorded a) m (OutRetry r) None l).
Proof.
  cbn [conclude]. destruct (readIsFinalAttempt attempts maxAttempts) eqn:Ef; [apply letter_accounted|].
  split_and!; [done|done|]. intros (n & k & -> & -> & Hk). apply Z.leb_gt in Ef. lia.
Qed.

Lemma handle_accounted c now jobName attempts maxAttempts m joined a d l :
  accounted now jobName attempts maxAttempts m joined a d (handle c now jobName attempts maxAttempts m a l).
Proof.
  unfold handle. rewrite dispatch_routed. cbn [di_message]. destruct (routed m a) as [[dep run| |]|] eqn:Er.
  - destruct (an_activation a dep) as [[act|status text|status text]|] eqn:Ea.
    + destruct (an_result a act) as [v|] eqn:Ev; [|apply retry_accounted].
      pose proof (settle_outcomes c now (DispatchInput m jobName (dl_attempt (deliveryAccounting m attempts))
        (dl_count (deliveryAccounting m attempts))) run (an_reenqueued a) v l) as Hs.
      destruct (settle_result _ _ _ _ _ _ _) as [[o added] l']. cbn [di_message di_jobName di_attempt di_deliveryCount] in Hs.
      assert (Hd : delivered_to m a v) by (by exists dep, run, act).
      destruct o as [[|t|r|r]|].
      * destruct Hs as [-> ->]. left. split; [done|by left].
      * destruct Hs as [-> ->]. right. exists t. split; [done|]. by destruct (deliveryAccounting m attempts).
      * rewrite Hs. apply letter_accounted.
      * rewrite Hs. apply retry_accounted.
      * rewrite Hs. apply retry_accounted.
    + apply letter_accounted.
    + apply retry_accounted.
    + apply retry_accounted.
  - left. split; [done|]. right. by left.
  - left. split; [done|]. right. right. by left.
  - apply retry_accounted.
Qed.


(** A run behind an unresolved dead letter ends every delivery at once. *)
Lemma quarantined_handled c now jobName attempts maxAttempts m a l runId run d :
  readRunId m = Some runId -> runId <> "" -> get_run (md_tenantId m) runId d = Some run ->
  existsb (unresolved_letter (md_tenantId m) runId) (db_deadLetters d) = true ->
  an_run a = Ok (run_lookup (md_tenantId m) runId d) ->
  handle c now jobName attempts maxAttempts m a l = Handled false None None l.
Proof.
  intros Hm Hne Hr Hq Ha. unfold handle. rewrite dispatch_routed. cbn [di_message]. unfold routed.
  rewrite Hm, (given_nonempty _ Hne), Ha. unfold run_lookup. rewrite Hr.
  cbn [fmap option_fmap option_map]. unfold resolveAffinity. rewrite Hm, (given_nonempty _ Hne). cbn [rf_status rf_quarantined].
  unfold unresolved_letter in Hq. rewrite Hq. by destruct (run_status run).
Qed.

(** A dead letter parks its run: once one is recorded of a message of a run
    that goes on, every later delivery of the run ends at once, whatever the
    control plane or an executor would have answered: nothing is activated,
    sent, enqueued or recorded, and no streak changes. *)
Theorem dead_letter_parks_run c now jobName attempts maxAttempts m m' a l runId run d :
  readRunId m = Some runId -> runId <> "" -> readRunId m' = Some runId -> md_tenantId m' = md_tenantId m ->
  get_run (md_tenantId m) runId d = Some run ->
  an_run a = Ok (run_lookup (md_tenantId m') runId (onDeadLetter m d)) ->
  handle c now jobName attempts maxAttempts m' a l = Handled false None None l.
Proof.
  intros Hm Hne Hm' Ht Hr Ha. apply (quarantined_handled _ _ _ _ _ m' a l runId run (onDeadLetter m d)); [done|done|by rewrite Ht| |exact Ha].
  unfold onDeadLetter. cbn [db_deadLetters set_deadLetters]. rewrite existsb_app, Hm. cbn [existsb].
  unfold unresolved_letter. cbn [dl_tenant dl_run dl_resolvedAt].
  by rewrite Ht, String.eqb_refl, !bool_decide_eq_true_2, orb_true_r.
Qed.
End Handling.

Definition parked_run : run_row :=
  RunRow "t" "r" "dep" "flow" RunStatus.running None None None None None None None None ∅ 0 0 None None "default" "r"
    None None None None.
Definition parked_db : Db := set_runs (empty_db 0) {[("t", "r") := parked_run]}.
Definition parked_answers : answers :=
  Answers (Ok (run_lookup "t" "r" (onDeadLetter (demo_message 8) parked_db)))
    (fun _ => Ok (Activated (Activation "lease" (Some 3000) None))) (fun _ => Ok VqsCompleted) true true.

Lemma dead_letter_parks_run_witness :
  handle (TrackerConfig 5 60000 10000) 0 FLOW_JOB_NAME (Some 1) (Some 49) (demo_message 8) parked_answers [] =
    Handled false None None [].
Proof.
  apply (dead_letter_parks_run (TrackerConfig 5 60000 10000) 0 FLOW_JOB_NAME (Some 1) (Some 49) (demo_message 8) (demo_message 8)
    parked_answers [] "r" parked_run parked_db); vm_compute; congruence.
Defined.

(** ** Streaks *)

Inductive tracker_op := Failed (at_ : instant) (key : string) | Cleared (key : string).

Definition tracker_step (c : tracker_config) (l : streaks) (op : tracker_op) : streaks :=
  match op with
  | Failed at_ key => (tracker_record c at_ key l).2
  | Cleared key => tracker_reset key l
  end.

(** The times of a run's failures since it was last cleared. *)
Definition failures_step (key : string) (l : list instant) (op : tracker_op) : list instant :=
  match op with
  | Failed at_ k => if String.eqb k key then l ++ [at_] else l
  | Cleared k => if String.eqb k key then [] else l
  end.
Definition failures_of (key : string) (ops : list tracker_op) : list instant := fold_left (failures_step key) ops [].

(** A streak stands for the last of a run's failures. *)
Definition stands_for (s : streak) (times : list instant) : Prop :=
  exists before f, times = before ++ f /\ Z.of_nat (length f) = sk_count s /\ head f = Some (sk_firstAt s).

Lemma streak_drop key k l : streak_of key (drop_streak k l) = if String.eqb k key then None else streak_of key l.
Proof.
  unfold drop_streak. induction l as [|[k' s] l IH]; [by destruct (String.eqb k key)|].
  rewrite filter_cons. cbn [fst]. destruct (decide (k' <> k)) as [Hne|Heq]; cbn [streak_of].
  - destruct (String.eqb k' key) eqn:E1; [|exact IH]. bools. subst. by rewrite (proj2 (String.eqb_neq k key) (not_eq_sym Hne)).
  - assert (k' = k) as -> by (destruct (String.eqb_spec k' k); [done|by destruct Heq]).
    rewrite IH. by destruct (String.eqb k key).
Qed.

Lemma streak_app key l k s : streak_of key (l ++ [(k, s)]) =
  match streak_of key l with Some x => Some x | None => if String.eqb k key then Some s else None end.
Proof. induction l as [|[k' s'] l IH]; [done|]. cbn. by destruct (String.eqb k' key). Qed.

Lemma streak_tail key l s : NoDup l.*1 -> streak_of key (tail l) = Some s -> streak_of key l = Some s.
Proof.
  destruct l as [|[k x] l]; [done|]. cbn [tail fmap list_fmap streak_of]. intros [Hn _]%NoDup_cons Hs.
  destruct (String.eqb_spec k key) as [->|]; [|done]. destruct Hn. clear -Hs. induction l as [|[k y] l IH]; [done|].
  cbn in Hs |- *. destruct (String.eqb_spec k key) as [->|]; [by left|right; by apply IH].
Qed.

Lemma drop_nodup k l : NoDup l.*1 -> NoDup (drop_streak k l).*1 /\ k ∉ (drop_streak k l).*1.
Proof.
  intros Hn. split.
  - induction l as [|[k' s] l IH]; [constructor|]. cbn in Hn. apply NoDup_cons in Hn as [Hk Hn].
    unfold drop_streak in *. rewrite filter_cons. destruct (decide _); [|by apply IH]. cbn. constructor; [|by apply IH].
    intros (p & -> & [_ Hp]%list_elem_of_filter)%list_elem_of_fmap. apply Hk. apply list_elem_of_fmap. eauto.
  - intros (p & -> & [Hp _]%list_elem_of_filter)%list_elem_of_fmap. done.
Qed.

Lemma tracker_record_nodup c at_ key l : NoDup l.*1 -> NoDup (tracker_record c at_ key l).2.*1.
Proof.
  intros Hn. destruct (drop_nodup key l Hn) as [H1 H2]. unfold tracker_record. cbn [snd].
  set (s := match streak_of key l with Some _ => _ | None => _ end).
  assert (Hl : NoDup (drop_streak key l ++ [(key, s)]).*1).
  { rewrite fmap_app. apply NoDup_app. split; [done|]. split; [|apply NoDup_singleton].
    intros x Hx Hy. cbn in Hy. apply list_elem_of_singleton in Hy as ->. done. }
  destruct (_ <? _)%nat; [|done]. destruct (drop_streak key l ++ [(key, s)]) as [|[k x] r]; [constructor|].
  cbn in Hl |- *. by apply NoDup_cons in Hl as [_ Hl].
Qed.

Definition tracker_ok (l : streaks) (ops : list tracker_op) : Prop :=
  NoDup l.*1 /\ forall key s, streak_of key l = Some s -> stands_for s (failures_of key ops).

(** The streak that a failure advances stands for it and the failures before. *)
Lemma advanced_stands at_ key l ops : tracker_ok l ops ->
  stands_for match streak_of key l with Some p => Streak (sk_count p + 1) (sk_firstAt p) | None => Streak 1 at_ end
    (failures_of key ops ++ [at_]).
Proof.
  intros [_ Hok]. destruct (streak_of key l) as [p|] eqn:E.
  - destruct (Hok key p E) as (b & f & Ef & Hl & Hh). exists b, (f ++ [at_]). rewrite Ef, <- app_assoc. split; [done|].
    rewrite length_app. cbn [length sk_count sk_firstAt]. split; [lia|]. destruct f; [done|]. exact Hh.
  - by exists (failures_of key ops), [at_].
Qed.

Lemma tracker_step_ok c l ops op : tracker_ok l ops -> tracker_ok (tracker_step c l op) (ops ++ [op]).
Proof.
  intros Hok. assert (Hsnoc : forall key, failures_of key (ops ++ [op]) = failures_step key (failures_of key ops) op).
  { intros key. unfold failures_of. by rewrite fold_left_app. }
  destruct op as [at_ k|k]; cbn [tracker_step].
  - split; [apply tracker_record_nodup, Hok|]. intros key s Hs. rewrite Hsnoc. cbn [failures_step].
    pose proof (advanced_stands at_ k l ops Hok) as Ha.
    unfold tracker_record in Hs. cbn [snd] in Hs.
    set (s0 := match streak_of k l with Some _ => _ | None => _ end) in *.
    assert (Hn : NoDup (drop_streak k l ++ [(k, s0)]).*1).
    { destruct (drop_nodup k l (proj1 Hok)) as [H1 H2]. rewrite fmap_app. apply NoDup_app. split; [done|].
      split; [|apply NoDup_singleton]. intros x Hx Hy. cbn in Hy. by apply list_elem_of_singleton in Hy as ->. }
    assert (Hs2 : streak_of key (drop_streak k l ++ [(k, s0)]) = Some s).
    { destruct (_ <? _)%nat; [by apply streak_tail|done]. }
    rewrite streak_app, streak_drop in Hs2. destruct (String.eqb_spec k key) as [->|Hne].
    + injection Hs2 as <-. exact Ha.
    + destruct (streak_of key l) as [x|] eqn:Ex; [|done]. injection Hs2 as <-. by apply Hok.
  - split; [apply drop_nodup, Hok|]. intros key s Hs. rewrite Hsnoc. cbn [failures_step].
    unfold tracker_reset in Hs. rewrite streak_drop in Hs. destruct (String.eqb k key); [done|]. by apply Hok.
Qed.

Lemma tracker_run_ok c ops : tracker_ok (fold_left (tracker_step c) ops []) ops.
Proof.
  induction ops as [|op ops IH] using rev_ind.
  - split; [constructor|done].
  - rewrite fold_left_app. cbn [fold_left]. by apply tracker_step_ok.
Qed.

(** A run is given up only for failing again and again: when a failure
    exhausts its streak, the run has failed at least as often as the limit says
    since it was last cleared, and over at least the least span, whatever other
    runs did and whichever streaks were forgotten meanwhile; and never more
    runs are tracked than allowed. *)
Theorem exhausted_means_failing c ops at_ key :
  (sr_exhausted (tracker_record c at_ key (fold_left (tracker_step c) ops [])).1 = true ->
   exists before f first, failures_of key ops ++ [at_] = before ++ f /\ head f = Some first /\
     tc_limit c <= Z.of_nat (length f) /\ tc_minSpanMs c <= Z.max 0 (at_ - first)) /\
  (length (fold_left (tracker_step c) ops []) <= tc_trackedRuns c)%nat.
Proof.
  split.
  - intros He. pose proof (advanced_stands at_ key _ ops (tracker_run_ok c ops)) as (b & f & Ef & Hl & Hh).
    unfold tracker_record in He. cbn [fst sr_exhausted] in He. bools. eexists b, f, _. split_and!; [exact Ef|exact Hh| |done]. by rewrite Hl.
  - induction ops as [|op ops IH] using rev_ind; [simpl; lia|]. rewrite fold_left_app. cbn [fold_left].
    set (l := fold_left (tracker_step c) ops []) in *. assert (Hd : forall k, (length (drop_streak k l) <= length l)%nat) by (intros; apply length_filter).
    destruct op as [t k|k]; cbn [tracker_step]; [|unfold tracker_reset; specialize (Hd k); lia].
    unfold tracker_record. cbn [snd]. specialize (Hd k).
    destruct (Nat.ltb_spec (tc_trackedRuns c) (length (drop_streak k l ++ [(k, match streak_of k l with
      | Some p => Streak (sk_count p + 1) (sk_firstAt p) | None => Streak 1 t end)]))) as [Hlt|Hge]; [|exact Hge].
    rewrite length_app in Hlt. cbn [length] in Hlt.
    assert (Ht : forall (x : streaks), length (tail x) = (length x - 1)%nat) by (intros [|? x]; simpl; lia).
    rewrite Ht, length_app. cbn [length]. lia.
Qed.

Lemma exhausted_means_failing_witness :
  let c := TrackerConfig 2 100 10 in
  let ops := [Failed 0 "t:r"; Failed 1 "t:q"; Cleared "t:q"] in
  sr_exhausted (tracker_record c 150 "t:r" (fold_left (tracker_step c) ops [])).1 = true /\
  exists before f first, failures_of "t:r" ops ++ [150] = before ++ f /\ head f = Some first /\
    2 <= Z.of_nat (length f) /\ 100 <= Z.max 0 (150 - first).
Proof.
  split; [vm_compute; reflexivity|].
  exact (proj1 (exhausted_means_failing (TrackerConfig 2 100 10) [Failed 0 "t:r"; Failed 1 "t:q"; Cleared "t:q"] 150 "t:r")
    ltac:(vm_compute; reflexivity)).
Defined.

(** ** Fairness *)

Inductive fair_op := Acquired (tenantId : string) (l : lane) | Released (tenantId : string) (l : lane).

Definition fair_step (f : fairness) (op : fair_op) : fairness :=
  match op with Acquired t l => acquire t l f | Released t l => release t l f end.

(** The deliveries of a tenant in a lane that have begun and not ended. *)
Definition in_flight_step (tenantId : string) (l : lane) (n : Z) (op : fair_op) : Z :=
  match op with
  | Acquired t k => if bool_decide (t = tenantId /\ k = l) then n + 1 else n
  | Released t k => if bool_decide (t = tenantId /\ k = l) then n - 1 else n
  end.
Definition in_flight (tenantId : string) (l : lane) (ops : list fair_op) : Z := fold_left (in_flight_step tenantId l) ops 0.

(** Only what was acquired is released. *)
Definition balanced (ops : list fair_op) : Prop :=
  forall before t l after, ops = before ++ Released t l :: after -> 1 <= in_flight t l before.

Definition fair_ok (f : fairness) (ops : list fair_op) : Prop :=
  forall t l, lane_counts l f !! t = if in_flight t l ops =? 0 then None else Some (in_flight t l ops).

Lemma lane_set l k m f : lane_counts k (set_lane l m f) = if bool_decide (k = l) then m else lane_counts k f.
Proof. by destruct l, k. Qed.

Lemma in_flight_snoc t l ops op : in_flight t l (ops ++ [op]) = in_flight_step t l (in_flight t l ops) op.
Proof. unfold in_flight. by rewrite fold_left_app. Qed.

Lemma balanced_snoc ops op : balanced (ops ++ [op]) -> balanced ops.
Proof. intros Hb before t l after ->. apply (Hb before t l (after ++ [op])). by rewrite <- app_assoc. Qed.

Lemma in_flight_nonneg ops : balanced ops -> forall t l, 0 <= in_flight t l ops.
Proof.
  induction ops as [|op ops IH] using rev_ind; intros Hb t l; [done|]. specialize (IH (balanced_snoc _ _ Hb)).
  rewrite in_flight_snoc. specialize (IH t l) as Hi. destruct op as [t' l'|t' l']; cbn [in_flight_step]; case_bool_decide; try lia.
  destruct H as [-> ->]. specialize (Hb ops t l [] eq_refl). lia.
Qed.

Lemma fair_step_ok f ops op : fair_ok f ops -> balanced (ops ++ [op]) -> fair_ok (fair_step f op) (ops ++ [op]).
Proof.
  intros Hok Hb t l. pose proof (in_flight_nonneg ops (balanced_snoc _ _ Hb)) as Hnn. rewrite in_flight_snoc.
  destruct op as [t' l'|t' l']; cbn [fair_step in_flight_step]; unfold acquire, release; rewrite lane_set.
  - rewrite (Hok t' l'). destruct (bool_decide_reflect (t' = t /\ l' = l)) as [[-> ->]|Hne].
    + rewrite bool_decide_eq_true_2 by done. rewrite lookup_insert_eq. specialize (Hnn t l).
      destruct (Z.eqb_spec (in_flight t l ops) 0) as [E|E]; cbn [default from_option id].
      * rewrite E. done.
      * destruct (Z.eqb_spec (in_flight t l ops + 1) 0); [lia|done].
    + case_bool_decide as Hl; [|apply Hok]. subst l'. rewrite lookup_insert_ne; [apply Hok|]. intros ->. by apply Hne.
  - pose proof (Hb ops t' l' [] eq_refl) as Hpos. rewrite (Hok t' l'). destruct (Z.eqb_spec (in_flight t' l' ops) 0); [lia|].
    cbn [default from_option id]. destruct (bool_decide_reflect (t' = t /\ l' = l)) as [[-> ->]|Hne].
    + rewrite bool_decide_eq_true_2 by done. destruct (Z.leb_spec (in_flight t l ops - 1) 0) as [Hle|Hgt].
      * rewrite lookup_delete_eq. destruct (Z.eqb_spec (in_flight t l ops - 1) 0); [done|lia].
      * rewrite lookup_insert_eq. destruct (Z.eqb_spec (in_flight t l ops - 1) 0); [lia|done].
    + case_bool_decide as Hl; [|apply Hok]. subst l'. assert (t' <> t) by (intros ->; by apply Hne).
      destruct (_ <=? 0); [rewrite lookup_delete_ne by done|rewrite lookup_insert_ne by done]; apply Hok.
Qed.

Lemma fair_run_ok ops : balanced ops -> fair_ok (fold_left fair_step ops (Fairness ∅ ∅)) ops.
Proof.
  induction ops as [|op ops IH] using rev_ind; intros Hb.
  - intros t []; cbn; apply lookup_empty.
  - rewrite fold_left_app. cbn [fold_left]. apply fair_step_ok; [apply IH; by eapply balanced_snoc|done].
Qed.

Lemma flag_of_inj l k t u : flag_of l t = flag_of k u -> l = k /\ t = u.
Proof.
  destruct l, k; cbn; unfold tenantFlag, wakeFlag; intros E; try discriminate E; split; try done; by apply string_app_inj_l in E.
Qed.

(** A claim skips exactly the tenants at their cap: after any history in which
    only what was acquired is released, a tenant's flag is forbidden if and only
    if as many of its deliveries are in flight as the cap says, and its wakes
    are counted apart. *)
Theorem cap_forbids_exactly ops cap t l : balanced ops -> 1 <= cap ->
  (flag_of l t ∈ forbiddenFlags cap (fold_left fair_step ops (Fairness ∅ ∅)) <-> cap <= in_flight t l ops).
Proof.
  intros Hb Hc. pose proof (fair_run_ok ops Hb) as Hok. set (f := fold_left fair_step ops (Fairness ∅ ∅)) in *.
  assert (Hin : flag_of l t ∈ forbiddenFlags cap f <-> exists n, lane_counts l f !! t = Some n /\ cap <= n).
  { assert (Hlane : forall k, flag_of l t ∈ forbidden_in cap k f <-> k = l /\ exists n, lane_counts l f !! t = Some n /\ cap <= n).
    { intros k. unfold forbidden_in. rewrite list_elem_of_fmap. split.
      - intros ([u n] & E & [Hn Hm]%list_elem_of_filter). cbn in E, Hn. apply flag_of_inj in E as [<- <-].
        apply elem_of_map_to_list in Hm. split; [done|]. by exists n.
      - intros [-> (n & Hm & Hn)]. exists (t, n). split; [done|]. apply list_elem_of_filter. split; [done|].
        by apply elem_of_map_to_list. }
    unfold forbiddenFlags. rewrite elem_of_app, !Hlane. split; [tauto|]. intros Hn. destruct l; tauto. }
  rewrite Hin, Hok. destruct (Z.eqb_spec (in_flight t l ops) 0) as [E|E].
  - rewrite E. split; [by intros (n & ? & _)|lia].
  - split; [by intros (n & [= ->] & ?)|]. intros Hle. by exists (in_flight t l ops).
Qed.

Lemma cap_forbids_exactly_witness :
  flag_of LaneDelivery "t" ∈ forbiddenFlags 2 (fold_left fair_step
    [Acquired "t" LaneDelivery; Acquired "u" LaneDelivery; Acquired "t" LaneDelivery; Released "u" LaneDelivery] (Fairness ∅ ∅)).
Proof.
  apply (cap_forbids_exactly [Acquired "t" LaneDelivery; Acquired "u" LaneDelivery; Acquired "t" LaneDelivery; Released "u" LaneDelivery]
    2 "t" LaneDelivery); [|lia|vm_compute; congruence].
  intros [|a [|b [|c [|e before]]]] t l after E; cbn in E; simplify_eq; [vm_compute; congruence|].
    by destruct before.
Defined.

(** ** The lease *)

(** The failures a lease's renewals end in. *)
Fixpoint trailing_failures (answers : list bool) : Z :=
  match answers with [] => 0 | a :: answers => if a then 0 else trailing_failures answers + 1 end.

Lemma lease_run_snoc allowed answers a : lease_run allowed (answers ++ [a]) = lease_answer allowed a (lease_run allowed answers).
Proof. unfold lease_run. by rewrite fold_left_app. Qed.

Lemma lease_failures allowed answers : ls_failures (lease_run allowed answers) = trailing_failures (rev answers).
Proof.
  induction answers as [|a answers IH] using rev_ind; [done|]. rewrite lease_run_snoc, rev_app_distr. cbn [rev app trailing_failures].
  destruct a; cbn [lease_answer ls_failures]; [done|]. by rewrite IH.
Qed.

Lemma lease_not_aborted allowed answers : 0 <= allowed -> ls_aborted (lease_run allowed answers) = false ->
  ls_failures (lease_run allowed answers) <= allowed.
Proof.
  intros Ha. induction answers as [|a answers IH] using rev_ind; [done|]. rewrite lease_run_snoc.
  destruct a; cbn [lease_answer ls_aborted ls_failures]; [done|]. intros [_ Hlt]%orb_false_iff. apply Z.ltb_ge in Hlt. done.
Qed.

(** The dispatch is aborted at one failure too many in a row, and never before. *)
Lemma aborted_at_one_too_many allowed answers : 0 <= allowed ->
  (ls_aborted (lease_run allowed answers) = true <->
   exists before after, answers = before ++ after /\ trailing_failures (rev before) = allowed + 1).
Proof.
  intros Ha. induction answers as [|a answers IH] using rev_ind.
  { split; [done|]. intros ([|b before] & after & E & Hb); [change (0 = allowed + 1) in Hb; lia|discriminate E]. }
  rewrite lease_run_snoc. pose proof (lease_failures allowed answers) as Hf.
  assert (Hsplit : (exists before after, answers ++ [a] = before ++ after /\ trailing_failures (rev before) = allowed + 1) <->
    (exists before after, answers = before ++ after /\ trailing_failures (rev before) = allowed + 1) \/
    trailing_failures (rev (answers ++ [a])) = allowed + 1).
  { split.
    - intros (b & c & E & Hb). destruct c as [|x c _] using rev_ind.
      + right. rewrite app_nil_r in E. by rewrite E.
      + left. rewrite app_assoc in E. apply app_inj_tail in E as [-> ->]. by exists b, c.
    - intros [(b & c & -> & Hb)|Hb]; [exists b, (c ++ [a]); by rewrite app_assoc|]. exists (answers ++ [a]), []. by rewrite app_nil_r. }
  rewrite Hsplit, <- IH, rev_app_distr. cbn [rev app trailing_failures]. rewrite <- Hf. destruct a; cbn [lease_answer ls_aborted].
  - split; [by left|]. intros [?|?]; [done|lia].
  - rewrite orb_true_iff, Z.ltb_lt. split; [|intros [?|?]; [by left|right; lia]].
    intros [?|Hlt]; [by left|]. destruct (ls_aborted (lease_run allowed answers)) eqn:Eab; [by left|].
    right. pose proof (lease_not_aborted allowed answers Ha Eab). lia.
Qed.

(** The answers of a trace, in the order they arrived. *)
Definition answers_of (l : list lease_event) : list bool :=
  omap (fun e => match e with RenewalAnswered _ renewed => Some renewed | _ => None end) l.

Section Lease.
Context (ttl interval allowed : Z) (within : option Z).
Local Notation trace := (lease_trace ttl interval allowed within).

Lemma lease_trace_snoc l e s : trace (l ++ [e]) s = s' ← trace l s; lease_step ttl interval allowed within e s'.
Proof.
  revert s. induction l as [|x l IH]; intros s; cbn.
  - by destruct (lease_step _ _ _ _ e s).
  - destruct (lease_step _ _ _ _ x s); [|done]. cbn. apply IH.
Qed.

(** The counts are those of the answers alone. *)
Lemma lease_trace_state l s : trace l (lease_begun ttl interval) = Some s ->
  lh_state s = lease_run allowed (answers_of l).
Proof.
  revert s. induction l as [|e l IH] using rev_ind; intros s; [by intros [= <-]|].
  rewrite lease_trace_snoc. destruct (trace l _) as [s1|]; [|done]. specialize (IH s1 eq_refl). cbn. intros Hs.
  unfold answers_of in *. rewrite omap_app. cbn. destruct e as [ms| |i renewed]; cbn in Hs |- *.
  - rewrite app_nil_r. destruct (_ && _); [|done]. by injection Hs as <-.
  - rewrite app_nil_r. destruct (_ =? _); [|done]. by injection Hs as <-.
  - destruct (lh_pending s1 !! i); [|done]. injection Hs as <-. cbn. rewrite lease_run_snoc. by rewrite IH.
Qed.

Context (D : Z) (Hwithin : within = Some D) (HD : 0 <= D < interval).

(** With every renewal answered before the next is due, one at most is pending; and
    the timer is as many intervals past the last renewal that went well as there
    were failures since. *)
Lemma lease_trace_paced l s : trace l (lease_begun ttl interval) = Some s ->
  exists renewedAt, lh_expires s = renewedAt + ttl /\ lh_now s <= lh_due s /\
    lh_due s = renewedAt + (ls_failures (lh_state s) + Z.of_nat (length (lh_pending s)) + 1) * interval /\
    (lh_pending s = [] \/ lh_pending s = [lh_due s - interval] /\ lh_now s <= lh_due s - interval + D) /\
    0 <= ls_failures (lh_state s).
Proof.
  revert s. induction l as [|e l IH] using rev_ind; intros s.
  { intros [= <-]. exists 0. cbn. split_and!; try lia. by left. }
  rewrite lease_trace_snoc. destruct (trace l _) as [s1|]; [|done]. destruct (IH s1 eq_refl) as (t & He & Hn & Hd & Hp & Hf).
  cbn. destruct e as [ms| |i renewed]; cbn.
  - destruct (_ && _) eqn:E; [|done]. intros [= <-]. cbn. apply andb_true_iff in E as [[Hms Hle]%andb_true_iff Hall].
    apply Z.leb_le in Hms, Hle. exists t. split_and!; try done. destruct Hp as [->|[Hp Hnow]]; [by left|right; split; [done|]].
    rewrite Hp in Hall. unfold in_time in Hall. rewrite Hwithin in Hall. cbn in Hall. rewrite andb_true_r in Hall. by apply Z.leb_le in Hall.
  - destruct (Z.eqb_spec (lh_now s1) (lh_due s1)) as [En|]; [|done]. intros [= <-]. cbn.
    destruct Hp as [Hp|[_ Hnow]]; [|lia]. rewrite Hp in *. cbn in *. exists t. split_and!; try lia. right. split; [f_equal|]; lia.
  - destruct (lh_pending s1 !! i) as [sent|] eqn:Ei; [|done]. intros [= <-]. cbn.
    destruct Hp as [Hp|[Hp Hnow]]; rewrite Hp in *; [done|]. destruct i as [|i]; [|done]. injection Ei as <-. cbn in *.
    destruct renewed; cbn.
    + exists (lh_due s1 - interval). split_and!; try lia; [|by left]. nia.
    + exists t. split_and!; try lia. by left.
Qed.
End Lease.

(** C29 A dispatch is given up for its lease in time and not before: it is aborted
    if and only if some renewal was one failure too many in a row, whenever and in
    whatever order the answers arrive; and with room for two intervals in the time
    to live and every renewal answered before the next one is due, a dispatch that
    is not aborted is inside its lease, with what the slowest answer leaves of an
    interval to spare. *)
Theorem lease_given_up_in_time ttl interval within l s : 0 < interval ->
  let allowed := allowedFailures (Some ttl) interval in
  lease_trace ttl interval allowed within l (lease_begun ttl interval) = Some s ->
  (ls_aborted (lh_state s) = true <->
   exists before after, answers_of l = before ++ after /\ trailing_failures (rev before) = allowed + 1) /\
  (forall slowest, within = Some slowest -> 0 <= slowest < interval -> 2 * interval <= ttl ->
     ls_aborted (lh_state s) = false -> lh_now s + (interval - slowest) <= lh_expires s).
Proof.
  intros Hi allowed Hl. assert (Ha : 0 <= allowed) by (unfold allowed, allowedFailures; destruct (0 <? interval); lia).
  rewrite (lease_trace_state _ _ _ _ _ _ Hl). split; [by apply aborted_at_one_too_many|].
  intros D Hw HD Httl Hna%lease_not_aborted; [|done].
  destruct (lease_trace_paced ttl interval allowed within D Hw HD l s Hl) as (t & -> & Hn & Hd & Hp & Hf).
  rewrite (lease_trace_state _ _ _ _ _ _ Hl) in *. set (f := ls_failures (lease_run allowed (answers_of l))) in *.
  assert (Hq : 2 <= ttl / interval) by (apply Z.div_le_lower_bound; lia). pose proof (Z.mul_div_le ttl interval ltac:(lia)).
  unfold allowed, allowedFailures in Hna. destruct (Z.ltb_spec 0 interval); [|lia].
  destruct Hp as [Hp|[Hp Hnow]]; rewrite Hp in Hd; cbn in Hd; nia.
Qed.

(** Without a bound on the answers nothing gives a lease up: while renewals hang no
    failure is counted, and the dispatch goes on past the end of its lease. *)
Fixpoint hung (n : nat) (interval : Z) : list lease_event :=
  match n with O => [] | S n => TimePasses interval :: RenewalSent :: hung n interval end.

Lemma hung_renewals_never_abort ttl interval allowed n : 0 < interval -> forall now pending st expires,
  exists s, lease_trace ttl interval allowed None (hung n interval) (LeaseHold now (now + interval) pending st expires) = Some s /\
    lh_now s = now + Z.of_nat n * interval /\ lh_state s = st /\ lh_expires s = expires.
Proof.
  intros Hi. induction n as [|n IH]; intros now pending st expires.
  { eexists. split; [done|]. cbn. split; [lia|done]. }
  set (h := LeaseHold now (now + interval) pending st expires). set (h1 := LeaseHold (now + interval) (now + interval) pending st expires).
  assert (E1 : lease_step ttl interval allowed None (TimePasses interval) h = Some h1).
  { unfold lease_step, h. cbn [lh_now lh_due lh_pending lh_state lh_expires].
    rewrite (proj2 (Z.leb_le _ _)), (proj2 (Z.leb_le (now + interval) _)) by lia. cbn [andb].
    by rewrite (proj2 (forallb_forall _ _)). }
  assert (E2 : lease_step ttl interval allowed None RenewalSent h1 =
    Some (LeaseHold (now + interval) (now + interval + interval) (pending ++ [now + interval]) st expires)).
  { unfold lease_step, h1. cbn [lh_now lh_due lh_pending lh_state lh_expires]. by rewrite Z.eqb_refl. }
  cbn [hung lease_trace]. rewrite E1. cbn [mbind option_bind]. rewrite E2. cbn [mbind option_bind].
  destruct (IH (now + interval) (pending ++ [now + interval]) st expires) as (s & Hs & Hn & H1 & H2).
  exists s. split; [exact Hs|]. split; [rewrite Hn; lia|done].
Qed.

(** A renewal that went well, two that failed, and the third not due yet. *)
Definition demo_lease_events : list lease_event :=
  [TimePasses 60000; RenewalSent; TimePasses 100; RenewalAnswered 0 true; TimePasses 59900; RenewalSent;
   RenewalAnswered 0 false; TimePasses 60000; RenewalSent; TimePasses 5000].

Lemma lease_given_up_in_time_witness : exists s,
  lease_trace 180000 60000 1 (Some 5000) demo_lease_events (lease_begun 180000 60000) = Some s /\
  ls_aborted (lh_state s) = false /\ lh_now s + 55000 <= lh_expires s.
Proof.
  eexists. split; [vm_compute; reflexivity|]. split; [reflexivity|].
  refine (proj2 (lease_given_up_in_time 180000 60000 (Some 5000) demo_lease_events _ _ _) 5000 _ _ _ _);
    try reflexivity; try lia.
Defined.
