(* ===== verification/RetentionProps.v ===== *)
(** What the retention sweeps delete: nothing a lineage with a live or
    persistent run still needs, in any interleaving; no end of a stream, ever;
    and, run to their end, exactly the rows that had expired. *)
From S2P Require Import Prelude Model Bytes Prog Paging Slots Sdk Tenant RunRetention StreamBlocks Streamer Schema Retention.
From stdpp Require Import relations sorting.
Local Open Scope Z_scope.

(** ** Tables *)

Definition chunk_key (x : stream_row) : string * string * string := (sr_tenant x, sr_stream x, sr_id x).

Lemma same_row_key_iff a b : same_row_key a b = true <-> chunk_key a = chunk_key b.
Proof.
  unfold same_row_key, chunk_key. split.
  - intros H. bools. congruence.
  - intros [= -> -> ->]. by rewrite !String.eqb_refl.
Qed.

(** Rows are stored under their keys, and the chunks' key is unique. *)
Record store_wf (s : store) : Prop := {
  wf_chunks : NoDup (chunk_key <$> so_chunks s);
  wf_runs : forall k r, so_runs s !! k = Some r -> k = (run_tenant r, run_id r)
}.

Lemma key_inj (l : list stream_row) x y : NoDup (chunk_key <$> l) -> x ∈ l -> y ∈ l ->
  chunk_key x = chunk_key y -> x = y.
Proof.
  intros Hl Hx Hy E. apply list_elem_of_lookup in Hx as [i Hi], Hy as [j Hj].
  assert (i = j) as ->; [|congruence].
  eapply NoDup_lookup; [exact Hl|..]; rewrite list_lookup_fmap; [by rewrite Hi|rewrite Hj; simpl; by rewrite E].
Qed.

Lemma among_iff (table victims : list stream_row) x : NoDup (chunk_key <$> table) ->
  (forall v, v ∈ victims -> v ∈ table) -> x ∈ table -> among victims x = true <-> x ∈ victims.
Proof.
  intros Hn Hv Hx. unfold among. rewrite existsb_exists. split.
  - intros (y & Hy & Hk). apply list_elem_of_In in Hy. apply same_row_key_iff in Hk.
    by rewrite (key_inj table x y Hn Hx (Hv _ Hy) Hk).
  - intros H. exists x. split; [by apply list_elem_of_In|by apply same_row_key_iff].
Qed.

Lemma elem_stream_victims w b s x : x ∈ stream_victims w b s -> chunk_expired w s x = true /\ x ∈ so_chunks s.
Proof.
  unfold stream_victims. intros H. apply elem_of_take in H as (i & Hi & _).
  apply list_elem_of_lookup_2 in Hi. rewrite sort_with_perm in Hi. by apply list_elem_of_filter in Hi.
Qed.

Lemma filter_key_nodup {A B} (f : A -> B) (p : A -> Prop) `{!forall x, Decision (p x)} l :
  NoDup (f <$> l) -> NoDup (f <$> filter p l).
Proof.
  induction l as [|x l IH]; [done|]. rewrite fmap_cons, NoDup_cons, filter_cons. intros [Hx Hl].
  destruct (decide (p x)); [|auto]. rewrite fmap_cons, NoDup_cons. split; [|auto].
  intros Hin. apply list_elem_of_fmap in Hin as (y & E & Hy). apply Hx, list_elem_of_fmap. exists y. split; [done|].
  by apply list_elem_of_filter in Hy as [_ Hy].
Qed.

(** ** What shields a lineage *)

(** A run of the lineage is live, or classed persistent. *)
Definition shielded (t g : string) (s : store) : Prop :=
  exists k m, so_runs s !! k = Some m /\ same_lineage t g m = true /\
    (run_is_terminal (run_status m) = false \/ is_persistent m = true).

(** The conditions of every sweep take such a run for one that blocks. *)
Definition heeds_shield (w : window) : Prop := forall now m,
  run_is_terminal (run_status m) = false \/ is_persistent m = true -> w_blocking w now m = true.

Lemma deadline_heeds column : heeds_shield (deadline_window column).
Proof. intros now m [H|H]; simpl; rewrite H; [done|]. by rewrite orb_true_r. Qed.

Lemma age_heeds ms : heeds_shield (age_window ms).
Proof. intros now m [H|H]; simpl; rewrite H; [done|]. by rewrite orb_true_r. Qed.

Lemma shielded_blocked w t g s : heeds_shield w -> shielded t g s -> lineage_blocked w t g s = true.
Proof.
  intros Hw (k & m & Hm & Hl & Hs). unfold lineage_blocked. apply orb_true_iff. left.
  apply existsb_exists. exists m. split; [|by apply Hw]. apply list_elem_of_In. unfold lineage_runs.
  apply list_elem_of_filter. split; [done|]. apply elem_of_values. eauto.
Qed.

(** The run is one of the lineage's. *)
Definition lineage_member (t g : string) (s : store) (k : string * string) : Prop :=
  exists r, so_runs s !! k = Some r /\ same_lineage t g r = true.

Lemma shielded_not_expired w t g s k r : heeds_shield w -> shielded t g s ->
  so_runs s !! k = Some r -> same_lineage t g r = true -> expired w s r = false.
Proof.
  intros Hw Hs Hr Hl. unfold expired, same_lineage in *. bools. subst.
  rewrite (shielded_blocked w _ _ s Hw Hs). simpl. apply andb_false_r.
Qed.

Lemma shielded_owner w t g s tenant run : heeds_shield w -> shielded t g s ->
  lineage_member t g s (tenant, run) -> owner_expired w s tenant (Some run) = false.
Proof.
  intros Hw Hs (r & Hr & Hl). unfold owner_expired, owner_run. simpl. rewrite Hr.
  by eapply shielded_not_expired.
Qed.

(** ** The batches keep a shielded lineage whole *)

(** How the clients the sweeps run beside may change a row they keep: for each
    table, what a later version of a row may be. *)
Record row_changes := RowChanges {
  ch_run : run_row -> run_row -> Prop;
  ch_step : step_row -> step_row -> Prop;
  ch_hook : hook_row -> hook_row -> Prop;
  ch_wait : wait_row -> wait_row -> Prop;
  ch_slot : Z -> Z -> Prop
}.

(** A row may stay as it is, changes add up, and no change moves a row to another
    run or a run to another lineage. *)
Class lawful_changes (c : row_changes) : Prop := LawfulChanges {
  lc_run :: PreOrder (ch_run c);
  lc_step :: PreOrder (ch_step c);
  lc_hook :: PreOrder (ch_hook c);
  lc_wait :: PreOrder (ch_wait c);
  lc_slot :: PreOrder (ch_slot c);
  lc_lineage r r' : ch_run c r r' -> (run_tenant r', run_retentionRootRunId r') = (run_tenant r, run_retentionRootRunId r);
  lc_step_run x x' : ch_step c x x' -> (st_tenant x', st_run x') = (st_tenant x, st_run x);
  lc_hook_run x x' : ch_hook c x x' -> (hk_tenant x', hk_run x') = (hk_tenant x, hk_run x);
  lc_wait_run x x' : ch_wait c x x' -> (wt_tenant x', wt_run x') = (wt_tenant x, wt_run x)
}.

Lemma same_lineage_eq t g r r' :
  (run_tenant r', run_retentionRootRunId r') = (run_tenant r, run_retentionRootRunId r) ->
  same_lineage t g r' = same_lineage t g r.
Proof. unfold same_lineage. by intros [= -> ->]. Qed.

Section Shield.
Context (c : row_changes) `{!lawful_changes c} (t g : string).

(** The rows of table [f] that belong to the lineage's runs, by [belongs], are there
    still, as they were or as the clients may have made them. *)
Definition kept_rows {A} (belongs : A -> string * string) (may : A -> A -> Prop) (f : Db -> gmap (string * string) A)
    (s s' : store) : Prop :=
  forall i x, f (so_db s) !! i = Some x -> lineage_member t g s (belongs x) ->
    exists x', f (so_db s') !! i = Some x' /\ may x x'.

(** And those of a table whose rows no one changes. *)
Definition kept_entries {A} (belongs : A -> option (string * string)) (f : store -> list A) (s s' : store) : Prop :=
  forall x k, x ∈ f s -> belongs x = Some k -> lineage_member t g s k -> x ∈ f s'.

Definition of_run (tenant : string) (run : option string) : option (string * string) := (fun i => (tenant, i)) <$> run.

(** The lineage is whole: its runs and, of each of them, the stream chunks and
    checkpoints, the events, the slot count, the steps, the hooks, the waits, the
    admission of its start and the dead letters. *)
Record kept (s s' : store) : Prop := Kept {
  kept_runs k r : so_runs s !! k = Some r -> same_lineage t g r = true ->
    exists r', so_runs s' !! k = Some r' /\ ch_run c r r';
  kept_chunks : kept_entries (fun x => of_run (sr_tenant x) (sr_run x)) so_chunks s s';
  kept_checkpoints : kept_entries (fun x => of_run (ck_tenant x) (ck_run x)) so_checkpoints s s';
  kept_events : kept_entries (fun e => Some (ev_tenant e, ev_run e)) (fun s => db_events (so_db s)) s s';
  kept_slots k n : db_slots (so_db s) !! k = Some n -> lineage_member t g s k ->
    exists n', db_slots (so_db s') !! k = Some n' /\ ch_slot c n n';
  kept_steps : kept_rows (fun x => (st_tenant x, st_run x)) (ch_step c) db_steps s s';
  kept_hooks : kept_rows (fun x => (hk_tenant x, hk_run x)) (ch_hook c) db_hooks s s';
  kept_waits : kept_rows (fun x => (wt_tenant x, wt_run x)) (ch_wait c) db_waits s s';
  kept_admissions k x : db_admissions (so_db s) !! k = Some x -> lineage_member t g s k ->
    db_admissions (so_db s') !! k = Some x;
  kept_letters : kept_entries (fun x => of_run (dl_tenant x) (dl_run x)) (fun s => db_deadLetters (so_db s)) s s'
}.

Definition shield_ok (s : store) : Prop := store_wf s /\ shielded t g s.

(** Once shielded, the lineage stays so and stays whole. *)
Definition keeps (s s' : store) : Prop := shield_ok s -> shield_ok s' /\ kept s s'.

Lemma kept_member s s' k : kept s s' -> lineage_member t g s k -> lineage_member t g s' k.
Proof.
  intros [K _ _ _ _ _ _ _ _ _] (r & Hr & Hl). destruct (K k r Hr Hl) as (r' & Hr' & Hc). exists r'. split; [done|].
  by rewrite (same_lineage_eq t g r r') by by apply lc_lineage.
Qed.

Lemma kept_refl s : kept s s.
Proof. split; unfold kept_entries, kept_rows; intros; try done; eexists; (split; [done|reflexivity]). Qed.

Lemma kept_trans s1 s2 s3 : kept s1 s2 -> kept s2 s3 -> kept s1 s3.
Proof.
  intros K L. pose proof (fun k => kept_member s1 s2 k K) as M.
  destruct K as [K1 K2 K3 K4 K5 K6 K7 K8 K9 K10], L as [L1 L2 L3 L4 L5 L6 L7 L8 L9 L10].
  split; unfold kept_entries, kept_rows in *; eauto.
  - intros k r Hr Hl. destruct (K1 k r Hr Hl) as (r2 & Hr2 & H12).
    destruct (L1 k r2 Hr2) as (r3 & Hr3 & H23); [by rewrite (same_lineage_eq t g r r2) by by apply lc_lineage|].
    exists r3. split; [done|by etrans].
  - intros k n Hn Hk. destruct (K5 k n Hn Hk) as (n2 & Hn2 & H12). destruct (L5 k n2 Hn2 (M k Hk)) as (n3 & Hn3 & H23).
    exists n3. split; [done|by etrans].
  - intros i x Hx Hk. destruct (K6 i x Hx Hk) as (y & Hy & Hxy). rewrite <- (lc_step_run x y Hxy) in Hk.
    destruct (L6 i y Hy (M _ Hk)) as (z & Hz & Hyz). exists z. split; [done|by etrans].
  - intros i x Hx Hk. destruct (K7 i x Hx Hk) as (y & Hy & Hxy). rewrite <- (lc_hook_run x y Hxy) in Hk.
    destruct (L7 i y Hy (M _ Hk)) as (z & Hz & Hyz). exists z. split; [done|by etrans].
  - intros i x Hx Hk. destruct (K8 i x Hx Hk) as (y & Hy & Hxy). rewrite <- (lc_wait_run x y Hxy) in Hk.
    destruct (L8 i y Hy (M _ Hk)) as (z & Hz & Hyz). exists z. split; [done|by etrans].
Qed.

#[export] Instance keeps_preorder : PreOrder keeps.
Proof.
  split.
  - intros s H. split; [done|apply kept_refl].
  - intros s1 s2 s3 H12 H23 H1. destruct (H12 H1) as [H2 K]. destruct (H23 H2) as [H3 L]. split; [done|by eapply kept_trans].
Qed.

(** A sweep that leaves the workflow tables alone. *)
Lemma keeps_outside s s' : so_db s' = so_db s -> (store_wf s -> store_wf s') ->
  (shield_ok s -> kept_entries (fun x => of_run (sr_tenant x) (sr_run x)) so_chunks s s') ->
  (shield_ok s -> kept_entries (fun x => of_run (ck_tenant x) (ck_run x)) so_checkpoints s s') -> keeps s s'.
Proof.
  intros Hd Hw Hx Hc Hs. assert (Hr : so_runs s' = so_runs s) by (unfold so_runs; by rewrite Hd).
  split; [split; [by apply Hw, Hs|]|].
  - destruct Hs as [_ Hs]. unfold shielded. by rewrite Hr.
  - specialize (Hx Hs). specialize (Hc Hs). split; try done; unfold kept_entries, kept_rows; rewrite ?Hr, ?Hd; intros; try done;
      eexists; (split; [done|reflexivity]).
Qed.

Lemma keeps_locks s l : keeps s (put_locks s l).
Proof. apply keeps_outside; [done|by intros [? ?]|by intros _ x|by intros _ x]. Qed.

Lemma of_run_some tenant run k : of_run tenant run = Some k -> exists i, run = Some i /\ k = (tenant, i).
Proof. unfold of_run. destruct run as [i|]; [|done]. intros [= <-]. by exists i. Qed.

Lemma keeps_batch w b s n s' : heeds_shield w -> delete_stream_batch w b s = Ok (n, s') -> keeps s s'.
Proof.
  intros Hw [= <- <-]. apply keeps_outside; try done.
  - intros [Hc Hr]. split; [|done]. by apply filter_key_nodup.
  - intros [[Hc _] Hs] x k Hx (i & Hrun & ->)%of_run_some Hm. apply list_elem_of_filter. split; [|done].
    apply not_true_iff_false. rewrite among_iff; [|exact Hc| |done].
    + intros [He _]%elem_stream_victims. unfold chunk_expired in He. bools. rewrite Hrun in *.
      by rewrite (shielded_owner w t g s _ _ Hw Hs Hm) in *.
    + by intros v [_ Hv]%elem_stream_victims.
  - by intros _ x.
Qed.

Lemma keeps_checkpoints w s x s' : heeds_shield w -> deleteExpiredCheckpoints w s = Ok (x, s') -> keeps s s'.
Proof.
  intros Hw [= _ <-]. apply keeps_outside; try done.
  - by intros [? ?].
  - by intros _ y.
  - intros [_ Hs] y k Hy (i & Hrun & ->)%of_run_some Hm. apply list_elem_of_filter. split; [|done].
    rewrite Hrun. by eapply shielded_owner.
Qed.
End Shield.

(** ** A batch of runs, as one deletion *)

(** The store without the victims' rows, and without the orphans there then are. *)
Definition purged (v : list (string * string)) (s : store) : store :=
  let d := so_db s in
  let runs := filter (fun kx => is_victim v kx.1.1 kx.1.2 = false) (db_runs d) in
  Store
    (MkDb runs
      (filter (fun e => is_victim v (ev_tenant e) (ev_run e) = false) (db_events d))
      (filter (fun kx => is_victim v kx.1.1 kx.1.2 = false) (db_slots d))
      (filter (fun kx => is_victim v (st_tenant kx.2) (st_run kx.2) = false) (db_steps d))
      (filter (fun kx => is_victim v (hk_tenant kx.2) (hk_run kx.2) = false /\
                         orphan_hook (set_runs d runs) kx.2 = false) (db_hooks d))
      (filter (fun kx => is_victim v (wt_tenant kx.2) (wt_run kx.2) = false) (db_waits d))
      (db_admissions d) (db_deadLetters d) (db_jobs d) (db_now d))
    (filter (fun x => is_victim_opt v (sr_tenant x) (sr_run x) && negb (ph_eof (sr_phys x)) = false) (so_chunks s))
    (filter (fun c => is_victim_opt v (ck_tenant c) (ck_run c) = false /\
                      bool_decide (is_Some (run ← ck_run c; runs !! (ck_tenant c, run))) = true) (so_checkpoints s))
    (so_locks s) (so_locked_runs s).

Lemma not_victim_nil t r : is_victim [] t r = false.
Proof. done. Qed.
Lemma not_victim_opt_nil t r : is_victim_opt [] t r = false.
Proof. by destruct r. Qed.

Lemma runs_deleted (v : list (string * string)) (s : store) : NoDup v ->
  (forall k, k ∈ v -> is_Some (so_runs s !! k)) ->
  length (filter (fun kx => is_victim v kx.1.1 kx.1.2 = true) (map_to_list (so_runs s))) = length v.
Proof.
  intros Hn Hv.
  assert (E : (filter (fun kx => is_victim v kx.1.1 kx.1.2 = true) (map_to_list (so_runs s))).*1 ≡ₚ v).
  { apply NoDup_Permutation; [apply filter_key_nodup, NoDup_fst_map_to_list|done|]. intros [tn rn].
    rewrite list_elem_of_fmap. split.
    - intros ([[? ?] r] & [= -> ->] & [Hk _]%list_elem_of_filter). by apply bool_decide_eq_true in Hk.
    - intros Hk. destruct (Hv _ Hk) as [r Hr]. exists ((tn, rn), r). split; [done|]. apply list_elem_of_filter.
      split; [by apply bool_decide_eq_true|by apply elem_of_map_to_list]. }
  by rewrite <- (length_fmap fst), E.
Qed.

Lemma elem_due_runs s kr : kr ∈ due_runs s <-> so_runs s !! kr.1 = Some kr.2 /\ run_due s kr = true.
Proof.
  unfold due_runs. rewrite list_elem_of_filter. destruct kr as [k r]. rewrite elem_of_map_to_list. naive_solver.
Qed.

Lemma run_victims_spec b s v s' : run_victims b s = Ok (v, s') -> s' = s /\ NoDup v /\
  length v = (b `min` length (due_runs s))%nat /\
  (forall k, k ∈ v -> exists r, so_runs s !! k = Some r /\ run_due s (k, r) = true).
Proof.
  intros [= <- <-]. split; [done|]. set (l := sort_with _ _).
  assert (Hl : l ≡ₚ due_runs s) by apply sort_with_perm.
  split; [|split].
  - rewrite fmap_take. apply (sublist_NoDup _ l.*1), sublist_take. rewrite Hl. apply filter_key_nodup, NoDup_fst_map_to_list.
  - by rewrite length_fmap, length_take, Hl.
  - intros k Hk. rewrite fmap_take in Hk. apply elem_of_take in Hk as (i & Hi & _).
    apply list_elem_of_lookup_2 in Hi. rewrite Hl in Hi. apply list_elem_of_fmap in Hi as ([k' r] & -> & Hr).
    apply elem_due_runs in Hr as [Hr Hd]. eauto.
Qed.

Lemma filter_comp {A} (P Q R : A -> Prop) `{!forall x, Decision (P x), !forall x, Decision (Q x), !forall x, Decision (R x)} (l : list A) :
  (forall x, x ∈ l -> (P x /\ Q x) <-> R x) -> filter P (filter Q l) = filter R l.
Proof.
  intros E. rewrite list_filter_filter. induction l as [|x l IH]; [done|]. rewrite !filter_cons, IH.
  - assert (P x /\ Q x <-> R x) by (apply E; by left). repeat case_decide; tauto.
  - intros y Hy. apply E. by right.
Qed.

Lemma mfilter_comp {A} (P Q R : (string * string) * A -> Prop)
    `{!forall x, Decision (P x), !forall x, Decision (Q x), !forall x, Decision (R x)} (m : gmap (string * string) A) :
  (forall k x, m !! k = Some x -> (P (k, x) /\ Q (k, x)) <-> R (k, x)) -> filter P (filter Q m) = filter R m.
Proof.
  intros E. apply map_eq. intros k. apply option_eq. intros x. rewrite !map_lookup_filter_Some.
  specialize (E k x). tauto.
Qed.

Lemma mfilter_all {A} (P : (string * string) * A -> Prop) `{!forall x, Decision (P x)} (m : gmap (string * string) A) :
  (forall k x, m !! k = Some x -> P (k, x)) -> filter P m = m.
Proof. intros Hall. apply map_filter_id. auto. Qed.

Lemma orphan_hook_runs d d' h : db_now d' = db_now d -> db_runs d' = db_runs d -> orphan_hook d' h = orphan_hook d h.
Proof. unfold orphan_hook. by intros -> ->. Qed.

Lemma store_eq s s' :
  so_db s = so_db s' -> so_chunks s = so_chunks s' -> so_checkpoints s = so_checkpoints s' ->
  so_locks s = so_locks s' -> so_locked_runs s = so_locked_runs s' -> s = s'.
Proof. destruct s, s'. simpl. congruence. Qed.

(** The deletions of the victims' rows, in the order of the code. *)
Definition delete_victims (v : list (string * string)) (s : store) : store :=
  let s := delete_chunks_of v (delete_checkpoints_of v s) in
  let s := in_db (delete_slots_of v) (in_db (delete_events_of v) s) in
  let s := in_db (delete_waits_of v) (in_db (delete_hooks_of v) (in_db (delete_steps_of v) s)) in
  put_db s (set_runs (so_db s) (filter (fun kx => is_victim v kx.1.1 kx.1.2 = false) (so_runs s))).

Definition delete_orphans (s : store) : store := delete_orphan_checkpoints (in_db delete_orphan_hooks s).

Lemma delete_victims_nil s : delete_victims [] s = s.
Proof.
  apply store_eq; try done; cbn.
  - apply db_eq; try done; cbn; first [by apply mfilter_all|by apply filter_all].
  - apply filter_all. intros x _. by rewrite not_victim_opt_nil.
  - apply filter_all. intros x _. apply not_victim_opt_nil.
Qed.

Lemma delete_orphans_purged v s : delete_orphans (delete_victims v s) = purged v s.
Proof.
  apply store_eq; try done; cbn.
  - apply db_eq; try done; cbn. apply mfilter_comp. intros k x _. cbn. unfold orphan_hook. cbn. tauto.
  - apply filter_comp. intros x _. unfold owner_run, so_runs. cbn. tauto.
Qed.

(** The statements of a batch, as one transaction. *)
Lemma batch_run b s : exists v, run_victims b s = Ok (v, s) /\
  atomically TxAborted (prune_runs_tx b) tt s = (Ok (length v, length v), tt, purged v s).
Proof.
  destruct (run_victims b s) as [[v s0]|] eqn:E; [|done].
  pose proof (run_victims_spec _ _ _ _ E) as (-> & Hn & _ & Hv).
  assert (Hlen : length (filter (fun kx => is_victim v kx.1.1 kx.1.2 = true) (map_to_list (so_runs s))) = length v).
  { apply runs_deleted; [done|]. intros k Hk. destruct (Hv k Hk) as (r & Hr & _). by exists r. }
  exists v. split; [done|]. unfold atomically, prune_runs_tx. rewrite run_tx_bind, run_tx_sql by done. cbn [tx_db tx_mem]. rewrite E.
  destruct v as [|k v].
  - rewrite <- delete_orphans_purged, delete_victims_nil. reflexivity.
  - rewrite <- delete_orphans_purged, <- Hlen. reflexivity.
Qed.

Lemma purged_wf v s : store_wf s -> store_wf (purged v s).
Proof.
  intros [Hc Hr]. split.
  - by apply filter_key_nodup.
  - intros k r [Hk _]%map_lookup_filter_Some. by apply Hr.
Qed.

Lemma not_victim_iff v t r : is_victim v t r = false <-> (t, r) ∉ v.
Proof. apply bool_decide_eq_false. Qed.

(** ** Every sweep keeps a shielded lineage *)

Section Sweeps.
Context (c : row_changes) `{!lawful_changes c} (t g : string).
Local Notation R := (keeps c t g).
Local Notation ok := (respects (M:=unit) TxAborted R).

Lemma purged_lookup v s k r : so_runs (purged v s) !! k = Some r <-> so_runs s !! k = Some r /\ k ∉ v.
Proof. destruct k as [a b]. unfold so_runs. cbn. rewrite map_lookup_filter_Some. cbn. by rewrite not_victim_iff. Qed.

Lemma keeps_purged b v s : run_victims b s = Ok (v, s) -> R s (purged v s).
Proof.
  intros E [Hw Hs]. apply run_victims_spec in E as (_ & _ & _ & Hv).
  assert (Hk : forall k, lineage_member t g s k -> k ∉ v).
  { intros k (r & Hr & Hl) Hin. destruct (Hv k Hin) as (r' & Hr' & Hd). simplify_eq. unfold run_due in Hd. bools.
    cbn [snd] in *. rewrite (shielded_not_expired detail_window t g s k r (deadline_heeds _) Hs Hr Hl) in *. done. }
  assert (Hm : forall k, lineage_member t g s k -> is_Some (so_runs (purged v s) !! k)).
  { intros k Hm. pose proof (Hk k Hm). destruct Hm as (r & Hr & Hl). exists r. by apply purged_lookup. }
  split; [split; [by apply purged_wf|]|split; unfold kept_entries, kept_rows].
  - destruct Hs as (k & m & Hm' & Hl & Hsh). exists k, m. split; [|done]. apply purged_lookup. split; [done|].
    apply Hk. by exists m.
  - intros k r Hr Hl. exists r. split; [|done]. apply purged_lookup. split; [done|]. apply Hk. by exists r.
  - intros x k Hin (i & Hr & ->)%of_run_some Hx. apply list_elem_of_filter. split; [|done].
    rewrite Hr. cbn. apply Hk, not_victim_iff in Hx. by rewrite Hx.
  - intros x k Hin (i & Hr & ->)%of_run_some Hx. apply list_elem_of_filter. split; [|done].
    rewrite Hr. cbn. split; [by apply not_victim_iff, Hk|]. apply bool_decide_eq_true, (Hm _ Hx).
  - intros e k Hin [= <-] Hx. apply list_elem_of_filter. split; [|done]. by apply not_victim_iff, Hk.
  - intros [tn rn] n Hn Hx. exists n. split; [|done]. apply map_lookup_filter_Some. split; [done|]. by apply not_victim_iff, Hk.
  - intros i x Hi Hx. exists x. split; [|done]. apply map_lookup_filter_Some. split; [done|]. by apply not_victim_iff, Hk.
  - intros i x Hi Hx. exists x. split; [|done]. apply map_lookup_filter_Some. split; [done|]. cbn [snd].
    split; [by apply not_victim_iff, Hk|]. unfold orphan_hook. cbn [db_now db_runs set_runs].
    rewrite (bool_decide_eq_true_2 _ (Hm _ Hx)). apply andb_false_r.
  - intros i x Hi Hx. exists x. split; [|done]. apply map_lookup_filter_Some. split; [done|]. by apply not_victim_iff, Hk.
  - done.
  - done.
Qed.

Lemma keeps_deleting_lock key : stmt_ok R (pg_advisory_unlock key).
Proof. intros s x s' [= _ <-]. by apply keeps_locks. Qed.

Lemma keeps_try_lock key : stmt_ok R (pg_try_advisory_lock key).
Proof.
  intros s x s' H. unfold pg_try_advisory_lock in H. case_bool_decide; simplify_eq; [reflexivity|by apply keeps_locks].
Qed.

Lemma with_lock_keeps key body : ok body -> ok (with_lock key body).
Proof.
  intros Hb. apply respects_bind; [apply respects_sql, keeps_try_lock|]. intros [|]; [|done].
  apply respects_try; [done|]. intros r. apply respects_try; [apply respects_sql, keeps_deleting_lock|].
  intros _. apply respects_lift.
Qed.

Lemma sweep_batches_keeps w b mx : heeds_shield w -> forall n batches deleted,
  ok (sweep_batches (sql (delete_stream_batch w b)) (sql (deleteExpiredCheckpoints w)) b mx n batches deleted).
Proof.
  intros Hw. assert (Hf : forall x, ok (sql (deleteExpiredCheckpoints w) ;;; Ret (A:=retention_result) x)).
  { intros x. apply respects_bind; [|done]. apply respects_sql. intros s u s'. by apply keeps_checkpoints. }
  induction n as [|n IH]; intros batches deleted; simpl; [apply Hf|].
  apply (respects_bind TxAborted R (M:=unit) (sql (delete_stream_batch w b))).
  - apply respects_sql. intros s k s'. by apply keeps_batch.
  - intros k. destruct (k <? b)%nat; [apply Hf|apply IH].
Qed.

Lemma prune_streams_keeps w b mx : heeds_shield w -> ok (prune_streams w b mx).
Proof. intros Hw. by apply with_lock_keeps, sweep_batches_keeps. Qed.

Lemma prune_runs_loop_keeps b mx : forall n batches deleted, ok (prune_runs_loop b mx n batches deleted).
Proof.
  induction n as [|n IH]; intros batches deleted; simpl; [done|]. split.
  - intros [[] s f] r t' Ht Hr Hf. cbn in Ht. subst f.
    destruct (batch_run b s) as (v & Hv & Hb). unfold atomically in Hb. rewrite Hr in Hb.
    destruct r as [x|e]; [|done]. rewrite Hf in Hb. injection Hb as _ _ E. cbn [tx_db]. rewrite E. by eapply keeps_purged.
  - intros [[victims k]|e]; [|done]. cbn [lift_result bind]. destruct (victims <? b)%nat; [done|apply IH].
Qed.
End Sweeps.

(** ** Every sweep keeps the ends of streams *)

Section Ends.
Definition keeps_ends (s s' : store) : Prop := store_wf s -> store_wf s' /\
  forall x, x ∈ so_chunks s -> ph_eof (sr_phys x) = true -> x ∈ so_chunks s'.

#[export] Instance keeps_ends_preorder : PreOrder keeps_ends.
Proof.
  split.
  - intros s H. by split.
  - intros s1 s2 s3 H12 H23 H1. destruct (H12 H1) as [H2 K]. destruct (H23 H2) as [H3 L]. split; [done|]. eauto.
Qed.
Local Notation ok := (respects (M:=unit) TxAborted keeps_ends).

Lemma ends_same s s' : so_chunks s' = so_chunks s -> so_db s' = so_db s -> keeps_ends s s'.
Proof. intros Hc Hd [Hn Hr]. unfold so_runs in Hr. split; [split; unfold so_runs; by rewrite ?Hc, ?Hd|]. by rewrite Hc. Qed.

Lemma ends_batch w b s n s' : delete_stream_batch w b s = Ok (n, s') -> keeps_ends s s'.
Proof.
  intros [= <- <-] [Hc Hr]. split; [split; [by apply filter_key_nodup|done]|].
  intros x Hx Heof. apply list_elem_of_filter. split; [|done]. apply not_true_iff_false.
  rewrite among_iff; [|exact Hc| |done].
  - intros [He _]%elem_stream_victims. unfold chunk_expired in He. by rewrite Heof in He.
  - by intros v [_ Hv]%elem_stream_victims.
Qed.

Lemma ends_purged v s : keeps_ends s (purged v s).
Proof.
  intros Hw. split; [by apply purged_wf|]. intros x Hx Heof. apply list_elem_of_filter. split; [|done].
  rewrite Heof. apply andb_false_r.
Qed.

Lemma with_lock_ends key body : ok body -> ok (with_lock key body).
Proof.
  intros Hb. apply respects_bind.
  - apply respects_sql. intros s x s' H. unfold pg_try_advisory_lock in H.
    case_bool_decide; simplify_eq; [reflexivity|by apply ends_same].
  - intros [|]; [|done]. apply respects_try; [done|]. intros r. apply respects_try; [|intros _; apply respects_lift].
    apply respects_sql. intros s x s' [= _ <-]. by apply ends_same.
Qed.

Lemma sweep_batches_ends w b mx : forall n batches deleted,
  ok (sweep_batches (sql (delete_stream_batch w b)) (sql (deleteExpiredCheckpoints w)) b mx n batches deleted).
Proof.
  assert (Hf : forall x, ok (sql (deleteExpiredCheckpoints w) ;;; Ret (A:=retention_result) x)).
  { intros x. apply respects_bind; [|done]. apply respects_sql. intros s u s' [= _ <-]. by apply ends_same. }
  induction n as [|n IH]; intros batches deleted; simpl; [apply Hf|].
  apply (respects_bind (M:=unit) TxAborted keeps_ends (sql (delete_stream_batch w b))).
  - apply respects_sql. intros s k s'. apply ends_batch.
  - intros k. destruct (k <? b)%nat; [apply Hf|apply IH].
Qed.

Lemma prune_runs_loop_ends b mx : forall n batches deleted, ok (prune_runs_loop b mx n batches deleted).
Proof.
  induction n as [|n IH]; intros batches deleted; simpl; [done|]. split.
  - intros [[] s f] r t' Ht Hr Hf. cbn in Ht. subst f.
    destruct (batch_run b s) as (v & Hv & Hb). unfold atomically in Hb. rewrite Hr in Hb.
    destruct r as [x|e]; [|done]. rewrite Hf in Hb. injection Hb as _ _ E. cbn [tx_db]. rewrite E. apply ends_purged.
  - intros [[victims k]|e]; [|done]. cbn [lift_result bind]. destruct (victims <? b)%nat; [done|apply IH].
Qed.
End Ends.

(** ** A sweep alone, as one deletion *)

Definition expired_chunks (w : window) (s : store) : list stream_row :=
  filter (fun x => chunk_expired w s x = true) (so_chunks s).

(** The store without the chunks and checkpoints that have expired. *)
Definition swept (w : window) (s : store) : store :=
  put_checkpoints (put_chunks s (filter (fun x => chunk_expired w s x = false) (so_chunks s)))
    (filter (fun c => owner_expired w s (ck_tenant c) (ck_run c) = false) (so_checkpoints s)).

Lemma batch_effect w b s : store_wf s -> exists table,
  delete_stream_batch w b s = Ok ((b `min` length (expired_chunks w s))%nat, put_chunks s table) /\
  NoDup (chunk_key <$> table) /\
  length (expired_chunks w (put_chunks s table)) = (length (expired_chunks w s) - b)%nat /\
  filter (fun x => chunk_expired w s x = false) table = filter (fun x => chunk_expired w s x = false) (so_chunks s).
Proof.
  intros [Hc Hr]. set (V := stream_victims w b s).
  assert (HVT : forall v, v ∈ V -> v ∈ so_chunks s) by (by intros v [_ Hv]%elem_stream_victims).
  assert (HT : NoDup (so_chunks s)) by (by apply NoDup_fmap_1 in Hc).
  assert (HE : NoDup (expired_chunks w s)) by (by apply NoDup_filter).
  assert (HV : NoDup V).
  { apply (sublist_NoDup _ (sort_with (victim_order w s) (expired_chunks w s))); [|apply sublist_take].
    by rewrite sort_with_perm. }
  assert (HlV : length V = (b `min` length (expired_chunks w s))%nat) by (unfold V, stream_victims; by rewrite length_take, sort_with_perm).
  assert (Ha : filter (fun x => among V x = true) (so_chunks s) ≡ₚ V).
  { apply NoDup_Permutation; [by apply NoDup_filter|done|]. intros x. rewrite list_elem_of_filter. split.
    - intros [Hx Hin]. by apply (among_iff (so_chunks s)).
    - intros Hx. split; [apply (among_iff (so_chunks s)); auto|auto]. }
  exists (filter (fun x => among V x = false) (so_chunks s)). split; [|split; [by apply filter_key_nodup|split]].
  - unfold delete_stream_batch. fold V. by rewrite Ha, HlV.
  - enough (expired_chunks w s ≡ₚ V ++ expired_chunks w (put_chunks s (filter (fun x => among V x = false) (so_chunks s)))) as Hp.
    { apply Permutation_length in Hp. rewrite length_app, HlV in Hp. lia. }
    apply NoDup_Permutation; [done| |].
    + apply NoDup_app. split; [done|]. split; [|by do 2 apply NoDup_filter].
      intros x Hx [_ [Hn Hin]%list_elem_of_filter]%list_elem_of_filter. cbn in *.
      apply (among_iff (so_chunks s)) in Hx; [congruence|done..].
    + intros x. rewrite elem_of_app. unfold expired_chunks. cbn [so_chunks put_chunks]. rewrite !list_elem_of_filter. split.
      * intros [He Hin]. destruct (among V x) eqn:E; [left; by apply (among_iff (so_chunks s)) in E|by right].
      * intros [Hx|(He & _ & Hin)]; [by apply elem_stream_victims in Hx|done].
  - apply filter_comp. intros x Hx. split; [tauto|]. intros He. split; [done|]. apply not_true_iff_false.
    intros Ha'. apply (among_iff (so_chunks s)) in Ha'; [|done..]. apply elem_stream_victims in Ha' as [He' _]. congruence.
Qed.

Lemma expired_chunks_sweep w b mx : (0 < b)%nat -> forall n batches deleted s,
  store_wf s -> (length (expired_chunks w s) < b * n)%nat ->
  run TxAborted (sweep_batches (sql (delete_stream_batch w b)) (sql (deleteExpiredCheckpoints w)) b mx n batches deleted) tt s =
  (Ok (RetentionResult (Z.of_nat (deleted + length (expired_chunks w s)))
         (Z.of_nat (batches + length (expired_chunks w s) / b)) false true), tt, swept w s).
Proof.
  intros Hb. induction n as [|n IH]; intros batches deleted s Hw Hn; [lia|].
  destruct (batch_effect w b s Hw) as (table & E & Ht & Hl & Hf).
  cbn [sweep_batches]. rewrite run_bind, run_sql. unfold exec_stmt. rewrite E. cbv beta iota zeta.
  destruct (Nat.ltb_spec (b `min` length (expired_chunks w s)) b) as [Hlt|Hge].
  - assert (Hz : expired_chunks w (put_chunks s table) = []) by (apply length_zero_iff_nil; lia).
    assert (Hsame : filter (fun x => chunk_expired w s x = false) table = table).
    { apply filter_all. intros x Hx. apply not_true_iff_false. intros He.
      assert (x ∈ expired_chunks w (put_chunks s table)) as Hin by (by apply list_elem_of_filter).
      rewrite Hz in Hin. by apply elem_of_nil in Hin. }
    rewrite run_bind, run_sql. cbn [exec_stmt deleteExpiredCheckpoints deleting run].
    rewrite Nat.min_r, (Nat.div_small _ b), Nat.add_0_r by lia. repeat f_equal. unfold swept. by rewrite <- Hf, Hsame.
  - rewrite IH; [|by destruct Hw as [_ Hr]; split|lia]. rewrite Hl.
    assert (Hd : (length (expired_chunks w s) / b = S ((length (expired_chunks w s) - b) / b))%nat).
    { rewrite <- (Nat.sub_add b (length (expired_chunks w s))) at 1 by lia.
      replace (length (expired_chunks w s) - b + b)%nat with (length (expired_chunks w s) - b + 1 * b)%nat by lia.
      rewrite Nat.div_add by lia. lia. }
    rewrite Hd, Nat.min_l by lia. f_equal; [f_equal; do 2 f_equal; lia|].
    unfold swept at 2. rewrite <- Hf. reflexivity.
Qed.

Lemma run_with_lock key body s (r : retention_result) s' : key ∉ so_locks s ->
  run TxAborted body tt (put_locks s (key :: so_locks s)) = (Ok r, tt, put_locks s' (key :: so_locks s)) ->
  so_locks s' = so_locks s -> run TxAborted (with_lock key body) tt s = (Ok r, tt, s').
Proof.
  intros Hk Hb Hl. unfold with_lock. rewrite run_bind, run_sql. unfold exec_stmt, pg_try_advisory_lock.
  rewrite bool_decide_eq_false_2 by done. rewrite run_try, Hb, run_try, run_sql.
  unfold exec_stmt, pg_advisory_unlock, deleting. cbn [so_locks put_locks]. rewrite run_lift.
  rewrite filter_cons_False by auto. rewrite filter_all by (intros x Hx ->; done).
  rewrite <- Hl. by destruct s'.
Qed.

(** C19 A sweep of stream chunks that has its lock, and batches enough for what
    has expired, deletes exactly the chunks that have, with the checkpoints, in
    as many statements as their number needs, and says so. *)
Theorem stream_sweep_is_one_deletion w b mx s :
  store_wf s -> STREAM_RETENTION_LOCK_KEY ∉ so_locks s ->
  0 < b -> Z.of_nat (length (expired_chunks w s)) < b * mx ->
  run TxAborted (prune_streams w b mx) tt s =
  (Ok (RetentionResult (Z.of_nat (length (expired_chunks w s)))
         (1 + Z.of_nat (length (expired_chunks w s)) / b) false true), tt, swept w s).
Proof.
  intros Hw Hk Hb Hn. apply run_with_lock; [done| |done]. set (s1 := put_locks s _).
  rewrite expired_chunks_sweep; [|lia|by destruct Hw; split|change (expired_chunks w s1) with (expired_chunks w s); nia].
  change (expired_chunks w s1) with (expired_chunks w s). repeat f_equal. rewrite Nat2Z.inj_add, Nat2Z.inj_div, Z2Nat.id by lia. done.
Qed.

Lemma positive_option n : 0 < n <= 9007199254740991 -> assertPositiveInteger (JsFinite n 1) = Ok n.
Proof.
  intros Hn. unfold assertPositiveInteger, isSafeInteger, js_integer. rewrite Z.mod_1_r, Z.div_1_r. cbn [Z.eqb].
  destruct (Z.leb_spec (Z.abs n) 9007199254740991); [|lia]. destruct (Z.ltb_spec 0 n); [done|lia].
Qed.

(** ** A sweep of runs alone, as one deletion *)

Lemma purged_purged v1 v2 s : purged v2 (purged v1 s) = purged (v1 ++ v2) s.
Proof.
  assert (Hv : forall t r, is_victim (v1 ++ v2) t r = is_victim v1 t r || is_victim v2 t r).
  { intros t r. unfold is_victim. rewrite <- bool_decide_or. apply bool_decide_ext. by rewrite elem_of_app. }
  assert (Hf : forall t r, is_victim (v1 ++ v2) t r = false <-> is_victim v2 t r = false /\ is_victim v1 t r = false).
  { intros t r. rewrite Hv, orb_false_iff. tauto. }
  assert (Hruns : db_runs (so_db (purged v2 (purged v1 s))) = db_runs (so_db (purged (v1 ++ v2) s))).
  { cbn. apply mfilter_comp. intros k x _. cbn. by rewrite Hf. }
  apply store_eq; try done; cbn.
  - apply db_eq; try done; cbn.
    + apply filter_comp. intros x _. by rewrite Hf.
    + apply mfilter_comp. intros k x _. cbn. by rewrite Hf.
    + apply mfilter_comp. intros k x _. cbn. by rewrite Hf.
    + apply mfilter_comp. intros k x _. cbn in *. rewrite Hf. unfold orphan_hook. cbn. rewrite <- Hruns.
      split; [tauto|]. intros [[H2 H1] H]. split; [done|]. split; [done|].
      apply andb_false_iff in H as [H|H]; [by rewrite H|]. apply andb_false_iff. right. bools.
      apply negb_false_iff, bool_decide_eq_true. destruct H as [r Hr]. exists r.
      apply map_lookup_filter_Some in Hr as [Hr _]. exact Hr.
    + apply mfilter_comp. intros k x _. cbn. by rewrite Hf.
  - apply filter_comp. intros x _. destruct (sr_run x) as [r|]; cbn; [|tauto]. rewrite Hv.
    destruct (is_victim v1 _ r), (is_victim v2 _ r), (ph_eof (sr_phys x)); cbn; tauto.
  - apply filter_comp. intros c _. cbn in Hruns. rewrite <- Hruns. destruct (ck_run c) as [r|]; cbn; [|naive_solver].
    rewrite Hf, !bool_decide_eq_true. split; [tauto|]. intros [[H2 H1] [x Hx]].
    split; [split; [done|by exists x]|]. split; [done|]. apply map_lookup_filter_Some in Hx as [Hx _]. by exists x.
Qed.

(** What is due by the deadlines of details does not depend on what was purged before. *)
Lemma purged_blocked v s t g : (forall k, k ∈ v -> exists r, so_runs s !! k = Some r /\ expired detail_window s r = true) ->
  lineage_blocked detail_window t g (purged v s) = lineage_blocked detail_window t g s.
Proof.
  intros Hv. apply eq_true_iff_eq. unfold lineage_blocked. rewrite !orb_true_iff.
  assert (Hnv : forall k r, so_runs s !! k = Some r -> same_lineage t g r = true ->
    lineage_blocked detail_window t g s = true -> k ∉ v).
  { intros k r Hr Hl Hb Hin. destruct (Hv k Hin) as (r' & Hr' & He). simplify_eq. unfold expired, same_lineage in *.
    bools. subst. congruence. }
  unfold lineage_blocked in Hnv. setoid_rewrite orb_true_iff in Hnv.
  split; (intros [H|H]; [left|right]); unfold capability_held in *; apply existsb_exists in H as (x & Hx & Hp);
    apply existsb_exists; exists x; apply list_elem_of_In in Hx.
  - split; [|done]. apply list_elem_of_In. unfold lineage_runs in *. apply list_elem_of_filter in Hx as [Hl Hx].
    apply list_elem_of_filter. split; [done|]. apply elem_of_values in Hx as [k Hx]. apply elem_of_values.
    exists k. by apply purged_lookup in Hx as [Hx _].
  - unfold hook_list in *. apply elem_of_values in Hx as [k Hx]. cbn in Hx. apply map_lookup_filter_Some in Hx as [Hx _].
    apply andb_true_iff in Hp as [Ho Hh]. split; [apply list_elem_of_In, elem_of_values; eauto|].
    apply andb_true_iff. split; [|exact Hh].
    destruct (so_runs (purged v s) !! _) as [o|] eqn:E; [|done]. apply purged_lookup in E as [-> _]. done.
  - unfold lineage_runs in *. apply list_elem_of_filter in Hx as [Hl Hx].
    apply elem_of_values in Hx as [k Hx]. split; [|done]. apply list_elem_of_In, list_elem_of_filter. split; [done|].
    apply elem_of_values. exists k. apply purged_lookup. split; [done|]. eapply Hnv; [done..|]. left.
    apply existsb_exists. exists x. split; [|done]. apply list_elem_of_In, list_elem_of_filter. split; [done|].
    apply elem_of_values. eauto.
  - pose proof Hp as Hp'. apply andb_true_iff in Hp as [Ho Hh]. destruct (so_runs s !! _) as [o|] eqn:E; [|done].
    assert (Hk : (hk_tenant x, hk_run x) ∉ v).
    { eapply Hnv; [done..|]. right. apply existsb_exists. exists x. rewrite E. split; [by apply list_elem_of_In|done]. }
    assert (Eo : so_runs (purged v s) !! (hk_tenant x, hk_run x) = Some o) by (by apply purged_lookup).
    rewrite Eo. split; [|by apply andb_true_iff]. apply list_elem_of_In. unfold hook_list in *.
    apply elem_of_values in Hx as [k Hx]. apply elem_of_values. exists k. cbn. apply map_lookup_filter_Some.
    split; [done|]. cbn. split; [by apply not_victim_iff|]. unfold orphan_hook. cbn. apply andb_false_iff. left.
    unfold hookRetained, so_now in Hh. destruct (hk_tokenRetentionUntil x) as [u|]; [|done]. cbn. bools. lia.
Qed.

Lemma due_purged v s : (forall k, k ∈ v -> exists r, so_runs s !! k = Some r /\ run_due s (k, r) = true) ->
  forall kr, kr ∈ due_runs (purged v s) <-> kr ∈ due_runs s /\ kr.1 ∉ v.
Proof.
  intros Hv [k r]. rewrite !elem_due_runs. cbn [fst snd].
  assert (E : run_due (purged v s) (k, r) = run_due s (k, r)).
  { unfold run_due, expired. cbn [fst snd]. rewrite (purged_blocked v s); [done|].
    intros k' Hk'. destruct (Hv k' Hk') as (r' & Hr' & Hd). exists r'. split; [done|].
    unfold run_due in Hd. by apply andb_true_iff in Hd as [Hd _]. }
  rewrite E, purged_lookup. tauto.
Qed.

Lemma run_batch_effect b s : exists v,
  run TxAborted (prune_runs_batch b) tt s = (Ok (length v, length v), tt, purged v s) /\
  length v = (b `min` length (due_runs s))%nat /\
  (due_runs s).*1 ≡ₚ v ++ (due_runs (purged v s)).*1.
Proof.
  destruct (batch_run b s) as (v & E & Hb). exists v. split; [unfold prune_runs_batch; by rewrite run_transaction, Hb|].
  apply run_victims_spec in E as (_ & Hn & Hl & Hv). split; [done|].
  assert (Hnd : forall s, NoDup (due_runs s).*1) by (intros s0; apply filter_key_nodup, NoDup_fst_map_to_list).
  apply NoDup_Permutation; [done| |].
  - apply NoDup_app. split; [done|]. split; [|done]. intros k Hk Hin.
    apply list_elem_of_fmap in Hin as (kr & -> & Hkr). by apply (due_purged v s Hv) in Hkr as [_ ?].
  - intros k. rewrite elem_of_app, !list_elem_of_fmap. split.
    + intros (kr & -> & Hkr). destruct (decide (kr.1 ∈ v)) as [Hin|Hin]; [by left|right].
      exists kr. split; [done|]. by apply due_purged.
    + intros [Hk|(kr & -> & Hkr)].
      * destruct (Hv k Hk) as (r & Hr & Hd). exists (k, r). split; [done|]. by apply elem_due_runs.
      * exists kr. split; [done|]. by apply (due_purged v s Hv) in Hkr as [? _].
Qed.

Lemma prune_runs_loop_run b mx : (0 < b)%nat -> forall n batches deleted s,
  (length (due_runs s) < b * n)%nat -> exists v, v ≡ₚ (due_runs s).*1 /\
  run TxAborted (prune_runs_loop b mx n batches deleted) tt s =
  (Ok (RetentionResult (Z.of_nat (deleted + length (due_runs s)))
         (Z.of_nat (batches + length (due_runs s) / b)) false true), tt, purged v s).
Proof.
  intros Hb. induction n as [|n IH]; intros batches deleted s Hn; [lia|].
  destruct (run_batch_effect b s) as (v & E & Hl & Hp).
  assert (Hlen := Permutation_length Hp). rewrite length_app, !length_fmap, Hl in Hlen.
  cbn [prune_runs_loop]. rewrite run_bind, E, Hl.
  destruct (Nat.ltb_spec (b `min` length (due_runs s)) b) as [Hlt|Hge].
  - exists v. assert (Hz : due_runs (purged v s) = []) by (apply length_zero_iff_nil; lia).
    rewrite Hz, app_nil_r in Hp. split; [done|]. by rewrite Nat.min_r, (Nat.div_small _ b), Nat.add_0_r by lia.
  - destruct (IH (batches + 1)%nat (deleted + b `min` length (due_runs s))%nat (purged v s)) as (v' & Hv' & Hr); [lia|].
    exists (v ++ v'). split; [by rewrite Hp, Hv'|]. rewrite Hr, purged_purged.
    assert (Ed : length (due_runs s) = (length (due_runs (purged v s)) + 1 * b)%nat) by lia.
    assert (Eq : (length (due_runs s) / b = length (due_runs (purged v s)) / b + 1)%nat) by (rewrite Ed, Nat.div_add by lia; lia).
    rewrite Eq. do 4 f_equal; lia.
Qed.

(** C18 A sweep of runs that has its lock, and batches enough for the runs that
    are due and not locked elsewhere, deletes exactly those runs with all their
    rows but the ends of their streams, and the Hooks and checkpoints no run is
    left for; nothing else changes. *)
Theorem run_sweep_is_one_deletion b mx s :
  RUN_RETENTION_LOCK_KEY ∉ so_locks s -> 0 < b <= 9007199254740991 -> 0 < mx <= 9007199254740991 ->
  Z.of_nat (length (due_runs s)) < b * mx ->
  exists v, v ≡ₚ (due_runs s).*1 /\
  run TxAborted (pruneExpiredWorkflowRuns (JsFinite b 1) (JsFinite mx 1)) tt s =
  (Ok (RetentionResult (Z.of_nat (length (due_runs s)))
         (1 + Z.of_nat (length (due_runs s)) / b) false true), tt, purged v s).
Proof.
  intros Hk Hb Hm Hn.
  destruct (prune_runs_loop_run (Z.to_nat b) (Z.to_nat mx) ltac:(lia) (Z.to_nat mx) 1 0
    (put_locks s (RUN_RETENTION_LOCK_KEY :: so_locks s))) as (v & Hv & Hr).
  { change (due_runs (put_locks s _)) with (due_runs s). nia. }
  change (due_runs (put_locks s _)) with (due_runs s) in *. exists v. split; [done|].
  unfold pruneExpiredWorkflowRuns. rewrite !positive_option by done. cbn [lift_result bind].
  apply run_with_lock; [done| |done]. rewrite Hr. repeat f_equal.
  rewrite Nat2Z.inj_add, Nat2Z.inj_div, Z2Nat.id by lia. done.
Qed.

(** ** Pools of sweeps *)

Inductive is_sweep : thread (S:=store) (M:=unit) (E:=werror) -> Prop :=
| sweep_by_age options : is_sweep (Thread (pruneTerminalStreamChunks options))
| sweep_streams b mx : is_sweep (Thread (pruneExpiredStreamChunks b mx))
| sweep_runs b mx : is_sweep (Thread (pruneExpiredWorkflowRuns b mx)).

Ltac checked_options :=
  repeat (apply respects_bind; [apply respects_lift|intros ?]).

Lemma sweep_keeps c `{!lawful_changes c} t g th : is_sweep th -> thread_ok TxAborted (keeps c t g) th.
Proof.
  intros []; unfold thread_ok; cbn [projT2 Thread]; checked_options.
  - by apply prune_streams_keeps, age_heeds.
  - by apply prune_streams_keeps, deadline_heeds.
  - by apply with_lock_keeps, prune_runs_loop_keeps.
Qed.

Lemma sweep_keeps_ends th : is_sweep th -> thread_ok TxAborted keeps_ends th.
Proof.
  intros []; unfold thread_ok; cbn [projT2 Thread]; checked_options;
    apply with_lock_ends; first [apply sweep_batches_ends|apply prune_runs_loop_ends].
Qed.

(** ** The class of a run *)

Lemma class_updates tenant run c d r : db_runs d !! (tenant, run) = Some r ->
  update_run tenant run true (fun _ => true) (set_retention_class c) d =
  Ok (Some (set_run_retention_deadlines (set_retention_class c r)),
      set_runs d (<[(tenant, run) := set_run_retention_deadlines (set_retention_class c r)]> (db_runs d))).
Proof.
  intros Hr. unfold update_run. rewrite Hr. cbn [run_status set_run_retention_deadlines run_set_deadlines set_retention_class].
  rewrite bool_decide_eq_true_2 by done. by rewrite andb_false_r.
Qed.

(** Nothing changes. *)
Definition no_changes : row_changes := RowChanges eq eq eq eq eq.

(** Runs change class, and with it their deadlines; nothing else changes. *)
Definition but_class (r : run_row) : run_row := set_retention_class "" (run_set_deadlines r (Deadlines None None None)).
Definition class_changes : row_changes := RowChanges (fun r r' => but_class r' = but_class r) eq eq eq eq.

#[export] Instance no_changes_lawful : lawful_changes no_changes.
Proof. split; try apply _; naive_solver. Qed.
#[export] Instance class_changes_lawful : lawful_changes class_changes.
Proof.
  split; try apply _; try naive_solver.
  - split; [done|]. intros x y z H1 H2. exact (eq_trans H2 H1).
  - intros r r' E. exact (f_equal (fun x => (run_tenant x, run_retentionRootRunId x)) E).
Qed.

(** Classing a run persistent shields its lineage and changes nothing but the
    class and the deadlines that go with it. *)
Lemma persistent_keeps t g tenant run :
  thread_ok TxAborted (keeps class_changes t g) (Thread (setWorkflowRunRetentionClass tenant run "persistent")).
Proof.
  unfold thread_ok, setWorkflowRunRetentionClass. cbn [projT2 Thread]. destruct (assertValidTenantId tenant); [|done].
  change (resolveRunRetentionClass (Some "persistent") None) with (Ok (E:=werror) Persistent). cbn [lift_result bind].
  apply respects_bind; [|done]. apply respects_sql. intros s u s' H [[Hc Hk] Hs]. unfold on_db in H.
  destruct (so_runs s !! (tenant, run)) as [r|] eqn:Hr.
  2: { unfold update_run in H. unfold so_runs in Hr. rewrite Hr in H. injection H as _ <-.
       replace (put_db s (so_db s)) with s by (by destruct s). split; [by split|apply kept_refl; apply _]. }
  rewrite (class_updates _ _ _ _ _ Hr) in H. injection H as _ <-.
  set (r' := set_run_retention_deadlines _).
  assert (Hl : same_lineage t g r' = same_lineage t g r) by done.
  split; [split; [split; [done|]|]|].
  - intros k x Hx. unfold so_runs in Hx. cbn in Hx. apply lookup_insert_Some in Hx as [[<- <-]|[_ Hx]]; [|by apply Hk].
    apply Hk in Hr. by rewrite Hr.
  - destruct Hs as (k & m & Hk' & Hml & Hsh). destruct (decide (k = (tenant, run))) as [->|Hne].
    + exists (tenant, run), r'. unfold so_runs. cbn. rewrite lookup_insert_eq. simplify_eq. rewrite Hl. auto.
    + exists k, m. unfold so_runs. cbn. by rewrite lookup_insert_ne.
  - split; unfold kept_entries, kept_rows; try done; try (intros; eexists; split; [done|reflexivity]).
    intros k x Hx _. unfold so_runs. cbn [put_db so_db set_runs db_runs]. destruct (decide (k = (tenant, run))) as [->|Hne].
    + exists r'. rewrite lookup_insert_eq. simplify_eq. done.
    + exists x. by rewrite lookup_insert_ne.
Qed.

(** Classing a run answers whether there is such a run, and sets its class
    with the deadlines the policy gives a run of that class, status and end; a
    live run has none. *)
Theorem class_sets_deadlines tenant runId value c s r :
  assertValidTenantId tenant = true -> resolveRunRetentionClass (Some value) None = Ok c ->
  so_runs s !! (tenant, runId) = Some r ->
  exists r', run TxAborted (setWorkflowRunRetentionClass tenant runId value) tt s =
    (Ok (true, c), tt, put_db s (set_runs (so_db s) (<[(tenant, runId) := r']> (so_runs s)))) /\
  run_retentionClass r' = class_text c /\ run_status r' = run_status r /\
  (forall st t, run_status r = run_status_of st -> run_completedAt r = Some t ->
     Deadlines (run_compactAfter r') (run_expireAfter r') (run_detailExpireAfter r') = retentionDeadlines c st t) /\
  (run_is_terminal (run_status r) = false ->
     Deadlines (run_compactAfter r') (run_expireAfter r') (run_detailExpireAfter r') = Deadlines None None None).
Proof.
  intros Ht Hc Hr. exists (set_run_retention_deadlines (set_retention_class (class_text c) r)).
  split; [|split; [done|split; [done|split]]].
  - unfold setWorkflowRunRetentionClass. rewrite Ht, Hc. cbn [lift_result bind]. rewrite run_bind, run_sql.
    unfold exec_stmt, on_db. by rewrite (class_updates _ _ _ _ _ Hr).
  - intros st t Hs Hco. cbn. rewrite <- (trigger_deadlines_policy (set_retention_class (class_text c) r) c st t) by done.
    by destruct (trigger_deadlines _).
  - intros Hs. cbn. unfold trigger_deadlines. cbn. by rewrite Hs.
Qed.

(** C17 No interleaving of retention sweeps of any kind, with each other and with
    clients, takes anything from a lineage that has a live or a persistent run:
    its runs and their chunks, checkpoints, events, slot counts, steps, hooks,
    waits, admissions and dead letters are all there after, each as it was or
    as the clients' own writes made it, and the lineage is still shielded. The
    sweeps themselves change no row of it: with no clients, or clients that change
    nothing, every row is as it was. *)
Theorem shielded_lineage_kept c `{!lawful_changes c} t g ts ts' m m' s s' :
  Forall (fun th => is_sweep th \/ thread_ok TxAborted (keeps c t g) th) ts ->
  store_wf s -> shielded t g s ->
  rtc (pool_step TxAborted) (ts, m, s) (ts', m', s') ->
  kept c t g s s' /\ shielded t g s'.
Proof.
  intros Hts Hw Hs Hp. eapply (pool_respects TxAborted (keeps c t g)) in Hp as [Hk _].
  - destruct (Hk (conj Hw Hs)) as [[_ ?] ?]. by split.
  - eapply Forall_impl; [exact Hts|]. intros th [H|H]; [by apply sweep_keeps|done].
Qed.

(** No sweep deletes the row that ends a stream, whatever it interleaves
    with: every reader of a closed stream still finds it closed. *)
Theorem ends_outlive_sweeps ts ts' m m' s s' x :
  Forall (fun th => is_sweep th \/ thread_ok TxAborted keeps_ends th) ts ->
  store_wf s -> x ∈ so_chunks s -> ph_eof (sr_phys x) = true ->
  rtc (pool_step TxAborted) (ts, m, s) (ts', m', s') -> x ∈ so_chunks s'.
Proof.
  intros Hts Hw Hx Heof Hp. eapply (pool_respects TxAborted keeps_ends) in Hp as [Hk _].
  - destruct (Hk Hw) as [_ H]. by apply H.
  - eapply Forall_impl; [exact Hts|]. intros th [H|H]; [by apply sweep_keeps_ends|done].
Qed.

(** ** A store with an ended run and a live lineage *)

Definition demo_retained_run (id root : string) (status : RunStatus.t) (completed : option instant) : run_row :=
  set_run_retention_deadlines
    (RunRow "t1" id "dpl" "wf" status None None None None None None None None ∅ 0 0 None completed
       "scheduled" root None None None None).

Definition demo_data_row (run id : string) (eof : bool) : stream_row :=
  StreamRow "t1" run (Some run) (PhysRow id (Some id) (Some 1) (Some 1) [] eof).

Definition demo_event (run : string) : event_row := EventRow "t1" run "evnt_1" RunCancelled None None 0.

(** [old] ended long ago; [child] did, and its root [live] has not. *)
Definition demo_store : store := Store
  (MkDb (<[("t1", "old") := demo_retained_run "old" "old" RunStatus.completed (Some 0)]>
        (<[("t1", "live") := demo_retained_run "live" "live" RunStatus.running None]>
        {[("t1", "child") := demo_retained_run "child" "live" RunStatus.completed (Some 0)]}))
     [demo_event "old"; demo_event "child"] {[("t1", "old") := 1]} ∅ ∅ ∅ ∅ [] None 1000000000)
  [demo_data_row "old" "chnk_1" false; demo_data_row "child" "chnk_2" false; demo_data_row "old" "chnk_3" true]
  [CheckpointRow "t1" "old" (Some "old") "chnk_1"; CheckpointRow "t1" "child" (Some "child") "chnk_2"] [] [].

Lemma demo_store_wf : store_wf demo_store.
Proof.
  split.
  - apply (bool_decide_unpack (NoDup (chunk_key <$> so_chunks demo_store))). vm_compute. exact I.
  - intros k r Hr. assert (H : map_Forall (fun k r => k = (run_tenant r, run_id r)) (so_runs demo_store)); [|by apply H].
    apply (bool_decide_unpack (map_Forall (fun k r => k = (run_tenant r, run_id r)) (so_runs demo_store))). vm_compute. exact I.
Qed.

Lemma demo_store_shielded : shielded "t1" "live" demo_store.
Proof. exists ("t1", "live"). eexists. split; [vm_compute; reflexivity|]. split; [reflexivity|by left]. Qed.

Definition demo_sweeps : list (thread (S:=store) (M:=unit) (E:=werror)) :=
  [Thread (pruneExpiredStreamChunks (JsFinite 1 1) (JsFinite 5 1));
   Thread (pruneExpiredWorkflowRuns (JsFinite 1 1) (JsFinite 5 1));
   Thread (setWorkflowRunRetentionClass "t1" "child" "persistent")].
Definition demo_schedule : list nat := [0; 1; 0; 2; 1; 0; 0; 1; 1]%nat.

(** The sweeps, interleaved. *)
Lemma demo_sweeps_run : exists ts' m' s',
  rtc (pool_step TxAborted) (demo_sweeps, tt, demo_store) (ts', m', s') /\
  (sr_id <$> so_chunks s') = ["chnk_2"; "chnk_3"].
Proof.
  pose (seen := fun c : list (thread (S:=store) (M:=unit) (E:=werror)) * unit * store => sr_id <$> so_chunks c.2).
  assert (H : option_map seen (schedule TxAborted demo_schedule (demo_sweeps, tt, demo_store)) =
    Some ["chnk_2"; "chnk_3"]) by (vm_compute; reflexivity).
  destruct (schedule TxAborted demo_schedule (demo_sweeps, tt, demo_store)) as [[[ts' m'] s']|] eqn:E; [|done].
  exists ts', m', s'. split; [by eapply schedule_sound|]. injection H as H. exact H.
Qed.

Lemma demo_sweeps_keep t g : Forall (fun th => is_sweep th \/ thread_ok TxAborted (keeps class_changes t g) th) demo_sweeps.
Proof.
  unfold demo_sweeps. rewrite !Forall_cons. repeat split; try done; try (left; constructor).
  right. apply persistent_keeps.
Qed.

Lemma shielded_lineage_kept_witness : exists ts' m' s',
  rtc (pool_step TxAborted) (demo_sweeps, tt, demo_store) (ts', m', s') /\
  (sr_id <$> so_chunks s') = ["chnk_2"; "chnk_3"] /\ kept class_changes "t1" "live" demo_store s' /\ shielded "t1" "live" s'.
Proof.
  destruct demo_sweeps_run as (ts' & m' & s' & Hp & Hs). exists ts', m', s'. split; [exact Hp|]. split; [exact Hs|].
  exact (shielded_lineage_kept class_changes "t1" "live" _ _ _ _ _ _ (demo_sweeps_keep _ _) demo_store_wf demo_store_shielded Hp).
Defined.

Lemma ends_outlive_sweeps_witness : exists ts' m' s',
  rtc (pool_step TxAborted) (take 2 demo_sweeps, tt, demo_store) (ts', m', s') /\
  demo_data_row "old" "chnk_3" true ∈ so_chunks s'.
Proof.
  assert (Hp : exists ts' m' s', rtc (pool_step TxAborted) (take 2 demo_sweeps, tt, demo_store) (ts', m', s')).
  { pose (sc := [0; 1; 0; 1; 0; 0; 1; 1]%nat).
    assert (H : bool_decide (is_Some (schedule TxAborted sc (take 2 demo_sweeps, tt, demo_store))) = true) by (vm_compute; reflexivity).
    apply bool_decide_eq_true in H as [[[ts' m'] s'] E]. exists ts', m', s'. by eapply schedule_sound. }
  destruct Hp as (ts' & m' & s' & Hp). exists ts', m', s'. split; [exact Hp|].
  refine (ends_outlive_sweeps _ _ _ _ _ _ (demo_data_row "old" "chnk_3" true) _ demo_store_wf _ eq_refl Hp).
  - cbn [take demo_sweeps]. rewrite !Forall_cons. repeat split; try done; left; constructor.
  - right. right. left.
Defined.

Lemma class_sets_deadlines_witness : exists r',
  run TxAborted (setWorkflowRunRetentionClass "t1" "old" "ephemeral") tt demo_store =
  (Ok (true, Scheduled), tt, put_db demo_store (set_runs (so_db demo_store) (<[("t1", "old") := r']> (so_runs demo_store)))).
Proof.
  destruct (class_sets_deadlines "t1" "old" "ephemeral" Scheduled demo_store
    (demo_retained_run "old" "old" RunStatus.completed (Some 0)) eq_refl eq_refl eq_refl) as (r' & H & _).
  by exists r'.
Defined.

Lemma stream_sweep_is_one_deletion_witness :
  run TxAborted (prune_streams stream_window 2 3) tt demo_store =
  (Ok (RetentionResult 1 1 false true), tt, swept stream_window demo_store) /\
  (sr_id <$> so_chunks (swept stream_window demo_store)) = ["chnk_2"; "chnk_3"].
Proof.
  split; [|vm_compute; reflexivity].
  assert (Hl : length (expired_chunks stream_window demo_store) = 1%nat) by (vm_compute; reflexivity).
  assert (Hd : Z.of_nat (length (expired_chunks stream_window demo_store)) < 2 * 3) by (rewrite Hl; lia).
  pose proof (stream_sweep_is_one_deletion stream_window 2 3 demo_store demo_store_wf (not_elem_of_nil _) ltac:(lia) Hd) as H.
  rewrite Hl in H. exact H.
Defined.

Lemma run_sweep_is_one_deletion_witness : exists v,
  run TxAborted (pruneExpiredWorkflowRuns (JsFinite 2 1) (JsFinite 3 1)) tt demo_store =
  (Ok (RetentionResult 1 1 false true), tt, purged v demo_store) /\ v = [("t1", "old")].
Proof.
  assert (Hl : (due_runs demo_store).*1 = [("t1", "old")]) by (vm_compute; reflexivity).
  assert (Hn : length (due_runs demo_store) = 1%nat) by (by rewrite <- (length_fmap fst), Hl).
  assert (Hd : Z.of_nat (length (due_runs demo_store)) < 2 * 3) by (rewrite Hn; lia).
  pose proof (run_sweep_is_one_deletion 2 3 demo_store (not_elem_of_nil _) ltac:(lia) ltac:(lia) Hd) as (v & Hv & H).
  exists v. rewrite Hn in H. split; [exact H|]. rewrite Hl in Hv. by apply Permutation_singleton_r in Hv.
Defined.
