(* ===== verification/ReconcileProps.v ===== *)
(** What reconciliation does to a tenant's runs: a settled run meets the contract
    of an ending (Ending.v), with no event appended; a quarantined one waits behind
    one letter that stops its deliveries. *)
From S2P Require Import Prelude Model Bytes Prog Slots Sdk Tenant RunRetention Schema Contract Timers Dispatcher Reconciliation.
From S2P Require Import Events CreateRun Demo Ending DispatchProps QueueProps.
Local Open Scope Z_scope.

(** Runs are stored under their tenant and id. *)
Definition runs_keyed (d : Db) : Prop := forall k r, db_runs d !! k = Some r -> k = (run_tenant r, run_id r).

Lemma run_values_nodup d : runs_keyed d -> NoDup (map_to_list (db_runs d)).*2.
Proof.
  intros Hk. apply NoDup_fmap_2_strong; [|apply NoDup_map_to_list]. intros [k r] [k' r'] Hr Hr' E. cbn in E. subst r'.
  apply elem_of_map_to_list in Hr, Hr'. by rewrite (Hk _ _ Hr), (Hk _ _ Hr').
Qed.

Section Reconcile.
Context (options : reconcile_options).
Local Notation T := (rc_tenantId options).

(** The options the entry point takes to its transaction. *)
Record accepted : Prop := Accepted_options {
  ao_tenant : assertValidTenantId T = true;
  ao_reason : rc_reason options <> "";
  ao_selector : (exists i l, rc_runIds options = Some (i :: l)) \/ (exists i l, rc_deploymentIds options = Some (i :: l))
}.

Lemma reconcile_accepted : accepted ->
  reconcileWorkflowRuns options =
  transaction (if bool_decide (rc_disposition options = DispQuarantine) then quarantineRuns options else settleRuns options).
Proof.
  intros [Ht Hr Hs]. unfold reconcileWorkflowRuns. rewrite Ht, (proj2 (String.eqb_neq _ _) Hr). cbn [negb].
  destruct Hs as [(i & l & E)|(i & l & E)]; rewrite E.
  - by destruct (rc_deploymentIds options) as [[|? ?]|].
  - by destruct (rc_runIds options) as [[|? ?]|].
Qed.

Lemma elem_settled d r : r ∈ settled_runs options d <-> selects options r = true /\ exists k, db_runs d !! k = Some r.
Proof. unfold settled_runs. by rewrite list_elem_of_filter, elem_of_values. Qed.

(** ** What settling owes *)

(** The runs to settle: the tenant's, live, and named by every selector given. *)
Definition to_settle (r : run_row) : Prop :=
  run_tenant r = T /\ (run_status r = RunStatus.pending \/ run_status r = RunStatus.running) /\
  match rc_runIds options with Some l => run_id r ∈ l | None => True end /\
  match rc_deploymentIds options with Some l => run_deploymentId r ∈ l | None => True end.

(** How each ends. *)
Definition settled_as : terminal_run_status :=
  match rc_disposition options with DispFail => TFailed | _ => TCancelled end.
Definition settled_code (r : run_row) : option string :=
  match rc_disposition options with
  | DispFail => Some (match rc_errorCode options with Some c => c | None => "RUN_ORPHANED" end)
  | _ => run_errorCode r
  end.

Lemma selects_iff r : selects options r = true <-> to_settle r.
Proof.
  unfold selects, to_settle, selected_by, run_active.
  destruct (rc_runIds options), (rc_deploymentIds options), (run_status r);
    rewrite ?andb_true_iff, ?bool_decide_eq_true, String.eqb_eq; intuition (try discriminate; auto).
Qed.

Lemma settled_ids d i : runs_keyed d ->
  i ∈ run_id <$> settled_runs options d <-> exists r, db_runs d !! (T, i) = Some r /\ to_settle r.
Proof.
  intros Hk. rewrite list_elem_of_fmap. split.
  - intros (r & -> & (Hs & k & Hr)%elem_settled). apply selects_iff in Hs. pose proof (Hk _ _ Hr) as ->.
    destruct Hs as (Ht & Hs). rewrite Ht in Hr. by exists r.
  - intros (r & Hr & Hs). pose proof (Hk _ _ Hr) as [= _ ->]. exists r. split; [done|].
    apply elem_settled. rewrite selects_iff. eauto.
Qed.

Lemma settled_nodup d : runs_keyed d -> NoDup (run_id <$> settled_runs options d).
Proof.
  intros Hk. apply NoDup_fmap_2_strong; [|by apply NoDup_filter, run_values_nodup].
  intros x y (Hx & kx & Ex)%elem_settled (Hy & ky & Ey)%elem_settled E. apply selects_iff in Hx as [Hx _], Hy as [Hy _].
  pose proof (Hk _ _ Ex). pose proof (Hk _ _ Ey). congruence.
Qed.

(** The state the three statements leave. *)
Definition settled_db (d : Db) : Db :=
  let ids := run_id <$> settled_runs options d in
  MkDb ((fun r => if selects options r then set_run_retention_deadlines (set_settled options (db_now d) r) else r) <$> db_runs d)
    (db_events d) (db_slots d) (db_steps d)
    (filter (fun kh => ~ (hk_tenant kh.2 = T /\ bool_decide (hk_run kh.2 ∈ ids) && hookRetentionEnded d kh.2 = true)) (db_hooks d))
    (filter (fun kw => ~ (wt_tenant kw.2 = T /\ wt_run kw.2 ∈ ids)) (db_waits d)) (db_admissions d)
    (fold_left (fun l r => resolve_dead_letters (db_now d) (run_tenant r) (run_id r) l) (settled_runs options d) (db_deadLetters d))
    (db_jobs d) (db_now d).

(** Every row of it that was to settle has ended. *)
Lemma settled_row_ended c now r : run_retentionClass r = class_text c ->
  run_ended settled_as c now (run_output r) (run_error r) (settled_code r) r
    (set_run_retention_deadlines (set_settled options now r)).
Proof.
  intros Hc. apply run_ended_by_trigger; try done; unfold set_settled, settled_as, settled_code, settled_status;
    cbn; by destruct (rc_disposition options).
Qed.

Lemma settled_letters d l :
  fold_left (fun l r => resolve_dead_letters (db_now d) (run_tenant r) (run_id r) l) (settled_runs options d) l =
  fold_left (fun l i => resolve_dead_letters (db_now d) T i l) (run_id <$> settled_runs options d) l.
Proof.
  assert (H : forall r, r ∈ settled_runs options d -> run_tenant r = T).
  { intros r [Hs _]%elem_settled. by apply selects_iff in Hs as []. }
  revert l H. induction (settled_runs options d) as [|r rows IH]; intros l H; [done|]. cbn.
  rewrite (H r) by (by left). apply IH. intros x Hx. apply H. by right.
Qed.

Lemma settled_released d : runs_keyed d ->
  released_by T (fun i => exists r, db_runs d !! (T, i) = Some r /\ to_settle r) d (settled_db d).
Proof.
  intros Hk. apply (released_by_ext T (fun i => i ∈ run_id <$> settled_runs options d)); [intros i; by apply settled_ids|].
  split; try reflexivity; cbn [settled_db db_hooks db_waits db_deadLetters].
  - intros k h. rewrite map_lookup_filter_Some. cbn. rewrite andb_true_iff, bool_decide_eq_true, retention_over_iff. tauto.
  - intros k w. by rewrite map_lookup_filter_Some.
  - rewrite settled_letters. apply letters_resolved_all.
Qed.

Lemma settled_db_none d : settled_runs options d = [] ->
  settled_db d = set_deadLetters (set_runs d ((fun r => if selects options r
    then set_run_retention_deadlines (set_settled options (db_now d) r) else r) <$> db_runs d)) (db_deadLetters d).
Proof.
  intros E. unfold settled_db. rewrite E. apply db_eq; try done; cbn; apply map_filter_id; intros k x _.
  - intros [_ Hb]. apply andb_true_iff in Hb as [Hb _]. apply bool_decide_eq_true in Hb. by apply elem_of_nil in Hb.
  - intros [_ Hb]. by apply elem_of_nil in Hb.
Qed.

Lemma settle_effect m d :
  run_tx TxAborted (settleRuns options) (TxSt m d false) =
  (Ok (map report (settled_runs options d)), TxSt m (settled_db d) false).
Proof.
  unfold settleRuns. rewrite run_tx_bind, run_tx_sql by done. cbn [tx_db settle_update tx_mem].
  destruct (settled_runs options d) as [|r rows] eqn:E.
  - cbn [run_tx bind map fold_left]. by rewrite settled_db_none.
  - rewrite run_tx_bind. cbn [run_tx]. rewrite run_tx_bind, run_tx_sql by done. cbn [tx_db tx_mem delete_hooks].
    rewrite run_tx_sql by done. cbn [tx_db tx_mem delete_waits_any run_tx]. unfold settled_db. rewrite E. done.
Qed.

(** C12 Settling a tenant's runs: the answer names, once each and with the status
    it had, exactly the pending and running runs of the tenant that every selector
    given names; the row of each is ended as the contract of an ending says - failed
    with the error code given or [RUN_ORPHANED], or cancelled with its own, the
    output and the error as they were - and every other run is as it was; the ended
    runs let go of their hooks whose token is not retained, their waits and their
    open dead letters, and nothing else of any table changed: no event is appended. *)
Theorem settling_ends_runs m d : accepted -> rc_disposition options <> DispQuarantine -> runs_keyed d ->
  exists answers d', run TxAborted (reconcileWorkflowRuns options) m d = (Ok answers, m, d') /\
    NoDup answers /\
    (forall x, x ∈ answers <-> exists r, db_runs d !! (T, run_id r) = Some r /\ to_settle r /\
       x = ReconciledRun (run_id r) (run_workflowName r) (run_deploymentId r) (run_status r)) /\
    (forall k r c, db_runs d !! k = Some r -> to_settle r -> run_retentionClass r = class_text c ->
       exists r', db_runs d' !! k = Some r' /\
         run_ended settled_as c (db_now d) (run_output r) (run_error r) (settled_code r) r r') /\
    (forall k, (forall r, db_runs d !! k = Some r -> ~ to_settle r) -> db_runs d' !! k = db_runs d !! k) /\
    released_by T (fun i => exists r, db_runs d !! (T, i) = Some r /\ to_settle r) d d' /\
    db_events d' = db_events d.
Proof.
  intros Ha Hd Hk. exists (map report (settled_runs options d)), (settled_db d). split_and!; [| | | | |by apply settled_released|done].
  - rewrite reconcile_accepted, bool_decide_eq_false_2 by done. rewrite run_transaction. unfold atomically.
    by rewrite settle_effect.
  - apply (NoDup_fmap_1 rd_runId). change (NoDup (rd_runId <$> (report <$> settled_runs options d))).
    rewrite <- list_fmap_compose. by apply settled_nodup.
  - intros x. change (map report ?l) with (report <$> l). rewrite list_elem_of_fmap. split.
    + intros (r & -> & (Hs & k & Hr)%elem_settled). apply selects_iff in Hs. pose proof (Hk _ _ Hr) as ->.
      exists r. split; [|done]. by rewrite (proj1 Hs) in Hr.
    + intros (r & Hr & Hs & ->). exists r. split; [done|]. apply elem_settled. rewrite selects_iff. eauto.
  - intros k r c Hr Hs%selects_iff Hc. eexists. split; [|by apply settled_row_ended].
    cbn [settled_db db_runs]. rewrite lookup_fmap, Hr. cbn. by rewrite Hs.
  - intros k Hn. cbn [settled_db db_runs]. rewrite lookup_fmap. destruct (db_runs d !! k) as [r|] eqn:E; [|done]. cbn.
    destruct (selects options r) eqn:Es; [|done]. by apply selects_iff, Hn in Es.
Qed.

(** ** Quarantine *)

Lemma elem_candidates d r : r ∈ quarantine_candidates options d <->
  selects options r = true /\ quarantined d r = false /\ exists k, db_runs d !! k = Some r.
Proof.
  unfold quarantine_candidates. rewrite list_elem_of_filter, elem_of_values, andb_true_iff, negb_true_iff. tauto.
Qed.

Definition letters_of (rows : list run_row) : list dead_letter := map (fun r => DeadLetter T (Some (run_id r)) None) rows.

Lemma insert_letters_run rows : forall m d,
  run_tx TxAborted (insert_letters options rows) (TxSt m d false) =
  (Ok (map report rows), TxSt m (set_deadLetters d (db_deadLetters d ++ letters_of rows)) false).
Proof.
  induction rows as [|r rows IH]; intros m d; cbn [insert_letters].
  - cbn. rewrite app_nil_r. by destruct d.
  - rewrite run_tx_bind, run_tx_sql by done. cbn [insert_letter tx_db tx_mem]. rewrite run_tx_bind, IH.
    cbn [run_tx map letters_of db_deadLetters set_deadLetters]. by rewrite <- app_assoc.
Qed.

Definition parked_db (d : Db) : Db :=
  set_deadLetters d (db_deadLetters d ++ letters_of (quarantine_candidates options d)).

Lemma quarantine_run m d : accepted -> rc_disposition options = DispQuarantine ->
  run TxAborted (reconcileWorkflowRuns options) m d =
  (Ok (map report (quarantine_candidates options d)), m, parked_db d).
Proof.
  intros Ha Hd. rewrite reconcile_accepted, bool_decide_eq_true_2 by done. rewrite run_transaction. unfold atomically, quarantineRuns.
  rewrite run_tx_bind, run_tx_select by done. cbn [tx_db tx_mem]. by rewrite insert_letters_run.
Qed.

Lemma parked_quarantined d r k : runs_keyed d -> db_runs d !! k = Some r -> selects options r = true ->
  quarantined (parked_db d) r = true.
Proof.
  intros Hk Hr Hs. unfold quarantined, parked_db. cbn [db_deadLetters set_deadLetters]. rewrite existsb_app.
  destruct (existsb _ (db_deadLetters d)) eqn:E; [done|]. cbn. apply existsb_exists.
  exists (DeadLetter T (Some (run_id r)) None). split.
  - apply in_map_iff. exists r. split; [done|]. apply list_elem_of_In, elem_candidates. split; [done|]. split; [done|eauto].
  - unfold unresolved_letter, selects in *. bools. cbn. subst. by rewrite H, String.eqb_refl, !bool_decide_eq_true_2.
Qed.

Lemma unresolved_own x i : unresolved_letter T i (DeadLetter T (Some (run_id x)) None) = true <-> run_id x = i.
Proof.
  unfold unresolved_letter. cbn. rewrite String.eqb_refl, andb_true_r. cbn. rewrite bool_decide_eq_true.
  split; [by intros [= ->]|by intros ->].
Qed.

(** A run has one letter at most where it had none. *)
Lemma candidates_unique d r k : runs_keyed d -> db_runs d !! k = Some r -> run_tenant r = T ->
  length (filter (fun l => unresolved_letter T (run_id r) l = true) (letters_of (quarantine_candidates options d))) =
  if selects options r && negb (quarantined d r) then 1%nat else 0%nat.
Proof.
  intros Hk Hr Ht. set (C := quarantine_candidates options d).
  assert (Hsame : forall x, x ∈ C -> run_id x = run_id r -> x = r).
  { intros x (Hx & _ & kx & Ex)%elem_candidates E. unfold selects in Hx. bools.
    pose proof (Hk _ _ Ex). pose proof (Hk _ _ Hr). congruence. }
  assert (E : filter (fun l => unresolved_letter T (run_id r) l = true) (letters_of C) =
    letters_of (filter (fun x => run_id x = run_id r) C)).
  { clearbody C. clear Hsame. induction C as [|x rows IH]; [done|]. cbn [letters_of map]. rewrite !filter_cons.
    fold (letters_of rows). rewrite IH. pose proof (unresolved_own x (run_id r)). repeat case_decide; tauto || done. }
  rewrite E. unfold letters_of. rewrite length_map.
  assert (Hn : NoDup (filter (fun x => run_id x = run_id r) C)).
  { apply NoDup_filter. unfold C, quarantine_candidates. by apply NoDup_filter, run_values_nodup. }
  destruct (selects options r && negb (quarantined d r)) eqn:Eb.
  - apply andb_true_iff in Eb as [Hs Hq]. apply negb_true_iff in Hq.
    replace 1%nat with (length [r]) by done. apply Permutation_length, NoDup_Permutation; [done|by apply NoDup_singleton|].
    intros x. rewrite list_elem_of_filter, list_elem_of_singleton. split; [intros [? ?]; by apply Hsame|]. intros ->.
    split; [done|]. apply elem_candidates. eauto.
  - rewrite filter_none; [done|]. intros x Hx Hid. pose proof (Hsame x Hx Hid) as ->.
    apply elem_candidates in Hx as (Hs & Hq & _). by rewrite Hs, Hq in Eb.
Qed.

Context `{WorldSdk} `{QueueSdk}.

(** C11 Quarantining a tenant's runs leaves each as it is, behind one unresolved
    dead letter: the runs and the log do not change, a run that has a letter
    gets no second one, a second quarantine finds nothing to do, and every
    delivery of a quarantined run ends at once. *)
Theorem quarantine_parks_runs m d : accepted -> rc_disposition options = DispQuarantine -> runs_keyed d ->
  let d' := parked_db d in
  run TxAborted (reconcileWorkflowRuns options) m d = (Ok (map report (quarantine_candidates options d)), m, d') /\
  run TxAborted (reconcileWorkflowRuns options) m d' = (Ok [], m, d') /\
  db_runs d' = db_runs d /\ db_events d' = db_events d /\
  forall k r, db_runs d !! k = Some r -> selects options r = true ->
    length (filter (fun l => unresolved_letter T (run_id r) l = true) (db_deadLetters d')) =
      Nat.max 1 (length (filter (fun l => unresolved_letter T (run_id r) l = true) (db_deadLetters d))) /\
    forall c now jobName attempts maxAttempts msg a l,
      readRunId msg = Some (run_id r) -> run_id r <> "" -> md_tenantId msg = T ->
      an_run a = Ok (run_lookup T (run_id r) d') ->
      handle c now jobName attempts maxAttempts msg a l = Handled false None None l.
Proof.
  intros Ha Hd Hk d'. split; [by apply quarantine_run|]. split; [|split; [done|split; [done|]]].
  - rewrite quarantine_run by done.
    assert (E : quarantine_candidates options d' = []).
    { destruct (quarantine_candidates options d') as [|r rows] eqn:E; [done|]. exfalso.
      assert (r ∈ quarantine_candidates options d') as (Hs & Hq & k & Hr)%elem_candidates by (rewrite E; by left).
      assert (quarantined d' r = true) by (by eapply parked_quarantined). congruence. }
    unfold parked_db at 1. rewrite E. cbn. rewrite app_nil_r. by destruct d.
  - intros k r Hr Hs. assert (Ht : run_tenant r = T) by (unfold selects in Hs; bools; done). split.
    + unfold d', parked_db. cbn [db_deadLetters set_deadLetters]. rewrite filter_app, length_app.
      rewrite (candidates_unique d r k) by done. rewrite Hs. cbn [andb]. unfold quarantined. rewrite Ht.
      set (before := filter _ (db_deadLetters d)).
      assert (Hb : existsb (unresolved_letter T (run_id r)) (db_deadLetters d) = false <-> before = []).
      { unfold before. clear. induction (db_deadLetters d) as [|x l IH]; [done|]. cbn [existsb]. rewrite filter_cons.
        destruct (unresolved_letter T (run_id r) x); cbn; [|exact IH]. by split. }
      destruct (existsb _ (db_deadLetters d)); cbn [negb].
      * destruct before; [by destruct Hb as [_ Hb]; specialize (Hb eq_refl)|cbn; lia].
      * rewrite (proj1 Hb eq_refl). done.
    + intros c now jobName attempts maxAttempts msg a l Hm Hne Htm Han. pose proof (Hk _ _ Hr) as ->. rewrite Ht in Hr.
      eapply (quarantined_handled c now jobName attempts maxAttempts msg a l (run_id r) r d'); rewrite ?Htm; try done.
      pose proof (parked_quarantined d r _ Hk Hr Hs) as Hq. unfold quarantined in Hq. by rewrite Ht in Hq.
Qed.
End Reconcile.

(** ** A live run, settled and quarantined *)

Definition demo_options (d : disposition) : reconcile_options :=
  ReconcileOptions "t1" (Some ["wrun_1"; "wrun_9"]) None d "executor gone" None.

Lemma demo_accepted d : accepted (demo_options d).
Proof. split; [reflexivity|discriminate|left]. exists "wrun_1", ["wrun_9"]. reflexivity. Qed.

Lemma demo_runs_keyed : runs_keyed demo_db.
Proof.
  intros k r Hr. assert (H : map_Forall (fun k r => k = (run_tenant r, run_id r)) (db_runs demo_db)).
  { apply (bool_decide_unpack (map_Forall (fun k r => k = (run_tenant r, run_id r)) (db_runs demo_db))). vm_compute. exact I. }
  exact (H k r Hr).
Qed.

Lemma settling_ends_runs_witness : exists answers d',
  run TxAborted (reconcileWorkflowRuns (demo_options DispFail)) demo_mem demo_db = (Ok answers, demo_mem, d') /\
  map rd_runId answers = ["wrun_1"] /\ db_events d' = db_events demo_db.
Proof.
  assert (Hd : rc_disposition (demo_options DispFail) <> DispQuarantine) by discriminate.
  destruct (settling_ends_runs (demo_options DispFail) demo_mem demo_db (demo_accepted _) Hd demo_runs_keyed)
    as (answers & d' & Hrun & _ & _ & _ & _ & _ & He).
  exists answers, d'. split; [exact Hrun|]. split; [|exact He].
  assert (Hc : match (run TxAborted (reconcileWorkflowRuns (demo_options DispFail)) demo_mem demo_db).1.1 with
    | Ok l => map rd_runId l | Err _ => [] end = ["wrun_1"]) by (vm_compute; reflexivity).
  by rewrite Hrun in Hc.
Defined.

Lemma quarantine_parks_runs_witness :
  let d' := parked_db (demo_options DispQuarantine) demo_db in
  run TxAborted (reconcileWorkflowRuns (demo_options DispQuarantine)) demo_mem d' = (Ok [], demo_mem, d') /\
  length (db_deadLetters d') = 1%nat.
Proof.
  intros d'. split; [|vm_compute; reflexivity].
  exact (proj1 (proj2 (quarantine_parks_runs (demo_options DispQuarantine) demo_mem demo_db (demo_accepted _)
    eq_refl demo_runs_keyed))).
Defined.
