(* ===== verification/BootProps.v ===== *)
(** What recovery on start does: every run that nothing would wake gets one
    delivery, to its own deployment, and no other run gets any; deployments are
    woken a few at a time; and the locks of dead workers are given up. *)
From S2P Require Import Prelude Model Bytes Prog Paging Slots Sdk Tenant RunRetention Schema Contract Timers Events.
From S2P Require Import Dispatcher Reconciliation CreateRun Reads BootRecovery Demo ReconcileProps DispatchProps QueueProps LogProps.
From stdpp Require Import sorting.
Local Open Scope Z_scope.

(** ** The candidates *)

(** The run is one to dispatch: live, and behind no dead letter. *)
Definition dispatchable (d : Db) (r : run_row) : Prop :=
  (exists k, db_runs d !! k = Some r) /\ run_active r = true /\ quarantined d r = false.

(** Something other than boot will wake it: a job of its queue or a held timer,
    or a Hook while it is in no sleep. *)
Definition has_wake (d : Db) (g : graphile) (r : run_row) : bool :=
  has_live_job g r || (has_hook d r && negb (has_timer d r)).

Lemma elem_boot_rows d g b : b ∈ boot_rows d g <-> exists r, b = boot_row_of d g r /\ dispatchable d r.
Proof.
  unfold boot_rows, dispatchable. rewrite list_elem_of_fmap. apply exist_proper. intros r.
  rewrite sort_with_perm, list_elem_of_filter, elem_of_values, andb_true_iff, negb_true_iff. tauto.
Qed.

Lemma candidate_iff d g r : is_candidate (boot_row_of d g r) = negb (has_wake d g r).
Proof.
  unfold is_candidate, has_wake. cbn. by destruct (has_live_job g r), (has_hook d r), (has_timer d r).
Qed.

Definition boot_candidates (d : Db) (g : graphile) : list run_row :=
  br_run <$> filter (fun b => is_candidate b = true) (boot_rows d g).

Lemma elem_boot_candidates d g r : r ∈ boot_candidates d g <-> dispatchable d r /\ has_wake d g r = false.
Proof.
  unfold boot_candidates. rewrite list_elem_of_fmap. split.
  - intros (b & -> & [Hc Hb]%list_elem_of_filter). apply elem_boot_rows in Hb as (x & -> & Hx).
    rewrite candidate_iff in Hc. by apply negb_true_iff in Hc.
  - intros [Hd Hw]. exists (boot_row_of d g r). split; [done|]. apply list_elem_of_filter.
    split; [by rewrite candidate_iff, Hw|]. apply elem_boot_rows. eauto.
Qed.

(** ** Waves *)

Section Waves.
Context (perWave : Z) (Hper : 0 < perWave).

(** The deployments, in the order they are first met. *)
Definition see (l : list (string * string)) (r : run_row) : list (string * string) :=
  if decide (deployment_of r ∈ l) then l else l ++ [deployment_of r].
Definition first_seen (rows : list run_row) : list (string * string) := fold_left see rows [].

Definition numbered (l : list (string * string)) : list ((string * string) * Z) :=
  imap (fun i dep => (dep, Z.of_nat i / perWave)) l.

Lemma wave_of_none l dep : wave_of l dep = None <-> dep ∉ l.*1.
Proof.
  induction l as [|[k n] l IH]; cbn; [split; [intros _ Hn; by apply elem_of_nil in Hn|done]|].
  rewrite not_elem_of_cons. case_decide as Hk; [subst; split; [done|by intros [[] _]]|]. rewrite IH.
  split; [by intros ?; split; [intros ->|]|by intros [_ ?]].
Qed.

Lemma wave_of_app l k n dep : wave_of (l ++ [(k, n)]) dep =
  match wave_of l dep with Some m => Some m | None => if decide (k = dep) then Some n else None end.
Proof. induction l as [|[k' n'] l IH]; [done|]. cbn. rewrite IH. by destruct (decide (k' = dep)). Qed.

Lemma numbered_fst l : (numbered l).*1 = l.
Proof. apply list_eq. intros i. unfold numbered. rewrite list_lookup_fmap, list_lookup_imap. by destruct (l !! i). Qed.

Lemma waves_numbered rows : waves perWave rows = numbered (first_seen rows).
Proof.
  unfold waves, first_seen. change (@nil ((string * string) * Z)) with (numbered []).
  generalize (@nil (string * string)) as l. induction rows as [|r rows IH]; intros l; [done|]. cbn [fold_left].
  rewrite <- IH. f_equal. unfold add_wave, see. case_decide as Hin.
  - destruct (wave_of (numbered l) (deployment_of r)) eqn:E; [done|].
    apply wave_of_none in E. by rewrite numbered_fst in E.
  - destruct (wave_of (numbered l) (deployment_of r)) eqn:E.
    + exfalso. assert (wave_of (numbered l) (deployment_of r) = None); [|congruence].
      apply wave_of_none. by rewrite numbered_fst.
    + unfold numbered at 2 3. rewrite imap_app, length_imap. cbn. by rewrite Nat.add_0_r.
Qed.

Lemma first_seen_nodup rows : NoDup (first_seen rows).
Proof.
  unfold first_seen. assert (H : forall l, NoDup l -> NoDup (fold_left see rows l)); [|apply H; constructor].
  induction rows as [|r rows IH]; intros l Hl; [done|]. cbn. apply IH. unfold see. case_decide; [done|].
  apply NoDup_app. split; [done|]. split; [|apply NoDup_singleton]. by intros x Hx ->%list_elem_of_singleton.
Qed.

Lemma elem_first_seen rows dep : dep ∈ first_seen rows <-> exists r, r ∈ rows /\ deployment_of r = dep.
Proof.
  unfold first_seen. assert (H : forall l, dep ∈ fold_left see rows l <-> dep ∈ l \/ exists r, r ∈ rows /\ deployment_of r = dep).
  { induction rows as [|r rows IH]; intros l; cbn.
    - split; [by left|]. intros [?|(r & Hr & _)]; [done|by apply elem_of_nil in Hr].
    - rewrite IH. unfold see. setoid_rewrite elem_of_cons. case_decide as Hin.
      + split; [intros [?|(x & ? & ?)]; eauto|]. intros [?|(x & [->|?] & E)]; eauto. subst. by left.
      + rewrite elem_of_app, list_elem_of_singleton. naive_solver. }
  rewrite H. split; [|by right]. intros [Hn|?]; [by apply elem_of_nil in Hn|done].
Qed.

Lemma wave_lookup l dep n : NoDup l -> wave_of (numbered l) dep = Some n <->
  exists i, l !! i = Some dep /\ n = Z.of_nat i / perWave.
Proof.
  revert n. induction l as [|k l IH] using rev_ind; intros n Hl; [split; [done|by intros (i & Hi & _)]|].
  apply NoDup_app in Hl as (Hl & Hk & _). unfold numbered. rewrite imap_app. cbn. rewrite Nat.add_0_r. fold (numbered l).
  rewrite wave_of_app. destruct (wave_of (numbered l) dep) as [m|] eqn:E.
  - destruct (proj1 (IH m Hl) eq_refl) as (i & Hi & ->). split.
    + intros [= <-]. exists i. split; [|done]. by apply lookup_app_l_Some.
    + intros (j & Hj & ->). f_equal. do 2 f_equal. apply lookup_snoc_Some in Hj as [[_ Hj]|[-> ->]].
      * by eapply NoDup_lookup.
      * apply list_elem_of_lookup_2 in Hi. exfalso. apply (Hk _ Hi). by left.
  - apply wave_of_none in E. rewrite numbered_fst in E. case_decide as Hd.
    + subst k. split.
      * intros [= <-]. exists (length l). split; [|done]. by apply list_lookup_middle.
      * intros (j & Hj & ->). apply lookup_snoc_Some in Hj as [[_ Hj]|[-> _]]; [|done]. by apply list_elem_of_lookup_2 in Hj.
    + split; [done|]. intros (j & Hj & ->). apply lookup_snoc_Some in Hj as [[_ Hj]|[-> ?]]; [|done].
      by apply list_elem_of_lookup_2 in Hj.
Qed.

(** The deployments of one wave. *)
Definition in_wave (n : Z) (rows : list run_row) : list (string * string) :=
  filter (fun dep => wave_of (waves perWave rows) dep = Some n) (first_seen rows).

Lemma wave_size n rows : Z.of_nat (length (in_wave n rows)) <= perWave.
Proof.
  assert (Hn := first_seen_nodup rows). set (l := first_seen rows) in *.
  destruct (decide (n < 0)) as [Hneg|Hpos].
  - assert (E : in_wave n rows = []).
    { apply filter_none. intros dep _ Hw. rewrite waves_numbered in Hw. apply wave_lookup in Hw as (i & _ & ->); [|done].
      pose proof (Z.div_pos (Z.of_nat i) perWave). lia. }
    rewrite E. cbn. lia.
  - assert (Hsub : in_wave n rows ⊆+ take (Z.to_nat perWave) (drop (Z.to_nat (n * perWave)) l)).
    { apply NoDup_submseteq; [by apply NoDup_filter|]. intros dep [Hw Hd]%list_elem_of_filter.
      rewrite waves_numbered in Hw. apply wave_lookup in Hw as (i & Hi & ->); [|done]. fold l in Hi.
      apply elem_of_take. pose proof (Z.div_mod (Z.of_nat i) perWave). pose proof (Z.mod_pos_bound (Z.of_nat i) perWave Hper).
      exists (Z.to_nat (Z.of_nat i mod perWave)). split; [|lia]. rewrite lookup_drop. rewrite <- Hi. f_equal. nia. }
    apply submseteq_length in Hsub. rewrite length_take in Hsub. lia.
Qed.
End Waves.

(** ** Graphile's tables after the calls *)

Section Calls.
Context `{GraphileLaws}.

(** The key a call gives is another than the job's. *)
Definition spares (j : add_job) (h : held_job) : Prop :=
  ts_unsafeDedupe (aj_spec j) = false /\ (ts_jobKey (aj_spec j) = None \/ j_key (hj_job h) <> ts_jobKey (aj_spec j)).

Lemma add_jobs_stay l : forall g h, (forall j, j ∈ l -> spares j h) -> h ∈ gr_jobs g -> h ∈ gr_jobs (add_jobs l g).
Proof.
  induction l as [|j l IH]; intros g h Hl Hh; [done|]. cbn [add_jobs fold_left]. apply IH.
  - intros x Hx. apply Hl. by right.
  - destruct (Hl j ltac:(by left)) as [? ?]. by apply gl_others.
Qed.

Lemma add_jobs_queues l q : forall g, is_Some (gr_queues g !! q) -> is_Some (gr_queues (add_jobs l g) !! q).
Proof. induction l as [|j l IH]; intros g Hq; [done|]. by apply IH, gl_queues. Qed.

Lemma add_jobs_keys l : forall g, keys_unique g -> keys_unique (add_jobs l g).
Proof. induction l as [|j l IH]; intros g Hk; [done|]. by apply IH, gl_keys. Qed.

(** With a key for each call, every call's job is there. *)
Lemma add_jobs_scheduled l : forall g j k, j ∈ l ->
  Forall (fun j => ts_unsafeDedupe (aj_spec j) = false /\ is_Some (ts_jobKey (aj_spec j))) l ->
  NoDup ((fun j => ts_jobKey (aj_spec j)) <$> l) -> ts_queueName (aj_spec j) = Some k ->
  (exists h, h ∈ gr_jobs (add_jobs l g) /\ scheduled j h) /\ is_Some (gr_queues (add_jobs l g) !! k).
Proof.
  induction l as [|x l IH]; intros g j k Hj Hl Hn Hk; [by apply elem_of_nil in Hj|].
  apply Forall_cons in Hl as [[Hu [kx Hx]] Hl]. rewrite fmap_cons, NoDup_cons in Hn. destruct Hn as [Hkx Hn].
  apply elem_of_cons in Hj as [->|Hj]; [|by apply (IH (addJob x g))]. cbn [add_jobs fold_left]. split.
  - destruct (gl_scheduled x g) as (h & Hh & Hs). exists h. split; [|done]. apply add_jobs_stay; [|done].
    intros y Hy. rewrite Forall_forall in Hl. destruct (Hl y Hy) as [Huy _]. split; [done|]. right.
    destruct Hs as ([= _ _ _ ->] & _). intros E. apply Hkx. rewrite E. by apply (list_elem_of_fmap_2 (fun j => ts_jobKey (aj_spec j))).
  - apply add_jobs_queues. by apply gl_queue.
Qed.

Lemma add_jobs_only l : forall g h, h ∈ gr_jobs (add_jobs l g) ->
  h ∈ gr_jobs g \/ (exists j, j ∈ l /\ scheduled j h) \/ deliverable h = false.
Proof.
  induction l as [|j l IH]; intros g h Hh; [by left|]. apply (IH (addJob j g)) in Hh as [Hh|[(x & Hx & Hs)|Hd]]; [| |by auto].
  - apply gl_nothing_else in Hh as [?|[?|?]]; [by auto| |by auto]. right. left. exists j. split; [by left|done].
  - right. left. exists x. split; [by right|done].
Qed.

(** The tables between the unlocking and the first call. *)
Definition unlocked_graphile (ws : list string) (g : graphile) : graphile :=
  match ws with [] => g | _ => forceUnlockWorkers ws g end.

Lemma unlocked_jobs ws g : Forall2 but_lock (gr_jobs g) (gr_jobs (unlocked_graphile ws g)).
Proof. destruct ws; [by apply Forall_Forall2_diag, Forall_true|]. apply gl_unlock_jobs. Qed.

Lemma unlocked_queues ws g q : is_Some (gr_queues (unlocked_graphile ws g) !! q) <-> is_Some (gr_queues g !! q).
Proof. destruct ws; [done|]. apply gl_unlock_queues. Qed.

Lemma but_lock_deliverable h h' : but_lock h h' -> deliverable h' = deliverable h.
Proof. intros (_ & Ha & Hm). unfold deliverable. by rewrite Ha, Hm. Qed.

Lemma forall2_elem_l {A} (R : A -> A -> Prop) l l' x : Forall2 R l l' -> x ∈ l -> exists y, y ∈ l' /\ R x y.
Proof.
  intros Hl [i Hi]%list_elem_of_lookup. destruct (Forall2_lookup_l _ _ _ _ _ Hl Hi) as (y & Hy & ?).
  exists y. split; [by eapply list_elem_of_lookup_2|done].
Qed.

Lemma forall2_elem_r {A} (R : A -> A -> Prop) l l' y : Forall2 R l l' -> y ∈ l' -> exists x, x ∈ l /\ R x y.
Proof.
  intros Hl [i Hi]%list_elem_of_lookup. destruct (Forall2_lookup_r _ _ _ _ _ Hl Hi) as (x & Hx & ?).
  exists x. split; [by eapply list_elem_of_lookup_2|done].
Qed.

(** Where every job that would be delivered is there still but for its lock, a run
    that had a live job has it. *)
Lemma live_job_stays g g' r :
  (forall h, h ∈ gr_jobs g -> deliverable h = true -> exists h', h' ∈ gr_jobs g' /\ but_lock h h') ->
  (forall q, is_Some (gr_queues g !! q) -> is_Some (gr_queues g' !! q)) ->
  has_live_job g r = true -> has_live_job g' r = true.
Proof.
  intros Hj Hq. unfold has_live_job. rewrite !orb_true_iff, !andb_true_iff, !bool_decide_eq_true, !existsb_exists.
  intros [[Hs (h & Hin & Hh)]|Ht].
  - left. split; [by apply Hq|]. apply list_elem_of_In in Hin. bools. destruct (Hj h Hin) as (h' & Hin' & Hb); [done|].
    exists h'. split; [by apply list_elem_of_In|]. rewrite (but_lock_deliverable h h' Hb).
    destruct Hb as ([= _ _ -> _] & _). by rewrite bool_decide_eq_true_2.
  - right. unfold timer_queues in *. apply list_elem_of_omap in Ht as (h & Hin & Hh).
    destruct (String.eqb (j_task (hj_job h)) TIMER_JOB_NAME && deliverable h) eqn:E; [|done]. apply andb_true_iff in E as [E1 E2].
    destruct (Hj h Hin E2) as (h' & Hin' & Hb). apply list_elem_of_omap. exists h'. split; [done|].
    rewrite (but_lock_deliverable h h' Hb). destruct Hb as ([= -> -> _ _] & _). by rewrite E1, E2.
Qed.
End Calls.

(** ** The sweep *)

(** The key of each run to recover is its own: no run of another tenant that is to
    be recovered has its id, and no job that would be delivered has the key. *)
Definition keys_free (d : Db) (g : graphile) : Prop := forall r, dispatchable d r -> has_wake d g r = false ->
  (forall r', dispatchable d r' -> has_wake d g r' = false -> run_id r' = run_id r -> run_tenant r' = run_tenant r) /\
  (forall h, h ∈ gr_jobs g -> deliverable h = true -> j_key (hj_job h) <> Some (recover_key r)).

Lemma recover_key_inj r r' : recover_key r = recover_key r' -> run_id r = run_id r'.
Proof. unfold recover_key. apply string_app_inj_l. Qed.

Section Sweep.
Context `{WorldSdk} `{QueueSdk} `{GraphileLaws} (JSON_stringify : json -> bytes).
(** [JSON.parse] reads what [JSON.stringify] wrote of [{ runId }]. *)
Context (JSON_round_trip : forall i,
  JSON_parse (JSON_stringify (JObj [("runId", JStr i)])) = Some (JObj [("runId", JStr i)])).

Lemma recover_readRunId r : readRunId (recover_message JSON_stringify r) = Some (run_id r).
Proof. unfold readRunId, readBody. cbn [md_data recover_message]. rewrite JSON_round_trip. done. Qed.

Lemma boot_candidates_nodup d g : runs_keyed d -> NoDup (boot_candidates d g).
Proof.
  intros Hk. unfold boot_candidates.
  assert (Hn : NoDup (br_run <$> boot_rows d g)).
  { unfold boot_rows. rewrite <- list_fmap_compose. change (br_run ∘ boot_row_of d g) with (fun r : run_row => r).
    rewrite list_fmap_id, sort_with_perm. by apply NoDup_filter, run_values_nodup. }
  eapply sublist_NoDup; [exact Hn|]. apply fmap_sublist, sublist_filter.
Qed.

(** Where the keys are free, the calls give each candidate a key of its own. *)
Lemma recover_keys_nodup p w now d g ok : runs_keyed d -> keys_free d g ->
  NoDup ((fun j => ts_jobKey (aj_spec j)) <$>
    filter (fun j => ok j = true) (recover_job JSON_stringify p w now <$> boot_candidates d g)).
Proof.
  intros Hk Hf. eapply sublist_NoDup; [|apply fmap_sublist, sublist_filter]. rewrite <- list_fmap_compose.
  apply NoDup_fmap_2_strong; [|by apply boot_candidates_nodup]. intros r r' Hr Hr' E. cbn in E.
  apply (inj Some) in E. apply recover_key_inj in E. apply elem_boot_candidates in Hr as [Hd Hw], Hr' as [Hd' Hw'].
  destruct (Hf r' Hd' Hw') as [Ht _]. specialize (Ht r Hd Hw E).
  destruct Hd as ([k Hr] & _), Hd' as ([k' Hr'] & _). pose proof (Hk _ _ Hr). pose proof (Hk _ _ Hr'). congruence.
Qed.

(** C10 After boot recovery without a host filter, with the documented behaviour of
    graphile and the keys of the runs to recover free, nothing that can be
    dispatched is stranded: in graphile's tables as the sweep leaves them every
    such run has something to wake it, or its call of [addJob] failed. Every job
    that would be delivered was there before, or is a candidate's: of the run's
    queue, with a message that routes to the deployment the run is on. *)
Theorem boot_strands_no_run reclaim now d g p ok : runs_keyed d -> keys_free d g ->
  let rv := recoverActiveRunsForAllTenants JSON_stringify reclaim now d g p None ok in
  let g' := rv_graphile rv in
  (forall r, dispatchable d r -> has_wake d g' r = true \/
     has_wake d g r = false /\
     exists j, ok j = false /\ aj_payload j = StoredMessage (recover_message JSON_stringify r) None) /\
  (forall h, h ∈ gr_jobs g' -> deliverable h = true -> (exists h0, h0 ∈ gr_jobs g /\ but_lock h0 h) \/
     exists r, dispatchable d r /\ has_wake d g r = false /\
       j_task (hj_job h) = FLOW_JOB_NAME /\ j_queue (hj_job h) = Some (queue_of_run r) /\
       j_payload (hj_job h) = StoredMessage (recover_message JSON_stringify r) None /\
       (run_id r <> "" -> resolveAffinity (recover_message JSON_stringify r) (run_lookup (run_tenant r) (run_id r) d) =
          ToDeployment (run_deploymentId r) (Some (run_id r)))).
Proof.
  intros Hk Hf rv g'. set (w := match paced p with Some p => waves (pc_deploymentsPerWave p) (boot_candidates d g) | None => [] end).
  set (jobs := recover_job JSON_stringify (paced p) w now <$> boot_candidates d g).
  assert (E : exists ws, g' = add_jobs (filter (fun j => ok j = true) jobs) (unlocked_graphile ws g)) by (by eexists).
  destruct E as [ws E]. rewrite E. clear E g' rv.
  assert (Hjobs : forall j, j ∈ filter (fun j => ok j = true) jobs -> exists r, r ∈ boot_candidates d g /\
    j = recover_job JSON_stringify (paced p) w now r).
  { intros j [_ Hj]%list_elem_of_filter. apply list_elem_of_fmap in Hj as (r & -> & Hr). eauto. }
  assert (Hstay : forall h, h ∈ gr_jobs g -> deliverable h = true -> exists h',
    h' ∈ gr_jobs (add_jobs (filter (fun j => ok j = true) jobs) (unlocked_graphile ws g)) /\ but_lock h h').
  { intros h Hh Hd. destruct (forall2_elem_l _ _ _ _ (unlocked_jobs ws g) Hh) as (h' & Hh' & Hb). exists h'. split; [|done].
    apply add_jobs_stay; [|done]. intros j (r & Hr & ->)%Hjobs. split; [done|]. right. destruct Hb as ([= _ _ _ ->] & _).
    apply elem_boot_candidates in Hr as [Hdr Hw]. by apply Hf. }
  split.
  - intros r Hr. destruct (has_wake d g r) eqn:Ew.
    + left. unfold has_wake in *. apply orb_true_iff in Ew as [Ew|Ew]; [|by rewrite Ew, orb_true_r].
      rewrite (live_job_stays g _ r Hstay); [done| |done]. intros q Hq. by apply add_jobs_queues, unlocked_queues.
    + destruct (ok (recover_job JSON_stringify (paced p) w now r)) eqn:Eo; [left|right; split; [done|by eexists]].
      assert (Hin : recover_job JSON_stringify (paced p) w now r ∈ filter (fun j => ok j = true) jobs).
      { apply list_elem_of_filter. split; [done|]. apply list_elem_of_fmap_2. by apply elem_boot_candidates. }
      destruct (add_jobs_scheduled _ (unlocked_graphile ws g) _ (queue_of_run r) Hin) as [(h & Hh & Hs) Hq].
      { apply Forall_forall. intros j (x & _ & ->)%Hjobs. split; [done|by eexists]. }
      { by apply recover_keys_nodup. }
      { done. }
      unfold has_wake, has_live_job. rewrite bool_decide_eq_true_2 by done. cbn [andb]. rewrite (proj2 (existsb_exists _ _)); [done|].
      exists h. split; [by apply list_elem_of_In|]. destruct Hs as ([= _ _ -> _] & _ & Ha & Hm & _).
      unfold deliverable. rewrite Ha, Hm. by rewrite bool_decide_eq_true_2.
  - intros h Hh Hd. apply add_jobs_only in Hh as [Hh|[(j & (r & Hr & ->)%Hjobs & Hs)|Hn]]; [| |congruence].
    + left. by apply (forall2_elem_r _ _ _ _ (unlocked_jobs ws g)) in Hh.
    + right. apply elem_boot_candidates in Hr as [Hdr Hw]. destruct Hs as ([= -> -> -> _] & _).
      exists r. repeat (split; [done|]). intros Hne. destruct Hdr as ([k Hr] & Ha & Hq). pose proof (Hk _ _ Hr) as ->.
      unfold resolveAffinity, run_lookup, get_run. rewrite recover_readRunId, given_nonempty, Hr by done.
      cbn [fmap option_fmap option_map rf_status rf_quarantined]. unfold quarantined, unresolved_letter in Hq. rewrite Hq.
      unfold run_active in Ha. by destruct (run_status r).
Qed.

(** Where they are not free, they strand: of two runs with one id in two tenants one
    at most is left with the recovery's job. *)
Lemma one_id_one_recovery reclaim now d g p f ok r r' h h' : keys_unique (rv_graphile
    (recoverActiveRunsForAllTenants JSON_stringify reclaim now d g p f ok)) ->
  run_id r = run_id r' -> run_tenant r <> run_tenant r' ->
  let g' := rv_graphile (recoverActiveRunsForAllTenants JSON_stringify reclaim now d g p f ok) in
  h ∈ gr_jobs g' -> j_key (hj_job h) = Some (recover_key r) ->
  j_payload (hj_job h) = StoredMessage (recover_message JSON_stringify r) None ->
  h' ∈ gr_jobs g' -> j_key (hj_job h') = Some (recover_key r') ->
  j_payload (hj_job h') <> StoredMessage (recover_message JSON_stringify r') None.
Proof.
  intros Hu Ei Et g' Hh Hkey Hp Hh' Hkey' Hp'. unfold recover_key in *. rewrite <- Ei in Hkey'.
  pose proof (Hu h h' _ Hh Hh' Hkey Hkey') as ->. rewrite Hp in Hp'. unfold recover_message in Hp'. congruence.
Qed.

(** With pacing, every job of a deployment is due at the start of the sweep or
    a whole number of intervals later, all jobs of one deployment at the same
    time, and no more deployments than the pacing says are due at one time,
    however many there are and whatever the host lets through. *)
Theorem boot_paces_deployments reclaim now d g p filterRuns addJob_ok kept :
  0 < pc_waveIntervalMs p -> 0 < pc_deploymentsPerWave p ->
  kept_by_host filterRuns (boot_candidates d g) = Ok kept ->
  rv_added (recoverActiveRunsForAllTenants JSON_stringify reclaim now d g (Some p) filterRuns addJob_ok) =
    Ok (filter (fun j => addJob_ok j = true)
      (recover_job JSON_stringify (Some p) (waves (pc_deploymentsPerWave p) kept) now <$> kept)) /\
  (forall r, r ∈ kept -> exists n, wave_of (waves (pc_deploymentsPerWave p) kept) (deployment_of r) = Some n /\ 0 <= n /\
     ts_runAt (aj_spec (recover_job JSON_stringify (Some p) (waves (pc_deploymentsPerWave p) kept) now r)) =
       Some (now + n * pc_waveIntervalMs p)) /\
  (forall n, Z.of_nat (length (in_wave (pc_deploymentsPerWave p) n kept)) <= pc_deploymentsPerWave p).
Proof.
  intros Hi Hp Hkept. unfold recoverActiveRunsForAllTenants. cbn [rv_added]. fold (boot_candidates d g). rewrite Hkept.
  assert (E : paced (Some p) = Some p).
  { cbn. by rewrite (proj2 (Z.ltb_lt _ _) Hi), (proj2 (Z.ltb_lt _ _) Hp). }
  rewrite E. split; [done|]. split; [|intros n; by apply wave_size].
  intros r Hr. destruct (wave_of (waves (pc_deploymentsPerWave p) kept) (deployment_of r)) as [n|] eqn:Ew.
  - exists n. split; [done|]. split.
    + rewrite waves_numbered in Ew. apply wave_lookup in Ew as (i & _ & ->); [|apply first_seen_nodup].
      apply Z.div_pos; lia.
    + cbn. by rewrite Ew.
  - exfalso. rewrite waves_numbered in Ew. apply wave_of_none in Ew. rewrite numbered_fst in Ew. apply Ew, elem_first_seen. eauto.
Qed.

(** Reclaiming unlocks every worker of the generation before that holds the
    queue of a dispatchable run, or a delivery or timer in no queue, whatever
    the host lets through and even when it throws; without it nothing is unlocked. *)
Theorem boot_reclaims_locks now d g p filterRuns addJob_ok :
  (forall r w, dispatchable d r -> gr_queues g !! queue_of_run r = Some (Some w) -> w <> "" ->
     w ∈ rv_unlocked (recoverActiveRunsForAllTenants JSON_stringify true now d g p filterRuns addJob_ok)) /\
  (forall j w, j ∈ gr_jobs g -> j_queue (hj_job j) = None -> hj_lockedBy j = Some w ->
     j_task (hj_job j) = FLOW_JOB_NAME \/ j_task (hj_job j) = TIMER_JOB_NAME ->
     w ∈ rv_unlocked (recoverActiveRunsForAllTenants JSON_stringify true now d g p filterRuns addJob_ok)) /\
  rv_unlocked (recoverActiveRunsForAllTenants JSON_stringify false now d g p filterRuns addJob_ok) = [].
Proof.
  assert (E : forall reclaim, rv_unlocked (recoverActiveRunsForAllTenants JSON_stringify reclaim now d g p filterRuns addJob_ok) =
    if reclaim then old_workers (boot_rows d g) g else []).
  { intros reclaim. unfold recoverActiveRunsForAllTenants. by destruct (kept_by_host _ _). }
  rewrite !E. split; [|split; [|done]].
  - intros r w Hr Hq Hw. apply elem_of_remove_dups, elem_of_app. left. apply list_elem_of_omap.
    exists (boot_row_of d g r). split; [apply elem_boot_rows; eauto|]. cbn. rewrite Hq. cbn. by apply given_nonempty.
  - intros j w Hj Hq Hw Ht. apply elem_of_remove_dups, elem_of_app. right. apply elem_of_remove_dups, list_elem_of_omap.
    exists j. split; [done|]. rewrite Hq, !bool_decide_eq_true_2; [done|done|].
    destruct Ht as [->| ->]; [left|right; left].
Qed.
End Sweep.

(** ** The embedded recovery *)

Lemma reenqueue_read fuel next : forall c l, read_pages fuel next c = Some l -> reenqueue_pages fuel next c = l.
Proof.
  induction fuel as [|fuel IH]; intros c l E; [done|]. rewrite read_pages_S in E. cbn [reenqueue_pages].
  destruct (pg_hasMore (next c)); [|injection E as <-; by rewrite app_nil_r].
  destruct (read_pages fuel next (pg_cursor (next c))) as [k|] eqn:Ek; [|done]. injection E as <-. by rewrite (IH _ _ Ek).
Qed.

Section Embedded.
Context `{WorldSdk} `{QueueSdk} (tenantId : string) (d : Db) (m : mem).

(** The listing the loop reads, of a database at rest. *)
Definition list_active (status : RunStatus.t) (cursor : option string) : page run_row :=
  page_read (fun c => runs_list tenantId None (Some [status]) None c (Some ResolveNone)) m d cursor.

Definition runs_in (status : RunStatus.t) : list run_row :=
  tenant_runs tenantId (fun r => bool_decide (run_status r = status)) d.

Lemma list_active_page status c : list_active status c =
  let pg := key_page run_id 20 Desc c (runs_in status) in
  Page (map (fun r => filterRunData r ResolveNone) (pg_data pg)) (pg_cursor pg) (pg_hasMore pg).
Proof.
  unfold list_active, page_read, runs_list. rewrite run_select. cbn [default resolve_of from_option].
  assert (E : tenant_runs tenantId (fun r => true && bool_decide (run_status r ∈ [status])) d = runs_in status).
  { unfold tenant_runs, runs_in, tenant_runs. apply list_filter_iff. intros r. cbn.
    rewrite !bool_decide_eq_true, list_elem_of_singleton. done. }
  cbn [truthy]. by rewrite E.
Qed.
Lemma read_pages_mono {A} fuel : forall fuel' (next : option string -> page A) c l,
  (fuel <= fuel')%nat -> read_pages fuel next c = Some l -> read_pages fuel' next c = Some l.
Proof.
  induction fuel as [|fuel IH]; intros [|fuel'] next c l Hle E; try done; [lia|]. rewrite read_pages_S in *.
  destruct (pg_hasMore (next c)); [|done]. destruct (read_pages fuel next _) as [k|] eqn:Ek; [|done].
  by rewrite (IH fuel' next _ k) by (done || lia).
Qed.

Definition recovery_call (r : run_row) : string * json :=
  (getQueueTopicPrefix None +:+ run_workflowName r, JObj [("runId", JStr (run_id r))]).

Lemma status_calls status fuel : runs_keyed d -> (forall k r, db_runs d !! k = Some r -> run_id r <> "") ->
  (length (runs_in status) < fuel)%nat ->
  recovery_call <$> reenqueue_pages fuel (list_active status) None ≡ₚ recovery_call <$> runs_in status.
Proof.
  intros Hk Hid Hf.
  assert (Hin : forall r, r ∈ runs_in status -> run_tenant r = tenantId /\ exists k, db_runs d !! k = Some r).
  { intros r Hr. unfold runs_in, tenant_runs in Hr. apply list_elem_of_filter in Hr as [[? _] Hr]. by apply elem_of_values in Hr. }
  assert (Hall : read_pages (S (length (runs_in status))) (fun c => key_page run_id 20 Desc c (runs_in status)) None =
    Some (ordered run_id Desc (runs_in status))).
  { apply read_pages_all; [lia| |].
    - apply NoDup_fmap_2_strong.
      + intros x y Hx Hy E. destruct (Hin x Hx) as (Tx & kx & Ex), (Hin y Hy) as (Ty & ky & Ey).
        pose proof (Hk _ _ Ex). pose proof (Hk _ _ Ey). congruence.
      + unfold runs_in, tenant_runs. by apply NoDup_filter, run_values_nodup.
    - apply Forall_forall. intros r Hr. destruct (Hin r Hr) as (_ & k & Er). by eapply Hid. }
  assert (E : reenqueue_pages fuel (list_active status) None =
    map (fun r => filterRunData r ResolveNone) (ordered run_id Desc (runs_in status))).
  { apply reenqueue_read. apply (read_pages_mono (S (length (runs_in status)))); [lia|].
    transitivity (read_pages (S (length (runs_in status))) (fun c => Page (map (fun r => filterRunData r ResolveNone)
      (pg_data (key_page run_id 20 Desc c (runs_in status)))) (pg_cursor (key_page run_id 20 Desc c (runs_in status)))
      (pg_hasMore (key_page run_id 20 Desc c (runs_in status)))) None).
    - clear Hall. generalize (@None string). induction (S (length (runs_in status))) as [|n IH]; intros c; [done|].
      rewrite !read_pages_S, !list_active_page. cbv zeta. cbn [pg_data pg_cursor pg_hasMore]. by rewrite IH.
    - by rewrite read_pages_map, Hall. }
  rewrite E. rewrite <- list_fmap_compose. change (recovery_call ∘ (fun r => filterRunData r ResolveNone)) with recovery_call.
  apply fmap_Permutation. unfold ordered. rewrite <- Permutation_rev. apply sort_by_perm.
Qed.

(** The embedded recovery, with every enqueue taken, enqueues each of the
    tenant's pending and running runs exactly once, page after page, and no
    other run. *)
Theorem embedded_recovery_complete fuel : runs_keyed d -> (forall k r, db_runs d !! k = Some r -> run_id r <> "") ->
  (size (db_runs d) < fuel)%nat ->
  reenqueueTenantRuns fuel list_active (fun _ _ => true) ≡ₚ
    recovery_call <$> tenant_runs tenantId run_active d.
Proof.
  intros Hk Hid Hf. unfold reenqueueTenantRuns. rewrite filter_all by done.
  assert (Hlen : forall status, (length (runs_in status) < fuel)%nat).
  { intros status. eapply Nat.le_lt_trans; [apply length_filter|].
    by rewrite length_fmap, length_map_to_list. }
  fold recovery_call. rewrite !status_calls by done. rewrite <- fmap_app. apply fmap_Permutation.
  assert (Hn : forall p, NoDup (tenant_runs tenantId p d)) by (intros p; by apply NoDup_filter, run_values_nodup).
  apply NoDup_Permutation; [|done|].
  - apply NoDup_app. split; [apply Hn|]. split; [|apply Hn]. intros r Hr Hr'. unfold runs_in, tenant_runs in Hr, Hr'.
    apply list_elem_of_filter in Hr as [[_ H1] _], Hr' as [[_ H2] _]. bools. congruence.
  - intros r. unfold runs_in, tenant_runs. rewrite elem_of_app, !list_elem_of_filter, !bool_decide_eq_true.
    unfold run_active. destruct (run_status r); naive_solver.
Qed.
End Embedded.

(** ** A boot after a crash *)

Definition boot_queue_sdk : QueueSdk := {|
  JSON_parse b := Some (JObj [("runId", JStr (String.string_of_list_byte b))]);
  js_Number _ := JsNaN;
  messageRunSpecVersion _ := None;
  isSingleOrchestratorMessage _ := false;
  singleOrchestratorRunIdOf _ := None;
  invokePayload_safeParse j := Some j;
  queuePayload_parse _ := true;
  getQueueTopicPrefix _ := "__wkf_workflow_";
  parseQueueName_id s := s
|}.
Definition boot_stringify (j : json) : bytes := text_bytes (default "" (string_field "runId" j)).

Lemma boot_round_trip i : JSON_parse (QueueSdk:=boot_queue_sdk) (boot_stringify (JObj [("runId", JStr i)])) =
  Some (JObj [("runId", JStr i)]).
Proof.
  transitivity (Some (JObj [("runId", JStr (String.string_of_list_byte (text_bytes i)))])); [reflexivity|].
  unfold text_bytes. by rewrite String.string_of_list_byte_of_string.
Qed.

Definition boot_run_row (id dep : string) (status : RunStatus.t) (at_ : instant) : run_row :=
  RunRow "t1" id dep "wf" status None None None None None None None None ∅ at_ at_ None None
    "interactive" id None None None None.

(** [lost] has nothing left, [asleep] lost its timer, [parked] waits on a Hook,
    [queued] has its job still; [done] has ended. *)
Definition boot_db : Db :=
  MkDb (list_to_map ((fun r => ((run_tenant r, run_id r), r)) <$>
      [boot_run_row "lost" "dpl_1" RunStatus.running 1; boot_run_row "asleep" "dpl_2" RunStatus.running 2;
       boot_run_row "parked" "dpl_3" RunStatus.running 3; boot_run_row "queued" "dpl_4" RunStatus.pending 4;
       boot_run_row "done" "dpl_5" RunStatus.completed 5]))
    [] ∅ ∅
    {[("t1", "hook_1") := HookRow "t1" "parked" "hook_1" "tk1" None None None None None None true;
      ("t1", "hook_2") := HookRow "t1" "asleep" "hook_2" "tk2" None None None None None None true]}
    {[("t1", "wait_1") := WaitRow "t1" "wait_1" "asleep" WaitStatus.waiting (Some 99) None None]}
    ∅ [] None 10.

Definition boot_graphile : graphile := Graphile
  [HeldJob (Job 1 FLOW_JOB_NAME (Some "wfrun:t1:queued") None (StoredOther true) 0 3 None 0 None 0) 49 None;
   HeldJob (Job 2 FLOW_JOB_NAME None None (StoredOther true) 0 3 (Some 5) 0 None 0) 49 (Some "worker_b")]
  {["wfrun:t1:queued" := Some "worker_a"; "wfrun:t1:lost" := None]}.

Lemma boot_db_keyed : runs_keyed boot_db.
Proof.
  intros k r Hr. assert (H : map_Forall (fun k r => k = (run_tenant r, run_id r)) (db_runs boot_db)).
  { apply (bool_decide_unpack (map_Forall (fun k r => k = (run_tenant r, run_id r)) (db_runs boot_db))). vm_compute. exact I. }
  exact (H k r Hr).
Qed.

(** A graphile that behaves as documented. *)
Definition gives_way (j : add_job) (h : held_job) : bool :=
  bool_decide (is_Some (ts_jobKey (aj_spec j))) && bool_decide (j_key (hj_job h) = ts_jobKey (aj_spec j)).
Definition without_key (h : held_job) : held_job :=
  let j := hj_job h in
  HeldJob (Job (j_id j) (j_task j) (j_queue j) (j_flags j) (j_payload j) (j_revision j) (hj_maxAttempts h) (j_lockedAt j)
    (j_runAt j) None (j_updatedAt j)) (hj_maxAttempts h) (hj_lockedBy h).
Definition inserted (j : add_job) : held_job :=
  let t := aj_spec j in
  HeldJob (Job 0 (aj_identifier j) (ts_queueName t) (ts_flags t) (aj_payload j) 0 0 None (default 0 (ts_runAt t)) (ts_jobKey t) 0)
    (ts_maxAttempts t) None.
Definition unlocks (ws : list string) (holder : option string) : option string :=
  w ← holder; if decide (w ∈ ws) then None else Some w.
Definition unlock_one (ws : list string) (h : held_job) : held_job :=
  HeldJob (hj_job h) (hj_maxAttempts h) (unlocks ws (hj_lockedBy h)).

#[local] Instance boot_utils : GraphileUtils := {|
  addJob j g := Graphile
    (omap (fun h => if gives_way j h then (if hj_lockedBy h then Some (without_key h) else None) else Some h) (gr_jobs g) ++ [inserted j])
    (match ts_queueName (aj_spec j) with
     | Some q => match gr_queues g !! q with Some _ => gr_queues g | None => <[q := None]> (gr_queues g) end
     | None => gr_queues g
     end);
  forceUnlockWorkers ws g := Graphile (unlock_one ws <$> gr_jobs g) (unlocks ws <$> gr_queues g)
|}.

Lemma boot_utils_job j g h : h ∈ gr_jobs (addJob j g) <->
  h = inserted j \/ (h ∈ gr_jobs g /\ gives_way j h = false) \/
  exists h0, h0 ∈ gr_jobs g /\ gives_way j h0 = true /\ is_Some (hj_lockedBy h0) /\ h = without_key h0.
Proof.
  cbn. rewrite elem_of_app, list_elem_of_omap, list_elem_of_singleton. split.
  - intros [(x & Hx & E)|?]; [|by left]. right. destruct (gives_way j x) eqn:Eg; [|left; by simplify_eq].
    destruct (hj_lockedBy x) eqn:El; [|done]. injection E as <-. right. exists x. rewrite El. eauto.
  - intros [->|[[Hh Eg]|(x & Hx & Eg & [w El] & ->)]]; [by right| |]; left; eexists; (split; [done|]); by rewrite Eg, ?El.
Qed.

Lemma gives_way_key j h : gives_way j h = true <-> exists k, ts_jobKey (aj_spec j) = Some k /\ j_key (hj_job h) = Some k.
Proof.
  unfold gives_way. rewrite andb_true_iff, !bool_decide_eq_true. split.
  - intros [[k Hk] E]. exists k. by rewrite E, Hk.
  - intros (k & -> & ->). split; [by eexists|done].
Qed.

#[local] Instance boot_utils_laws : GraphileLaws.
Proof.
  split.
  - intros j g. exists (inserted j). split; [by apply boot_utils_job; left|done].
  - intros j g h _ Hh Hk. apply boot_utils_job. right. left. split; [done|]. apply not_true_iff_false.
    rewrite gives_way_key. intros (k & E1 & E2). destruct Hk; congruence.
  - intros j g h [->|[[Hh _]|(x & _ & _ & _ & ->)]]%boot_utils_job; [by right; left|by left|right; right].
    unfold deliverable, without_key. cbn. apply Z.ltb_irrefl.
  - intros j g q E. cbn. rewrite E. destruct (gr_queues g !! q) eqn:Eq; [by rewrite Eq; eexists|].
    rewrite lookup_insert_eq. by eexists.
  - intros j g q Hq. cbn. destruct (ts_queueName (aj_spec j)) as [q'|]; [|done].
    destruct (gr_queues g !! q') eqn:Eq; [done|]. destruct (decide (q = q')) as [->|Hne]; [|by rewrite lookup_insert_ne].
    rewrite lookup_insert_eq. by eexists.
  - intros j g Hu h h' k Hh Hh' Ek Ek'.
    assert (Hold : forall x, x ∈ gr_jobs (addJob j g) -> j_key (hj_job x) = Some k ->
      x = inserted j /\ ts_jobKey (aj_spec j) = Some k \/ x ∈ gr_jobs g /\ ts_jobKey (aj_spec j) <> Some k).
    { intros x [->|[[Hx Eg]|(y & _ & _ & _ & ->)]]%boot_utils_job Ex; [by left| |done]. right. split; [done|].
      intros E. apply not_true_iff_false in Eg. apply Eg, gives_way_key. eauto. }
    destruct (Hold h Hh Ek) as [[-> E]|[Hg E]], (Hold h' Hh' Ek') as [[-> E']|[Hg' E']]; try done. by eapply Hu.
  - intros ws g. cbn. apply Forall2_fmap_r, Forall_Forall2_diag, Forall_true. done.
  - intros ws g q. cbn. rewrite lookup_fmap. destruct (gr_queues g !! q); cbn; split; intros [? ?]; by eexists || done.
Qed.

Definition boot_demo (reclaim : bool) : recovery :=
  recoverActiveRunsForAllTenants boot_stringify reclaim 1000 boot_db boot_graphile (Some (Pacing 1 60000))
    None (fun _ => true).

Lemma boot_keys_free : keys_free boot_db boot_graphile.
Proof.
  assert (E : run_tenant <$> boot_candidates boot_db boot_graphile = ["t1"; "t1"]) by (vm_compute; reflexivity).
  assert (Et : forall r, r ∈ boot_candidates boot_db boot_graphile -> run_tenant r = "t1").
  { intros r Hr. pose proof (list_elem_of_fmap_2 run_tenant _ _ Hr) as Hin. rewrite E in Hin. clear E Hr.
    apply elem_of_cons in Hin as [Hin|Hin]; [exact Hin|]. apply elem_of_cons in Hin as [Hin|Hin]; [exact Hin|].
    by apply elem_of_nil in Hin. }
  intros r Hd Hw. split.
  - intros r' Hd' Hw' _. transitivity "t1"; [|symmetry]; apply Et, elem_boot_candidates; by split.
  - intros h Hh _ Hkey. cbn in Hh. rewrite !elem_of_cons in Hh.
    destruct Hh as [->|[->|Hh]]; [discriminate Hkey|discriminate Hkey|by apply elem_of_nil in Hh].
Qed.

(** The lost and the sleeping run are each left with a job to wake them, the second
    a wave later; the one parked on its hook is left alone. *)
Lemma boot_strands_no_run_witness :
  (forall r, dispatchable boot_db r -> has_wake boot_db (rv_graphile (boot_demo true)) r = true) /\
  map (fun h => (j_key (hj_job h), j_runAt (hj_job h))) (drop 2 (gr_jobs (rv_graphile (boot_demo true)))) =
    [(Some "msg_recover_lost", 1000); (Some "msg_recover_asleep", 61000)].
Proof.
  split; [|vm_compute; reflexivity].
  destruct (boot_strands_no_run (H0:=boot_queue_sdk) boot_stringify boot_round_trip true 1000 boot_db boot_graphile
    (Some (Pacing 1 60000)) (fun _ => true) boot_db_keyed boot_keys_free) as [Hw _].
  intros r Hr. destruct (Hw r Hr) as [H|(_ & j & Hj & _)]; [exact H|discriminate Hj].
Defined.

(** Two tenants with a run of one id, both lost: the second call replaces the first
    one's job, and the first tenant's run is left with nothing to wake it. *)
Definition shared_run (tenant : string) : run_row :=
  RunRow tenant "same" "dpl_1" "wf" RunStatus.running None None None None None None None None ∅ 1 1 None None
    "interactive" "same" None None None None.
Definition shared_db : Db :=
  MkDb (list_to_map ((fun r => ((run_tenant r, run_id r), r)) <$> [shared_run "t1"; shared_run "t2"])) [] ∅ ∅ ∅ ∅ ∅ [] None 10.

Lemma shared_id_strands_a_run :
  let g' := rv_graphile (recoverActiveRunsForAllTenants boot_stringify true 1000 shared_db (Graphile [] ∅)
    None None (fun _ => true)) in
  has_wake shared_db g' (shared_run "t1") = false /\ has_wake shared_db g' (shared_run "t2") = true.
Proof. vm_compute. split; reflexivity. Qed.

Lemma boot_paces_deployments_witness :
  Z.of_nat (length (in_wave 1 0 (boot_candidates boot_db boot_graphile))) <= 1 /\
  rv_added (boot_demo true) = Ok (filter (fun _ : add_job => true = true)
    (recover_job boot_stringify (Some (Pacing 1 60000)) (waves 1 (boot_candidates boot_db boot_graphile)) 1000 <$>
       boot_candidates boot_db boot_graphile)).
Proof.
  destruct (boot_paces_deployments boot_stringify true 1000 boot_db boot_graphile (Pacing 1 60000) None (fun _ => true)
    (boot_candidates boot_db boot_graphile) eq_refl eq_refl eq_refl) as (E & _ & Hw).
  split; [exact (Hw 0)|exact E].
Defined.

Lemma embedded_recovery_complete_witness :
  reenqueueTenantRuns (H0:=boot_queue_sdk) 9 (list_active "t1" boot_db (empty_mem 0)) (fun _ _ => true) ≡ₚ
    recovery_call (H0:=boot_queue_sdk) <$> tenant_runs "t1" run_active boot_db.
Proof.
  assert (Hid : forall k r, db_runs boot_db !! k = Some r -> run_id r <> "").
  { intros k r Hr. assert (H : map_Forall (fun _ r => run_id r <> "") (db_runs boot_db)).
    { apply (bool_decide_unpack (map_Forall (fun _ r => run_id r <> "") (db_runs boot_db))). vm_compute. exact I. }
    exact (H k r Hr). }
  apply (embedded_recovery_complete (H0:=boot_queue_sdk) "t1" boot_db (empty_mem 0) 9 boot_db_keyed Hid).
  apply Nat.ltb_lt. vm_compute. reflexivity.
Defined.
