(* ===== verification/BackfillProps.v ===== *)
(** What a backfill reaches: the computed graph is the closure of the marked
    roots under the links of the runs, and batch after batch every run of it
    that is not persistent gets the class. *)
From S2P Require Import Prelude Model Prog Paging Slots Sdk Tenant RunRetention Schema Retention Reconciliation Backfill.
From S2P Require Import RetentionProps ReconcileProps.
From stdpp Require Import sorting.
Local Open Scope Z_scope.

Section Graph.
Context (s : normalized).

(** A run carries the marker of a root; a run names another as its parent, or
    as the root of its graph, under either spelling. *)
Definition marked (r : run_row) : Prop := run_attributes r !! nm_rootAttribute s = Some (nm_rootValue s).
Definition names (r : run_row) (id root : string) : Prop :=
  run_attributes r !! "$parentRunId" = Some id \/ run_attributes r !! "$eve.parent" = Some id \/
  run_attributes r !! "$rootRunId" = Some root \/ run_attributes r !! "$eve.root" = Some root.

(** A run descends from a marked root. *)
Inductive descends (d : Db) : string -> string -> Prop :=
| descends_root r : r ∈ tenant_rows s d -> marked r -> descends d (run_id r) (run_id r)
| descends_child r id root : r ∈ tenant_rows s d -> descends d id root -> names r id root -> descends d (run_id r) root.

Lemma is_root_iff r : is_root s r = true <-> marked r.
Proof. apply bool_decide_eq_true. Qed.

Lemma linked_iff r p : linked r p = true <-> names r p.1 p.2.
Proof. unfold linked, names, attribute_is. rewrite !orb_true_iff, !bool_decide_eq_true. tauto. Qed.

Lemma elem_joined d g p : p ∈ joined_rows s d g <->
  exists r q, r ∈ tenant_rows s d /\ q ∈ g /\ linked r q = true /\ p = (run_id r, q.2).
Proof.
  unfold joined_rows. rewrite list_elem_of_In, in_concat. split.
  - intros (l & Hl & Hp). apply list_elem_of_In, list_elem_of_fmap in Hl as (r & -> & Hr).
    apply list_elem_of_In, list_elem_of_fmap in Hp as (q & -> & Hq). apply list_elem_of_filter in Hq as [Hlk Hq]. eauto 10.
  - intros (r & q & Hr & Hq & Hl & ->). eexists. split; [apply list_elem_of_In, list_elem_of_fmap_2, Hr|].
    apply list_elem_of_In, list_elem_of_fmap. exists q. split; [done|]. by apply list_elem_of_filter.
Qed.

Lemma elem_new d g p : p ∈ new_rows_of s d g <-> p ∈ joined_rows s d g /\ p ∉ g.
Proof. unfold new_rows_of. rewrite elem_of_remove_dups, list_elem_of_filter. tauto. Qed.

(** The rows there can be: a run's id, with the id of a root. *)
Definition universe (d : Db) : list (string * string) :=
  list_prod (run_id <$> tenant_rows s d) (run_id <$> tenant_rows s d).

Definition sound (d : Db) (g : list (string * string)) : Prop := NoDup g /\ forall p, p ∈ g -> descends d p.1 p.2.

Lemma descends_universe d id root : descends d id root -> (id, root) ∈ universe d.
Proof.
  intros H. assert (Hr : id ∈ run_id <$> tenant_rows s d /\ root ∈ run_id <$> tenant_rows s d).
  { induction H as [r Hr _|r id root Hr _ [_ IH] _]; (split; [by apply list_elem_of_fmap_2|]).
    - by apply list_elem_of_fmap_2.
    - exact IH. }
  destruct Hr. unfold universe. apply list_elem_of_In, in_prod; by apply list_elem_of_In.
Qed.

Lemma sound_grow d g : sound d g -> sound d (g ++ new_rows_of s d g).
Proof.
  intros [Hn Hs]. split.
  - apply NoDup_app. split; [done|]. split; [|apply NoDup_remove_dups]. intros p Hp Hp'. by apply elem_new in Hp' as [_ ?].
  - intros p [Hp|Hp]%elem_of_app; [by apply Hs|]. apply elem_new in Hp as [Hp _].
    apply elem_joined in Hp as (r & q & Hr & Hq & Hl & ->). apply (descends_child d r q.1 q.2); [done|by apply Hs|].
    by apply linked_iff.
Qed.

Lemma sound_bound d g : sound d g -> (length g <= length (tenant_rows s d) * length (tenant_rows s d))%nat.
Proof.
  intros [Hn Hs]. transitivity (length (universe d)).
  - apply submseteq_length, NoDup_submseteq; [done|]. intros p Hp. destruct p. by apply descends_universe, (Hs (_, _)).
  - unfold universe. rewrite length_prod, !length_fmap. lia.
Qed.

Lemma close_spec d fuel : forall g, sound d g ->
  (length (tenant_rows s d) * length (tenant_rows s d) < fuel + length g)%nat ->
  sound d (close s fuel d g) /\ g ⊆ close s fuel d g /\ new_rows_of s d (close s fuel d g) = [].
Proof.
  induction fuel as [|fuel IH]; intros g Hg Hf.
  - pose proof (sound_bound d g Hg). lia.
  - cbn [close]. destruct (new_rows_of s d g) as [|p l] eqn:E; [split; [done|split; [done|by rewrite E]]|].
    pose proof (sound_grow d g Hg) as Hgrow. rewrite E in Hgrow. destruct (IH (g ++ p :: l) Hgrow) as (H1 & H2 & H3).
    { rewrite length_app. cbn [length]. lia. }
    split; [done|]. split; [|done]. intros x Hx. apply H2, elem_of_app. by left.
Qed.

(** The graph of a backfill is exactly the set of runs that descend from a
    root with the marker, over parent and root links of either spelling, each
    with the root it descends from, listed once. *)
Theorem graph_is_closure d : NoDup (graph s d) /\ forall id root, (id, root) ∈ graph s d <-> descends d id root.
Proof.
  unfold graph. assert (Hg : sound d (remove_dups (roots s d))).
  { split; [apply NoDup_remove_dups|]. intros p Hp. rewrite elem_of_remove_dups in Hp. unfold roots in Hp.
    apply list_elem_of_fmap in Hp as (r & -> & Hr). apply list_elem_of_filter in Hr as [Hr Hin]. apply descends_root; [done|by apply is_root_iff]. }
  destruct (close_spec d (S (length (tenant_rows s d) * length (tenant_rows s d))) _ Hg) as ([Hn Hs] & Hsub & Hc); [lia|].
  split; [done|]. intros id root. split; [apply (Hs (id, root))|].
  induction 1 as [r Hr Hroot|r id root Hr _ IH Hl].
  - apply Hsub, elem_of_remove_dups, list_elem_of_fmap. exists r. split; [done|]. apply list_elem_of_filter. split; [by apply is_root_iff|done].
  - destruct (decide ((run_id r, root) ∈ close s (S (length (tenant_rows s d) * length (tenant_rows s d))) d
      (remove_dups (roots s d)))) as [|Hnot]; [done|]. exfalso.
    assert ((run_id r, root) ∈ new_rows_of s d (close s (S (length (tenant_rows s d) * length (tenant_rows s d))) d
      (remove_dups (roots s d)))) as Hin; [|rewrite Hc in Hin; by apply elem_of_nil in Hin].
    apply elem_new. split; [|done]. apply elem_joined. exists r, (id, root). split_and!; try done. by apply linked_iff.
Qed.

(** ** The preview's groups *)

Lemma descends_root_row d id root : runs_keyed d -> descends d id root -> is_Some (row_of s d root).
Proof.
  intros Hk. induction 1 as [r Hr _|]; [|done]. unfold tenant_rows in Hr. apply list_elem_of_filter in Hr as [Ht Hr].
  apply elem_of_values in Hr as [k Hr]. pose proof (Hk _ _ Hr) as ->. unfold row_of. rewrite <- Ht, Hr. by eexists.
Qed.

(** A list is counted out by its distinct members. *)
Lemma counted_out {A} `{EqDecision A} (l keys : list A) : NoDup keys -> (forall x, x ∈ l -> x ∈ keys) ->
  sum_list ((fun k => length (filter (fun x => x = k) l)) <$> keys) = length l.
Proof.
  revert l. induction keys as [|k keys IH]; intros l Hn Hl.
  - destruct l as [|x l]; [done|]. exfalso. apply (not_elem_of_nil x), Hl. by left.
  - apply NoDup_cons in Hn as [Hk Hn]. rewrite fmap_cons. cbn [sum_list].
    transitivity (length (filter (fun x => x = k) l) + length (filter (fun x => x <> k) l))%nat;
      [|by rewrite <- length_app, filter_app_complement].
    f_equal. rewrite <- (IH (filter (fun x => x <> k) l)); [|done|].
    + f_equal. apply list_fmap_ext. intros i x Hx. f_equal. rewrite list_filter_filter. apply list_filter_iff. intros y.
      split; [|tauto]. intros ->. split; [done|]. intros ->. by apply Hk, list_elem_of_lookup_2 with i.
    + intros x Hx. apply list_elem_of_filter in Hx as [Hne Hx]. apply Hl, elem_of_cons in Hx. by destruct Hx.
Qed.

Lemma group_keys_length d : runs_keyed d ->
  length (omap (group_key_of s d) (graph_runs s d)) = length (graph_runs s d).
Proof.
  intros Hk. assert (H : forall p, p ∈ graph_runs s d -> is_Some (group_key_of s d p)).
  { intros [r root] Hp. unfold graph_runs in Hp. apply list_elem_of_omap in Hp as ([id root'] & Hp & Hr). cbn in Hr.
    destruct (row_of s d id); [|done]. injection Hr as -> ->. apply graph_is_closure in Hp.
    destruct (descends_root_row d id root Hk Hp) as [x Hx]. unfold group_key_of. cbn [snd]. rewrite Hx. by eexists. }
  induction (graph_runs s d) as [|p l IH]; [done|]. simpl. destruct (H p) as [k ->]; [by left|]. simpl. f_equal.
  apply IH. intros q Hq. apply H. by right.
Qed.

(** Every row of the graph is counted in one group: the groups' runs sum up to
    the rows there are. *)
Lemma groups_partition d : runs_keyed d ->
  sum_list ((fun g => Z.to_nat (gr_runs g)) <$> preview_groups s d) = length (graph_runs s d).
Proof.
  intros Hk. rewrite <- (group_keys_length d Hk). unfold preview_groups. set (keys := omap _ _).
  rewrite <- (counted_out keys (remove_dups keys)); [|apply NoDup_remove_dups|by intros x Hx; apply elem_of_remove_dups].
  rewrite <- list_fmap_compose, sort_with_perm. f_equal. apply list_fmap_ext. intros i [[[[t y] n] x] c] _.
  unfold compose. cbn [group_of gr_runs]. by rewrite Nat2Z.id.
Qed.

End Graph.

(** ** Batches *)

Section Batches.
Context (s : normalized) (b : nat) (Hb : (0 < b)%nat).
Local Notation T := (nm_tenantId s).

(** The row as the update leaves it. *)
Definition reclassed (r : run_row) : run_row := set_run_retention_deadlines (set_retention_class (nm_class s) r).
Definition update_of (victims : list string) (r : run_row) : run_row :=
  if String.eqb (run_tenant r) T && bool_decide (run_id r ∈ victims) then reclassed r else r.
Definition updated (victims : list string) (d : Db) : Db := set_runs d (update_of victims <$> db_runs d).

Lemma update_same v r : run_tenant (update_of v r) = run_tenant r /\ run_id (update_of v r) = run_id r /\
  run_attributes (update_of v r) = run_attributes r.
Proof. unfold update_of. by destruct (_ && _). Qed.

Lemma elem_tenant_rows d r : r ∈ tenant_rows s d <-> run_tenant r = T /\ exists k, db_runs d !! k = Some r.
Proof. unfold tenant_rows. by rewrite list_elem_of_filter, elem_of_values. Qed.

Lemma elem_updated v d x : x ∈ tenant_rows s (updated v d) <-> exists r, r ∈ tenant_rows s d /\ x = update_of v r.
Proof.
  setoid_rewrite elem_tenant_rows. unfold updated. cbn [db_runs set_runs]. setoid_rewrite lookup_fmap_Some. split.
  - intros (Ht & k & r & <- & Hr). exists r. split; [|done]. destruct (update_same v r) as (E & _ & _). rewrite E in Ht. eauto.
  - intros (r & (Ht & k & Hr) & ->). destruct (update_same v r) as (E & _ & _). rewrite E. eauto.
Qed.

Lemma descends_mono d d' : (forall r, r ∈ tenant_rows s d -> exists r', r' ∈ tenant_rows s d' /\
    run_id r' = run_id r /\ run_attributes r' = run_attributes r) ->
  forall id root, descends s d id root -> descends s d' id root.
Proof.
  intros Hsame id root. induction 1 as [r Hr Hroot|r id root Hr _ IH Hl].
  - destruct (Hsame r Hr) as (r' & Hr' & E & Ea). rewrite <- E. apply descends_root; [done|].
    unfold marked in *. by rewrite Ea.
  - destruct (Hsame r Hr) as (r' & Hr' & E & Ea). rewrite <- E. apply (descends_child s d' r' id root); [done|done|].
    unfold names in *. by rewrite Ea.
Qed.

Lemma descends_updated v d id root : descends s (updated v d) id root <-> descends s d id root.
Proof.
  split; apply descends_mono; intros r Hr.
  - apply elem_updated in Hr as (x & Hx & ->). destruct (update_same v x) as (_ & ? & ?). eauto.
  - exists (update_of v r). destruct (update_same v r) as (_ & ? & ?). split; [apply elem_updated; eauto|done].
Qed.

Lemma graph_updated v d : graph s (updated v d) ≡ₚ graph s d.
Proof.
  destruct (graph_is_closure s d) as [Hn Hs], (graph_is_closure s (updated v d)) as [Hn' Hs'].
  apply NoDup_Permutation; [done..|]. intros [id root]. by rewrite Hs, Hs', descends_updated.
Qed.

(** Whether a row of the graph names an eligible run. *)
Definition row_eligible (d : Db) (p : string * string) : bool :=
  match row_of s d p.1 with Some r => eligible s r | None => false end.

Lemma count_rows d : countRemaining s d = length (filter (fun p => row_eligible d p = true) (graph s d)).
Proof.
  unfold countRemaining, graph_runs. induction (graph s d) as [|p l IH]; [done|]. cbn [omap list_omap]. rewrite filter_cons.
  assert (Ee : row_eligible d p = match row_of s d p.1 with Some r => eligible s r | None => false end) by done.
  destruct (row_of s d p.1) as [r|]; cbn [fmap option_fmap option_map]; [rewrite filter_cons; cbn [fst]|];
    repeat case_decide; cbn [length]; rewrite ?IH; congruence || done.
Qed.

Lemma row_updated v d id : row_of s (updated v d) id = update_of v <$> row_of s d id.
Proof. unfold row_of, updated. cbn. by rewrite lookup_fmap. Qed.

Lemma row_eligible_updated v d p : runs_keyed d ->
  row_eligible (updated v d) p = row_eligible d p && negb (bool_decide (p.1 ∈ v)).
Proof.
  intros Hk. unfold row_eligible. rewrite row_updated. destruct (row_of s d p.1) as [r|] eqn:E; [|done]. cbn.
  unfold row_of in E. pose proof (Hk _ _ E) as [= Et Ei]. unfold update_of. rewrite <- Et, <- Ei, String.eqb_refl. cbn [andb].
  case_bool_decide; cbn; [|by rewrite andb_true_r]. rewrite andb_false_r. unfold eligible, reclassed. cbn. by rewrite String.eqb_refl.
Qed.

(** The victims of a batch with no run locked elsewhere. *)
Definition batch_victims (d : Db) : list string := backfill_victims s [] b d.

Lemma victim_row d i : i ∈ batch_victims d -> exists r root, (r, root) ∈ graph_runs s d /\ eligible s r = true /\ run_id r = i.
Proof.
  unfold batch_victims, backfill_victims. intros Hi. apply list_elem_of_fmap in Hi as ([r root] & -> & Hp).
  apply elem_of_take in Hp as (j & Hj & _). apply list_elem_of_lookup_2 in Hj. rewrite sort_with_perm in Hj.
  apply list_elem_of_filter in Hj as [He Hj]. cbn in He. apply andb_true_iff in He as [He _]. eauto.
Qed.

Lemma elem_graph_runs d r root : (r, root) ∈ graph_runs s d <-> exists id, (id, root) ∈ graph s d /\ row_of s d id = Some r.
Proof.
  unfold graph_runs. rewrite list_elem_of_omap. split.
  - intros ([id root'] & Hp & Hr). cbn in Hr. destruct (row_of s d id) as [x|] eqn:E; [|done]. injection Hr as -> ->. eauto.
  - intros (id & Hp & Hr). exists (id, root). split; [done|]. cbn. by rewrite Hr.
Qed.

(** A batch changes something while anything is left. *)
Lemma batch_progress d : runs_keyed d -> (0 < countRemaining s d)%nat ->
  (countRemaining s (updated (batch_victims d) d) < countRemaining s d)%nat.
Proof.
  intros Hk Hpos. rewrite (count_rows (updated _ d)), graph_updated, (count_rows d).
  destruct (batch_victims d) as [|i v] eqn:E.
  { exfalso. unfold batch_victims, backfill_victims in E. apply fmap_nil_inv in E. apply (f_equal length) in E.
    rewrite length_take, sort_with_perm in E. cbn in E.
    match type of E with context [length ?l] => assert (El : length l = countRemaining s d) end.
    { unfold countRemaining. f_equal. apply list_filter_iff. intros p. rewrite andb_true_iff, bool_decide_eq_false_2 by apply not_elem_of_nil. tauto. }
    rewrite El in E. lia. }
  rewrite <- E. assert (Hi : i ∈ batch_victims d) by (rewrite E; by left).
  destruct (victim_row d i Hi) as (r & root & Hp & He & Hid). apply elem_graph_runs in Hp as (id & Hp & Hr).
  assert (id = i) as ->. { unfold row_of in Hr. pose proof (Hk _ _ Hr). congruence. }
  assert (Ef : filter (fun p => row_eligible (updated (batch_victims d) d) p = true) (graph s d) =
    filter (fun p => negb (bool_decide (p.1 ∈ batch_victims d)) = true) (filter (fun p => row_eligible d p = true) (graph s d))).
  { rewrite list_filter_filter. apply list_filter_iff. intros p. rewrite row_eligible_updated, andb_true_iff by done. tauto. }
  rewrite Ef. apply (length_filter_lt _ _ (i, root)).
  - apply list_elem_of_filter. split; [|done]. unfold row_eligible. cbn. by rewrite Hr.
  - cbn. by rewrite bool_decide_eq_true_2.
Qed.
(** ** Batch after batch *)

Lemma filter_length_le {A} (P Q : A -> Prop) `{!forall x, Decision (P x), !forall x, Decision (Q x)} (l : list A) :
  (forall x, P x -> Q x) -> (length (filter P l) <= length (filter Q l))%nat.
Proof.
  intros Himp. induction l as [|x l IH]; [done|]. rewrite !filter_cons. specialize (Himp x).
  repeat case_decide; cbn; tauto || lia.
Qed.

Lemma update_of_app v w r : update_of w (update_of v r) = update_of (v ++ w) r.
Proof.
  unfold update_of. rewrite (bool_decide_ext (run_id r ∈ v ++ w) (run_id r ∈ v \/ run_id r ∈ w)) by apply elem_of_app.
  rewrite bool_decide_or. destruct (String.eqb (run_tenant r) T) eqn:Et; cbn [andb]; [|by rewrite Et].
  destruct (bool_decide (run_id r ∈ v)); cbn [orb].
  - change (run_tenant (reclassed r)) with (run_tenant r). change (run_id (reclassed r)) with (run_id r). rewrite Et.
    by destruct (_ && _).
  - by rewrite Et.
Qed.

Lemma updated_app v w d : updated w (updated v d) = updated (v ++ w) d.
Proof.
  apply db_eq; try done. cbn. rewrite <- map_fmap_compose. apply map_fmap_ext. intros k r _. apply update_of_app.
Qed.

Lemma updated_nil d : updated [] d = d.
Proof.
  apply db_eq; try done. cbn. rewrite <- (map_fmap_id (db_runs d)) at 2. apply map_fmap_ext. intros k r _. unfold update_of.
  rewrite bool_decide_eq_false_2 by apply not_elem_of_nil. by rewrite andb_false_r.
Qed.

Lemma updated_keyed v d : runs_keyed d -> runs_keyed (updated v d).
Proof.
  intros Hk k r Hr. unfold updated in Hr. cbn in Hr. apply lookup_fmap_Some in Hr as (x & <- & Hx).
  destruct (update_same v x) as (-> & -> & _). by apply Hk.
Qed.

(** One call, with no run locked elsewhere. *)
Lemma backfill_call m d : exists n, run TxAborted (backfill_tx s [] b) m d =
  (Ok (BackfillResult (Z.of_nat n) (Z.of_nat (countRemaining s (updated (batch_victims d) d)))
     (0 <? countRemaining s (updated (batch_victims d) d))%nat), m, updated (batch_victims d) d).
Proof.
  eexists. unfold backfill_tx. rewrite run_transaction. unfold atomically. rewrite run_tx_bind, run_tx_sql by done.
  cbn [backfill_update tx_db tx_mem]. rewrite run_tx_bind, run_tx_select by done. cbn [run_tx tx_failed tx_mem tx_db]. reflexivity.
Qed.

Lemma backfill_done m d : countRemaining s d = 0%nat ->
  run TxAborted (backfill_tx s [] b) m d = (Ok (BackfillResult 0 0 false), m, d).
Proof.
  intros Hz. unfold backfill_tx. rewrite run_transaction. unfold atomically. rewrite run_tx_bind, run_tx_sql by done.
  assert (Hv : backfill_victims s [] b d = []).
  { destruct (batch_victims d) as [|i v] eqn:E; [exact E|]. exfalso.
    destruct (victim_row d i) as (r & root & Hp & He & _); [rewrite E; by left|].
    unfold countRemaining in Hz. apply length_zero_iff_nil in Hz.
    assert ((r, root) ∈ filter (fun p => eligible s p.1 = true) (graph_runs s d)) as Hin by (by apply list_elem_of_filter).
    rewrite Hz in Hin. by apply elem_of_nil in Hin. }
  cbn [backfill_update tx_db tx_mem]. rewrite Hv.
  assert (Hu : set_runs d ((fun r => if String.eqb (run_tenant r) T && bool_decide (run_id r ∈ []) then
    set_run_retention_deadlines (set_retention_class (nm_class s) r) else r) <$> db_runs d) = d) by exact (updated_nil d).
  rewrite Hu. rewrite run_tx_bind, run_tx_select by done. cbn [run_tx tx_failed tx_mem tx_db]. rewrite Hz.
  rewrite filter_none; [done|]. intros r _. rewrite bool_decide_eq_false_2 by apply not_elem_of_nil. by rewrite andb_false_r.
Qed.

Definition calls (m : mem) (n : nat) (d : Db) : Db := Nat.iter n (fun d => (run TxAborted (backfill_tx s [] b) m d).2) d.

(** The rows of the graph that are to change, as they are to be. *)
Definition in_graph (d : Db) (r : run_row) : bool := String.eqb (run_tenant r) T && bool_decide (run_id r ∈ (graph s d).*1).
Definition wanted (d : Db) (r : run_row) : run_row := if in_graph d r && eligible s r then reclassed r else r.

Lemma calls_updated m n d : runs_keyed d -> exists v, calls m n d = updated v d /\
  (forall i, i ∈ v -> i ∈ (graph s d).*1 /\ exists r, row_of s d i = Some r /\ eligible s r = true) /\
  (countRemaining s (calls m n d) <= countRemaining s d - n)%nat.
Proof.
  intros Hk. induction n as [|n IH].
  - exists []. split; [by rewrite updated_nil|]. split; [intros i Hi; by apply elem_of_nil in Hi|]. cbn. lia.
  - destruct IH as (v & E & Hv & Hc). unfold calls in *. rewrite Nat.iter_succ, E in *.
    destruct (backfill_call m (updated v d)) as (k & Er). rewrite Er. cbn [snd].
    pose proof (updated_keyed v d Hk) as Hk'. exists (v ++ batch_victims (updated v d)).
    split; [by rewrite updated_app|]. split.
    + intros i [Hi|Hi]%elem_of_app; [by apply Hv|]. destruct (victim_row _ i Hi) as (r & root & Hp & He & Hid).
      apply elem_graph_runs in Hp as (id & Hp & Hr). rewrite graph_updated in Hp.
      rewrite row_updated in Hr. destruct (row_of s d id) as [x|] eqn:Ex; [|done]. injection Hr as <-.
      assert (id = i) as ->. { unfold row_of in Ex. pose proof (Hk _ _ Ex). destruct (update_same v x) as (_ & E2 & _). congruence. }
      split; [apply list_elem_of_fmap; by exists (i, root)|]. exists x. split; [done|].
      pose proof (row_eligible_updated v d (i, root) Hk) as Hre. unfold row_eligible in Hre. cbn in Hre.
      rewrite row_updated, Ex in Hre. cbn in Hre. rewrite He in Hre. by apply eq_sym, andb_true_iff in Hre as [? _].
    + destruct (decide (countRemaining s (updated v d) = 0)%nat) as [Hz|Hnz].
      * assert (Hle : (countRemaining s (updated (batch_victims (updated v d)) (updated v d)) <= countRemaining s (updated v d))%nat).
        { rewrite (count_rows (updated _ (updated v d))), graph_updated, (count_rows (updated v d)).
          apply filter_length_le. intros p. rewrite row_eligible_updated, andb_true_iff by done. tauto. }
        lia.
      * pose proof (batch_progress (updated v d) Hk' ltac:(lia)). lia.
Qed.

Lemma elem_graph_fst d i : i ∈ (graph s d).*1 <-> exists root, descends s d i root.
Proof.
  rewrite list_elem_of_fmap. split.
  - intros ([id root] & -> & Hp). exists root. by apply graph_is_closure.
  - intros [root Hd]. exists (i, root). split; [done|]. by apply graph_is_closure.
Qed.

(** A run the backfill is for. *)
Definition backfilled (d : Db) (r : run_row) : Prop :=
  run_tenant r = T /\ (exists root, descends s d (run_id r) root) /\
  run_retentionClass r <> nm_class s /\ run_retentionClass r <> "persistent".

Lemma eligible_iff r : eligible s r = true <-> run_retentionClass r <> nm_class s /\ run_retentionClass r <> "persistent".
Proof. unfold eligible, is_persistent. rewrite andb_true_iff, !negb_true_iff, !String.eqb_neq. done. Qed.

(** C20 As many calls as there are runs left bring a backfill to its end, with no
    row locked elsewhere: then every run that descends from a marked root and
    was of another class, and not persistent, has the class and its deadlines,
    every other run is as it was, and a further call finds nothing and says so. *)
Theorem backfill_converges m n d : runs_keyed d -> (countRemaining s d <= n)%nat ->
  (forall k r, db_runs d !! k = Some r -> exists r', db_runs (calls m n d) !! k = Some r' /\
     (backfilled d r /\ r' = reclassed r \/ ~ backfilled d r /\ r' = r)) /\
  run TxAborted (backfill_tx s [] b) m (calls m n d) = (Ok (BackfillResult 0 0 false), m, calls m n d).
Proof.
  intros Hk Hn. destruct (calls_updated m n d Hk) as (v & E & Hv & Hc). rewrite E in *. split.
  - intros k r Hr. exists (update_of v r). split; [unfold updated; cbn; by rewrite lookup_fmap, Hr|].
    pose proof (Hk _ _ Hr) as ->. unfold update_of. destruct (decide (run_id r ∈ v)) as [Hin|Hin].
    + destruct (Hv _ Hin) as (Hg & x & Hx & He). apply elem_graph_fst in Hg. unfold row_of in Hx.
      destruct (String.eqb_spec (run_tenant r) T) as [Ht|Ht].
      * left. rewrite Ht in Hr. assert (x = r) as -> by congruence. rewrite bool_decide_eq_true_2 by done.
        split; [|done]. split_and!; [done|done|by apply eligible_iff..].
      * right. split; [unfold backfilled; tauto|done].
    + right. rewrite bool_decide_eq_false_2, andb_false_r by done. split; [|done]. intros (Ht & (root & Hd) & He%eligible_iff). apply Hin.
      assert (Hz : countRemaining s (updated v d) = 0%nat) by lia. rewrite count_rows in Hz. apply length_zero_iff_nil in Hz.
      apply dec_stable. intros Hnot.
      assert ((run_id r, root) ∈ filter (fun p => row_eligible (updated v d) p = true) (graph s (updated v d))) as Hf.
      { apply list_elem_of_filter. split; [|rewrite graph_updated; by apply graph_is_closure].
        rewrite row_eligible_updated by done. cbn [fst]. rewrite bool_decide_eq_false_2 by done. cbn [negb].
        rewrite andb_true_r. unfold row_eligible, row_of. cbn [fst]. by rewrite <- Ht, Hr. }
      rewrite Hz in Hf. by apply elem_of_nil in Hf.
  - apply backfill_done; lia.
Qed.
End Batches.

(** ** A marked root with descendants *)

Definition family_row (id class : string) (attributes : gmap string string) : run_row :=
  RunRow "t1" id "dpl" "wf" RunStatus.completed None None None None None None None None attributes 0 0 None (Some 0)
    class id None None None None.

Definition family_db : Db := set_runs (empty_db 0) (list_to_map ((fun r => ((run_tenant r, run_id r), r)) <$>
  [family_row "root" "interactive" {["marker" := "cron"]};
   family_row "child" "interactive" {["$parentRunId" := "root"]};
   family_row "grandchild" "interactive" {["$eve.parent" := "child"]};
   family_row "keep" "persistent" {["$rootRunId" := "root"]};
   family_row "other" "interactive" ∅])).

Definition family_selector : normalized := Normalized "t1" "marker" "cron" "scheduled".

Lemma family_keyed : runs_keyed family_db.
Proof.
  intros k r Hr. assert (H : map_Forall (fun k r => k = (run_tenant r, run_id r)) (db_runs family_db)).
  { apply (bool_decide_unpack (map_Forall (fun k r => k = (run_tenant r, run_id r)) (db_runs family_db))). vm_compute. exact I. }
  exact (H k r Hr).
Qed.

Lemma backfill_converges_witness :
  run TxAborted (backfill_tx family_selector [] 1) (empty_mem 0) (calls family_selector 1 (empty_mem 0) 3 family_db) =
    (Ok (BackfillResult 0 0 false), empty_mem 0, calls family_selector 1 (empty_mem 0) 3 family_db) /\
  (fun i => run_retentionClass <$> db_runs (calls family_selector 1 (empty_mem 0) 3 family_db) !! ("t1", i)) <$>
    ["root"; "child"; "grandchild"; "keep"; "other"] =
  [Some "scheduled"; Some "scheduled"; Some "scheduled"; Some "persistent"; Some "interactive"].
Proof.
  assert (Hc : countRemaining family_selector family_db = 3%nat) by (vm_compute; reflexivity).
  assert (Hn : (countRemaining family_selector family_db <= 3)%nat) by (rewrite Hc; apply le_n).
  split; [|vm_compute; reflexivity].
  exact (proj2 (backfill_converges family_selector 1 (le_n 1) (empty_mem 0) 3 family_db family_keyed Hn)).
Defined.

(** A marked run below another marked run descends from two roots, and is counted
    under each: the preview has three eligible runs where there are two. *)
Definition nested_db : Db := set_runs (empty_db 0) (list_to_map ((fun r => ((run_tenant r, run_id r), r)) <$>
  [family_row "root" "interactive" {["marker" := "cron"]};
   family_row "child" "interactive" (<["marker" := "cron"]> {["$parentRunId" := "root"]})])).

Lemma nested_roots_count_twice :
  preview_counts family_selector nested_db = PreviewCount 2 3 0 /\
  (fun g => (gr_workflowName g, gr_runs g)) <$> preview_groups family_selector nested_db = [("wf", 3)] /\
  countRemaining family_selector nested_db = 3%nat.
Proof. vm_compute. done. Qed.
