(* ===== verification/ConfigProps.v ===== *)
(** What a configuration that is accepted guarantees, and what the two ends of a
    dispatch agree on when they read one environment (src/dispatcher/config.ts,
    src/config.ts, src/dispatcher/secrets.ts). *)
From S2P Require Import Prelude Model Bytes Slots Sdk Tenant JsText HttpHeaders Contract Timers Inflight Queue QueueProps Dispatcher Transport Ownership Config.
Local Open Scope Z_scope.

(** ** Numbers *)

Lemma finite_integer_inv x n : finite_integer x = Some n -> x = JsFinite n 1.
Proof. destruct x as [| |m [d|d|]]; cbn; try done. by intros [= ->]. Qed.

Lemma positiveNumber_positive value fallback : 0 < fallback -> 0 < positiveNumber value fallback.
Proof.
  intros Hf. unfold positiveNumber. destruct (finite_integer _) as [n|]; [|done]. by destruct (Z.ltb_spec 0 n).
Qed.

Lemma nonNegativeNumber_bound value fallback : 0 <= fallback -> 0 <= nonNegativeNumber value fallback.
Proof.
  intros Hf. unfold nonNegativeNumber, optionalNonNegativeNumber. destruct (finite_integer _) as [n|]; [|done].
  by destruct (Z.leb_spec 0 n).
Qed.

(** A number is read as it is written, below the precision of a double. *)
Lemma positiveNumber_text n fallback : 0 < n < 2 ^ 53 -> positiveNumber (Some (dec_text (Z.to_N n))) fallback = n.
Proof.
  intros Hn. unfold positiveNumber. cbn [default]. unfold id.
  rewrite (parseInt_digits _ (Z.to_N n)).
  - rewrite Z2N.id, to_double_small by lia. cbn [finite_integer]. by destruct (Z.ltb_spec 0 n); [|lia].
  - apply dec_text_value.
  - intros E. pose proof (dec_text_value (Z.to_N n)) as H. rewrite E in H. cbn in H. injection H as H. lia.
Qed.

(** ** An accepted configuration *)

(** Exactly one of two. *)
Definition exactly_one {A B} (a : option A) (b : option B) : Prop :=
  (is_Some a /\ b = None) \/ (a = None /\ is_Some b).

Lemma allowed_within_ttl ttl renew : 0 < renew < ttl -> (allowedFailures (Some ttl) renew + 1) * renew < ttl.
Proof.
  intros H. unfold allowedFailures. rewrite (proj2 (Z.ltb_lt 0 renew)) by lia.
  pose proof (Z.mul_div_le ttl renew ltac:(lia)). destruct (Z.max_spec 0 (ttl / renew - 2)) as [[? ->]|[? ->]]; nia.
Qed.

(** C31 A configuration the dispatcher accepts is coherent, whatever its
    environment says: it names a database; it has exactly one way to reach
    executors; a lease is renewed inside its TTL and a dispatch that stops
    renewing it is given up before the lease lapses; the pool holds the two
    connections that are never given back and two more; the owning session's
    heartbeats fit its idle timeout three times, which is the budget itself;
    and no interval, batch or limit that has to be positive is not. *)
Theorem accepted_config_is_coherent URL_parse cpus env c :
  resolveDispatcherConfig URL_parse cpus env = Ok c ->
  let lv := deriveOwnershipLiveness (dc_ownershipLivenessMs c) in
  dc_worldUrl c <> "" /\ exactly_one (dc_apiUrl c) (dc_staticEndpoints c) /\
  0 < dc_leaseRenewIntervalMs c < dc_activationLeaseTtlMs c /\
  (allowedFailures (Some (dc_activationLeaseTtlMs c)) (dc_leaseRenewIntervalMs c) + 1) * dc_leaseRenewIntervalMs c <
    dc_activationLeaseTtlMs c /\
  4 <= dc_poolSize c /\
  lv_idleSessionTimeoutMs lv = dc_ownershipLivenessMs c /\
  0 < 3 * lv_heartbeatIntervalMs lv <= dc_ownershipLivenessMs c /\
  Forall (fun n => 0 < n) [dc_concurrency c; dc_pollIntervalMs c; dc_maxInFlightPerTenant c; dc_dispatchTimeoutMs c;
    dc_queueGcIntervalMs c; dc_timerSweepIntervalMs c; dc_bootRecoveryDeploymentsPerWave c; dc_executorFailureLimit c;
    dc_maintenanceStreamBatchSize c; dc_maintenanceMaxBatches c; dc_maintenanceMaxStreamsToPack c;
    dc_maintenanceRunBatchSize c; dc_ownershipRetryIntervalMs c] /\
  Forall (fun n => 0 <= n) [dc_bootRecoveryWaveIntervalMs c; dc_executorFailureMinSpanMs c; dc_maintenanceIntervalMs c].
Proof.
  unfold resolveDispatcherConfig. destruct (given _) as [url|] eqn:Eu; [|done]. cbv zeta. apply given_some in Eu as [_ Hu].
  set (ttl := positiveNumber (env "WORKFLOW_DISPATCHER_ACTIVATION_LEASE_TTL_MS") _).
  set (renew := positiveNumber (env "WORKFLOW_DISPATCHER_LEASE_RENEW_INTERVAL_MS") _).
  set (pool := positiveNumber (env "WORKFLOW_DISPATCHER_POOL_SIZE") _).
  set (live := positiveNumber (env "WORKFLOW_DISPATCHER_OWNERSHIP_LIVENESS_MS") _).
  destruct (Z.leb_spec ttl renew) as [|Hr]; [done|].
  assert (Hr0 : 0 < renew) by (apply positiveNumber_positive; lia).
  destruct (match given (env "WORKFLOW_DISPATCHER_STATIC_ENDPOINTS") with Some _ => _ | None => _ end) as [st|]; [|done].
  cbn [result_bind]. destruct (given (env "WORKFLOW_DISPATCHER_ACTIVATION_API_URL")) as [api|], st as [st|]; try done.
  all: destruct (Z.ltb_spec pool MIN_DISPATCHER_POOL_SIZE) as [|Hp]; [done|].
  all: destruct (Z.ltb_spec live MIN_OWNERSHIP_LIVENESS_MS) as [|Hl]; [done|].
  all: destruct (resolveStreamCompaction _) as [compact|]; [|done]; cbn [result_bind]; intros [= <-];
    cbn [dc_worldUrl dc_apiUrl dc_staticEndpoints dc_leaseRenewIntervalMs dc_activationLeaseTtlMs
      dc_poolSize dc_ownershipLivenessMs].
  all: pose proof (allowed_within_ttl ttl renew ltac:(lia)) as Ha;
    unfold MIN_DISPATCHER_POOL_SIZE, MIN_OWNERSHIP_LIVENESS_MS in *;
    pose proof (liveness_thirds live Hl) as (H1 & H2 & H3).
  all: split_and!; try done; try lia; try (unfold exactly_one; naive_solver).
  all: repeat (constructor; try (apply positiveNumber_positive); try (apply nonNegativeNumber_bound);
    unfold deriveMaxInFlightPerTenant, DEFAULT_TIMER_SWEEP_INTERVAL_MS, DEFAULT_BOOT_RECOVERY_DEPLOYMENTS_PER_WAVE,
      DEFAULT_EXECUTOR_FAILURE_LIMIT, DEFAULT_BOOT_RECOVERY_WAVE_INTERVAL_MS, DEFAULT_EXECUTOR_FAILURE_MIN_SPAN_MS; try lia).
Qed.

(** The environment of a list of variables. *)
Definition env_of (l : list (string * string)) : environment := fun name => (list_to_map l : gmap string string) !! name.

(** A parser that takes every text for an origin. *)
Definition demo_URL (s : string) : option url := Some (Url "http:" "" "" "/" "" "" s).

Definition static_env : environment := env_of
  [("WORKFLOW_WORLD_URL", "postgres://db"); ("WORKFLOW_DISPATCHER_STATIC_ENDPOINTS", " blue = http://b ,,green=http://g:1?a=1");
   ("WORKFLOW_DISPATCHER_ACTIVATION_LEASE_TTL_MS", " 60000ms"); ("WORKFLOW_DISPATCHER_POOL_SIZE", "-3")].

Lemma accepted_config_is_coherent_witness :
  exists c, resolveDispatcherConfig demo_URL 8 static_env = Ok c /\
    dc_staticEndpoints c = Some {["blue" := "http://b"; "green" := "http://g:1?a=1"]} /\
    (dc_activationLeaseTtlMs c, dc_leaseRenewIntervalMs c, dc_poolSize c, dc_maxInFlightPerTenant c) = (60000, 20000, 10, 8) /\
    dc_worldUrl c <> "".
Proof.
  destruct (resolveDispatcherConfig demo_URL 8 static_env) as [c|] eqn:E; [|vm_compute in E; discriminate E].
  exists c. split; [reflexivity|]. pose proof (accepted_config_is_coherent demo_URL 8 static_env c E) as (H & _).
  split; [|split; [|exact H]]; vm_compute in E; injection E as <-; vm_compute; reflexivity.
Defined.

(** A deployment id that names something every object has is refused as a
    duplicate. *)
Lemma prototype_name_refused :
  parseStaticEndpoints demo_URL "constructor=http://b" = Err (DuplicateDeployment "constructor").
Proof. vm_compute. reflexivity. Qed.

(** ** Two ends, one environment *)

(** Without an override for the dispatcher the two ends name one database. *)
Lemma ends_name_one_database URL_parse cpus env c :
  env "WORKFLOW_WORLD_BOOTSTRAP_URL" = None -> env "EVELAND_WORKFLOW_WORLD_BOOTSTRAP_URL" = None ->
  resolveDispatcherConfig URL_parse cpus env = Ok c -> resolveConnectionString env = Ok (dc_worldUrl c).
Proof.
  intros H1 H2. unfold resolveDispatcherConfig, resolveConnectionString. rewrite H1, H2. cbn [coalesce].
  destruct (given _) as [url|]; [|done]. cbv zeta. destruct (_ <=? _); [done|].
  destruct (match given (env "WORKFLOW_DISPATCHER_STATIC_ENDPOINTS") with Some _ => _ | None => _ end) as [st|]; [|done].
  cbn [result_bind]. destruct (given (env "WORKFLOW_DISPATCHER_ACTIVATION_API_URL")) as [api|], st as [st|]; try done.
  all: destruct (_ <? _); [done|]; destruct (_ <? _); [done|];
    destruct (resolveStreamCompaction _); [|done]; cbn [result_bind]; by intros [= <-].
Qed.

Lemma secret_from_env env s : readRuntimeSecretFromEnv env = Some s -> s <> "".
Proof.
  unfold readRuntimeSecretFromEnv, RUNTIME_SECRET_ENV_NAMES. cbn [omap list_omap].
  destruct (env "WORKFLOW_WORLD_RUNTIME_SECRET") as [a|]; [destruct (String.eqb_spec a "")|];
    (destruct (env "EVELAND_SCHEDULER_RUNTIME_SECRET") as [b|]; [destruct (String.eqb_spec b "")|]); cbn; intros [= <-] || done; done.
Qed.

(** A request whose headers [new Headers] takes, and whose message has no other
    spelling of a name the deployment's gate reads. *)
Definition sendable `{WorldSdk} `{QueueSdk} (r : vqs_request) : Prop :=
  Forall (fun p => entry_ok p = true) (vq_headers r) /\ Forall (fun p => entry_ok p = true) (contract_headers r) /\
  forall k, k ∈ (vq_headers r).*1 ->
    header_name k ∈ [DISPATCH_VERSION_HEADER; RUNTIME_SECRET_HEADER; DEPLOYMENT_HEADER] -> k = header_name k.

Lemma contract_headers_keys `{WorldSdk} `{QueueSdk} (r : vqs_request) :
  NoDup (contract_headers r).*1 /\ Forall (fun k => header_name k = k) (contract_headers r).*1.
Proof.
  unfold contract_headers. rewrite fmap_app. destruct (given (vq_runId r)); cbn [fmap list_fmap app fst];
    (split; [apply (bool_decide_unpack _); vm_compute; exact I|repeat constructor]).
Qed.

Lemma sendable_headers `{WorldSdk} `{QueueSdk} (r : vqs_request) : sendable r ->
  exists h, new_headers (vqs_headers r) = Some h /\
    forall n v, n ∈ [DISPATCH_VERSION_HEADER; RUNTIME_SECRET_HEADER; DEPLOYMENT_HEADER] ->
      (n, v) ∈ contract_headers r -> headers_get h n = Some (normalize v).
Proof.
  intros (Hown & Hcon & Hk). destruct (contract_headers_keys r) as [Hn Hl].
  assert (Hok : Forall (fun p => entry_ok p = true) (vqs_headers r)) by (do 2 (apply forall_spread; [|done]); constructor).
  destruct (append_values (vqs_headers r) ∅ Hok) as (h & E & _). exists h. split; [exact E|]. intros n v Hin Hv.
  assert (Hlow : header_name n = n).
  { rewrite Forall_forall in Hl. apply Hl, list_elem_of_fmap. by exists (n, v). }
  apply (headers_single (vqs_headers r)); try done.
  - by do 2 apply spread_nodup; constructor.
  - intros k Hk1 Hk2. apply keys_spread in Hk1 as [Hk1|Hk1].
    + apply keys_spread in Hk1 as [Hk1|Hk1]; [by apply elem_of_nil in Hk1|]. rewrite <- Hk2. apply Hk; [done|]. by rewrite Hk2.
    + rewrite Forall_forall in Hl. by rewrite <- Hk2, Hl.
  - by apply prop_spread.
Qed.

(** C32 A dispatcher that starts can be answered: it starts only with a secret,
    and when it reads the environment its deployment reads, the deployment's
    handler takes every request it makes for that deployment, of a message with
    no other spelling of the names it reads among its headers, exactly when the
    secret is one the environment sets and has no white space around it, and
    answers 401 otherwise: a header loses the white space, and a secret that is
    the development fallback is one no deployment accepts. *)
Theorem dispatches_are_accepted `{WorldSdk} `{QueueSdk} config env secret r :
  js_Number (port_text DISPATCH_VERSION) = JsFinite DISPATCH_VERSION 1 ->
  resolveDispatchRuntimeSecret env = Some secret -> vq_runtimeSecret r = secret -> vq_deploymentId r = qc_deploymentId config ->
  qc_deploymentId config <> "" -> normalize (qc_deploymentId config) = qc_deploymentId config -> sendable r ->
  exists h, new_headers (vqs_headers r) = Some h /\
    queue_gate config env (headers_get h) =
      if bool_decide (readRuntimeSecretFromEnv env = Some (normalize secret)) then Pass else Reject 401.
Proof.
  intros Hn Hs <- Hd Hne Hdn Hr. destruct (sendable_headers r Hr) as (h & E & Hh). exists h. split; [exact E|].
  pose proof (Hh DISPATCH_VERSION_HEADER (port_text DISPATCH_VERSION)) as H1.
  pose proof (Hh RUNTIME_SECRET_HEADER (vq_runtimeSecret r)) as H2.
  pose proof (Hh DEPLOYMENT_HEADER (vq_deploymentId r)) as H3. clear Hh. unfold queue_gate, checkDispatchVersion.
  rewrite H1, H2, H3, Hd, Hdn by (unfold contract_headers; rewrite ?elem_of_app, ?elem_of_cons; tauto).
  change (normalize (port_text DISPATCH_VERSION)) with (port_text DISPATCH_VERSION). rewrite Hn.
  destruct (readRuntimeSecretFromEnv env) as [s|] eqn:Ee; [|reflexivity].
  pose proof (secret_from_env env s Ee) as Hse. unfold resolveDispatchRuntimeSecret, resolveSecretWithDevFallback in Hs.
  rewrite Ee, given_nonempty in Hs by done. injection Hs as <-.
  cbn -[secretMatches given normalize bool_decide]. case_bool_decide as Hw.
  - injection Hw as Hw. rewrite <- Hw, (proj2 (secretMatches_eq s (Some s))) by done. cbn [negb].
    rewrite (given_nonempty (qc_deploymentId config)) by done. by rewrite String.eqb_refl.
  - destruct (secretMatches s (Some (normalize s))) eqn:Em; [|done]. apply secretMatches_eq in Em as [[= Em] _]. congruence.
Qed.

Definition demo_vqs (headers : list (string * string)) (secret : string) : vqs_request :=
  VqsRequest (Some 3000) None "__wkf_workflow_flow" "msg_1" 1 (Some 1) [] headers "t1" "dep_1" None secret 60000.

Definition demo_queue_config : queue_config := QueueConfig "t1" "dep_1" false None.

Definition demo_forged : list (string * string) := [(RUNTIME_SECRET_HEADER, "forged"); ("X-Trace", "1")].

Lemma demo_sendable secret : entry_ok (RUNTIME_SECRET_HEADER, secret) = true -> sendable (demo_vqs demo_forged secret).
Proof.
  intros Hs. split_and!.
  - repeat constructor.
  - apply Forall_app. split; [|constructor]. repeat (apply Forall_cons; split; [exact Hs || reflexivity|]). constructor.
  - intros k Hk. cbn in Hk. rewrite !elem_of_cons in Hk. destruct Hk as [->|[->|Hk%elem_of_nil]]; [done| |done].
    intros Hin. apply (bool_decide_eq_true_2 _) in Hin. vm_compute in Hin. discriminate.
Qed.

Lemma dispatches_are_accepted_witness :
  (exists h, new_headers (vqs_headers (demo_vqs demo_forged "s3cret")) = Some h /\
    queue_gate demo_queue_config (env_of [("WORKFLOW_WORLD_RUNTIME_SECRET", "s3cret")]) (headers_get h) = Pass) /\
  (exists h, new_headers (vqs_headers (demo_vqs demo_forged "s3cret ")) = Some h /\
    queue_gate demo_queue_config (env_of [("WORKFLOW_WORLD_RUNTIME_SECRET", "s3cret ")]) (headers_get h) = Reject 401) /\
  (exists h, new_headers (vqs_headers (demo_vqs demo_forged "eveland-dev-scheduler-runtime-secret")) = Some h /\
    queue_gate demo_queue_config (env_of [("NODE_ENV", "development")]) (headers_get h) = Reject 401).
Proof.
  split_and!.
  - refine (dispatches_are_accepted demo_queue_config (env_of [("WORKFLOW_WORLD_RUNTIME_SECRET", "s3cret")]) "s3cret"
      (demo_vqs demo_forged "s3cret") eq_refl eq_refl eq_refl eq_refl _ eq_refl (demo_sendable "s3cret" eq_refl)). discriminate.
  - refine (dispatches_are_accepted demo_queue_config (env_of [("WORKFLOW_WORLD_RUNTIME_SECRET", "s3cret ")]) "s3cret "
      (demo_vqs demo_forged "s3cret ") eq_refl eq_refl eq_refl eq_refl _ eq_refl (demo_sendable "s3cret " eq_refl)). discriminate.
  - refine (dispatches_are_accepted demo_queue_config (env_of [("NODE_ENV", "development")])
      "eveland-dev-scheduler-runtime-secret" (demo_vqs demo_forged "eveland-dev-scheduler-runtime-secret")
      eq_refl eq_refl eq_refl eq_refl _ eq_refl (demo_sendable "eveland-dev-scheduler-runtime-secret" eq_refl)). discriminate.
Defined.

(** Another spelling of a name among a message's headers is joined to the
    contract's value, and the deployment refuses its own message. *)
Lemma other_spelling_is_refused :
  (fun h => (headers_get h RUNTIME_SECRET_HEADER, queue_gate demo_queue_config
      (env_of [("WORKFLOW_WORLD_RUNTIME_SECRET", "s3cret")]) (headers_get h))) <$>
    new_headers (vqs_headers (demo_vqs [("X-Eveland-Runtime-Secret", "s3cret")] "s3cret")) =
  Some (Some "s3cret, s3cret", Reject 401).
Proof. vm_compute. reflexivity. Qed.

(** The executions of an embedded runner pass the gate of their own process,
    unless the message declares itself a dispatch. *)
Lemma embedded_executions_pass `{WorldSdk} `{QueueSdk} config env queueName m d h :
  new_headers (execution_headers queueName m d) = Some h ->
  Forall (fun p => entry_ok p = true) (execution_headers queueName m d) ->
  (forall k, k ∈ (default [] (md_headers m)).*1 -> header_name k <> DISPATCH_VERSION_HEADER) ->
  queue_gate config env (headers_get h) = Pass.
Proof.
  intros E Hok Hk. destruct (append_values _ ∅ Hok) as (h' & E' & Hh). unfold new_headers in E. rewrite E' in E. injection E as <-.
  unfold queue_gate, headers_get. change (header_name DISPATCH_VERSION_HEADER) with DISPATCH_VERSION_HEADER.
  rewrite Hh, prop_nil_values, lookup_empty; [done|]. intros k Hin. apply keys_spread in Hin as [Hin|Hin].
  - apply keys_spread in Hin as [Hin|Hin]; [by apply elem_of_nil in Hin|by apply Hk].
  - revert k Hin. apply Forall_forall. repeat (apply Forall_cons; split; [vm_compute; discriminate|]). constructor.
Qed.

(** ** What a service starts with *)

(** A configuration that is accepted always says where to dispatch to, and outside
    development a service starts only with the secrets it needs set. *)
Lemma startup_is_never_without_activation URL_parse cpus env : resolve_startup URL_parse cpus env <> Err NothingToDispatchTo.
Proof.
  unfold resolve_startup. destruct (resolveDispatcherConfig URL_parse cpus env) as [c|] eqn:E; [|done].
  destruct (resolveDispatchRuntimeSecret env); [|done]. unfold resolveActivation, requiredServiceToken.
  destruct (dc_staticEndpoints c) as [t|] eqn:Es; [done|].
  assert (Hu : exists u, given (dc_apiUrl c) = Some u).
  { revert E Es. unfold resolveDispatcherConfig. destruct (given _) as [url|]; [|done]. cbv zeta. case_match; [done|].
    destruct (given (env "WORKFLOW_DISPATCHER_ACTIVATION_API_URL")) as [u|] eqn:Eu;
      destruct (given (env "WORKFLOW_DISPATCHER_STATIC_ENDPOINTS")) as [v|]; cbn [result_bind]; try done;
      repeat case_match; try done; unfold result_bind in *; repeat case_match; try done; intros [= <-]; cbn; try done;
      intros _; apply given_some in Eu as [Eu Hne]; exists u; by apply given_nonempty. }
  destruct Hu as [u ->]. by destruct (resolveSecretWithDevFallback env _ _).
Qed.

Lemma no_secret_no_service URL_parse cpus env r : env "NODE_ENV" <> Some "development" -> env "NODE_ENV" <> Some "test" ->
  resolve_startup URL_parse cpus env = Ok r -> given (readRuntimeSecretFromEnv env) = Some r.1.2.
Proof.
  intros H1 H2. unfold resolve_startup. destruct (resolveDispatcherConfig URL_parse cpus env) as [c|]; [|done].
  unfold resolveDispatchRuntimeSecret, resolveSecretWithDevFallback. destruct (given _) as [s|]; [|repeat case_match; simplify_eq; done].
  destruct (resolveActivation c env); cbn; [|done]. by intros [= <-].
Qed.
