(* ===== verification/Cli.v ===== *)
(** What the command lines say and do: the set-up of a database (src/cli.ts), what
    the dispatcher says of its build (src/dispatcher/build-info.ts), and the
    console its events go to (src/dispatcher/observability.ts). *)
From S2P Require Import Prelude Model Slots Tenant JsText Timers Config.
From Stdlib Require Import Strings.Ascii.
Local Open Scope Z_scope.

(** ** The connection string, as it is shown *)

(** [/\w/] *)
Definition is_word_char (c : Ascii.ascii) : bool :=
  let n := Ascii.N_of_ascii c in is_lower_alnum c || ((65 <=? n) && (n <=? 90))%N.
#[global] Arguments is_word_char : simpl never.

(** The longest front of word characters, and what is behind it. *)
Fixpoint word_front (s : string) : string * string :=
  match s with
  | String c t => if is_word_char c then let '(w, r) := word_front t in (String c w, r) else ("", s)
  | "" => ("", "")
  end.

(** [connectionString.replace(/^(\w+:\/\/)([^@]+)@/, "$1[redacted]@")] *)
Definition redact (connectionString : string) : string :=
  let '(scheme, r) := word_front connectionString in
  if String.eqb scheme "" then connectionString else
  match behind "://" r with
  | None => connectionString
  | Some r =>
      match cut_at "@"%char r with
      | None | Some ("", _) => connectionString
      | Some (_, r) => scheme +:+ "://[redacted]@" +:+ r
      end
  end.

(** ** Setting a database up *)

Inductive setup_effect :=
| Said (line : string)
| PoolOpened (connectionString : string)
| UtilsMade
| UtilsMigrated
| UtilsReleased
| PoolEnded.

(** What is not of this file: [runMigrations], by what it logs and the files it
    applied, if it does not throw, and what graphile's utilities answer. *)
Record setup_world := SetupWorld {
  sw_logged : list string;
  sw_applied : option nat;
  sw_utilsMade : bool;
  sw_utilsMigrated : bool;
  sw_utilsReleased : bool
}.

(** An action: whether it throws, and what it did. *)
Definition setup_action : Type := bool * list setup_effect.
Definition then_do (a b : setup_action) : setup_action :=
  if a.1 then (b.1, a.2 ++ b.2) else a.
Definition say (line : string) : setup_action := (true, [Said line]).
(** [try a finally b] *)
Definition finally (a b : setup_action) : setup_action := (a.1 && b.1, a.2 ++ b.2).

Definition applied_line (applied : nat) : string :=
  if (0 <? applied)%nat then "✅ Applied " +:+ dec_text (N.of_nat applied) +:+ " migration(s)." else "✅ Schema already up to date.".

Definition setup_schema (w : setup_world) : setup_action :=
  let logged := (fun message => Said ("   " +:+ message)) <$> sw_logged w in
  match sw_applied w with
  | None => (false, logged)
  | Some applied => (true, logged ++ [Said (applied_line applied)])
  end.

Definition setup_graphile (w : setup_world) : setup_action :=
  if negb (sw_utilsMade w) then (false, []) else
  then_do (true, [UtilsMade])
    (finally (if sw_utilsMigrated w then (true, [UtilsMigrated]) else (false, [])) (sw_utilsReleased w, [UtilsReleased])).

Definition setup_pool (connectionString : string) (w : setup_world) : setup_action :=
  then_do (true, [PoolOpened connectionString])
    (finally
      (then_do (setup_schema w)
      (then_do (say "📂 Bootstrapping graphile-worker schema…")
      (then_do (setup_graphile w) (say "✅ Workflow world ready."))))
      (true, [PoolEnded])).

Definition setupDatabase (env : environment) (w : setup_world) : setup_action :=
  match resolveConnectionString env with
  | Err _ => (false, [])
  | Ok connectionString =>
      then_do (say "🔧 Setting up the Eveland workflow world…")
      (then_do (say ("📍 Connection: " +:+ redact connectionString)) (setup_pool connectionString w))
  end.

(** ** The build, and the console *)

Definition DISPATCHER_VERSION : string := "0.31.1".

(** [DispatcherBuildInfo] *)
Record build_info := BuildInfo { bi_service : string; bi_version : string; bi_revision : string; bi_channel : string }.

(** [value?.trim() || fallback] *)
Definition trimmed_or (value : option string) (fallback : string) : string :=
  default fallback (given (trim <$> value)).

Definition createBuildInfoFromEnv (environment : string -> option string) : build_info :=
  BuildInfo "workflow-dispatcher" DISPATCHER_VERSION
    (trimmed_or (environment "WORKFLOW_DISPATCHER_REVISION") "unknown")
    (trimmed_or (environment "WORKFLOW_DISPATCHER_CHANNEL") "dev").

Definition formatBuildInfo (b : build_info) : string :=
  "workflow-dispatcher " +:+ bi_version b +:+ " (" +:+ bi_channel b +:+ ", " +:+ bi_revision b +:+ ")".

Inductive severity := SevDebug | SevInfo | SevWarn | SevError.
Inductive console := ConsoleError | ConsoleWarn | ConsoleLog.

(** [consoleTelemetry.emit]: where an event goes, the line, and what is written
    behind it, the attributes or an empty text. *)
Definition consoleTelemetry_emit {A} (s : severity) (eventName body : string) (attributes : option A) : console * string * (A + string) :=
  (match s with SevError => ConsoleError | SevWarn => ConsoleWarn | SevDebug | SevInfo => ConsoleLog end,
   "[workflow-dispatcher] " +:+ eventName +:+ ": " +:+ body,
   match attributes with Some a => inl a | None => inr "" end).

(** ** What this shows *)

Lemma word_front_app w r : all_chars is_word_char w = true ->
  match r with String c _ => is_word_char c = false | "" => True end -> word_front (w +:+ r) = (w, r).
Proof.
  intros Hw Hr. induction w as [|c w IH].
  - change ("" +:+ r) with r. destruct r as [|c r]; cbn; [done|]. by rewrite Hr.
  - cbn in Hw. apply andb_true_iff in Hw as [Hc Hw]. change (String c w +:+ r) with (String c (w +:+ r)). cbn.
    by rewrite Hc, IH.
Qed.

Lemma cut_at_app sep u r : all_chars (fun c => negb (Ascii.eqb c sep)) u = true -> cut_at sep (u +:+ String sep r) = Some (u, r).
Proof.
  induction u as [|c u IH]; intros Hu.
  - change ("" +:+ String sep r) with (String sep r). cbn. by rewrite Ascii.eqb_refl.
  - cbn in Hu. apply andb_true_iff in Hu as [Hc Hu]. apply negb_true_iff in Hc.
    change (String c u +:+ String sep r) with (String c (u +:+ String sep r)). cbn. by rewrite Hc, IH.
Qed.

(** The user information of a URL, without an at sign of its own. *)
Definition credentials (u : string) : bool :=
  negb (String.eqb u "") && all_chars (fun c => negb (Ascii.eqb c "@"%char)) u.

Lemma redact_hides scheme u host : scheme <> "" -> all_chars is_word_char scheme = true -> credentials u = true ->
  redact (scheme +:+ "://" +:+ u +:+ "@" +:+ host) = scheme +:+ "://[redacted]@" +:+ host.
Proof.
  intros Hs Hw [Hu Hc]%andb_true_iff. unfold redact.
  rewrite (word_front_app scheme ("://" +:+ u +:+ "@" +:+ host)) by done.
  apply String.eqb_neq in Hs. rewrite Hs.
  change (behind "://" ("://" +:+ u +:+ "@" +:+ host)) with (Some (u +:+ String "@" host)).
  cbn beta iota zeta match. rewrite (cut_at_app "@"%char u host Hc). by destruct u.
Qed.

Definition is_said (e : setup_effect) : bool := match e with Said _ => true | _ => false end.
Definition output (a : setup_action) : list setup_effect := List.filter is_said a.2.

(** What the set-up prints is the same whatever the credentials are. *)
Lemma setup_shows_no_credentials env env' w scheme u u' host : scheme <> "" -> all_chars is_word_char scheme = true ->
  credentials u = true -> credentials u' = true ->
  resolveConnectionString env = Ok (scheme +:+ "://" +:+ u +:+ "@" +:+ host) ->
  resolveConnectionString env' = Ok (scheme +:+ "://" +:+ u' +:+ "@" +:+ host) ->
  output (setupDatabase env w) = output (setupDatabase env' w).
Proof.
  intros Hs Hw Hu Hu' E E'. unfold setupDatabase. rewrite E, E', !redact_hides by done.
  unfold output. reflexivity.
Qed.

(** An at sign in the password, which the URL parser takes for part of it, is
    where the redaction stops: the rest of the password is shown. *)
Lemma redact_stops_at_first_at :
  redact "postgres://app:pa@ssword@db:5432/wf" = "postgres://[redacted]@ssword@db:5432/wf".
Proof. reflexivity. Qed.

(** A pool that was opened is ended, last and once, and utilities that were made
    are released, whatever fails on the way. *)
Definition count_setup (f : setup_effect -> bool) (l : list setup_effect) : nat := length (List.filter f l).
Definition is_opened (e : setup_effect) : bool := match e with PoolOpened _ => true | _ => false end.
Definition is_ended (e : setup_effect) : bool := match e with PoolEnded => true | _ => false end.
Definition is_made (e : setup_effect) : bool := match e with UtilsMade => true | _ => false end.
Definition is_released (e : setup_effect) : bool := match e with UtilsReleased => true | _ => false end.

Lemma said_not f (l : list string) : (forall s, f (Said s) = false) -> List.filter f ((fun m => Said ("   " +:+ m)) <$> l) = [].
Proof. intros Hf. induction l as [|s l IH]; [done|]. cbn. by rewrite Hf. Qed.

Lemma setup_gives_back env w : let l := (setupDatabase env w).2 in
  count_setup is_ended l = count_setup is_opened l /\ (count_setup is_opened l <= 1)%nat /\
  count_setup is_released l = count_setup is_made l.
Proof.
  intros l. unfold l, setupDatabase, setup_pool, setup_schema, setup_graphile, count_setup. clear l.
  destruct (resolveConnectionString env) as [url|e]; [|cbn; lia].
  destruct w as [logged n made migrated released]. cbn [sw_logged sw_applied sw_utilsMade sw_utilsMigrated sw_utilsReleased].
  pose proof (said_not is_ended logged (fun _ => eq_refl)) as H1.
  pose proof (said_not is_opened logged (fun _ => eq_refl)) as H2.
  pose proof (said_not is_released logged (fun _ => eq_refl)) as H3.
  pose proof (said_not is_made logged (fun _ => eq_refl)) as H4.
  set (said := (fun _ => Said _) <$> logged) in *. clearbody said.
  destruct n, made, migrated, released; cbn; rewrite ?List.filter_app, ?H1, ?H2, ?H3, ?H4; cbn;
    rewrite ?List.filter_app, ?H1, ?H2, ?H3, ?H4; cbn; lia.
Qed.

(** What is said of a build is never blank. *)
Lemma build_info_says env : exists revision channel, revision <> "" /\ channel <> "" /\
  createBuildInfoFromEnv env = BuildInfo "workflow-dispatcher" DISPATCHER_VERSION revision channel.
Proof.
  assert (H : forall v f, f <> "" -> trimmed_or v f <> "").
  { intros v f Hf. unfold trimmed_or, given. destruct v as [v|]; simpl; [|done]. by destruct (trim v). }
  exists (trimmed_or (env "WORKFLOW_DISPATCHER_REVISION") "unknown"), (trimmed_or (env "WORKFLOW_DISPATCHER_CHANNEL") "dev").
  split_and!; [by apply H|by apply H|reflexivity].
Qed.
