(* ===== verification/CompactionProps.v ===== *)
(** Compaction strips snapshots and nothing else (src/stream-compaction.ts):
    frames are read back, a compacted chunk has the frames of the chunk
    with the snapshots left out, and compacting again changes nothing. *)
From S2P Require Import Prelude Model Bytes Slots Tenant JsText Sdk Contract Codec Compaction.
From Stdlib Require Import Strings.Byte Strings.Ascii.
Local Open Scope Z_scope.

(** ** Frames *)

Section Laws.
Context `{JsonLaws}.

Definition payload_of (inner : bytes) : bytes := text_bytes (stringify_json (frame_value (base64 inner))).

Lemma encodeFrame_inv inner w : encodeFrame inner = Some w ->
  exists len, u32be (4 + blen (payload_of inner)) = Some len /\ length len = 4%nat /\
    w = len ++ text_bytes FORMAT_TAG ++ payload_of inner.
Proof.
  unfold encodeFrame. fold (payload_of inner). destruct (u32be _) as [len|] eqn:E; [|done]. cbn. intros [= <-]. exists len.
  destruct (read32_write _ _ [] E) as [_ Hl]. done.
Qed.

Lemma parse_payload inner : parse_json (utf8_decode (payload_of inner)) ≫= frame_text = Some (base64 inner).
Proof.
  unfold payload_of. rewrite <- (app_nil_r (text_bytes _)), json_text.
  change (utf8_decode []) with "". rewrite string_app_nil_r. by rewrite (json_frame _ (base64_ascii inner)).
Qed.

(** A frame is parsed to what it was made of. *)
Lemma parse_frames_step fuel inner w rest acc : encodeFrame inner = Some w ->
  parse_frames (S fuel) (w ++ rest) acc = parse_frames fuel rest (acc ++ [inner]).
Proof.
  intros Hw. pose proof Hw as (len & Hlen & Hl4 & Ew)%encodeFrame_inv.
  assert (Hread : read32 (w ++ rest) = Some (4 + blen (payload_of inner))).
  { rewrite Ew, <- app_assoc. by apply read32_write. }
  assert (Hlw : length w = (8 + length (payload_of inner))%nat).
  { rewrite Ew, !length_app, Hl4. change (length (text_bytes FORMAT_TAG)) with 4%nat. lia. }
  assert (Hend : Z.to_nat (4 + (4 + blen (payload_of inner))) = length w) by (unfold blen; lia).
  assert (Hp : drop 8 w = payload_of inner).
  { rewrite Ew, app_assoc, drop_app_length'; [done|]. rewrite length_app, Hl4. done. }
  assert (Ht : take 4 (drop 4 (w ++ rest)) = text_bytes FORMAT_TAG).
  { rewrite Ew, <- !app_assoc, drop_app_length' by lia. by rewrite take_app_length'. }
  cbn [parse_frames]. destruct (w ++ rest) as [|b l] eqn:Ec; [destruct w; discriminate|]. rewrite <- Ec in *. clear Ec b l.
  rewrite Hread. replace (blen (w ++ rest)) with (8 + blen (payload_of inner) + blen rest)
    by (unfold blen; rewrite length_app, Hlw; lia).
  assert (0 <= blen (payload_of inner) /\ 0 <= blen rest) as [? ?] by (unfold blen; lia).
  rewrite (proj2 (Z.ltb_ge _ 8)), (proj2 (Z.ltb_ge _ 4)), (proj2 (Z.ltb_ge _ (4 + _))) by lia. cbn [orb].
  rewrite bool_decide_eq_true_2 by exact Ht. cbn [negb]. cbv zeta.
  rewrite Hend, take_app_length, drop_app_length, Hp, parse_payload, from_base64_base64, Hw.
  by rewrite bool_decide_eq_true_2.
Qed.

Lemma parse_frames_encoded inners : forall ws fuel acc, mapM encodeFrame inners = Some ws ->
  (length (concat ws) < fuel)%nat ->
  parse_frames fuel (concat ws) acc = match acc ++ inners with [] => NoFrames | l => Frames l end.
Proof.
  induction inners as [|inner inners IH]; intros ws fuel acc Hm Hf.
  - cbn in Hm. injection Hm as <-. destruct fuel; [cbn in Hf; lia|]. rewrite app_nil_r. by destruct acc.
  - cbn in Hm. destruct (encodeFrame inner) as [w|] eqn:Ew; [|done]. cbn in Hm.
    destruct (mapM encodeFrame inners) as [ws'|] eqn:Em; [|done]. cbn in Hm. injection Hm as <-.
    destruct fuel; [cbn in Hf; lia|]. change (concat (w :: ws')) with (w ++ concat ws') in *.
    rewrite (parse_frames_step _ _ _ _ _ Ew), (IH ws'); [by rewrite <- app_assoc|done|].
    pose proof Ew as (len & _ & Hl4 & ->)%encodeFrame_inv. rewrite !length_app, Hl4 in Hf. lia.
Qed.

(** The frames of a chunk make it up. *)
Lemma parse_frames_sound fuel : forall chunk acc l, parse_frames fuel chunk acc = Frames l ->
  exists inners ws, l = acc ++ inners /\ mapM encodeFrame inners = Some ws /\ concat ws = chunk.
Proof.
  induction fuel as [|fuel IH]; intros chunk acc l; [done|]. cbn [parse_frames]. destruct chunk as [|b chunk'] eqn:Ec.
  { destruct acc as [|a acc]; [done|]. intros [= <-]. exists [], []. by rewrite app_nil_r. }
  rewrite <- Ec. clear Ec b chunk'. destruct (blen chunk <? 8); [done|]. destruct (read32 chunk) as [n|]; [|done].
  destruct (_ || _); [done|]. destruct (negb _); [done|]. cbv zeta.
  destruct (_ ≫= frame_text) as [text|]; [|done]. destruct (encodeFrame (from_base64 text)) as [w|] eqn:Ew; [|done].
  destruct (bool_decide _) eqn:Eb; [|done]. apply bool_decide_eq_true in Eb. cbn [negb]. intros E.
  apply IH in E as (inners & ws & -> & Hm & Hc). exists (from_base64 text :: inners), (w :: ws).
  split; [by rewrite <- app_assoc|]. split; [cbn; by rewrite Ew; cbn; rewrite Hm|].
  change (concat (w :: ws)) with (w ++ concat ws). rewrite Hc, Eb. apply take_drop.
Qed.

(** ** Event lines *)

Lemma without_newline_app s : without_newline (s +:+ String "010"%char "") = Some s.
Proof.
  induction s as [|c s IH]; [done|]. rewrite string_app_cons. cbn [without_newline].
  destruct (s +:+ String "010"%char "") eqn:E; [by destruct s|]. by rewrite IH.
Qed.

Lemma event_text event : utf8_decode (encodeEventLine event) = stringify_json event +:+ String "010"%char "".
Proof. unfold encodeEventLine. rewrite text_bytes_app, json_text. done. Qed.

Lemma parseEventLine_inv inner type event : parseEventLine inner = Some (type, event) ->
  exact event /\ encodeEventLine event = inner /\ string_field "type" event = Some type /\
  is_object (field "data" event) = true.
Proof.
  unfold parseEventLine. destruct (without_newline (utf8_decode inner)) as [body|] eqn:Eb; [|done]. cbn [mbind option_bind].
  destruct (negb _); [done|]. destruct (parse_json body) as [e|] eqn:Ep; [|done]. cbn [mbind option_bind].
  destruct (string_field "type" e) as [t|] eqn:Et; [|done]. cbn [mbind option_bind].
  destruct (is_object _) eqn:Eo; [|done]. cbn [negb]. destruct (bool_decide _) eqn:Ed; [|done]. intros [= <- <-].
  apply bool_decide_eq_true in Ed. split_and!; try done. unfold exact.
  rewrite <- Ed, event_text, without_newline_app in Eb. injection Eb as <-. done.
Qed.

Lemma parseEventLine_encode type event : exact event -> string_field "type" event = Some type ->
  is_object (field "data" event) = true -> parseEventLine (encodeEventLine event) = Some (type, event).
Proof.
  intros He Ht Ho. unfold parseEventLine. rewrite event_text, without_newline_app. cbn [mbind option_bind].
  rewrite json_line. cbn [negb]. rewrite He. cbn [mbind option_bind]. rewrite Ht. cbn [mbind option_bind].
  rewrite Ho. cbn [negb]. by rewrite bool_decide_eq_true_2.
Qed.

Lemma assoc_in key l v : assoc key l = Some v -> (key, v) ∈ l.
Proof.
  induction l as [|[k w] l IH]; cbn; [done|]. destruct (String.eqb_spec k key) as [->|]; [intros [= ->]; by left|].
  intros H'. right. by apply IH.
Qed.

Lemma assoc_with_data key l d : key <> "data" -> assoc key (with_data l d) = assoc key l.
Proof.
  intros Hk. induction l as [|[k w] l IH]; [done|].
  change (with_data ((k, w) :: l) d) with ((if String.eqb k "data" then (k, d) else (k, w)) :: with_data l d).
  destruct (String.eqb_spec k "data") as [->|]; cbn [assoc]; rewrite IH; [|done].
  by rewrite (proj2 (String.eqb_neq "data" key)) by congruence.
Qed.

Lemma assoc_data l d v : assoc "data" l = Some v -> assoc "data" (with_data l d) = Some d.
Proof.
  induction l as [|[k w] l IH]; [done|]. cbn. destruct (String.eqb k "data") eqn:Ek; cbn; by rewrite Ek.
Qed.

Lemma with_data_keys l d : (with_data l d).*1 = l.*1.
Proof. induction l as [|[k w] l IH]; [done|]. cbn. destruct (String.eqb k "data"); cbn; by f_equal. Qed.

Lemma with_data_twice l d : with_data (with_data l d) d = with_data l d.
Proof.
  induction l as [|[k w] l IH]; [done|]. cbn. destruct (String.eqb k "data") eqn:Ek; cbn; rewrite Ek; by f_equal.
Qed.

Lemma withoutSnapshot_assoc sk data : assoc sk (withoutSnapshot data (Some sk)) = None.
Proof.
  induction data as [|[k w] data IH]; [done|]. unfold withoutSnapshot. rewrite filter_cons. case_decide as Hk; [|exact IH].
  cbn. destruct (String.eqb_spec k sk) as [->|]; [|exact IH]. unfold kept_key in Hk. cbn in Hk.
  by rewrite bool_decide_eq_true_2 in Hk.
Qed.

Lemma withoutSnapshot_twice sk data : withoutSnapshot (withoutSnapshot data sk) sk = withoutSnapshot data sk.
Proof. unfold withoutSnapshot. apply filter_all. intros x Hx. by apply list_elem_of_filter in Hx as [? _]. Qed.

Lemma exact_without sk data : exact (JObj data) -> exact (JObj (withoutSnapshot data sk)).
Proof.
  intros He. apply (json_rebuilt data); [done| |].
  - apply fmap_sublist. unfold withoutSnapshot. apply sublist_filter.
  - pose proof (json_members _ He) as Hm. rewrite Forall_forall in Hm |- *. intros x Hx.
    apply list_elem_of_filter in Hx as [_ Hx]. by apply Hm.
Qed.

Lemma exact_with_data l d : exact (JObj l) -> exact d -> exact (JObj (with_data l d)).
Proof.
  intros He Hd. apply (json_rebuilt l); [done|by rewrite with_data_keys|].
  pose proof (json_members _ He) as Hm. rewrite Forall_forall in Hm |- *. intros x Hx.
  apply list_elem_of_fmap in Hx as ([k v] & -> & Hx). cbn. destruct (String.eqb k "data"); [done|]. by apply (Hm (k, v)).
Qed.

(** A line with a snapshot: its type, members and data, and what is left out. *)
Definition snapshot_line (inner : bytes) (type : string) (fields data : list (string * json)) (sk : option string) : Prop :=
  exists dk a b, parseEventLine inner = Some (type, JObj fields) /\ snapshot_fields type = Some (dk, sk) /\
    assoc "data" fields = Some (JObj data) /\ assoc dk data = Some (JStr a) /\
    assoc (default "undefined" sk) data = Some (JStr b).

Definition line_without (fields data : list (string * json)) (sk : option string) : json :=
  JObj (with_data fields (JObj (withoutSnapshot data sk))).

Lemma stripped_inv inner event : stripped inner = Some event ->
  exists type fields data sk, snapshot_line inner type fields data sk /\ event = line_without fields data sk.
Proof.
  unfold stripped, snapshot_line. destruct (parseEventLine inner) as [[type e]|] eqn:Ep; [|done]. cbn [mbind option_bind].
  destruct (snapshot_fields type) as [[dk sk]|] eqn:Es; [|done]. cbn [mbind option_bind].
  destruct e as [| | | | |fields]; try done. cbn [field]. destruct (assoc "data" fields) as [[| | | | |data]|] eqn:Ed; try done.
  destruct (assoc dk data) as [[| | |a| |]|] eqn:Ea; try done.
  destruct (assoc (default "undefined" sk) data) as [[| | |b| |]|] eqn:Eb; try done. intros [= <-].
  exists type, fields, data, sk. split; [|done]. exists dk, a, b. by split_and!.
Qed.

Lemma line_without_exact inner type fields data sk : snapshot_line inner type fields data sk ->
  parseEventLine (encodeEventLine (line_without fields data sk)) = Some (type, line_without fields data sk).
Proof.
  intros (dk & a & b & Hp & _ & Hd & _). apply parseEventLine_inv in Hp as (He & _ & Ht & _).
  pose proof (json_members _ He) as Hm. rewrite Forall_forall in Hm.
  apply parseEventLine_encode.
  - apply exact_with_data; [done|]. apply exact_without, (Hm ("data", JObj data)), assoc_in, Hd.
  - unfold string_field, line_without. cbn [field] in *. by rewrite assoc_with_data.
  - unfold line_without. cbn [field]. by rewrite (assoc_data _ _ _ Hd).
Qed.

(** Stripping twice is stripping once. *)
Lemma strip_twice inner : strip (strip inner) = strip inner.
Proof.
  destruct (stripped inner) as [event|] eqn:E; [|by unfold strip; rewrite E, E].
  assert (Es : strip inner = encodeEventLine event) by (unfold strip; by rewrite E). rewrite Es.
  apply stripped_inv in E as (type & fields & data & sk & Hl & ->). pose proof (line_without_exact _ _ _ _ _ Hl) as Hp.
  destruct Hl as (dk & a & b & _ & Hf & Hd & Ha & Hb). unfold strip, stripped. rewrite Hp. cbn [mbind option_bind].
  rewrite Hf. cbn [mbind option_bind]. unfold line_without. cbn [field]. rewrite (assoc_data _ _ _ Hd).
  clear Ha Hb. destruct sk as [sk|]; cbn [default id]; unfold id.
  - destruct (assoc dk _) as [[]|]; try done. by rewrite withoutSnapshot_assoc.
  - destruct (assoc dk _) as [[]|]; try done. destruct (assoc "undefined" _) as [[]|]; try done.
    by rewrite withoutSnapshot_twice, with_data_twice.
Qed.

(** ** Chunks *)

Lemma parseFrames_sound chunk l : parseFrames chunk = Frames l ->
  l <> [] /\ exists ws, mapM encodeFrame l = Some ws /\ concat ws = chunk.
Proof.
  unfold parseFrames. intros E. pose proof E as (inners & ws & -> & Hm & Hc)%parse_frames_sound.
  cbn [app] in *. split; [|by exists ws]. intros ->. cbn in Hm. injection Hm as <-. subst chunk. done.
Qed.

Lemma parseFrames_encoded l ws : l <> [] -> mapM encodeFrame l = Some ws -> parseFrames (concat ws) = Frames l.
Proof.
  intros Hl Hm. unfold parseFrames. rewrite (parse_frames_encoded l ws) by (done || lia). by destruct l.
Qed.

Lemma strip_none frames : forallb (fun inner => match stripped inner with None => true | Some _ => false end) frames = true ->
  strip <$> frames = frames.
Proof.
  induction frames as [|f fs IH]; [done|]. cbn [forallb]. destruct (stripped f) eqn:E; [done|]. cbn [andb]. intros H1.
  cbn. unfold strip at 1. rewrite E. by f_equal; apply IH.
Qed.

(** A chunk of frames is compacted to its frames, each stripped. *)
Lemma compact_frames chunk l : parseFrames chunk = Frames l ->
  compactStreamChunk chunk = @concat Byte.byte <$> mapM encodeFrame (strip <$> l).
Proof.
  intros E. unfold compactStreamChunk. rewrite E. destruct (forallb _ l) eqn:Ef; [|done].
  rewrite (strip_none _ Ef). apply parseFrames_sound in E as (_ & ws & -> & <-). done.
Qed.

(** The members that are neither the snapshot nor named [__proto__]. *)
Definition members_but (sk : option string) (data : list (string * json)) : list (string * json) :=
  filter (fun kv => Some kv.1 <> sk /\ kv.1 <> "__proto__") data.

Lemma withoutSnapshot_members data sk : withoutSnapshot data sk = members_but sk data.
Proof.
  unfold withoutSnapshot, members_but. apply list_filter_iff. intros [k v]. unfold kept_key. cbn.
  rewrite andb_true_iff, !negb_true_iff, bool_decide_eq_false, String.eqb_neq. done.
Qed.

(** A line without a snapshot is stripped of nothing. *)
Lemma not_snapshot_line inner : stripped inner = None -> forall type fields data sk, ~ snapshot_line inner type fields data sk.
Proof.
  intros E type fields data sk (dk & a & b & Hp & Hf & Hd & Ha & Hb). unfold stripped in E.
  rewrite Hp in E. cbn [mbind option_bind] in E. rewrite Hf in E. cbn [mbind option_bind field] in E. by rewrite Hd, Ha, Hb in E.
Qed.

(** C33 Compaction takes out the snapshots, and doing it again changes nothing. A
    chunk that is not a run of frames stays as it is. One that is has afterwards
    as many frames: each whose line is no event that carries a snapshot next to
    its delta has the bytes it had; and each whose line is one has the line of the
    same event, of the same type, with all the members it had and in its data all
    but the snapshot and, since the data is rebuilt by assignment, those named
    [__proto__]. *)
Theorem compaction_strips_snapshots chunk compacted : compactStreamChunk chunk = Some compacted ->
  (parseFrames chunk = NoFrames /\ compacted = chunk \/
   exists frames, parseFrames chunk = Frames frames /\ parseFrames compacted = Frames (strip <$> frames) /\
     Forall (fun f => (forall type fields data sk, ~ snapshot_line f type fields data sk) /\ strip f = f \/
       exists type fields data sk, snapshot_line f type fields data sk /\
         parseEventLine (strip f) = Some (type, JObj (with_data fields (JObj (members_but sk data))))) frames) /\
  compactStreamChunk compacted = Some compacted.
Proof.
  intros E. destruct (parseFrames chunk) as [frames| |] eqn:Ep.
  - rewrite (compact_frames _ _ Ep) in E. destruct (mapM encodeFrame (strip <$> frames)) as [ws|] eqn:Em; [|done].
    injection E as <-. apply parseFrames_sound in Ep as [Hne _].
    assert (Hp : parseFrames (concat ws) = Frames (strip <$> frames)) by (apply parseFrames_encoded; [by destruct frames|done]).
    split.
    + right. exists frames. split_and!; [done|done|]. rewrite Forall_forall. intros f _. unfold strip.
      destruct (stripped f) as [e|] eqn:Es; [|left; split; [by apply not_snapshot_line|done]]. right.
      apply stripped_inv in Es as (type & fields & data & sk & Hl & ->). exists type, fields, data, sk.
      split; [done|]. rewrite <- withoutSnapshot_members. by eapply line_without_exact.
    + rewrite (compact_frames _ _ Hp), <- list_fmap_compose.
      assert (Hs : (strip ∘ strip <$> frames) = strip <$> frames) by (apply list_fmap_ext; intros; apply strip_twice).
      by rewrite Hs, Em.
  - unfold compactStreamChunk in E. rewrite Ep in E. injection E as <-. split; [by left|].
    unfold compactStreamChunk. by rewrite Ep.
  - unfold compactStreamChunk in E. by rewrite Ep in E.
Qed.
End Laws.

(** ** A concrete JSON

    Any injective encoding of values in lines of ASCII characters will do: here
    a value is the binary digits of its number. *)

Definition number_key (x : js_number) : option (bool + Z * positive) :=
  match x with JsNaN => None | JsInfinite b => Some (inl b) | JsFinite n d => Some (inr (n, d)) end.
Definition key_number (k : option (bool + Z * positive)) : js_number :=
  match k with None => JsNaN | Some (inl b) => JsInfinite b | Some (inr (n, d)) => JsFinite n d end.

Notation tree := (gen_tree (string + (bool + option (bool + Z * positive)))).

Fixpoint json_tree (v : json) : tree :=
  match v with
  | JNull => GenNode 0 []
  | JBool b => GenLeaf (inr (inl b))
  | JNum x => GenLeaf (inr (inr (number_key x)))
  | JStr s => GenLeaf (inl s)
  | JArr l => GenNode 1 (json_tree <$> l)
  | JObj l => GenNode 2 ((fun kv => GenNode 3 [GenLeaf (inl kv.1); json_tree kv.2]) <$> l)
  end.

Fixpoint tree_json (t : tree) : json :=
  match t with
  | GenLeaf (inl s) => JStr s
  | GenLeaf (inr (inl b)) => JBool b
  | GenLeaf (inr (inr k)) => JNum (key_number k)
  | GenNode 1 l => JArr (tree_json <$> l)
  | GenNode 2 l => JObj ((fun t => match t with GenNode _ [GenLeaf (inl k); v] => (k, tree_json v) | _ => ("", JNull) end) <$> l)
  | GenNode _ _ => JNull
  end.

Fixpoint tree_json_tree (v : json) : tree_json (json_tree v) = v.
Proof.
  destruct v as [|b|x|s|l|l]; [done|done|by destruct x|done|..]; cbn; f_equal.
  - induction l as [|v l IH]; [done|]. cbn. f_equal; [apply tree_json_tree|apply IH].
  - induction l as [|[k v] l IH]; [done|]. cbn. f_equal; [f_equal; apply tree_json_tree|apply IH].
Qed.

Fixpoint bits_text (p : positive) : string :=
  match p with xI p => String "1"%char (bits_text p) | xO p => String "0"%char (bits_text p) | xH => "" end.
Fixpoint text_bits (s : string) : positive :=
  match s with String c s => if Ascii.eqb c "1"%char then xI (text_bits s) else xO (text_bits s) | "" => xH end.

Lemma text_bits_text p : text_bits (bits_text p) = p.
Proof. induction p as [p IH|p IH|]; cbn; by rewrite ?IH. Qed.

Lemma bits_line p : all_chars (fun c => negb (Ascii.eqb c "010"%char)) (bits_text p) = true.
Proof. by induction p. Qed.

Lemma bits_decode p b : utf8_decode (text_bytes (bits_text p) ++ b) = bits_text p +:+ utf8_decode b.
Proof.
  induction p as [p IH|p IH|]; [..|done].
  - change (String "1"%char (utf8_decode (text_bytes (bits_text p) ++ b)) = String "1"%char (bits_text p +:+ utf8_decode b)).
    by rewrite IH.
  - change (String "0"%char (utf8_decode (text_bytes (bits_text p) ++ b)) = String "0"%char (bits_text p +:+ utf8_decode b)).
    by rewrite IH.
Qed.

#[export] Instance demo_json : Json := {
  parse_json s := tree_json <$> decode (text_bits s);
  stringify_json v := bits_text (encode (json_tree v))
}.

Lemma demo_exact v : exact v.
Proof. unfold exact. cbn. rewrite text_bits_text, decode_encode. cbn. by rewrite tree_json_tree. Qed.

#[export] Instance demo_json_laws : JsonLaws.
Proof.
  split.
  - intros v. apply bits_line.
  - intros v b. apply bits_decode.
  - intros. apply demo_exact.
  - intros l _. apply Forall_forall. intros. apply demo_exact.
  - intros. apply demo_exact.
Qed.

(** A chunk of two lines: one with a snapshot, and one that is no event. *)
Definition demo_line : json := JObj [("type", JStr "message.appended");
  ("data", JObj [("messageDelta", JStr "o"); ("messageSoFar", JStr "hello"); ("n", JNum (JsFinite 1 1))]); ("at", JNull)].
Definition demo_stripped_line : json := JObj [("type", JStr "message.appended");
  ("data", JObj [("messageDelta", JStr "o"); ("n", JNum (JsFinite 1 1))]); ("at", JNull)].
Definition demo_chunk (line : json) : bytes :=
  default [] (@concat Byte.byte <$> mapM encodeFrame [encodeEventLine line; text_bytes "raw"]).

Lemma compaction_strips_snapshots_witness :
  compactStreamChunk (demo_chunk demo_line) = Some (demo_chunk demo_stripped_line) /\
  compactStreamChunk (demo_chunk demo_stripped_line) = Some (demo_chunk demo_stripped_line).
Proof.
  assert (E : compactStreamChunk (demo_chunk demo_line) = Some (demo_chunk demo_stripped_line)) by (vm_compute; reflexivity).
  split; [exact E|]. exact (proj2 (compaction_strips_snapshots (demo_chunk demo_line) (demo_chunk demo_stripped_line) E)).
Defined.

(** A member of the data named [__proto__] goes with the snapshot. *)
Lemma proto_key_lost :
  withoutSnapshot [("messageDelta", JStr "o"); ("messageSoFar", JStr "hello"); ("__proto__", JStr "x")] (Some "messageSoFar") =
  [("messageDelta", JStr "o")].
Proof. reflexivity. Qed.
