(* ===== verification/WireProps.v ===== *)
(** The transport gives back exactly the values that hold no [Buffer] and nothing
    that looks like its own envelope (src/queue.ts). *)
From S2P Require Import Prelude Model Bytes Slots Tenant JsText Sdk Contract Codec Compaction CompactionProps Wire.
Local Open Scope Z_scope.

(** ** The values the transport keeps *)

(** No buffer in it, and no object whose members look like an envelope. *)
Fixpoint plain (v : value) : bool :=
  match v with
  | VArr l => forallb plain l
  | VObj fields =>
      bool_decide (is_envelope ((fun kv => (kv.1, enveloped kv.2)) <$> fields) = None) &&
      forallb (fun kv => plain kv.2) fields
  | VBuffer _ => false
  | _ => true
  end.

Lemma fmap_back {A} (f : A -> A) (l : list A) : (f <$> l = l) <-> Forall (fun x => f x = x) l.
Proof.
  induction l as [|x l IH]; [done|]. cbn. rewrite Forall_cons. split.
  - intros [= E1 E2]. split; [done|by apply IH].
  - intros [E1 E2]. f_equal; [done|by apply IH].
Qed.

Lemma forallb_Forall_iff {A} (p : A -> bool) (P : A -> Prop) (l : list A) :
  Forall (fun x => P x <-> p x = true) l -> Forall P l <-> forallb p l = true.
Proof.
  induction 1 as [|x l Hx _ IH]; [done|]. cbn. rewrite Forall_cons, andb_true_iff. by rewrite Hx, IH.
Qed.

(** An envelope is read back as its bytes, a buffer as an object. *)
Lemma envelope_back b : revived (bytes_envelope b) = VBytes b.
Proof. cbn. by rewrite from_base64_base64. Qed.

Lemma buffer_back b : exists fields, revived (buffer_json b) = VObj fields.
Proof. by eexists. Qed.

(** Reading what was written gives the value itself exactly if it is plain. *)
Fixpoint revived_enveloped (v : value) : revived (enveloped v) = v <-> plain v = true.
Proof.
  destruct v as [| | | |l|fields|b|b]; try (clear revived_enveloped; done).
  - cbn. rewrite <- list_fmap_compose.
    assert (Hl : Forall (fun v => (revived ∘ enveloped) v = v <-> plain v = true) l)
      by (induction l as [|v l IH]; constructor; [apply revived_enveloped|exact IH]).
    clear revived_enveloped. rewrite <- (forallb_Forall_iff _ _ _ Hl), <- fmap_back. split; [by intros [= E]|by intros ->].
  - assert (Hl : Forall (fun kv : string * value => (kv.1, revived (enveloped kv.2)) = kv <-> plain kv.2 = true) fields).
    { induction fields as [|[k v] fields IH]; constructor; [|exact IH]. cbn. rewrite <- revived_enveloped.
      split; [by intros [= E]|by intros ->]. }
    clear revived_enveloped. cbn. rewrite andb_true_iff, bool_decide_eq_true, <- (forallb_Forall_iff _ _ _ Hl), <- fmap_back.
    destruct (is_envelope _) as [data|]; [split; [done|by intros [? _]]|]. rewrite <- list_fmap_compose. split.
    + intros [= E]. by split.
    + intros [_ E]. by f_equal.
  - clear revived_enveloped. cbn. rewrite from_base64_base64. done.
Qed.

(** C40 A message is read back as it was sent, however the stream that carries it
    is cut into chunks, exactly when it holds no Buffer and no object that looks
    like the envelope byte arrays are carried in. *)
Theorem transport_gives_back `{JsonLaws} v chunks : exact (enveloped v) -> concat chunks = serialize v ->
  deserialize chunks = Some v <-> plain v = true.
Proof.
  intros He Hc. rewrite <- revived_enveloped. unfold deserialize, serialize in *. rewrite Hc, <- (app_nil_r (text_bytes _)), json_text.
  change (utf8_decode []) with "". rewrite string_app_nil_r. unfold exact in He. rewrite He. cbn.
  split; [by intros [= E]|by intros ->].
Qed.

(** ** On concrete messages *)

Definition demo_message : value :=
  VObj [("runId", VStr "wrun_1"); ("runInput", VObj [("input", VBytes (text_bytes "hello")); ("n", VArr [VNum (JsFinite 7 1); VNull])])].

Lemma transport_gives_back_witness :
  deserialize [take 9 (serialize demo_message); drop 9 (serialize demo_message)] = Some demo_message /\
  deserialize [serialize (VBuffer (text_bytes "hi"))] <> Some (VBuffer (text_bytes "hi")).
Proof.
  split.
  - apply (transport_gives_back demo_message); [apply demo_exact|cbn [concat]; by rewrite app_nil_r, take_drop|reflexivity].
  - rewrite (transport_gives_back (VBuffer (text_bytes "hi"))); [done|apply demo_exact|cbn [concat]; by rewrite app_nil_r].
Defined.

(** A member of the caller's that looks like an envelope comes back as bytes. *)
Lemma envelope_forged :
  revived (enveloped (VObj [("__type", VStr "Uint8Array"); ("data", VStr "aGk=")])) = VBytes (text_bytes "hi").
Proof. reflexivity. Qed.
