(* ===== verification/MaintenanceProps.v ===== *)
(** What a pass of the storage maintenance gets done whatever fails in it, and
    that passes do not overlap (src/storage-maintenance.ts). *)
From S2P Require Import Prelude Model Bytes Prog Paging Slots Sdk StreamBlocks Streamer BlockMaintenance Schema Retention RetentionProps Maintenance.
Local Open Scope Z_scope.

(** ** What the first two tasks leave alone *)

(** The workflow tables, the locked rows, and every lock but that of the stream sweep. *)
Definition tables_kept (s s' : store) : Prop :=
  so_db s' = so_db s /\ so_locked_runs s' = so_locked_runs s /\
  forall k, k <> STREAM_RETENTION_LOCK_KEY -> (k ∈ so_locks s' <-> k ∈ so_locks s).

#[export] Instance tables_kept_preorder : PreOrder tables_kept.
Proof.
  split; [by intros s|]. intros s1 s2 s3 (E1 & L1 & K1) (E2 & L2 & K2). split_and!; [congruence..|].
  intros k Hk. by rewrite K2, K1.
Qed.

Notation keeps_tables := (respects TxAborted tables_kept).

Lemma deleting_keeps_tables f : (forall s, tables_kept s (f s)) -> keeps_tables (sql (M:=unit) (E:=werror) (deleting f)).
Proof. intros H. apply respects_sql. intros s x s' [= _ <-]. apply H. Qed.

Lemma batches_keep_tables w b b' mx n batches deleted :
  keeps_tables (sweep_batches (sql (delete_stream_batch w b)) (sql (deleteExpiredCheckpoints w)) b' mx n batches deleted).
Proof.
  assert (Hfin : keeps_tables (sql (M:=unit) (E:=werror) (deleteExpiredCheckpoints w))) by (by apply deleting_keeps_tables).
  revert batches deleted. induction n as [|n IH]; intros batches deleted; cbn [sweep_batches].
  - by apply respects_bind.
  - apply respects_bind; [apply respects_sql; by intros s x s' [= _ <-]|]. intros k.
    destruct (_ <? _)%nat; [by apply respects_bind|apply IH].
Qed.

Lemma prune_streams_keeps_tables w b mx : keeps_tables (prune_streams w b mx).
Proof.
  unfold prune_streams, with_lock. apply respects_bind.
  - apply respects_sql. intros s x s' E. unfold pg_try_advisory_lock in E. case_bool_decide; simplify_eq; [done|].
    split_and!; [done..|]. intros k Hk. cbn. rewrite elem_of_cons. split; [by intros [?|?]|by right].
  - intros []; [|done]. apply respects_try; [apply batches_keep_tables|]. intros r. apply respects_try; [|intros; apply respects_lift].
    apply deleting_keeps_tables. intros s. split_and!; [done..|]. intros k Hk. cbn. rewrite list_elem_of_filter. tauto.
Qed.

Lemma pruneExpired_keeps_tables b mx : keeps_tables (pruneExpiredStreamChunks b mx).
Proof.
  unfold pruneExpiredStreamChunks. repeat (apply respects_bind; [apply respects_lift|]; intros). apply prune_streams_keeps_tables.
Qed.

Lemma pack_keeps_tables compact n b s : tables_kept s (pack_task compact n b s).2.
Proof. unfold pack_task. destruct (packTerminalStreamBlocks _ _ _ _ _ _) as [r table]. done. Qed.

Lemma prune_task_keeps_tables b mx s : tables_kept s (program_task (pruneExpiredStreamChunks b mx) s).2.
Proof.
  unfold program_task. destruct (run TxAborted _ tt s) as [[r m] s'] eqn:E. cbn.
  eapply (run_respects TxAborted tables_kept); [|exact E]. apply pruneExpired_keeps_tables.
Qed.

(** What is due does not depend on the streams. *)
Lemma due_kept s s' : tables_kept s s' -> due_runs s' = due_runs s.
Proof.
  intros (E & L & _). unfold due_runs, run_due, expired, lineage_blocked, lineage_runs, capability_held, so_runs, so_now.
  by rewrite E, L.
Qed.

(** A pass of the dispatcher's maintenance deletes the runs that are due
    whatever becomes of its other two tasks: packing may meet a stream it cannot
    read and the sweep of the chunks a lock that is taken, and still every run
    past its deadline, in a lineage nothing needs, is gone with its rows. *)
Theorem pass_prunes_due_runs compact o b mx s :
  mo_runBatchSize o = JsFinite b 1 -> mo_maxBatches o = JsFinite mx 1 ->
  RUN_RETENTION_LOCK_KEY ∉ so_locks s -> 0 < b <= 9007199254740991 -> 0 < mx <= 9007199254740991 ->
  Z.of_nat (length (due_runs s)) < b * mx ->
  let '(r, s') := runStorageMaintenanceOnce (defaultDependencies compact) o s in
  mr_runs r = Ok (RetentionResult (Z.of_nat (length (due_runs s))) (1 + Z.of_nat (length (due_runs s)) / b) false true) /\
  forall k x, so_runs s' !! k = Some x <-> so_runs s !! k = Some x /\ (k, x) ∉ due_runs s.
Proof.
  intros Hb Hm Hk Hb0 Hm0 Hn. unfold runStorageMaintenanceOnce, defaultDependencies.
  cbn [dp_packBlocks dp_pruneStreams dp_pruneRuns]. rewrite Hb, Hm.
  pose proof (pack_keeps_tables compact (mo_maxStreamsToPack o) (default true (mo_compactSnapshots o)) s) as K1.
  destruct (pack_task _ _ _ s) as [blocks s1]. cbn [snd] in K1.
  pose proof (prune_task_keeps_tables (mo_streamBatchSize o) (JsFinite mx 1) s1) as K2.
  destruct (program_task (pruneExpiredStreamChunks _ _) s1) as [streams s2]. cbn [snd] in K2.
  assert (K : tables_kept s s2) by (by transitivity s1). pose proof (due_kept _ _ K) as Ed.
  destruct K as (Edb & _ & Kl). rewrite <- Ed in Hn |- *.
  destruct (run_sweep_is_one_deletion b mx s2) as (v & Hv & Hr); [rewrite Kl by done; done|done..|].
  unfold program_task. rewrite Hr. cbn [mr_runs]. split; [done|]. intros k x.
  assert (Es : so_runs s2 = so_runs s) by (unfold so_runs; by rewrite Edb).
  rewrite purged_lookup, Es, Hv. split; intros [Hx Hnot]; (split; [done|]).
  - intros Hin. apply Hnot, list_elem_of_fmap. by exists (k, x).
  - intros Hin. apply list_elem_of_fmap in Hin as ([k' x'] & -> & Hin). apply Hnot. pose proof Hin as Hin2.
    apply elem_due_runs in Hin2 as [Hx' _]. cbn in *. rewrite Es in Hx'. by simplify_eq.
Qed.

(** ** The loop *)

(** The passes begun over a run of events, and those settled. *)
Fixpoint passes (begun : list bool) (es : list loop_event) (n : nat) : list nat :=
  match begun, es with
  | b :: begun, e :: es =>
      let n := match e with PassSettled => 0%nat | _ => (n + Nat.b2n b)%nat end in n :: passes begun es n
  | _, _ => []
  end.

Lemma loop_active es : forall l, let '(bs, l') := loop_run l es in
  Forall (fun n => n <= 1)%nat (passes bs es (Nat.b2n (lp_active l))).
Proof.
  induction es as [|e es IH]; intros l; [by constructor|]. cbn [loop_run]. destruct (loop_step l e) as [b l1] eqn:E.
  specialize (IH l1). destruct (loop_run l1 es) as [bs l2]. cbn [passes].
  destruct l as [[] []], e; cbn in E; simplify_eq; cbn in *; (constructor; [lia|exact IH]).
Qed.

(** Passes never overlap, and none begins once the loop is stopped. *)
Lemma loop_never_overlaps intervalMs l es : start_loop intervalMs = Some l ->
  let '(bs, l') := loop_run l es in
  Forall (fun n => n <= 1)%nat (passes bs es 1).
Proof.
  unfold start_loop. destruct (_ =? 0); [done|]. intros [= <-]. apply (loop_active es (tick (Loop false false)).2).
Qed.

Lemma stopped_begins_none es : forall l, lp_stopped l = true ->
  let '(bs, l') := loop_run l es in Forall (fun b => b = false) bs /\ lp_stopped l' = true.
Proof.
  induction es as [|e es IH]; intros l Hl; [by split|]. cbn [loop_run]. destruct (loop_step l e) as [b l1] eqn:E.
  assert (lp_stopped l1 = true /\ b = false) as [Hl1 ->].
  { destruct l as [[] []], e; cbn in *; by simplify_eq. }
  specialize (IH l1 Hl1). destruct (loop_run l1 es) as [bs l2]. destruct IH. split; [by constructor|done].
Qed.

(** ** A pass whose other two tasks get nothing done *)

Definition busy_store : store := put_locks demo_store [STREAM_RETENTION_LOCK_KEY].
Definition demo_maintenance : maintenance_options :=
  MaintenanceOptions (JsFinite 10 1) (JsFinite 3 1) JsNaN (JsFinite 2 1) None.

Lemma pass_prunes_due_runs_witness :
  let '(r, s') := runStorageMaintenanceOnce (defaultDependencies (fun b => b)) demo_maintenance busy_store in
  mr_blocks r = Err STypeError /\ mr_streams r = Ok (emptyRetention false) /\
  mr_runs r = Ok (RetentionResult 1 1 false true) /\
  (forall k x, so_runs s' !! k = Some x <-> so_runs busy_store !! k = Some x /\ (k, x) ∉ due_runs busy_store).
Proof.
  assert (Hl : (due_runs busy_store).*1 = [("t1", "old")]) by (vm_compute; reflexivity).
  assert (Hn : length (due_runs busy_store) = 1%nat) by (by rewrite <- (length_fmap fst), Hl).
  assert (Hd : Z.of_nat (length (due_runs busy_store)) < 2 * 3) by (rewrite Hn; lia).
  assert (Hk : RUN_RETENTION_LOCK_KEY ∉ so_locks busy_store) by (by apply (bool_decide_unpack _); vm_compute).
  pose proof (pass_prunes_due_runs (fun b => b) demo_maintenance 2 3 busy_store eq_refl eq_refl Hk ltac:(lia) ltac:(lia) Hd) as H.
  assert (E : (fun r => (mr_blocks r, mr_streams r))
    (runStorageMaintenanceOnce (defaultDependencies (fun b => b)) demo_maintenance busy_store).1 =
    (Err STypeError, Ok (emptyRetention false))) by (vm_compute; reflexivity).
  destruct (runStorageMaintenanceOnce _ _ _) as [r s']. cbn [fst] in E. injection E as E1 E2. destruct H as [H1 H2].
  split; [exact E1|]. split; [exact E2|]. split; [rewrite H1, Hn; reflexivity|exact H2].
Defined.
