(* ===== verification/MigrateProps.v ===== *)
(** Boots migrate one at a time, whoever starts or dies when; a tenant's
    partitions are there once ensured, and gone with its rows and no one else's
    once dropped (src/migrate.ts). *)
From S2P Require Import Prelude Model Bytes Prog Paging Slots Sdk Tenant StreamBlocks Streamer Schema Retention Migrate.
From stdpp Require Import relations.
Local Open Scope Z_scope.

(** ** Migrations *)

Section Migrations.
Context {D : Type} (exec : string -> D -> option D) (files : list string) (Hfiles : NoDup files) (d0 : D) (applied0 : list string).

(** The files that are not applied at first, in order. *)
Definition missing : list string := filter (fun f => f ∉ applied0) files.

(** The schema after some migrations. *)
Fixpoint replay (names : list string) (d : D) : option D :=
  match names with [] => Some d | f :: names => exec f d ≫= replay names end.

Lemma replay_snoc names f d d1 d2 : replay names d = Some d1 -> exec f d1 = Some d2 -> replay (names ++ [f]) d = Some d2.
Proof.
  revert d. induction names as [|g names IH]; intros d H1 H2; cbn in *; [simplify_eq; by rewrite H2|].
  destruct (exec g d) as [d'|]; [cbn in *|done]. by apply IH.
Qed.

(** The state is that of the first so many missing files, applied in order. *)
Definition schema_ok (s : mig_state (D:=D)) : Prop :=
  exists k, ms_applied s = applied0 ++ take k missing /\ replay (take k missing) d0 = Some (ms_schema s).

(** Where the holder of the lock is in the files. *)
Definition place_ok (p : mig_proc) (s : mig_state (D:=D)) : Prop :=
  match p with
  | Applying seen todo applied =>
      exists past, files = past ++ todo /\ ms_applied s = seen ++ applied /\ (forall f, f ∈ applied -> f ∈ past) /\
        (forall f, f ∈ past -> f ∈ ms_applied s)
  | Unlocking (Ok _) => forall f, f ∈ files -> f ∈ ms_applied s
  | _ => True
  end.

(** A call that has returned without an error has left every file applied. *)
Definition done_ok (p : mig_proc) (s : mig_state (D:=D)) : Prop :=
  match p with Returned (Ok _) => forall f, f ∈ files -> f ∈ ms_applied s | _ => True end.

Definition pool_ok (c : list mig_proc * mig_state (D:=D)) : Prop :=
  schema_ok c.2 /\
  (forall i p, c.1 !! i = Some p -> holds_lock p = true -> ms_lock c.2 = Some i /\ place_ok p c.2) /\
  (forall i p, c.1 !! i = Some p -> done_ok p c.2).

(** The next file of a pass that is not seen is the next one missing. *)
Lemma next_missing past f todo k seen applied : files = past ++ f :: todo ->
  applied0 ++ take k missing = seen ++ applied -> (forall g, g ∈ applied -> g ∈ past) ->
  (forall g, g ∈ past -> g ∈ applied0 ++ take k missing) -> f ∉ seen ->
  f ∉ applied0 ++ take k missing /\ take (S k) missing = take k missing ++ [f].
Proof.
  intros Ef Ea Hap Hpast Hseen. pose proof Hfiles as Hn. rewrite Ef in Hn. apply NoDup_app in Hn as (_ & Hdis & _).
  assert (Hf : f ∉ applied0 ++ take k missing).
  { rewrite Ea, elem_of_app. intros [?|Hin]; [done|]. apply (Hdis f (Hap f Hin)). by left. }
  split; [done|]. rewrite elem_of_app in Hf. assert (Hf0 : f ∉ applied0) by tauto. assert (Hfk : f ∉ take k missing) by tauto.
  assert (Em : missing = filter (fun g => g ∉ applied0) past ++ f :: filter (fun g => g ∉ applied0) todo).
  { unfold missing. rewrite Ef, filter_app, filter_cons_True by done. done. }
  set (before := filter (fun g => g ∉ applied0) past) in *.
  assert (Hk : k = length before).
  { assert (k <= length before)%nat as Hle.
    { destruct (decide (k <= length before)%nat); [done|]. exfalso. apply Hfk. rewrite Em, take_app_ge by lia.
      apply elem_of_app. right. replace (k - length before)%nat with (S (k - length before - 1)) by lia. by left. }
    destruct (decide (k = length before)) as [|Hne]; [done|]. exfalso.
    assert (Hm : NoDup missing) by (by apply NoDup_filter). rewrite Em in Hm. apply NoDup_app in Hm as (Hb & _ & _).
    destruct (lookup_lt_is_Some_2 before k) as [g Hg]; [lia|].
    assert (Hgb : g ∈ before) by (by apply list_elem_of_lookup_2 in Hg). unfold before in Hgb.
    apply list_elem_of_filter in Hgb as [Hg0 Hgp]. apply Hpast in Hgp. rewrite elem_of_app in Hgp.
    destruct Hgp as [|Hgk]; [done|]. rewrite Em, take_app_le in Hgk by lia.
    apply list_elem_of_lookup in Hgk as [j Hj]. apply lookup_take_Some in Hj as [Hj Hlt].
    pose proof (NoDup_lookup _ _ _ _ Hb Hj Hg). lia. }
  subst k. rewrite Em, take_app_length. replace (S (length before)) with (length before + 1)%nat by lia.
  by rewrite take_app_add.
Qed.

(** What a step does to the state: the names applied only grow. *)
Definition grows (s s' : mig_state (D:=D)) : Prop := forall f, f ∈ ms_applied s -> f ∈ ms_applied s'.

Lemma done_grows p s s' : grows s s' -> done_ok p s -> done_ok p s'.
Proof. unfold done_ok. destruct p as [| | | |[l|]]; auto. Qed.

Local Ltac step_cases := split_and!; try done; try (by intros g Hg); try (by cbn; intros).

Lemma step_ok i p s p' s' : schema_ok s -> (holds_lock p = true -> ms_lock s = Some i /\ place_ok p s) ->
  done_ok p s -> mig_step exec files i p s = Some (p', s') ->
  schema_ok s' /\ grows s s' /\ (holds_lock p' = true -> ms_lock s' = Some i /\ place_ok p' s') /\ done_ok p' s' /\
  (holds_lock p = false -> ms_lock s = None) /\ (holds_lock p = true -> holds_lock p' = false -> ms_lock s' = None) /\
  (holds_lock p = true -> holds_lock p' = true -> ms_lock s' = ms_lock s).
Proof.
  intros Hs Hp Hd Hstep. destruct p as [| |seen todo applied|r|r]; cbn in Hstep; try done.
  - destruct (ms_lock s) eqn:El; [done|]. injection Hstep as <- <-. step_cases.
  - injection Hstep as <- <-. destruct (Hp eq_refl) as [Hl _]. step_cases. intros _. split; [done|]. exists [].
    split_and!; [done|by rewrite app_nil_r|by intros f ?%elem_of_nil|by intros f ?%elem_of_nil].
  - destruct (Hp eq_refl) as [Hl (past & Ef & Ea & Hap & Hpast)]. destruct todo as [|f todo].
    { injection Hstep as <- <-. step_cases. intros _. split; [done|]. intros f Hf. rewrite Ef, app_nil_r in Hf. auto. }
    case_bool_decide as Hin.
    { injection Hstep as <- <-. step_cases. intros _. split; [done|]. exists (past ++ [f]).
      rewrite <- app_assoc. split_and!; [done|done|..]; intros g Hg.
      - apply elem_of_app. left. auto.
      - apply elem_of_app in Hg as [Hg|Hg%list_elem_of_singleton]; [auto|]. subst g. rewrite Ea. apply elem_of_app. by left. }
    destruct (exec f (ms_schema s)) as [d|] eqn:Ee; [|injection Hstep as <- <-; step_cases].
    case_bool_decide as Happ; injection Hstep as <- <-; [step_cases|].
    destruct Hs as (k & Hk & Hrep). rewrite Hk in Ea.
    destruct (next_missing past f todo k seen applied Ef Ea Hap) as [_ Ht]; [by rewrite <- Hk|done|].
    step_cases.
    + exists (S k). cbn. rewrite Ht, Hk, app_assoc. split; [done|]. by eapply replay_snoc.
    + intros g Hg. cbn. apply elem_of_app. by left.
    + intros _. split; [done|]. exists (past ++ [f]). cbn. rewrite Hk. split_and!; [by rewrite <- app_assoc|by rewrite Ea, app_assoc|..]; intros g Hg.
      * apply elem_of_app in Hg as [Hg|Hg]; apply elem_of_app; [left; auto|by right].
      * apply elem_of_app in Hg as [Hg|Hg]; [|apply elem_of_app; by right].
        apply elem_of_app. left. rewrite <- Hk. auto.
  - injection Hstep as <- <-. destruct (Hp eq_refl) as [Hl Hpl]. step_cases.
Qed.

Lemma pool_keeps c c' : pool_ok c -> mig_pool exec files c c' -> pool_ok c'.
Proof.
  intros (Hs & Hp & Hd) Hstep. inversion Hstep as [i p p' ps s s' Hi Hm|i p ps s Hi Hr]; subst; cbn [fst snd] in *.
  - destruct (step_ok i p s p' s' Hs (Hp i p Hi) (Hd i p Hi) Hm) as (Hs' & Hg & Hp' & Hd' & Hfree & Hrel & Hkeep).
    split; [done|]. split; intros j q Hq; cbn in Hq; apply list_lookup_insert_Some in Hq as [(<- & <- & _)|(Hne & Hq)]; try by auto.
    + intros Hh. destruct (Hp j q Hq Hh) as [Hl _]. destruct (holds_lock p) eqn:Ep.
      * destruct (Hp i p Hi Ep) as [Hl' _]. congruence.
      * rewrite Hfree in Hl by done. done.
    + eapply done_grows; [exact Hg|]. by apply (Hd j).
  - unfold mig_crash. cbn [fst snd]. split; [by destruct (holds_lock p)|].
    split; intros j q Hq; cbn in Hq; apply list_lookup_insert_Some in Hq as [(<- & <- & _)|(Hne & Hq)]; try done.
    + intros Hh. destruct (Hp j q Hq Hh) as [Hl Hpl]. destruct (holds_lock p) eqn:Ep; [|done].
      destruct (Hp i p Hi Ep) as [Hl' _]. congruence.
    + destruct (holds_lock p); [|by apply (Hd j)]. eapply done_grows; [|by apply (Hd j)]. by intros g Hg.
Qed.

(** C35 However many processes boot at once, and whichever of them die on the
    way, the schema is at every moment what the first so many of the missing
    migrations make of it, each run once, whole and in order; and once a boot
    has returned without an error none is missing. *)
Theorem migrations_serialize n s ps' s' :
  ms_lock s = None -> ms_applied s = applied0 -> ms_schema s = d0 ->
  rtc (mig_pool exec files) (replicate n Booting, s) (ps', s') ->
  (exists k, ms_applied s' = applied0 ++ take k missing /\ replay (take k missing) d0 = Some (ms_schema s')) /\
  (forall l, Returned (Ok l) ∈ ps' -> ms_applied s' = applied0 ++ missing).
Proof.
  intros Hl Ha Hd Hr. assert (H0 : pool_ok (replicate n Booting, s)).
  { split; [exists 0%nat; cbn; by rewrite app_nil_r, Ha, Hd|].
    split; intros i p Hp; cbn in Hp; apply lookup_replicate in Hp as [-> _]; done. }
  assert (H1 : pool_ok (ps', s')).
  { remember (replicate n Booting, s) as c eqn:Ec. remember (ps', s') as c' eqn:Ec'. clear Ec Ec'.
    induction Hr as [|c1 c2 c3 Hstep _ IH]; [done|]. by apply IH, (pool_keeps c1). }
  destruct H1 as ((k & Hk & Hrep) & _ & Hdone). cbn [fst snd] in *. split; [by exists k|].
  intros l Hin. apply list_elem_of_lookup in Hin as [i Hi]. specialize (Hdone i _ Hi). cbn in Hdone.
  rewrite Hk. f_equal. apply take_ge. destruct (decide (length missing <= k)%nat) as [|Hlt]; [done|]. exfalso.
  destruct (lookup_lt_is_Some_2 missing k) as [f Hf]; [lia|].
  assert (Hfm : f ∈ missing) by (by apply list_elem_of_lookup_2 in Hf). pose proof Hfm as [Hf0 Hff]%list_elem_of_filter.
  specialize (Hdone f Hff). rewrite Hk in Hdone. apply elem_of_app in Hdone as [|Htk]; [done|].
  apply list_elem_of_lookup in Htk as [j Hj]. apply lookup_take_Some in Hj as [Hj Hjk].
  pose proof (NoDup_lookup _ _ _ _ (NoDup_filter _ _ Hfiles) Hj Hf). lia.
Qed.
End Migrations.

(** ** A call alone *)

(** A call that gets the lock returns: the fuel is enough. *)
Lemma applying_returns {D : Type} (exec : string -> D -> option D) files todo : forall seen applied s,
  exists r s', mig_run exec (length todo + 2) files (Applying seen todo applied) s = (Returned r, s').
Proof.
  induction todo as [|f todo IH]; intros seen applied s; [cbn; eauto|].
  cbn [length Nat.add mig_run mig_step]. assert (Hun : forall r s0, exists r' s', mig_run exec (length todo + 2) files (Unlocking r) s0 = (Returned r', s')).
  { intros r s0. rewrite Nat.add_comm. cbn. destruct (length todo); cbn; eauto. }
  case_bool_decide; [apply IH|]. destruct (exec f (ms_schema s)); [|apply Hun]. case_bool_decide; [apply Hun|apply IH].
Qed.

Lemma runMigrations_returns {D : Type} (exec : string -> D -> option D) dir s : ms_lock s = None ->
  exists r s', runMigrations exec dir s = (Returned r, s').
Proof.
  intros Hl. unfold runMigrations. replace (length (migration_files dir) + 4)%nat with (S (S (length (migration_files dir) + 2))) by lia.
  cbn [mig_run mig_step]. rewrite Hl. cbn [mig_run mig_step]. apply applying_returns.
Qed.

Lemma migration_files_nodup dir : NoDup dir -> NoDup (migration_files dir).
Proof. intros H. unfold migration_files. rewrite sort_with_perm. by apply NoDup_filter. Qed.

(** Two boots over a directory of three files: the first dies after a migration. *)
Definition demo_exec (name : string) (d : list string) : option (list string) := Some (d ++ [name]).
Definition demo_dir : list string := migration_files ["0002.sql"; "readme.md"; "0001.sql"].
Definition demo_mig : mig_state := MigState (D:=list string) ["base"] ["0000.sql"] None.

Lemma migrations_serialize_witness :
  exists ps s, rtc (mig_pool demo_exec demo_dir) ([Booting; Booting], demo_mig) (ps, s) /\
    ps !! 1%nat = Some (Returned (Ok ["0002.sql"])) /\
    ms_applied s = ["0000.sql"; "0001.sql"; "0002.sql"] /\ ms_schema s = ["base"; "0001.sql"; "0002.sql"].
Proof.
  eexists _, _. assert (Hr : rtc (mig_pool demo_exec demo_dir) ([Booting; Booting], demo_mig)
    ([Returned (Err tt); Returned (Ok ["0002.sql"])],
     MigState (D:=list string) ["base"; "0001.sql"; "0002.sql"] ["0000.sql"; "0001.sql"; "0002.sql"] None)).
  { do 3 (eapply rtc_l; [eapply (mig_pool_step _ _ 0); vm_compute; reflexivity|vm_compute]).
    eapply rtc_l; [eapply (mig_pool_crash _ _ 0); vm_compute; reflexivity|vm_compute].
    do 6 (eapply rtc_l; [eapply (mig_pool_step _ _ 1); vm_compute; reflexivity|vm_compute]).
    apply rtc_refl. }
  split; [exact Hr|]. split; [reflexivity|].
  assert (Hn : NoDup demo_dir) by (apply migration_files_nodup; apply (bool_decide_unpack (NoDup _)); vm_compute; exact I).
  destruct (migrations_serialize demo_exec demo_dir Hn ["base"] ["0000.sql"] 2 demo_mig _ _ eq_refl eq_refl eq_refl Hr)
    as [_ H2].
  split; [|reflexivity]. rewrite (H2 ["0002.sql"]); [vm_compute; reflexivity|]. right. left.
Defined.

(** ** Partitions *)

Section Partitions.
Context (sha256_hex auto_index : string -> string).
Local Notation name := (derivePartitionName sha256_hex).

(** Every partition bears the name derived for it. *)
Definition catalog_wf (c : catalog) : Prop :=
  forall n p, ct_partitions c !! n = Some p -> n = name (pt_table p) (pt_tenant p) /\ pt_table p ∈ PARTITIONED_TABLES.

(** No other tenant with a partition has the names of this one's. *)
Definition names_apart (tenant : string) (c : catalog) : Prop :=
  forall n p, ct_partitions c !! n = Some p -> pt_tenant p <> tenant ->
    forall table, table ∈ PARTITIONED_TABLES -> n <> name table tenant.

Lemma names_of_tables t1 t2 : name "workflow_events" t1 <> name "workflow_stream_chunks" t2.
Proof. unfold derivePartitionName. cbn. discriminate. Qed.

Definition tenant_partitions (tenant : string) : gmap string table_partition :=
  <[name "workflow_stream_chunks" tenant := Partition "workflow_stream_chunks" tenant]>
    {[name "workflow_events" tenant := Partition "workflow_events" tenant]}.

Lemma apart_lookup tenant table c p : catalog_wf c -> names_apart tenant c -> table ∈ PARTITIONED_TABLES ->
  ct_partitions c !! name table tenant = Some p -> p = Partition table tenant.
Proof.
  intros Hw Ha Ht Hp. destruct (decide (pt_tenant p = tenant)) as [E|Hne].
  - destruct (Hw _ _ Hp) as [En Hin]. destruct p as [t x]. cbn in *. subst x. f_equal.
    unfold PARTITIONED_TABLES in *. set_unfold in Ht. set_unfold in Hin.
    destruct Ht as [->|[->|[]]], Hin as [->|[->|[]]]; try done; exfalso; by apply (names_of_tables tenant tenant).
  - exfalso. by apply (Ha _ _ Hp Hne table Ht).
Qed.

(** A creation leaves the partition there, and the others as they were. *)
Lemma create_partition_spec tenant table c : catalog_wf c -> names_apart tenant c -> table ∈ PARTITIONED_TABLES ->
  match create_partition sha256_hex auto_index table tenant c with
  | Ok c' => ct_partitions c' = <[name table tenant := Partition table tenant]> (ct_partitions c)
  | Err e => e = DuplicateTable /\ ct_partitions c !! name table tenant = Some (Partition table tenant)
  end.
Proof.
  intros Hw Ha Ht. unfold create_partition. destruct (ct_partitions c !! name table tenant) as [p|] eqn:E.
  - split; [done|]. f_equal. by eapply apart_lookup.
  - case_bool_decide as Hex; [|done]. exfalso. apply Exists_exists in Hex as ([n p] & Hin & Hp). cbn in Hp. subst p.
    apply elem_of_map_to_list in Hin. destruct (Hw _ _ Hin) as [En _]. cbn in En. congruence.
Qed.

Lemma wf_insert tenant table c c' : catalog_wf c -> names_apart tenant c -> table ∈ PARTITIONED_TABLES ->
  ct_partitions c' = <[name table tenant := Partition table tenant]> (ct_partitions c) -> catalog_wf c' /\ names_apart tenant c'.
Proof.
  intros Hw Ha Ht E. split; intros n p Hp; rewrite E in Hp; apply lookup_insert_Some in Hp as [[<- <-]|[_ Hp]]; try done;
    [by apply Hw|by apply (Ha n p)].
Qed.

Lemma ensured tenant c : assertValidTenantId tenant = true -> catalog_wf c -> names_apart tenant c ->
  exists c', ensureTenantPartitions sha256_hex auto_index tenant c = Ok c' /\
    ct_partitions c' = tenant_partitions tenant ∪ ct_partitions c.
Proof.
  intros Hv Hw Ha. unfold ensureTenantPartitions, PARTITIONED_TABLES, tenant_partitions. rewrite Hv. cbn [negb ensure_tables].
  assert (Hren : forall c, ct_partitions (renameDedupIndex sha256_hex tenant c) = ct_partitions c).
  { intros c1. unfold renameDedupIndex. destruct (ct_dedup c1 !! _); [|done]. by destruct (String.eqb _ _). }
  assert (H1 : "workflow_events" ∈ PARTITIONED_TABLES) by (unfold PARTITIONED_TABLES; set_solver).
  assert (H2 : "workflow_stream_chunks" ∈ PARTITIONED_TABLES) by (unfold PARTITIONED_TABLES; set_solver).
  pose proof (create_partition_spec tenant _ c Hw Ha H1) as S1.
  assert (exists c1, match create_partition sha256_hex auto_index "workflow_events" tenant c with
      Ok c => Ok c | Err DuplicateTable => Ok c | Err e => Err e end = Ok c1 /\
      ct_partitions c1 = <[name "workflow_events" tenant := Partition "workflow_events" tenant]> (ct_partitions c)) as (c1 & E1 & P1).
  { destruct (create_partition _ _ _ _ c) as [c1|e]; [by exists c1|]. destruct S1 as [-> S1]. exists c. by rewrite insert_id. }
  destruct (wf_insert tenant _ c c1 Hw Ha H1 P1) as [Hw1 Ha1].
  pose proof (create_partition_spec tenant _ c1 Hw1 Ha1 H2) as S2.
  assert (exists c2, match create_partition sha256_hex auto_index "workflow_stream_chunks" tenant c1 with
      Ok c => Ok c | Err DuplicateTable => Ok c1 | Err e => Err e end = Ok c2 /\
      ct_partitions c2 = <[name "workflow_stream_chunks" tenant := Partition "workflow_stream_chunks" tenant]> (ct_partitions c1))
    as (c2 & E2 & P2).
  { destruct (create_partition _ _ _ _ c1) as [c2|e]; [by exists c2|]. destruct S2 as [-> S2]. exists c1. by rewrite insert_id. }
  assert (Eq : ct_partitions (renameDedupIndex sha256_hex tenant c2) =
    <[name "workflow_stream_chunks" tenant := Partition "workflow_stream_chunks" tenant]>
      {[name "workflow_events" tenant := Partition "workflow_events" tenant]} ∪ ct_partitions c).
  { rewrite Hren, P2, P1, <- !insert_union_l. f_equal. by rewrite insert_union_singleton_l. }
  exists (renameDedupIndex sha256_hex tenant c2). split; [|exact Eq].
  destruct (create_partition _ _ "workflow_events" _ c) as [c1'|[]]; simplify_eq; cbn [ensure_tables];
    (destruct (create_partition _ _ "workflow_stream_chunks" _ _) as [c2'|[]]; by simplify_eq).
Qed.

Lemma exist_iff tenant c : assertValidTenantId tenant = true ->
  tenantPartitionsExist sha256_hex tenant c = Ok true <->
  forall table, table ∈ PARTITIONED_TABLES -> is_Some (ct_partitions c !! name table tenant).
Proof.
  intros Hv. unfold tenantPartitionsExist. rewrite Hv. cbn [negb]. split.
  - intros H table Ht. injection H as H. assert (H' : forallb (fun table => bool_decide (is_Some
      (ct_partitions c !! derivePartitionName sha256_hex table tenant))) PARTITIONED_TABLES = true) by exact H.
    rewrite forallb_forall in H'. apply list_elem_of_In, H' in Ht. by apply bool_decide_eq_true in Ht.
  - intros H. f_equal. apply forallb_forall. intros t Ht. apply bool_decide_eq_true, H. by apply list_elem_of_In.
Qed.

(** The store without what the partitioned tables, the slot markers, the
    checkpoints and the start admissions have of a tenant. *)
Definition without_tenant (tenant : string) (s : store) : store :=
  let d := so_db s in
  Store (MkDb (db_runs d) (filter (fun e => ev_tenant e <> tenant) (db_events d))
           (filter (fun kx => kx.1.1 <> tenant) (db_slots d)) (db_steps d) (db_hooks d) (db_waits d)
           (filter (fun kx => kx.1.1 <> tenant) (db_admissions d)) (db_deadLetters d) (db_jobs d) (db_now d))
    (filter (fun x => sr_tenant x <> tenant) (so_chunks s)) (filter (fun k => ck_tenant k <> tenant) (so_checkpoints s))
    (so_locks s) (so_locked_runs s).

Lemma dropped tenant c s : assertValidTenantId tenant = true ->
  ct_partitions c !! name "workflow_events" tenant = Some (Partition "workflow_events" tenant) ->
  ct_partitions c !! name "workflow_stream_chunks" tenant = Some (Partition "workflow_stream_chunks" tenant) ->
  exists c', dropTenantPartitions sha256_hex tenant c s = Ok (c', without_tenant tenant s) /\
    ct_partitions c' = delete (name "workflow_stream_chunks" tenant) (delete (name "workflow_events" tenant) (ct_partitions c)).
Proof.
  intros Hv H1 H2. unfold dropTenantPartitions. rewrite Hv. cbn [negb foldl PARTITIONED_TABLES].
  unfold drop_partition at 2. rewrite H1. unfold drop_partition. cbn [ct_partitions].
  rewrite lookup_delete_ne by apply names_of_tables. rewrite H2. eexists. split; [f_equal; f_equal; by destruct s as [[]]|done].
Qed.

(** C36 A tenant's partitions come and go without touching another tenant. Given
    derived names that tell the tenants apart, ensuring them never fails, leaves
    both there beside all the others, and changes nothing the second time;
    dropping them takes both away with the tenant's events, chunks, slot
    markers, checkpoints and start admissions, and leaves every other partition
    and every other row where it was. *)
Theorem partitions_come_and_go tenant c s :
  assertValidTenantId tenant = true -> catalog_wf c -> names_apart tenant c ->
  exists c1, ensureTenantPartitions sha256_hex auto_index tenant c = Ok c1 /\
    ct_partitions c1 = tenant_partitions tenant ∪ ct_partitions c /\
    tenantPartitionsExist sha256_hex tenant c1 = Ok true /\
    (exists c2, ensureTenantPartitions sha256_hex auto_index tenant c1 = Ok c2 /\ ct_partitions c2 = ct_partitions c1) /\
    (exists c3, dropTenantPartitions sha256_hex tenant c1 s = Ok (c3, without_tenant tenant s) /\
       tenantPartitionsExist sha256_hex tenant c3 = Ok false /\
       forall n p, pt_tenant p <> tenant -> (ct_partitions c3 !! n = Some p <-> ct_partitions c !! n = Some p)).
Proof.
  intros Hv Hw Ha. destruct (ensured tenant c Hv Hw Ha) as (c1 & E1 & P1).
  assert (L1 : ct_partitions c1 !! name "workflow_events" tenant = Some (Partition "workflow_events" tenant)).
  { rewrite P1. apply lookup_union_Some_l. unfold tenant_partitions.
    rewrite lookup_insert_ne by (apply not_eq_sym, names_of_tables). apply lookup_singleton_eq. }
  assert (L2 : ct_partitions c1 !! name "workflow_stream_chunks" tenant = Some (Partition "workflow_stream_chunks" tenant)).
  { rewrite P1. apply lookup_union_Some_l. unfold tenant_partitions. apply lookup_insert_eq. }
  assert (Hcase : forall n p, ct_partitions c1 !! n = Some p ->
    (n = name (pt_table p) tenant /\ p = Partition (pt_table p) tenant /\ pt_table p ∈ PARTITIONED_TABLES) \/ ct_partitions c !! n = Some p).
  { intros n p Hp. rewrite P1 in Hp. apply lookup_union_Some_raw in Hp as [Hp|[_ Hp]]; [left|by right].
    unfold tenant_partitions in Hp. unfold PARTITIONED_TABLES.
    apply lookup_insert_Some in Hp as [[<- <-]|[_ Hp]]; [by split_and!; [..|set_solver]|].
    apply lookup_singleton_Some in Hp as [<- <-]. by split_and!; [..|set_solver]. }
  exists c1. split_and!; [done|done|..].
  - apply exist_iff; [done|]. unfold PARTITIONED_TABLES. intros t Ht. set_unfold in Ht. destruct Ht as [->|[->|[]]]; eauto.
  - destruct (ensured tenant c1 Hv) as (c2 & E2 & P2).
    + intros n p Hp. destruct (Hcase n p Hp) as [(-> & E & Hin)|Hc]; [|by apply Hw]. rewrite E. by cbn.
    + intros n p Hp Hne. destruct (Hcase n p Hp) as [(_ & E & _)|Hc]; [by rewrite E in Hne|]. by apply (Ha n p).
    + exists c2. split; [done|]. rewrite P2, P1, (assoc_L (∪)). by rewrite (map_union_idemp _).
  - destruct (dropped tenant c1 s Hv L1 L2) as (c3 & E3 & P3). exists c3. split_and!; [done|..].
    + unfold tenantPartitionsExist, PARTITIONED_TABLES. rewrite Hv. cbn [negb forallb]. rewrite P3.
      rewrite lookup_delete_ne by (apply not_eq_sym, names_of_tables). by rewrite lookup_delete_eq.
    + intros n p Hne. rewrite P3, !lookup_delete_Some. split.
      * intros (_ & _ & Hp). destruct (Hcase n p Hp) as [(_ & E & _)|]; [by rewrite E in Hne|done].
      * intros Hp. split_and!; try (intros <-; eapply (Ha _ _ Hp Hne); [|reflexivity]; unfold PARTITIONED_TABLES; set_solver).
        rewrite P1. apply lookup_union_Some_raw. right. split; [|done]. unfold tenant_partitions.
        apply lookup_insert_None. split; [apply lookup_singleton_None|];
          intros <-; (eapply (Ha _ _ Hp Hne); [|reflexivity]); unfold PARTITIONED_TABLES; set_solver.
Qed.
End Partitions.

(** ** Two tenants *)

(** A digest for the example: the id itself. *)
Definition demo_digest (t : string) : string := t +:+ "00000000".

Definition demo_catalog : catalog := Catalog
  {[derivePartitionName demo_digest "workflow_events" "t2" := Partition "workflow_events" "t2"]} ∅.

Definition demo_rows : store :=
  Store (set_events (empty_db 0) [EventRow "t1" "r" "evnt_1" RunCancelled None None 0; EventRow "t2" "r" "evnt_1" RunCancelled None None 0])
    [] [] [] [].

Lemma partitions_come_and_go_witness :
  exists c1, ensureTenantPartitions demo_digest (fun n => n +:+ "_idx") "t1" demo_catalog = Ok c1 /\
    tenantPartitionsExist demo_digest "t1" c1 = Ok true /\
    exists c3 s3, dropTenantPartitions demo_digest "t1" c1 demo_rows = Ok (c3, s3) /\
      tenantPartitionsExist demo_digest "t1" c3 = Ok false /\ (ev_tenant <$> db_events (so_db s3)) = ["t2"].
Proof.
  assert (Hv : assertValidTenantId "t1" = true) by reflexivity.
  assert (Hw : catalog_wf demo_digest demo_catalog).
  { intros n p Hp. cbn in Hp. apply lookup_singleton_Some in Hp as [<- <-]. split; [reflexivity|left]. }
  assert (Ha : names_apart demo_digest "t1" demo_catalog).
  { intros n p Hp _ table Ht. cbn in Hp. apply lookup_singleton_Some in Hp as [<- _].
    unfold PARTITIONED_TABLES in Ht. set_unfold in Ht. destruct Ht as [->|[->|[]]]; vm_compute; discriminate. }
  destruct (partitions_come_and_go demo_digest (fun n => n +:+ "_idx") "t1" demo_catalog demo_rows Hv Hw Ha)
    as (c1 & E1 & _ & X1 & _ & c3 & E3 & X3 & _).
  exists c1. split; [exact E1|]. split; [exact X1|]. exists c3, (without_tenant "t1" demo_rows).
  split; [exact E3|]. split; [exact X3|]. vm_compute. reflexivity.
Defined.
