(* ===== verification/ServiceProps.v ===== *)
(** The dispatcher never frees the database while it claims, undoes what it
    acquired, and stops when it loses the database (src/dispatcher/service.ts):
    with what the host's callback must not do for that. *)
From S2P Require Import Prelude Service.

(** ** The order of effects *)

(** Reading the effects in order: whether the database is owned as far as the
    service knows, whether a loss of it has been reported, whether jobs are
    claimed, the loop of the maintenance runs and worker utils are out, whether the
    pool and the telemetry are still there, and whether anything was begun behind
    a reported loss. [None] once ownership is released or the pool ended while
    jobs are claimed, the pool is ended while the database is owned, or anything
    is begun that was not preceded by an acquisition. *)
Record watch := Watch {
  wt_owned : bool;
  wt_lost : bool;
  wt_claiming : bool;
  wt_maintaining : bool;
  wt_utils : bool;
  wt_pool : bool;
  wt_telemetry : bool;
  wt_late : bool
}.

(** Before anything happened. *)
Definition unwatched : watch := Watch false false false false false true true false.
(** Everything given back. *)
Definition given_back (w : watch) : Prop :=
  wt_owned w = false /\ wt_claiming w = false /\ wt_maintaining w = false /\ wt_utils w = false /\ wt_pool w = false.

(** Work of the dispatcher's that a generation begins. *)
Definition begins (e : effect) : bool :=
  match e with
  | MigrationsRun | UtilsMade | PreflightRun | RunsReenqueued | ClaimingStarted | MaintenanceStarted => true
  | _ => false
  end.

Definition watch_effect (w : watch) (e : effect) : watch :=
  let 'Watch o l c m u p t b := w in
  let late := b || (begins e && l) in
  match e with
  | Emitted ownership_acquired => Watch true l c m u p t late
  | Emitted ownership_lost => Watch o true c m u p t late
  | ClaimingStarted => Watch o l true m u p t late
  | MaintenanceStarted => Watch o l c true u p t late
  | UtilsMade => Watch o l c m true p t late
  | MaintenanceStopped => Watch o l c false u p t late
  | ClaimingStopped => Watch o l false m u p t late
  | UtilsReleased => Watch o l c m false p t late
  | OwnershipReleased => Watch false l c m u p t late
  | PoolEnded => Watch o l c m u false t late
  | TelemetryShutDown => Watch o l c m u p false late
  | _ => Watch o l c m u p t late
  end.

Definition watch_step (w : watch) (e : effect) : option watch :=
  let refused :=
    match e with
    | OwnershipReleased => wt_claiming w
    | PoolEnded => wt_claiming w || wt_owned w
    | _ => begins e && negb (wt_owned w)
    end in
  if refused then None else Some (watch_effect w e).

Fixpoint watch_run (w : watch) (l : list effect) : option watch :=
  match l with [] => Some w | e :: l => watch_step w e ≫= fun w => watch_run w l end.

Lemma watch_run_app l1 l2 w : watch_run w (l1 ++ l2) = watch_run w l1 ≫= fun w => watch_run w l2.
Proof. revert w. induction l1 as [|e l1 IH]; intros w; cbn; [done|]. destruct (watch_step w e); cbn; [apply IH|done]. Qed.

#[local] Arguments watch_step : simpl never.
#[local] Arguments service_stop : simpl never.
#[local] Arguments start_cleanup : simpl never.
#[local] Arguments start_body : simpl never.
#[local] Arguments service_react : simpl never.

Section Life.
Context (throws : phase -> bool) (fails : stage -> bool) (preflight : bool) (lost_in : option stage).
Local Notation start := (startDispatcherService throws fails preflight lost_in).

(** What the [await] of a stage amounts to. *)
Lemma await_cases k s :
  let s' := if bool_decide (lost_in = Some k) then set_lost s else s in
  let l := if bool_decide (lost_in = Some k) then [Emitted ownership_lost] else [] in
  await_stage throws fails lost_in k s = (if fails k then Err tt else Ok tt, s', l).
Proof.
  unfold await_stage, sbind, onLost_starting, emitPhase, sret, sthrow.
  destruct (bool_decide _), (fails k); cbn; try destruct (throws ownership_lost); done.
Qed.

(** *** Triples: from states and watches that are related to ones that are *)

Definition triple {A} (pre : service -> watch -> Prop) (p : svc A) (post : A -> service -> watch -> Prop)
    (exc : service -> watch -> Prop) : Prop :=
  forall s w, pre s w -> exists w', watch_run w (p s).2 = Some w' /\
    match (p s).1.1 with Ok a => post a (p s).1.2 w' | Err _ => exc (p s).1.2 w' end.

Lemma triple_bind {A B} pre (p : svc A) mid (f : A -> svc B) post exc :
  triple pre p mid exc -> (forall a, triple (mid a) (f a) post exc) -> triple pre (sbind p f) post exc.
Proof.
  intros Hp Hf s w Hs. destruct (Hp s w Hs) as (w1 & H1 & H2). unfold sbind.
  destruct (p s) as [[[a|e] s1] l1]; cbn in *; [|by exists w1].
  destruct (Hf a s1 w1 H2) as (w2 & H3 & H4). destruct (f a s1) as [[r s2] l2]. cbn in *. exists w2.
  rewrite watch_run_app, H1. cbn. by split.
Qed.

Lemma triple_weaken {A} (pre pre' : service -> watch -> Prop) (p : svc A) post exc :
  triple pre' p post exc -> (forall s w, pre s w -> pre' s w) -> triple pre p post exc.
Proof. intros H Hpre s w Hs. by apply H, Hpre. Qed.

Lemma triple_act pre e f (post : unit -> service -> watch -> Prop) exc :
  (forall s w, pre s w -> exists w', watch_step w e = Some w' /\ post tt (f s) w') -> triple pre (act e f) post exc.
Proof. intros H s w Hs. destruct (H s w Hs) as (w' & H1 & H2). exists w'. cbn. rewrite H1. by split. Qed.

Lemma triple_ret {A} (a : A) pre (post : A -> service -> watch -> Prop) exc :
  (forall s w, pre s w -> post a s w) -> triple pre (sret a) post exc.
Proof. intros H s w Hs. exists w. split; [done|]. by apply H. Qed.

(** What is held while starting; a start that fails is somewhere on that way, or
    behind a stop. *)
Definition held (u rt m : bool) (s : service) (w : watch) : Prop :=
  sv_owned s = true /\ sv_utils s = u /\ sv_runtime s = rt /\ sv_maintenance s = m /\ sv_stopping s = false /\
  exists late, w = Watch true (sv_lost s) rt m u true true late /\ (late = true -> sv_lost s = true).

Definition broken (s : service) (w : watch) : Prop :=
  wt_owned w = sv_owned s /\ (wt_claiming w = true -> sv_runtime s = true) /\
  (wt_maintaining w = true -> throws ready = true) /\ (wt_utils w = true -> sv_utils s = true).

Lemma held_broken u rt m s w : (m = true -> throws ready = true) -> held u rt m s w -> broken s w.
Proof. intros Hm (Ho & Hu & Hr & _ & _ & late & -> & _). unfold broken. cbn. by rewrite Ho, Hr, Hu. Qed.

(** What an effect does to what is held. *)
Lemma triple_held e f u rt m u' rt' m' :
  (forall s, sv_lost (f s) = sv_lost s) ->
  (forall s w, held u rt m s w -> sv_owned (f s) = true /\ sv_utils (f s) = u' /\ sv_runtime (f s) = rt' /\
     sv_maintenance (f s) = m' /\ sv_stopping (f s) = false) ->
  (forall l late, let w := Watch true l rt m u true true late in
     watch_step w e = Some (Watch true l rt' m' u' true true (late || (begins e && l)))) ->
  triple (held u rt m) (act e f) (fun _ => held u' rt' m') broken.
Proof.
  intros Hl Hf He. apply triple_act. intros s w Hs. destruct (Hf s w Hs) as (? & ? & ? & ? & ?).
  destruct Hs as (_ & _ & _ & _ & _ & late & -> & Hlate). eexists. split; [apply He|]. split_and!; try done.
  exists (late || (begins e && sv_lost s)). rewrite Hl. split; [done|].
  intros [?|[_ ?]%andb_true_iff]%orb_true_iff; auto.
Qed.

Lemma triple_emit u rt m p : p <> ownership_acquired -> p <> ownership_lost ->
  (m = true -> throws p = true -> throws ready = true) ->
  triple (held u rt m) (emitPhase throws p) (fun _ => held u rt m) broken.
Proof.
  intros Hp Hp' Hm s w Hs. exists w. unfold emitPhase. cbn. split.
  { destruct Hs as (_ & _ & _ & _ & _ & late & -> & _). unfold watch_step. destruct p; try done; cbn; by rewrite orb_false_r. }
  destruct (throws p) eqn:E; [|done]. eapply held_broken; [|exact Hs]. auto.
Qed.

Lemma held_set_lost u rt m s w : held u rt m s w ->
  exists w', watch_step w (Emitted ownership_lost) = Some w' /\ held u rt m (set_lost s) w'.
Proof.
  intros (? & ? & ? & ? & ? & late & -> & _). eexists. split; [reflexivity|]. split_and!; try done.
  exists late. cbn. by rewrite orb_false_r.
Qed.

Lemma triple_await u rt k : triple (held u rt false) (await_stage throws fails lost_in k) (fun _ => held u rt false) broken.
Proof.
  intros s w Hs. rewrite await_cases. destruct (held_set_lost _ _ _ _ _ Hs) as (w' & Hw' & Hs').
  destruct (bool_decide _), (fails k); cbn [fst snd watch_run]; rewrite ?Hw'; eexists; (split; [reflexivity|]); try done;
    (eapply held_broken; [|eassumption]; done).
Qed.

Definition running : service := Service false true true true true false.

(** What a service stopped holds. *)
Definition ended (s : service) (w : watch) : Prop :=
  sv_owned s = false /\ sv_stopping s = true /\ given_back w /\ wt_telemetry w = false.

Lemma triple_stop : triple (held true true true) (service_stop throws) (fun _ => ended) ended.
Proof.
  intros s w (H1 & H2 & H3 & H4 & H5 & late & -> & _). destruct s as [lost o u r m st]; cbn in *; subst.
  eexists. unfold service_stop, stopEverything, stopRuntime, mark_stopping, releaseOwnership, emitPhase, sbind. cbn.
  destruct (throws stopped); cbn; (split; [reflexivity|]); by repeat split.
Qed.

(** The body leaves a service that runs, with nothing lost and nothing begun late,
    or is broken off. *)
Lemma start_body_triple :
  triple (held false false false) (start_body throws fails preflight lost_in)
    (fun _ s w => s = running /\ w = Watch true false true true true true true false) broken.
Proof.
  unfold start_body, startClaiming.
  assert (Hstep : forall e u, e = MigrationsRun \/ e = PreflightRun \/ e = RunsReenqueued ->
    triple (held u false false) (act e id) (fun _ => held u false false) broken).
  { intros e u He. apply triple_held; [done| |by destruct He as [->|[->| ->]]].
    intros s w (?&?&?&?&?&_). by split_and!. }
  eapply triple_bind; [apply triple_await|intros []; cbn beta].
  eapply triple_bind; [by apply Hstep; auto|intros []; cbn beta].
  eapply triple_bind; [by apply triple_emit|intros []; cbn beta].
  eapply triple_bind; [apply triple_await|intros []; cbn beta].
  eapply (triple_bind _ _ (fun _ => held true false false)).
  { apply triple_held; [done| |done]. intros s w (?&?&?&?&?&_). by split_and!. }
  intros []; cbn beta.
  eapply (triple_bind _ _ (fun _ => held true false false)).
  { destruct preflight; [|by apply triple_ret]. eapply triple_bind; [apply triple_await|intros []; cbn beta]. apply Hstep; auto. }
  intros []; cbn beta. eapply triple_bind; [apply triple_await|intros []; cbn beta].
  eapply triple_bind; [by apply Hstep; auto|intros []; cbn beta].
  eapply triple_bind; [by apply triple_emit|intros []; cbn beta].
  eapply (triple_bind _ _ (fun _ => held true true true)).
  { eapply triple_bind; [apply triple_await|intros []; cbn beta].
    eapply (triple_bind _ _ (fun _ => held true true false)).
    { apply triple_held; [done| |done]. intros s w (?&?&?&?&?&_). by split_and!. }
    intros []; cbn beta. eapply (triple_bind _ _ (fun _ => held true true true)).
    { apply triple_held; [done| |done]. intros s w (?&?&?&?&?&_). by split_and!. }
    intros []; cbn beta. by apply triple_emit. }
  intros [] s w Hs; cbn beta in Hs. unfold get. cbn. destruct (sv_lost s) eqn:El.
  - destruct (triple_stop s w Hs) as (w' & H1 & H2). unfold sbind, swallow, sthrow. cbn.
    destruct (service_stop throws s) as [[r s'] l]. cbn in *. exists w'. split; [by rewrite ?app_nil_r|].
    assert (ended s' w') as (Ho & _ & (H3 & H4 & H5 & H6 & _) & _) by (by destruct r).
    unfold broken. by rewrite Ho, H3, H4, H5, H6.
  - exists w. split; [done|]. destruct Hs as (? & ? & ? & ? & ? & late & -> & Hlate).
    destruct late; [specialize (Hlate eq_refl); congruence|]. destruct s; cbn in *; by subst.
Qed.

(** The catch: nothing is claimed, owned or kept behind it. *)
Lemma start_cleanup_watched s w : broken s w ->
  exists w', watch_run w (start_cleanup s).2 = Some w' /\ wt_owned w' = false /\ wt_claiming w' = false /\
    wt_maintaining w' = wt_maintaining w /\ wt_utils w' = false /\ wt_pool w' = false /\ wt_telemetry w' = false.
Proof.
  intros (Ho & Hc & _ & Hu). destruct w as [o l c m u p t b], s as [lost o' u' rt m' st]. cbn in *. subst o'.
  unfold start_cleanup, stopRuntime, releaseOwnership, sbind, get, act. cbn.
  destruct rt, u', o, c, u; cbn; try (by specialize (Hc eq_refl)); try (by specialize (Hu eq_refl));
    eexists; (split; [reflexivity|]); cbn; by split_and!.
Qed.

(** How a start ends: with a service that runs, or with everything given back
    that was acquired, if the callback lets it. *)
Lemma start_watched : exists w, watch_run unwatched start.2 = Some w /\
  match start.1.1 with
  | Ok _ => start.1.2 = running /\ w = Watch true false true true true true true false
  | Err _ => throws ownership_acquired = false -> throws ready = false ->
      given_back w /\ (fails Acquiring = false -> wt_telemetry w = false)
  end.
Proof.
  unfold startDispatcherService. destruct (fails Acquiring); [eexists; split; [reflexivity|]; intros _ _; split; [by split_and!|done]|].
  change (emitPhase throws ownership_acquired (set_owned true new_service))
    with (if throws ownership_acquired then Err tt else Ok tt, set_owned true new_service, [Emitted ownership_acquired]).
  destruct (throws ownership_acquired) eqn:Ea; [eexists; split; [reflexivity|]; congruence|].
  destruct (start_body_triple (set_owned true new_service) (Watch true false false false false true true false)) as (w1 & H1 & H2).
  { split_and!; try done. by exists false. }
  set (w0 := Watch true false false false false true true false) in *.
  assert (E0 : watch_step unwatched (Emitted ownership_acquired) = Some w0) by done.
  destruct (start_body throws fails preflight lost_in _) as [[[a|e] s1] l1]; cbn in *; [rewrite E0; exists w1; by destruct a|].
  pose proof H2 as (_ & _ & Hm & _). destruct (start_cleanup_watched s1 w1 H2) as (w2 & H3 & Ho & Hc & Hm2 & Hu & Hp & Ht).
  destruct (start_cleanup s1) as [[r s2] l2]. cbn in *. exists w2. rewrite E0. cbn. rewrite watch_run_app, H1. cbn. split; [done|].
  intros _ Hr. split; [|done]. unfold given_back. split_and!; try done. rewrite Hm2.
  destruct (wt_maintaining w1); [|done]. specialize (Hm eq_refl). congruence.
Qed.

(** *** A service that runs, and what it hears *)

Definition serving (s : service) (w : watch) : Prop := held true true true s w \/ ended s w.

Lemma stop_serving s w : serving s w ->
  exists w', watch_run w (service_stop throws s).2 = Some w' /\ ended (service_stop throws s).1.2 w'.
Proof.
  intros [Hs|Hs].
  - destruct (triple_stop s w Hs) as (w' & H1 & H2). exists w'. split; [done|]. by destruct (service_stop throws s) as [[[[]|[]] s'] l].
  - pose proof Hs as (_ & Hst & _). exists w. unfold service_stop, sbind, get. cbn. rewrite Hst. by split.
Qed.

(** The events that end a service: a stop that is asked for, and a loss if the
    host's callback lets it. *)
Definition ends_service (e : service_event) : bool :=
  match e with StopCalled => true | SessionLost => negb (throws ownership_lost) end.

(** Nothing is begun any more. *)
Lemma stop_begins_nothing s : Forall (fun e => begins e = false) (service_stop throws s).2.
Proof.
  destruct s as [lost o u r m st]. unfold service_stop, stopEverything, stopRuntime, mark_stopping, releaseOwnership, emitPhase, sbind.
  cbn. destruct st, m, r, o, (throws stopped); cbn; repeat constructor.
Qed.

Lemma react_begins_nothing e s : Forall (fun e => begins e = false) (service_react throws e s).2.
Proof.
  destruct e; cbn [service_react]; [|apply stop_begins_nothing]. unfold service_react, sbind, get, swallow, emitPhase. cbn.
  destruct (sv_lost s || negb (sv_owned s)); [constructor|]. destruct (throws ownership_lost); cbn; [by repeat constructor|].
  pose proof (stop_begins_nothing (set_lost s)) as H. destruct (service_stop throws (set_lost s)) as [[r s'] l]. by constructor.
Qed.

Lemma run_begins_nothing es : forall s, Forall (fun e => begins e = false) (service_run throws es s).2.
Proof.
  induction es as [|e es IH]; intros s; cbn [service_run]; [constructor|]. pose proof (react_begins_nothing e s) as H.
  destruct (service_react throws e s) as [[r s1] l1]. specialize (IH s1). destruct (service_run throws es s1). cbn in *.
  by apply Forall_app.
Qed.

Lemma watch_not_late l : forall w w', Forall (fun e => begins e = false) l -> watch_run w l = Some w' -> wt_late w' = wt_late w.
Proof.
  induction l as [|e l IH]; intros w w' Hl E; [by injection E as <-|]. apply Forall_cons in Hl as [He Hl].
  cbn in E. destruct (watch_step w e) as [w1|] eqn:E1; [|done]. cbn in E. rewrite (IH w1 w' Hl E).
  unfold watch_step in E1. destruct (match e with OwnershipReleased => _ | _ => _ end); [done|]. injection E1 as <-.
  destruct w as [o l1 c m u p t b]. unfold watch_effect. rewrite He. cbn. rewrite orb_false_r.
  destruct e as [[]| | | | | | | | | | | |]; done.
Qed.

Lemma react_serving e s w : serving s w -> (sv_lost s = true -> throws ownership_lost = true \/ ended s w) ->
  exists w', let s' := (service_react throws e s).1.2 in
    watch_run w (service_react throws e s).2 = Some w' /\ serving s' w' /\
    (sv_lost s' = true -> throws ownership_lost = true \/ ended s' w') /\
    (ends_service e \/ ended s w -> ended s' w').
Proof.
  intros Hs Hl. destruct e; cbn [service_react ends_service].
  2: { destruct (stop_serving s w Hs) as (w' & H1 & H2). exists w'. split_and!; [done|by right|by right|done]. }
  unfold service_react, sbind, get. cbn [ends_service]. destruct (sv_lost s || negb (sv_owned s)) eqn:E.
  - exists w. cbn. split_and!; [done..|]. intros [Ht|?]; [|done].
    destruct Hs as [(Ho & _)|?]; [|done]. rewrite Ho, orb_false_r in E. destruct (Hl E) as [Ht'|?]; [|done].
    rewrite Ht' in Ht. done.
  - apply orb_false_iff in E as [El Eo]. destruct Hs as [Hs|(Ho & _)]; [|by rewrite Ho in Eo].
    destruct (held_set_lost _ _ _ _ _ Hs) as (w1 & Hw1 & Hs').
    unfold swallow, emitPhase. cbn. destruct (throws ownership_lost) eqn:Et; cbn [fst snd].
    + exists w1. split_and!; [by cbn; rewrite Hw1|by left|by left|]. intros [?|(He & _)]; [done|].
      destruct Hs as (Ho & _). congruence.
    + destruct (stop_serving _ w1 (or_introl Hs')) as (w' & H1 & H2).
      destruct (service_stop throws (set_lost s)) as [[r s2] l2]. cbn in *. exists w'. rewrite Hw1.
      split_and!; [done|by right|by right|done].
Qed.

Lemma run_serving es s w : serving s w -> (sv_lost s = true -> throws ownership_lost = true \/ ended s w) ->
  exists w', watch_run w (service_run throws es s).2 = Some w' /\
    (existsb ends_service es \/ ended s w -> ended (service_run throws es s).1 w').
Proof.
  revert s w. induction es as [|e es IH]; intros s w Hs Hl; cbn [service_run existsb].
  - exists w. split; [done|]. by intros [?|?].
  - destruct (react_serving e s w Hs Hl) as (w1 & H1 & H2 & H3 & H4).
    destruct (service_react throws e s) as [[r s1] l1]. cbn in *.
    destruct (IH s1 w1 H2 H3) as (w2 & H5 & H6). destruct (service_run throws es s1) as [s2 l2]. cbn in *.
    exists w2. rewrite watch_run_app, H1. cbn. split; [done|]. rewrite orb_True. tauto.
Qed.
End Life.

(** C34 Whatever fails while the dispatcher starts, whenever it loses the session
    that owns the database and however often it is told to stop: it never frees
    the database or ends the pool while it claims jobs, and begins no part of its
    work before it has acquired the database. Behind a loss that has been
    reported it begins nothing, but for what a start goes on with before it looks
    at the loss, and that start fails. And as long as the host's lifecycle callback
    does not throw at the phases that matter, a start that failed, a stop that was
    asked for and a loss all end with nothing claimed or maintained, the database
    free, the worker utils released, the pool ended, and, once the database had
    been acquired, the telemetry shut down. *)
Theorem database_is_held_and_given_back throws fails preflight lost_in es :
  let life := service_life throws fails preflight lost_in es in
  let started := (startDispatcherService throws fails preflight lost_in).1.1 in
  exists w, watch_run unwatched life.2 = Some w /\
    (wt_late w = true -> exists e, started = Err e) /\
    (throws ownership_acquired = false -> throws ready = false ->
     (exists e, started = Err e) \/ StopCalled ∈ es \/ SessionLost ∈ es /\ throws ownership_lost = false ->
     given_back w /\ (fails Acquiring = false -> wt_telemetry w = false)).
Proof.
  cbn zeta. unfold service_life. destruct (start_watched throws fails preflight lost_in) as (w & H1 & H2).
  destruct (startDispatcherService throws fails preflight lost_in) as [[[[]|e] s] l]; cbn in *.
  - destruct H2 as [-> ->]. set (w0 := Watch true false true true true true true false) in *.
    destruct (run_serving throws es running w0) as (w' & H3 & H4); [left; split_and!; try done; by exists false|done|].
    pose proof (watch_not_late _ _ _ (run_begins_nothing throws es running) H3) as Hlate.
    destruct (service_run throws es running) as [s' l']. cbn in *. exists w'. rewrite watch_run_app, H1. cbn.
    split; [done|]. split; [congruence|]. intros _ _ Hend. assert (ended s' w') as (_ & _ & ? & ?); [|by split].
    apply H4. left. apply existb_True, Exists_exists.
    destruct Hend as [[e [=]]|[Hin|[Hin Ht]]]; [exists StopCalled|exists SessionLost]; split; try done. cbn. by rewrite Ht.
  - exists w. split; [done|]. split; [by eexists|]. auto.
Qed.

(** ** What the callback must not do *)

Definition throws_at (p q : phase) : bool := bool_decide (p = q).
Definition nothing_fails (k : stage) : bool := false.

(** A callback that throws when it hears of the loss keeps the service claiming
    without the database, and the loss is not reported again. *)
Lemma loss_callback_keeps_claiming n :
  let run := service_run (throws_at ownership_lost) (replicate (S n) SessionLost) running in
  run.2 = [Emitted ownership_lost] /\ sv_stopping run.1 = false.
Proof.
  assert (Hn : service_run (throws_at ownership_lost) (replicate n SessionLost) (set_lost running) = (set_lost running, [])).
  { induction n as [|n IH]; [done|]. cbn [replicate service_run].
    change (service_react (throws_at ownership_lost) SessionLost (set_lost running)) with (Ok tt : result unit unit, set_lost running, @nil effect).
    cbv beta iota. by rewrite IH. }
  cbn [replicate service_run].
  change (service_react (throws_at ownership_lost) SessionLost running) with (Ok tt : result unit unit, set_lost running, [Emitted ownership_lost]).
  cbv beta iota. by rewrite Hn.
Qed.

(** One that throws when the service is ready leaves the maintenance behind. *)
Lemma ready_callback_leaves_maintenance :
  let start := startDispatcherService (throws_at ready) nothing_fails false None in
  start.1.1 = Err tt /\ MaintenanceStarted ∈ start.2 /\ MaintenanceStopped ∉ start.2 /\ PoolEnded ∈ start.2.
Proof. vm_compute. split_and!; [done|set_solver..]. Qed.

(** One that throws when the database is owned leaves it owned. *)
Lemma acquired_callback_leaves_database_owned :
  startDispatcherService (throws_at ownership_acquired) nothing_fails false None
  = (Err tt, set_owned true new_service, [Emitted ownership_acquired]).
Proof. done. Qed.

(** A loss before the migrations lets the start go on: runs are enqueued again and
    jobs claimed without the database, until the start looks at the loss. *)
Lemma early_loss_is_seen_late :
  let start := startDispatcherService (fun _ => false) nothing_fails false (Some Migrating) in
  start.1.1 = Err tt /\
  start.2 = [Emitted ownership_acquired; Emitted ownership_lost; MigrationsRun; Emitted migrations_applied;
    UtilsMade; RunsReenqueued; Emitted boot_recovery_completed; ClaimingStarted; MaintenanceStarted; Emitted ready;
    MaintenanceStopped; ClaimingStopped; UtilsReleased; OwnershipReleased; PoolEnded; TelemetryShutDown; Emitted stopped;
    ClaimingStopped; UtilsReleased; PoolEnded; TelemetryShutDown].
Proof. done. Qed.

(** ** The process exits once *)

(** With a grace period that ends, a process that was signalled exits, with the
    code of what came first, and stays exited. *)
Lemma process_exits es p : pr_exited p = None -> pr_shuttingDown p = true ->
  pr_exited (foldl process_step p es)
  = head (omap (fun e => match e with Signal => None | StopSettled true => Some 0%Z | StopSettled false => Some 1%Z | GraceOver => Some 75%Z end) es).
Proof.
  destruct p as [sd [c|]]; cbn; intros He Hs; [done|]. subst sd. clear He.
  assert (Hstay : forall es c, foldl process_step (Process true (Some c)) es = Process true (Some c))
    by (clear; induction es as [|e es IH]; cbn; [done|intros c; apply IH]).
  induction es as [|e es IH]; [done|]. destruct e as [|[]|]; cbn; [by rewrite IH|by rewrite Hstay..].
Qed.


(** A loss while serving, and a signal behind it, with a callback that never throws. *)
Lemma database_is_held_and_given_back_witness : exists w,
  watch_run unwatched (service_life (fun _ => false) nothing_fails true None [SessionLost; StopCalled]).2 = Some w /\
  wt_lost w = true /\ wt_late w = false /\ given_back w /\ wt_telemetry w = false.
Proof.
  destruct (database_is_held_and_given_back (fun _ => false) nothing_fails true None [SessionLost; StopCalled]) as (w & H1 & H2 & H3).
  exists w. split; [exact H1|]. assert (E : wt_lost w = true) by (vm_compute in H1; by injection H1 as <-). split; [exact E|].
  split; [destruct (wt_late w) eqn:El; [|reflexivity]; destruct (H2 eq_refl) as [e He]; discriminate He|].
  assert (Hin : SessionLost ∈ [SessionLost; StopCalled]) by (by left).
  destruct (H3 eq_refl eq_refl (or_intror (or_intror (conj Hin eq_refl)))) as [Hg Ht]. split; [exact Hg|by apply Ht].
Defined.
