(* ===== verification/WorldProps.v ===== *)
(** A queue never has two runners, and once it is closed it has none, holds
    nothing and never starts anything again; closing always ends (src/queue.ts);
    with what a start that fails while closing leaves behind (src/index.ts). *)
From S2P Require Import Prelude World.
From stdpp Require Import relations.

(** ** What holds of the calls under way *)

(** A promise that can still come to start a runner. *)
Definition active (x : wait) : bool := match x with Ended _ | Settled _ => false | _ => true end.
Definition is_done (b : body) : bool := match b with BodyDone _ => true | _ => false end.

(** A start has failed, and its utils may be left. *)
Definition failed (s : world) : Prop := exists i, w_bodies s !! i = Some (BodyDone (Err tt)).
Definition quiet (s : world) : Prop := forall p x, promise_at s p = Some x -> active x = false.
Definition bodies_done (s : world) : Prop := forall i b, w_bodies s !! i = Some b -> is_done b = true.

(** What a call of [close] knows where it is. *)
Definition closer_ok (c : closer) (s : world) : Prop :=
  match c with
  | AwaitAttempt p => is_Some (promise_at s p) /\ forall q x, promise_at s q = Some x -> active x = true -> q = p
  | AwaitStart oi => quiet s /\ (forall i b, w_bodies s !! i = Some b -> is_done b = false -> oi = Some i) /\
      (forall i, oi = Some i -> is_Some (w_bodies s !! i))
  | StoppingRunner k => quiet s /\ bodies_done s /\ (forall k', w_runner s = Some k' -> k' = k)
  | ReleasingUtils u => quiet s /\ bodies_done s /\ w_runner s = None /\ (forall u', w_workerUtils s = Some u' -> u' = u)
  | ClosingLocal | Closed (Ok _) => quiet s /\ bodies_done s /\ w_runner s = None /\ w_workerUtils s = None
  | Closed (Err _) => True
  end.

Section Invariant.
Context (external : bool).

Record inv (s : world) : Prop := Inv {
  i_active : forall p x, promise_at s p = Some x -> active x = true ->
    w_runnerStart s = Some p /\ w_runner s = None /\ (w_closing s = true -> aborted s p.1 = true);
  i_start : forall p, w_runnerStart s = Some p -> is_Some (promise_at s p);
  i_runner : forall k, w_runners s !! k = Some true -> w_runner s = Some k;
  i_bodies : forall i b, w_bodies s !! i = Some b -> is_done b = false -> w_startPromise s = Some i;
  i_body : forall i, w_startPromise s = Some i -> is_Some (w_bodies s !! i);
  i_await : forall i c, w_bodies s !! i = Some (AwaitingRunner c) -> is_Some (promise_at s (c, false));
  i_utils : forall u, w_utils s !! u = Some true -> w_workerUtils s = Some u \/ failed s;
  i_making : forall i, w_bodies s !! i = Some MakingUtils -> w_workerUtils s = None \/ failed s;
  i_fresh : w_closing s = false -> w_startPromise s = None -> w_bodies s = [] /\ w_workerUtils s = None \/ failed s;
  i_closers : forall m c, w_closers s !! m = Some c -> w_closing s = true /\ closer_ok c s;
  i_external : external = true -> w_attempts s = [] /\ w_runners s = []
}.

Lemma inv_new : inv new_world.
Proof. split; cbn; try done; try (by intros []). by left. Qed.

(** A state that differs in its calls of [start] alone. *)
Lemma inv_starters l s : inv s -> inv (set_starters l s).
Proof. by intros []. Qed.

(** *** Promises *)

Lemma promise_attempt s p x : promise_at s p = Some x -> exists a, w_attempts s !! p.1 = Some a.
Proof. unfold promise_at. destruct (w_attempts s !! p.1) as [a|]; [by exists a|done]. Qed.

Lemma promise_at_set s p x q : is_Some (w_attempts s !! p.1) ->
  promise_at (set_promise p x s) q = if decide (q = p) then Some x else promise_at s q.
Proof.
  intros [a Ha]. unfold promise_at, set_promise. cbn. destruct (decide (q = p)) as [->|Hne].
  - rewrite list_lookup_alter_eq, Ha. by destruct p as [c []].
  - destruct (decide (p.1 = q.1)) as [E|E]; [|by rewrite list_lookup_alter_ne].
    rewrite <- E, list_lookup_alter_eq, Ha. destruct p as [c []], q as [c' []]; cbn in *; congruence.
Qed.

Lemma aborted_set s p x c : aborted (set_promise p x s) c = aborted s c.
Proof.
  unfold aborted, set_promise. cbn. destruct (decide (p.1 = c)) as [<-|E]; [|by rewrite list_lookup_alter_ne].
  rewrite list_lookup_alter_eq. destruct (w_attempts s !! p.1); [|done]. by destruct p as [? []].
Qed.

Lemma promise_at_abort s c q : promise_at (abort c s) q = promise_at s q.
Proof.
  unfold promise_at, abort. cbn. destruct (decide (c = q.1)) as [->|E]; [|by rewrite list_lookup_alter_ne].
  rewrite list_lookup_alter_eq. by destruct (w_attempts s !! q.1).
Qed.

Lemma aborted_abort s p x c : promise_at s p = Some x -> aborted (abort p.1 s) c = bool_decide (c = p.1) || aborted s c.
Proof.
  intros [a Ha]%promise_attempt. unfold aborted, abort. cbn. case_bool_decide as E; [subst c|by rewrite list_lookup_alter_ne].
  by rewrite list_lookup_alter_eq, Ha.
Qed.

(** Only one promise is active, and none is while a later part of a close runs. *)
Lemma sole_active s p q x y : inv s -> promise_at s p = Some x -> active x = true -> promise_at s q = Some y -> active y = true -> p = q.
Proof. intros Hi Hp Hx Hq Hy. destruct (i_active s Hi p x Hp Hx) as (E1 & _), (i_active s Hi q y Hq Hy) as (E2 & _). congruence. Qed.

(** A promise goes on, or ends. *)
Lemma inv_promise s p x y : promise_at s p = Some x -> (active y = true -> active x = true) -> inv s -> inv (set_promise p y s).
Proof.
  intros Hp Hxy Hi. pose proof (promise_attempt _ _ _ Hp) as [a Ha].
  assert (Hat : forall q, promise_at (set_promise p y s) q = if decide (q = p) then Some y else promise_at s q)
    by (intros q; apply promise_at_set; by exists a).
  assert (Hback : forall q z, promise_at (set_promise p y s) q = Some z -> active z = true ->
            exists z', promise_at s q = Some z' /\ active z' = true).
  { intros q z Hq Hz. rewrite Hat in Hq. destruct (decide (q = p)) as [->|]; [|by exists z]. simplify_eq. eauto. }
  assert (Hsome : forall q, is_Some (promise_at s q) -> is_Some (promise_at (set_promise p y s) q)).
  { intros q Hq. rewrite Hat. by destruct (decide (q = p)). }
  assert (Hquiet : quiet s -> quiet (set_promise p y s)).
  { intros Hqt q z Hq. destruct (active z) eqn:E; [|done]. destruct (Hback q z Hq E) as (z' & Hz' & Ez). by rewrite (Hqt q z' Hz') in Ez. }
  destruct Hi as [I1 I2 I3 I4 I5 I6 I7 I8 I9 I10 I11]. split; cbn; eauto.
  - intros q z Hq Hz. destruct (Hback q z Hq Hz) as (z' & Hz' & Ez). rewrite aborted_set. eauto.
  - intros m c Hc. destruct (I10 m c Hc) as [Hcl Hok]. split; [done|].
    destruct c as [q|oi| | | |[]]; cbn in *; try (by intuition auto); try done.
    destruct Hok as [H1 H2]. split; [auto|]. intros q' z Hq Hz. destruct (Hback q' z Hq Hz) as (z' & Hz' & Ez). eauto.
  - intros He. destruct (I11 He) as [E1 E2]. by rewrite E1 in Ha.
Qed.

Lemma inv_no_start s : quiet s -> inv s -> inv (set_runnerStart None s).
Proof. intros Hq []. split; cbn; eauto; [|done]. intros p x Hp Hx. by rewrite (Hq p x Hp) in Hx. Qed.

(** While a promise is active no close has come further than waiting for it. *)
Definition early (c : closer) : Prop := match c with AwaitAttempt _ | Closed (Err _) => True | _ => False end.

Lemma active_early s p x m c : inv s -> promise_at s p = Some x -> active x = true -> w_closers s !! m = Some c -> early c.
Proof.
  intros Hi Hp Hx Hm. destruct (i_closers s Hi m c Hm) as [_ Hok].
  destruct c as [|[]| | | |[]]; cbn in *; try done; destruct Hok as [Hq _]; specialize (Hq p x Hp); congruence.
Qed.

Lemma early_keeps s s' c : early c -> closer_ok c s -> (forall p, promise_at s' p = promise_at s p) -> closer_ok c s'.
Proof. destruct c as [p| | | | |[]]; cbn; try done. intros _ [H1 H2] Hp. split; [by rewrite Hp|]. intros q y. rewrite Hp. apply H2. Qed.

Lemma active_internal s p x : inv s -> promise_at s p = Some x -> external = false.
Proof.
  intros Hi [a Ha]%promise_attempt. destruct external eqn:Hx; [|done].
  destruct (i_external s Hi Hx) as [E _]. by rewrite E in Ha.
Qed.

(** The runner of the only promise that was active. *)
Lemma inv_runner_started s : external = false -> quiet s -> w_runner s = None ->
  (forall m c, w_closers s !! m = Some c -> early c) -> inv s -> inv (runner_started s).
Proof.
  intros Hx Hq Hr He [I1 I2 I3 I4 I5 I6 I7 I8 I9 I10 I11]. split; cbn; try done; eauto.
  - intros p x Hp Hax. by rewrite (Hq p x Hp) in Hax.
  - intros k Hk. f_equal. apply lookup_app_Some in Hk as [Hk|[Hle Hk]].
    + apply I3 in Hk. congruence.
    + destruct (k - length (w_runners s)) eqn:E; [lia|done].
  - intros m c Hc. destruct (I10 m c Hc) as [Hcl Hok]. split; [done|]. by eapply early_keeps; [apply (He m)|..].
  - congruence.
Qed.

Lemma inv_setup s p : promise_at s p = Some SettingUp -> inv s -> inv (set_promise p (Ended (Ok tt)) (runner_started s)).
Proof.
  intros Hp Hi. change (inv (runner_started (set_promise p (Ended (Ok tt)) s))).
  destruct (i_active s Hi p _ Hp eq_refl) as (Hs & Hr & Ha). apply inv_runner_started; [|..|by eapply inv_promise].
  - by eapply active_internal.
  - intros q x Hqx. rewrite promise_at_set in Hqx by (destruct (promise_attempt _ _ _ Hp) as [a ?]; by exists a).
    destruct (decide (q = p)) as [->|Hne]; [by simplify_eq|]. destruct (active x) eqn:Ex; [|done].
    destruct Hne. symmetry. by apply (sole_active s p q SettingUp x).
  - done.
  - intros m c Hc. by apply (active_early s p SettingUp m).
Qed.

Lemma inv_settle s p r : promise_at s p = Some (Ended r) -> inv s -> inv (settle p r s).
Proof.
  intros Hp Hi. unfold settle. eapply (inv_promise _ _ (Ended r)); [|done|].
  - case_bool_decide; exact Hp.
  - case_bool_decide as Hs; [|done]. apply inv_no_start; [|done]. intros q x Hq. destruct (active x) eqn:Ex; [|done].
    destruct (i_active s Hi q x Hq Ex) as [Hs' _]. simplify_eq.
Qed.

(** A start that is deferred: its second promise takes the place of the first. *)
Lemma inv_defer s c : promise_at s (c, false) = Some Probing -> aborted s c = false -> inv s -> inv (deferRunnerStart c s).
Proof.
  intros Hp Hab Hi. destruct (i_active s Hi _ _ Hp eq_refl) as (Hs & Hr & Ha). cbn in Ha.
  assert (Hcl : w_closing s = false) by (destruct (w_closing s); [by rewrite (Ha eq_refl) in Hab|done]).
  pose proof (promise_attempt _ _ _ Hp) as [a Hat]. cbn in Hat. set (s' := deferRunnerStart c s).
  assert (Hpa : forall q, promise_at s' q = if decide (q = (c, false)) then Some (Ended (Ok tt))
      else if decide (q = (c, true)) then Some Probing else promise_at s q).
  { intros q. unfold s', deferRunnerStart. rewrite promise_at_set.
    - destruct (decide (q = (c, false))); [done|].
      change (promise_at (set_promise (c, true) Probing s) q = if decide (q = (c, true)) then Some Probing else promise_at s q).
      apply promise_at_set. by exists a.
    - cbn. rewrite list_lookup_alter_eq, Hat. by eexists. }
  destruct Hi as [I1 I2 I3 I4 I5 I6 I7 I8 I9 I10 I11]. split; cbn; try done; eauto.
  - intros q x Hq Hx. fold s' in Hq. rewrite Hpa in Hq. repeat case_decide; simplify_eq; cbn in Hx; try done.
    + split_and!; [done|done|]. congruence.
    + destruct (I1 q x Hq Hx) as [E _]. congruence.
  - intros q [= <-]. fold s'. rewrite Hpa, decide_False, decide_True by done. by eexists.
  - intros i b Hb. fold s'. rewrite Hpa. repeat case_decide; eauto.
  - intros m k Hk. destruct (I10 m k Hk). congruence.
  - intros Hx. destruct (I11 Hx) as [E _]. by rewrite E in Hat.
Qed.

Lemma inv_start_unless s p x : promise_at s p = Some x -> active x = true -> inv s -> inv (startRunnerUnlessAborted p s).
Proof. intros Hp Hx Hi. unfold startRunnerUnlessAborted. destruct (aborted s p.1); by eapply inv_promise. Qed.

Lemma inv_promise_step p ans s s' : inv s -> promise_step p ans s = Some s' -> inv s'.
Proof.
  intros Hi H. unfold promise_step in H. destruct (promise_at s p) as [[]|] eqn:Hp, ans; simplify_eq;
    try by first [by eapply inv_promise | by eapply inv_start_unless | by apply inv_setup | by apply inv_settle].
  - destruct p as [c []]; cbn; [by eapply inv_promise|]. destruct (aborted s c) eqn:Ea; [by eapply inv_promise|by apply inv_defer].
  - unfold waitForLoopbackAndStartRunner. destruct (aborted s p.1); [by eapply inv_start_unless|by eapply inv_promise].
Qed.

(** *** The guard, and the bodies of starts *)

Lemma inv_request s c s' : inv s -> request_runner external s = (Some c, s') ->
  inv s' /\ promise_at s' (c, false) = Some Resolving /\ (forall p, is_Some (promise_at s p) -> is_Some (promise_at s' p)) /\
  w_bodies s' = w_bodies s.
Proof.
  intros Hi Hreq. unfold request_runner in Hreq. destruct (external || _ || _ || _) eqn:E; [done|]. injection Hreq as <- <-.
  rewrite !orb_false_iff in E. destruct E as [[[Hx Hcl] Hr%bool_decide_eq_false] Hs%bool_decide_eq_false].
  apply eq_None_not_Some in Hr, Hs. set (c := length (w_attempts s)). set (s' := set_runnerStart _ _).
  assert (Hpa : forall q, promise_at s' q = if decide (q = (c, false)) then Some Resolving else promise_at s q).
  { intros [d b]. unfold promise_at, s'. cbn. destruct (decide (d = c)) as [->|Hne].
    - rewrite lookup_app_r, Nat.sub_diag, (lookup_ge_None_2 (w_attempts s) c) by (unfold c; lia).
      cbn. destruct b; case_decide; simplify_eq; done.
    - rewrite decide_False by congruence. destruct (decide (d < c)) as [Hlt|Hge]; [by rewrite lookup_app_l|].
      rewrite !lookup_ge_None_2; [done|unfold c in *; lia|rewrite length_app; cbn; unfold c in *; lia]. }
  assert (Hq : quiet s).
  { intros q x Hq. destruct (active x) eqn:Ex; [|done]. destruct (i_active s Hi q x Hq Ex) as [E _]. congruence. }
  assert (Hk : forall p, is_Some (promise_at s p) -> is_Some (promise_at s' p)).
  { intros p Hp. rewrite Hpa. by case_decide. }
  split_and!; [|rewrite Hpa; by rewrite decide_True|done|done].
  destruct Hi as [I1 I2 I3 I4 I5 I6 I7 I8 I9 I10 I11]. split; cbn; try done; eauto.
  - intros q x Hqx Hx'. rewrite Hpa in Hqx. case_decide as Eq; [subst q; split_and!; [done..|]; congruence|].
    by rewrite (Hq q x Hqx) in Hx'.
  - intros q [= <-]. rewrite Hpa, decide_True by done. by eexists.
  - intros m k Hm. destruct (I10 m k Hm). congruence.
  - congruence.
Qed.

(** A failure stays one while a body that is not done goes on. *)
Lemma failed_body s i b b' : w_bodies s !! i = Some b -> is_done b = false -> failed s -> failed (set_body i b' s).
Proof.
  intros Hb Hd [j Hj]. exists j. unfold set_body. cbn. rewrite list_lookup_insert_ne; [done|]. intros <-. by simplify_eq.
Qed.

(** The closers that have come past the start know every body done. *)
Lemma closer_body s i b b' c : w_bodies s !! i = Some b -> is_done b = false ->
  closer_ok c s -> closer_ok c (set_body i b' s).
Proof.
  intros Hb Hd. destruct c as [p|oi|k|u| |[]]; cbn; try done.
  - intros (Hq & H1 & H2). split_and!; [done|..].
    + intros j x Hj Hx. apply list_lookup_insert_Some in Hj as [(<- & _ & _)|[_ Hj]]; eauto.
    + intros j Ej. destruct (H2 j Ej) as [x Hx]. destruct (decide (i = j)) as [<-|]; [|by rewrite list_lookup_insert_ne by done; exists x].
      rewrite list_lookup_insert_eq by (by eapply lookup_lt_Some). by eexists.
  - intros (_ & Hall & _). by rewrite (Hall i b Hb) in Hd.
  - intros (_ & Hall & _). by rewrite (Hall i b Hb) in Hd.
  - intros (_ & Hall & _). by rewrite (Hall i b Hb) in Hd.
  - intros (_ & Hall & _). by rewrite (Hall i b Hb) in Hd.
Qed.

(** A body goes on, or returns. *)
Lemma inv_body s i b b' : w_bodies s !! i = Some b -> is_done b = false -> b' <> MakingUtils ->
  (forall c, b' = AwaitingRunner c -> is_Some (promise_at s (c, false))) -> inv s -> inv (set_body i b' s).
Proof.
  intros Hb Hd Hm Haw [I1 I2 I3 I4 I5 I6 I7 I8 I9 I10 I11]. pose proof (fun H => failed_body s i b b' Hb Hd H) as Hf.
  assert (Hlt : i < length (w_bodies s)) by (by eapply lookup_lt_Some).
  split; cbn; try done; eauto.
  - intros j x Hj Hx. apply list_lookup_insert_Some in Hj as [(<- & <- & _)|[_ Hj]]; eauto.
  - intros j Hj. destruct (I5 j Hj) as [x Hx]. destruct (decide (i = j)) as [<-|]; [|by rewrite list_lookup_insert_ne by done; exists x].
    rewrite list_lookup_insert_eq by done. by eexists.
  - intros j c Hj. apply list_lookup_insert_Some in Hj as [(<- & -> & _)|[_ Hj]]; eauto.
  - intros u Hu. destruct (I7 u Hu); auto.
  - intros j Hj. apply list_lookup_insert_Some in Hj as [(<- & -> & _)|[_ Hj]]; [done|]. destruct (I8 j Hj); auto.
  - intros Hcl Hsp. destruct (I9 Hcl Hsp) as [[E _]|]; [|auto]. rewrite E in Hlt. cbn in Hlt. lia.
  - intros m c Hc. destruct (I10 m c Hc) as [Hcl Hok]. split; [done|]. by eapply closer_body.
Qed.

(** The start's promise is given up where no body hangs on it. *)
Lemma inv_no_start_promise s : bodies_done s -> w_closing s = true \/ failed s -> inv s -> inv (set_startPromise None s).
Proof.
  intros Hd Hf []. split; cbn; eauto; [|done|].
  - intros i b Hb Hx. by rewrite (Hd i b Hb) in Hx.
  - intros Hcl _. destruct Hf as [?|?]; [congruence|by right].
Qed.

Lemma sole_body s i j b x : inv s -> w_bodies s !! i = Some b -> is_done b = false -> w_bodies s !! j = Some x -> is_done x = false -> i = j.
Proof. intros Hi Hb Hd Hx Hdx. pose proof (i_bodies s Hi i b Hb Hd). pose proof (i_bodies s Hi j x Hx Hdx). congruence. Qed.

Lemma inv_body_end s i b r : w_bodies s !! i = Some b -> is_done b = false -> inv s -> inv (body_end i r s).
Proof.
  intros Hb Hd Hi. assert (H1 : inv (set_body i (BodyDone r) s)) by (by eapply inv_body).
  unfold body_end. destruct r as [[]|[]]; [done|]. apply (inv_no_start_promise (set_body i (BodyDone (Err tt)) s)); [| |done].
  - intros j x Hj. cbn in Hj. apply list_lookup_insert_Some in Hj as [(<- & <- & _)|[Hne Hj]]; [done|].
    destruct (is_done x) eqn:Ex; [done|]. destruct Hne. by apply (sole_body s i j b x).
  - right. exists i. cbn. apply list_lookup_insert_eq. by eapply lookup_lt_Some.
Qed.

(** The utils of the only body that was making some. *)
Lemma inv_utils_made s i : w_bodies s !! i = Some MakingUtils -> inv s ->
  inv (set_body i MigratingQueue (set_workerUtils (Some (length (w_utils s))) (w_utils s ++ [true]) s)).
Proof.
  intros Hb Hi. assert (H1 : inv (set_body i MigratingQueue s)) by (by eapply inv_body).
  assert (Hf : failed s -> failed (set_body i MigratingQueue s)) by (by eapply failed_body).
  assert (Hw : w_workerUtils s = None \/ failed s) by (by eapply i_making).
  assert (Hlt : i < length (w_bodies s)) by (by eapply lookup_lt_Some).
  pose proof (i_fresh s Hi) as Hfr. destruct H1 as [I1 I2 I3 I4 I5 I6 I7 I8 I9 I10 I11]. cbn in *.
  split; cbn; try done; eauto.
  - intros u Hu. apply lookup_app_Some in Hu as [Hu|[Hle Hu]].
    + destruct Hw as [Hw|Hw]; [|right; by apply Hf]. apply I7 in Hu as [Hu|Hu]; [congruence|by right].
    + left. f_equal. destruct (u - length (w_utils s)) eqn:E; [lia|done].
  - intros j Hj. right. apply list_lookup_insert_Some in Hj as [(_ & [=] & _)|[Hne Hj]].
    destruct Hne. by apply (sole_body s i j MakingUtils MakingUtils).
  - intros Hcl Hsp. destruct (Hfr Hcl Hsp) as [[E _]|H]; [|right; by apply Hf]. rewrite E in Hlt. cbn in Hlt. lia.
  - intros m c Hc. destruct (i_closers s Hi m c Hc) as [Hcl Hok]. split; [done|].
    destruct c as [p|oi|k|u| |[]]; try exact I; try (cbn in Hok; destruct Hok as (_ & Hall & _); by specialize (Hall i _ Hb)).
    + exact Hok.
    + by apply (closer_body s i MakingUtils MigratingQueue (AwaitStart oi)).
Qed.

Lemma inv_body_step i ans s s' : inv s -> body_step external i ans s = Some s' -> inv s'.
Proof.
  intros Hi H. unfold body_step in H. destruct (w_bodies s !! i) as [[| |c|]|] eqn:Hb; [| | |done..].
  - destruct ans; simplify_eq; [by apply inv_utils_made|by eapply inv_body_end].
  - destruct ans; simplify_eq; [|by eapply inv_body_end].
    destruct (request_runner external s) as [[c|] s1] eqn:Hr; simplify_eq.
    + destruct (inv_request s c s1 Hi Hr) as (H1 & H2 & _ & H3). eapply (inv_body s1 i MigratingQueue); [by rewrite H3|done..| |done].
      intros d [= ->]. by eexists.
    + assert (s1 = s) as -> by (unfold request_runner in Hr; by destruct (external || _ || _ || _); simplify_eq).
      by eapply inv_body_end.
  - destruct ans; simplify_eq. destruct (promise_at s (c, false)) as [[]|]; simplify_eq. by eapply inv_body_end.
Qed.

Lemma inv_call_start s : inv s -> inv (call_start s).
Proof.
  intros Hi. unfold call_start. destruct (w_closing s) eqn:Hcl; [by apply inv_starters|].
  destruct (w_startPromise s) as [i|] eqn:Hsp; [by apply inv_starters|]. apply inv_starters.
  assert (Hfr : w_workerUtils s = None \/ failed s) by (destruct (i_fresh s Hi Hcl Hsp) as [[_ ?]|?]; auto).
  assert (Hd : bodies_done s).
  { intros j b Hb. destruct (is_done b) eqn:E; [done|]. pose proof (i_bodies s Hi j b Hb E). congruence. }
  assert (Hf : failed s -> failed (set_startPromise (Some (length (w_bodies s))) (set_bodies (w_bodies s ++ [MakingUtils]) s))).
  { intros [j Hj]. exists j. cbn. by apply lookup_app_l_Some. }
  set (s' := set_startPromise _ _) in *. destruct Hi as [I1 I2 I3 I4 I5 I6 I7 I8 I9 I10 I11]. split; cbn; try done; eauto.
  - intros j b Hb E. apply lookup_app_Some in Hb as [Hb|[Hle Hb]]; [by rewrite (Hd j b Hb) in E|].
    destruct (j - length (w_bodies s)) eqn:Ej; [|done]. f_equal. lia.
  - intros j [= <-]. rewrite lookup_app_r, Nat.sub_diag by done. by eexists.
  - intros j c Hj. apply lookup_app_Some in Hj as [Hj|[_ Hj]]; [eauto|]. by destruct (j - length (w_bodies s)).
  - intros u Hu. destruct (I7 u Hu); [by left|right; by apply Hf].
  - intros j _. destruct Hfr; [by left|right; by apply Hf].
  - intros m c Hc. destruct (I10 m c Hc). congruence.
Qed.

Lemma inv_starter_step j s s' : inv s -> starter_step external j s = Some s' -> inv s'.
Proof.
  intros Hi H. unfold starter_step in H. destruct (w_starters s !! j) as [[i|c|]|]; [| |done..].
  - destruct (w_bodies s !! i) as [[| | |[[]|[]]]|]; simplify_eq; [|by apply inv_starters].
    destruct (negb _ && _ && _); simplify_eq; [|by apply inv_starters].
    destruct (request_runner external s) as [[c|] s1] eqn:Hr; simplify_eq; apply inv_starters.
    + by destruct (inv_request s c s1 Hi Hr).
    + unfold request_runner in Hr. by destruct (external || _ || _ || _); simplify_eq.
  - destruct (promise_at s (c, false)) as [[]|]; simplify_eq. by apply inv_starters.
Qed.

(** *** Closing *)

Lemma inv_closer s l c : inv s -> w_closing s = true -> closer_ok c s ->
  (forall m c', l !! m = Some c' -> c' = c \/ w_closers s !! m = Some c') -> inv (set_closers l s).
Proof.
  intros [] Hcl Hok Hl. split; cbn; try done; eauto. intros m c' Hm. destruct (Hl m c' Hm) as [->|Hm']; eauto.
Qed.

Lemma inv_set_closer s m c : inv s -> w_closing s = true -> closer_ok c s -> inv (set_closer m c s).
Proof.
  intros Hi Hcl Hok. eapply inv_closer; [done..|]. intros j c' Hj. apply list_lookup_insert_Some in Hj as [(_ & <- & _)|[_ Hj]]; auto.
Qed.

Lemma inv_add_closer s c : inv s -> w_closing s = true -> closer_ok c s -> inv (add_closer c s).
Proof.
  intros Hi Hcl Hok. eapply inv_closer; [done..|]. intros j c' Hj. apply lookup_app_Some in Hj as [Hj|[_ Hj]]; [by right|].
  left. destruct (j - length (w_closers s)) as [|n]; [by injection Hj|by destruct n].
Qed.

Lemma inv_closing s : inv s ->
  (forall p x, promise_at s p = Some x -> active x = true -> aborted s p.1 = true) -> inv (set_closing s).
Proof.
  intros [I1 I2 I3 I4 I5 I6 I7 I8 I9 I10 I11] Ha. split; cbn; try done; eauto.
  - intros p x Hp Hx. destruct (I1 p x Hp Hx) as (? & ? & _). split_and!; [done..|]. intros _. by apply (Ha p x).
  - intros m c Hc. by destruct (I10 m c Hc).
Qed.

Lemma inv_abort s p x : promise_at s p = Some x -> inv s -> inv (abort p.1 s).
Proof.
  intros Hp Hi. pose proof (fun q => promise_at_abort s p.1 q) as Hpa. pose proof (fun c => aborted_abort s p x c Hp) as Hab.
  assert (Hx : external = true -> w_attempts s = []) by (intros Hx; by apply (i_external s Hi)).
  destruct Hi as [I1 I2 I3 I4 I5 I6 I7 I8 I9 I10 I11]. split; try done.
  - intros q y Hq Hy. rewrite Hpa in Hq. destruct (I1 q y Hq Hy) as (? & ? & H). split_and!; [done..|].
    intros Hcl. rewrite Hab. apply orb_true_iff. right. by apply H.
  - intros q Hq. rewrite Hpa. by apply I2.
  - intros i c Hb. rewrite Hpa. by apply (I6 i c).
  - intros m c Hc. destruct (I10 m c Hc) as [Hcl Hok]. split; [done|].
    assert (Hq : quiet s -> quiet (abort p.1 s)) by (intros H q y Hqy; rewrite Hpa in Hqy; by apply (H q y)).
    destruct c as [q|oi|k|u| |[]]; cbn in *; try (by intuition auto); try done.
    destruct Hok as [H1 H2]. split; [by rewrite Hpa|]. intros q' y. rewrite Hpa. apply H2.
  - intros He. destruct (I11 He) as [E1 E2]. cbn. by rewrite E1.
Qed.

Lemma inv_call_close s : inv s -> inv (call_close s).
Proof.
  intros Hi. unfold call_close. cbn [w_runnerStart set_closing w_startPromise]. destruct (w_runnerStart s) as [p|] eqn:Hs.
  - destruct (i_start s Hi p Hs) as [x Hp].
    assert (Hsole : forall q y, promise_at s q = Some y -> active y = true -> q = p).
    { intros q y Hq Hy. destruct (i_active s Hi q y Hq Hy) as [E _]. congruence. }
    apply inv_add_closer; [|done|].
    + change (inv (set_closing (abort p.1 s))). apply inv_closing; [by eapply inv_abort|].
      intros q y Hq Hy. rewrite promise_at_abort in Hq. rewrite (aborted_abort s p x) by done.
      by rewrite (Hsole q y Hq Hy), bool_decide_true.
    + cbn. change (abort p.1 (set_closing s)) with (set_closing (abort p.1 s)).
      change (promise_at (set_closing ?s)) with (promise_at s). rewrite promise_at_abort. split; [by exists x|].
      intros q y. change (promise_at (set_closing ?s)) with (promise_at s). rewrite promise_at_abort. apply Hsole.
  - assert (Hq : quiet s).
    { intros q y Hq. destruct (active y) eqn:E; [|done]. destruct (i_active s Hi q y Hq E) as [E' _]. congruence. }
    apply inv_add_closer; [|done|].
    + apply inv_closing; [done|]. intros q y Hqy Hy. by rewrite (Hq q y Hqy) in Hy.
    + cbn. split_and!; [done|exact (i_bodies s Hi)|exact (i_body s Hi)].
Qed.

(** A close that goes on behind the start, the runner and the utils. *)
Lemma inv_behind_utils s m : inv s -> w_closing s = true -> quiet s -> bodies_done s ->
  w_runner s = None -> w_workerUtils s = None -> inv (behind_utils m s).
Proof.
  intros Hi Hcl Hq Hd Hr Hw. apply inv_set_closer; [|done|by split_and!]. apply inv_no_start_promise; auto.
Qed.

Lemma inv_behind_runner s m : inv s -> w_closing s = true -> quiet s -> bodies_done s -> w_runner s = None ->
  inv (behind_runner m s).
Proof.
  intros Hi Hcl Hq Hd Hr. unfold behind_runner. destruct (w_workerUtils s) as [u|] eqn:Hw; [|by apply inv_behind_utils].
  apply inv_set_closer; [done..|]. cbn. split_and!; [done..|]. intros u'. congruence.
Qed.

Lemma inv_behind_start s m : inv s -> w_closing s = true -> quiet s -> bodies_done s -> inv (behind_start m s).
Proof.
  intros Hi Hcl Hq Hd. unfold behind_start. destruct (w_runner s) as [k|] eqn:Hr; [|by apply inv_behind_runner].
  apply inv_set_closer; [done..|]. cbn. split_and!; [done..|]. intros k'. congruence.
Qed.

(** The runner that a close has stopped, and the utils it has released. *)
Lemma inv_runner_stopped s k : inv s -> quiet s -> (forall k', w_runner s = Some k' -> k' = k) ->
  inv (set_runner None (<[k := false]> (w_runners s)) s).
Proof.
  intros [I1 I2 I3 I4 I5 I6 I7 I8 I9 I10 I11] Hq Hk. split; cbn; try done; eauto.
  - intros p x Hp Hx. by rewrite (Hq p x Hp) in Hx.
  - intros j Hj. apply list_lookup_insert_Some in Hj as [(_ & [=] & _)|[Hne Hj]]. destruct Hne. symmetry. auto.
  - intros m c Hc. destruct (I10 m c Hc) as [Hcl Hok]. split; [done|].
    destruct c as [| | | | |[]]; cbn in *; try done; by intuition auto.
  - intros Hx. destruct (I11 Hx) as [E1 E2]. split; [done|]. by rewrite E2.
Qed.

Lemma inv_utils_released s u : inv s -> bodies_done s -> (forall u', w_workerUtils s = Some u' -> u' = u) ->
  inv (set_workerUtils None (<[u := false]> (w_utils s)) s).
Proof.
  intros [I1 I2 I3 I4 I5 I6 I7 I8 I9 I10 I11] Hd Hu. split; cbn; try done; eauto.
  - intros j Hj. apply list_lookup_insert_Some in Hj as [(_ & [=] & _)|[Hne Hj]]. destruct (I7 j Hj) as [E|]; [|by right].
    destruct Hne. symmetry. auto.
  - intros Hcl Hsp. destruct (I9 Hcl Hsp) as [[? ?]|]; auto.
  - intros m c Hc. destruct (I10 m c Hc) as [Hcl Hok]. split; [done|].
    destruct c as [| | | | |[]]; cbn in *; try done; by intuition auto.
Qed.

Lemma inv_closer_step m ans s s' : inv s -> closer_step m ans s = Some s' -> inv s'.
Proof.
  intros Hi H. unfold closer_step in H. destruct (w_closers s !! m) as [c|] eqn:Hm; [|done].
  destruct (i_closers s Hi m c Hm) as [Hcl Hok].
  assert (Herr : inv (set_closer m (Closed (Err tt)) s)) by (by apply inv_set_closer).
  destruct c as [p|[i|]|k|u| |r]; [destruct ans..|by destruct ans]; try done; try (injection H as <-; exact Herr).
  - destruct Hok as [_ Hs]. destruct (promise_at s p) as [[| | | | |[[]|[]]]|] eqn:Hp; simplify_eq; [|done].
    assert (Hq : quiet s).
    { intros q x Hqx. destruct (active x) eqn:E; [|done]. pose proof (Hs q x Hqx E). by simplify_eq. }
    apply inv_set_closer; [by apply inv_no_start|done|]. cbn. split_and!; [done|exact (i_bodies s Hi)|exact (i_body s Hi)].
  - destruct Hok as (Hq & Hb & _). destruct (w_bodies s !! i) as [[]|] eqn:Hbi; simplify_eq. apply inv_behind_start; [done..|].
    intros j b Hj. destruct (is_done b) eqn:E; [done|]. pose proof (Hb j b Hj E). by simplify_eq.
  - destruct Hok as (Hq & Hb & _). simplify_eq. apply inv_behind_start; [done..|].
    intros j b Hj. destruct (is_done b) eqn:E; [done|]. by pose proof (Hb j b Hj E).
  - destruct Hok as (Hq & Hd & Hk). simplify_eq. by apply inv_behind_runner; [apply inv_runner_stopped|..].
  - destruct Hok as (Hq & Hd & Hr & Hu). simplify_eq. by apply inv_behind_utils; [apply inv_utils_released|..].
  - simplify_eq. apply inv_set_closer; [done..|]. exact Hok.
Qed.

Lemma inv_step l s s' : inv s -> world_step external s l = Some s' -> inv s'.
Proof.
  intros Hi H. destruct l; cbn in H; simplify_eq;
    eauto using inv_call_start, inv_call_close, inv_promise_step, inv_body_step, inv_starter_step, inv_closer_step.
Qed.

Lemma inv_steps ls s s' : inv s -> world_steps external s ls = Some s' -> inv s'.
Proof.
  revert s. induction ls as [|l ls IH]; intros s Hi H; cbn in H; [by simplify_eq|].
  destruct (world_step external s l) as [s1|] eqn:E; [|done]. eapply IH; [|exact H]. by eapply inv_step.
Qed.

(** *** What a step leaves alone *)

Definition is_closed (c : closer) : bool := match c with Closed _ => true | _ => false end.

Lemma request_closers s c s' : request_runner external s = (c, s') -> w_closers s' = w_closers s.
Proof. unfold request_runner. destruct (external || _ || _ || _); intros [= <- <-]; done. Qed.

(** The steps of promises, bodies and starts leave the calls of [close] alone. *)
Lemma promise_closers p ans s s' : promise_step p ans s = Some s' -> w_closers s' = w_closers s.
Proof.
  intros H. unfold promise_step, waitForLoopbackAndStartRunner, startRunnerUnlessAborted in H.
  destruct (promise_at s p) as [[]|], ans; simplify_eq; repeat case_match; try done; unfold settle; by case_match.
Qed.

Lemma body_closers i ans s s' : body_step external i ans s = Some s' -> w_closers s' = w_closers s.
Proof.
  intros H. unfold body_step in H. destruct (w_bodies s !! i) as [[]|], ans; simplify_eq; try done.
  - destruct (request_runner external s) as [[c|] s1] eqn:Hr; simplify_eq; by rewrite <- (request_closers _ _ _ Hr).
  - destruct (promise_at s (c, false)) as [[| | | | |[]]|]; by simplify_eq.
Qed.

Lemma starter_closers j s s' : starter_step external j s = Some s' -> w_closers s' = w_closers s.
Proof.
  intros H. unfold starter_step in H. destruct (w_starters s !! j) as [[i|c|]|]; [| |done..].
  - destruct (w_bodies s !! i) as [[| | |[]]|]; simplify_eq; [|done]. destruct (negb _ && _ && _); [|by simplify_eq].
    destruct (request_runner external s) as [[c|] s1] eqn:Hr; simplify_eq; by rewrite <- (request_closers _ _ _ Hr).
  - destruct (promise_at s (c, false)) as [[]|]; by simplify_eq.
Qed.

(** A step of a close puts it somewhere else. *)
Lemma behind_start_closers m s : exists x, w_closers (behind_start m s) = <[m := x]> (w_closers s).
Proof. unfold behind_start, behind_runner, behind_utils. repeat case_match; cbn; by eexists. Qed.

Lemma behind_runner_closers m s : exists x, w_closers (behind_runner m s) = <[m := x]> (w_closers s).
Proof. unfold behind_runner, behind_utils. repeat case_match; cbn; by eexists. Qed.

Lemma closer_closers m ans s s' : closer_step m ans s = Some s' ->
  exists c x, w_closers s !! m = Some c /\ is_closed c = false /\ w_closers s' = <[m := x]> (w_closers s).
Proof.
  intros H. unfold closer_step in H. destruct (w_closers s !! m) as [c|]; [|done]. exists c.
  assert (Hx : exists x, is_closed c = false /\ w_closers s' = <[m := x]> (w_closers s)).
  { destruct c as [p|[i|]|k|u| |r], ans; simplify_eq; try by (eexists; split; [done|reflexivity]).
    - destruct (promise_at s p) as [[| | | | |[]]|]; simplify_eq; by eexists.
    - destruct (w_bodies s !! i) as [[]|]; simplify_eq. destruct (behind_start_closers m s) as [x Hx]. by exists x.
    - destruct (behind_start_closers m s) as [x Hx]. by exists x.
    - destruct (behind_runner_closers m (set_runner None (<[k:=false]> (w_runners s)) s)) as [x Hx]. by exists x. }
  destruct Hx as [x Hx]. by exists x.
Qed.

Lemma closed_stays_step l m r s s' : world_step external s l = Some s' -> w_closers s !! m = Some (Closed r) -> w_closers s' !! m = Some (Closed r).
Proof.
  intros H Hm. destruct l; cbn in H.
  - simplify_eq. unfold call_start. by repeat case_match.
  - simplify_eq. unfold call_close. repeat case_match; cbn; by apply lookup_app_l_Some.
  - by rewrite (promise_closers _ _ _ _ H).
  - by rewrite (body_closers _ _ _ _ H).
  - by rewrite (starter_closers _ _ _ H).
  - destruct (closer_closers _ _ _ _ H) as (c & x & Hc & Hcl & E). rewrite E, list_lookup_insert_ne; [done|].
    intros <-. by simplify_eq.
Qed.

Lemma closed_stays ls m r s s' : world_steps external s ls = Some s' -> w_closers s !! m = Some (Closed r) -> w_closers s' !! m = Some (Closed r).
Proof.
  revert s. induction ls as [|l ls IH]; intros s H Hm; cbn in H; [by simplify_eq|].
  destruct (world_step external s l) as [s1|] eqn:E; [|done]. eapply IH; [exact H|]. by eapply closed_stays_step.
Qed.

(** ** One runner, and none behind a close *)

(** C37 However the calls of start and close interleave with the answers they
    wait for and with failures, no two runners of a world ever live at a time,
    and an external world has none; once a close has returned without an error,
    no runner lives, no start is under way that could bring one, the worker utils
    are given back unless a start had failed, and it stays so for good. *)
Theorem one_runner_and_none_once_closed ls s :
  world_steps external new_world ls = Some s ->
  (forall j k, w_runners s !! j = Some true -> w_runners s !! k = Some true -> j = k) /\
  (external = true -> w_runners s = []) /\
  (Closed (Ok tt) ∈ w_closers s -> forall ls' s', world_steps external s ls' = Some s' ->
     (forall k, w_runners s' !! k <> Some true) /\ quiet s' /\
     (forall u, w_utils s' !! u = Some true -> failed s')).
Proof.
  intros H. pose proof (inv_steps ls new_world s inv_new H) as Hi. split_and!.
  - intros j k Hj Hk. apply (i_runner s Hi) in Hj, Hk. congruence.
  - intros Hx. by apply (i_external s Hi).
  - intros Hc ls' s' Hs'. pose proof (inv_steps ls' s s' Hi Hs') as Hi'.
    apply list_elem_of_lookup in Hc as [m Hm]. eapply closed_stays in Hm; [|exact Hs'].
    destruct (i_closers s' Hi' m _ Hm) as [_ (Hq & _ & Hr & Hu)]. split_and!; [|done|].
    + intros k Hk. apply (i_runner s' Hi') in Hk. congruence.
    + intros u Hu'. destruct (i_utils s' Hi' u Hu'); [congruence|done].
Qed.

(** ** Closing ends *)

Lemma request_closing s c s' : request_runner external s = (c, s') -> w_closing s' = w_closing s.
Proof. unfold request_runner. destruct (external || _ || _ || _); intros [= <- <-]; done. Qed.

Lemma request_closed s : w_closing s = true -> request_runner external s = (None, s).
Proof. intros H. unfold request_runner. by rewrite H, orb_true_r. Qed.

(** Closing is never taken back. *)
Lemma step_closing l s s' : world_step external s l = Some s' -> w_closing s = true -> w_closing s' = true.
Proof.
  intros H Hcl. destruct l; cbn in H.
  - simplify_eq. unfold call_start. by rewrite Hcl.
  - simplify_eq. unfold call_close. by repeat case_match.
  - unfold promise_step, waitForLoopbackAndStartRunner, startRunnerUnlessAborted in H.
    destruct (promise_at s p) as [[]|], ans; simplify_eq; repeat case_match; try done; unfold settle; by case_match.
  - unfold body_step in H. destruct (w_bodies s !! i) as [[]|], ans; simplify_eq; try done.
    + rewrite request_closed in H by done. by simplify_eq.
    + destruct (promise_at s (c, false)) as [[| | | | |[]]|]; by simplify_eq.
  - unfold starter_step in H. rewrite Hcl in H. destruct (w_starters s !! j) as [[i|c|]|]; [| |done..].
    + destruct (w_bodies s !! i) as [[| | |[]]|]; cbn in H; by simplify_eq.
    + destruct (promise_at s (c, false)) as [[]|]; by simplify_eq.
  - unfold closer_step, behind_start, behind_runner, behind_utils in H. destruct (w_closers s !! m) as [[p|[i|]|k|u| |r]|], ans; simplify_eq; try done;
      repeat case_match; simplify_eq; done.
Qed.

(** How many steps are left at most; that closing has aborted the start matters. *)
Definition wait_left (x : wait) : nat :=
  match x with Resolving => 6 | Probing => 5 | Sleeping => 4 | SettingUp => 3 | Ended _ => 1 | Settled _ => 0 end.
Definition attempt_left (a : attempt) : nat := wait_left (at_first a) + from_option wait_left 0 (at_later a).
Definition body_left (b : body) : nat :=
  match b with MakingUtils => 3 | MigratingQueue => 2 | AwaitingRunner _ => 1 | BodyDone _ => 0 end.
Definition starter_left (x : starter) : nat := match x with Started _ => 0 | _ => 1 end.
Definition closer_left (c : closer) : nat :=
  match c with AwaitAttempt _ => 5 | AwaitStart _ => 4 | StoppingRunner _ => 3 | ReleasingUtils _ => 2 | ClosingLocal => 1 | Closed _ => 0 end.
Definition left (s : world) : nat :=
  sum_list_with attempt_left (w_attempts s) + sum_list_with body_left (w_bodies s) +
  sum_list_with starter_left (w_starters s) + sum_list_with closer_left (w_closers s).

Lemma left_promise s p x y : promise_at s p = Some x -> wait_left y < wait_left x -> left (set_promise p y s) < left s.
Proof.
  intros Hp Hlt. destruct (promise_attempt _ _ _ Hp) as [a Ha]. unfold left, set_promise. cbn.
  rewrite (list_alter_insert _ _ _ _ Ha). pose proof (sum_list_with_insert attempt_left _ _ a (put_wait p y a) Ha) as Hs.
  unfold promise_at in Hp. rewrite Ha in Hp. cbn in Hp. destruct p as [c []]; cbn in *; unfold attempt_left in *; cbn in *.
  - rewrite Hp in Hs. cbn in Hs. lia.
  - simplify_eq. lia.
Qed.

Lemma left_body s i b b' : w_bodies s !! i = Some b -> body_left b' < body_left b -> left (set_body i b' s) < left s.
Proof. intros Hb Hlt. pose proof (sum_list_with_insert body_left _ _ b b' Hb). unfold left. cbn. lia. Qed.

Lemma left_starter s j x x' : w_starters s !! j = Some x -> starter_left x' < starter_left x -> left (set_starter j x' s) < left s.
Proof. intros Hb Hlt. pose proof (sum_list_with_insert starter_left _ _ x x' Hb). unfold left. cbn. lia. Qed.

Lemma left_closer s m c c' : w_closers s !! m = Some c -> closer_left c' < closer_left c -> left (set_closer m c' s) < left s.
Proof. intros Hb Hlt. pose proof (sum_list_with_insert closer_left _ _ c c' Hb). unfold left. cbn. lia. Qed.

Lemma left_body_end s i b r : w_bodies s !! i = Some b -> is_done b = false -> left (body_end i r s) < left s.
Proof.
  intros Hb Hd. assert (left (set_body i (BodyDone r) s) < left s) by (eapply left_body; [done|destruct b; cbn; [lia..|done]]).
  unfold body_end. by destruct r.
Qed.

Definition is_answer (l : label) : bool := match l with CallStart | CallClose => false | _ => true end.

Lemma promise_left p ans s s' : inv s -> w_closing s = true -> promise_step p ans s = Some s' -> left s' < left s.
Proof.
  intros Hi Hcl H. unfold promise_step in H. destruct (promise_at s p) as [x|] eqn:Hp; [|done].
  assert (Hab : active x = true -> aborted s p.1 = true) by (intros Hx; by apply (i_active s Hi p x Hp Hx)).
  unfold waitForLoopbackAndStartRunner, startRunnerUnlessAborted in H.
  destruct x, ans; simplify_eq; try rewrite (Hab eq_refl); try (eapply left_promise; [exact Hp|cbn; lia]).
  - destruct p as [c []]; eapply left_promise; try exact Hp; cbn; lia.
  - change (left (set_promise p (Ended (Ok tt)) s) < left s). eapply left_promise; [exact Hp|cbn; lia].
  - unfold settle. case_bool_decide; [change (left (set_promise p (Settled r) s) < left s)|]; (eapply left_promise; [exact Hp|cbn; lia]).
Qed.

Lemma behind_left s m c : w_closers s !! m = Some c -> closer_left c = 4 -> left (behind_start m s) < left s.
Proof.
  intros Hm Hc. unfold behind_start, behind_runner, behind_utils. repeat case_match;
    try (eapply left_closer; [exact Hm|rewrite Hc; cbn; lia]).
  change (left (set_closer m ClosingLocal s) < left s). eapply left_closer; [exact Hm|rewrite Hc; cbn; lia].
Qed.

Lemma closer_step_left m ans s s' : closer_step m ans s = Some s' -> left s' < left s.
Proof.
  intros H. unfold closer_step in H. destruct (w_closers s !! m) as [c|] eqn:Hm; [|done].
  destruct c as [p|[i|]|k|u| |r], ans; simplify_eq; try (eapply left_closer; [exact Hm|cbn; lia]).
  - destruct (promise_at s p) as [[| | | | |[]]|]; simplify_eq; [|eapply left_closer; [exact Hm|cbn; lia]].
    change (left (set_closer m (AwaitStart (w_startPromise s)) s) < left s). eapply left_closer; [exact Hm|cbn; lia].
  - destruct (w_bodies s !! i) as [[]|]; simplify_eq. by eapply behind_left.
  - by eapply behind_left.
  - unfold behind_runner, behind_utils. cbn. case_match.
    + change (left (set_closer m (ReleasingUtils n) s) < left s). eapply left_closer; [exact Hm|cbn; lia].
    + change (left (set_closer m ClosingLocal s) < left s). eapply left_closer; [exact Hm|cbn; lia].
  - unfold behind_utils. change (left (set_closer m ClosingLocal s) < left s). eapply left_closer; [exact Hm|cbn; lia].
Qed.

Lemma step_left l s s' : inv s -> w_closing s = true -> is_answer l = true -> world_step external s l = Some s' -> left s' < left s.
Proof.
  intros Hi Hcl Ha H. destruct l; try done; cbn in H.
  - by eapply promise_left.
  - unfold body_step in H. destruct (w_bodies s !! i) as [[]|] eqn:Hb, ans; simplify_eq; try (by eapply left_body_end).
    + change (left (set_body i MigratingQueue s) < left s). eapply left_body; [exact Hb|cbn; lia].
    + rewrite request_closed in H by done. simplify_eq. by eapply left_body_end.
    + destruct (promise_at s (c, false)) as [[]|]; simplify_eq. by eapply left_body_end.
  - unfold starter_step in H. rewrite Hcl in H. destruct (w_starters s !! j) as [[i|c|]|] eqn:Hj; [| |done..].
    + destruct (w_bodies s !! i) as [[| | |[]]|]; cbn in H; simplify_eq; (eapply left_starter; [exact Hj|cbn; lia]).
    + destruct (promise_at s (c, false)) as [[]|]; simplify_eq. eapply left_starter; [exact Hj|cbn; lia].
  - by eapply closer_step_left.
Qed.

(** *** A close that has not returned can go on *)

Lemma promise_goes_on s p : is_Some (promise_at s p) ->
  (exists r, promise_at s p = Some (Settled r)) \/ is_Some (promise_step p Yes s).
Proof. intros [x Hp]. unfold promise_step. rewrite Hp. destruct x; eauto. Qed.

Lemma closer_goes_on s m c : inv s -> w_closers s !! m = Some c -> is_closed c = false ->
  exists l s', is_answer l = true /\ world_step external s l = Some s'.
Proof.
  intros Hi Hm Hc. destruct (i_closers s Hi m c Hm) as [Hcl Hok].
  assert (Hgo : forall s', closer_step m Yes s = Some s' -> exists l s', is_answer l = true /\ world_step external s l = Some s')
    by (intros s' H; by exists (AtCloser m Yes), s').
  assert (Hpr : forall p, is_Some (promise_at s p) -> (exists r, promise_at s p = Some (Settled r)) \/
      exists l s', is_answer l = true /\ world_step external s l = Some s').
  { intros p Hp. destruct (promise_goes_on s p Hp) as [|[s' H]]; [by left|right]. by exists (AtPromise p Yes), s'. }
  unfold closer_step in Hgo. rewrite Hm in Hgo. destruct c as [p|[i|]|k|u| |r]; try done; try (by eapply Hgo).
  - destruct Hok as [Hp _]. destruct (Hpr p Hp) as [[[] Hr]|]; [..|done]; rewrite Hr in Hgo; by eapply Hgo.
  - destruct Hok as (_ & _ & Hb). destruct (Hb i eq_refl) as [b Hbi]. rewrite Hbi in Hgo.
    assert (Hbg : forall s', body_step external i Yes s = Some s' -> exists l s', is_answer l = true /\ world_step external s l = Some s')
      by (intros s' H; by exists (AtBody i Yes), s').
    unfold body_step in Hbg. rewrite Hbi in Hbg. destruct b as [| |d|r]; [by eapply Hbg|..|by eapply Hgo].
    + rewrite request_closed in Hbg by done. by eapply Hbg.
    + destruct (Hpr (d, false)) as [[r Hr]|]; [by eapply i_await|rewrite Hr in Hbg; by eapply Hbg|done].
Qed.

(** C38 Closing ends. Once close has been called, the calls under way take at most
    so many steps more, whatever they are answered, and while a call of close has
    not returned one of them can take a step. *)
Theorem closing_ends ls s :
  world_steps external new_world ls = Some s -> w_closing s = true ->
  forall ls' s', Forall (fun l => is_answer l = true) ls' -> world_steps external s ls' = Some s' ->
    length ls' + left s' <= left s /\
    ((forall l, is_answer l = true -> world_step external s' l = None) -> forall c, c ∈ w_closers s' -> is_closed c = true).
Proof.
  intros H Hcl ls' s' Hls Hs'. pose proof (inv_steps ls new_world s inv_new H) as Hi. clear ls H. split.
  - revert s Hcl Hi Hs'. induction Hls as [|l ls' Hl _ IH]; intros s Hcl Hi Hs'; cbn in *; [by simplify_eq|].
    destruct (world_step external s l) as [s1|] eqn:E; [|done]. pose proof (step_left l s s1 Hi Hcl Hl E).
    specialize (IH s1 (step_closing l s s1 E Hcl) (inv_step l s s1 Hi E) Hs'). lia.
  - intros Hstuck c Hc. destruct (is_closed c) eqn:Ec; [done|]. apply list_elem_of_lookup in Hc as [m Hm].
    destruct (closer_goes_on s' m c (inv_steps ls' s s' Hi Hs') Hm Ec) as (l & s2 & Hl & E). by rewrite Hstuck in E.
Qed.
End Invariant.

(** ** On concrete worlds *)

(** A start that comes up at once, and a close behind it. *)
Definition demo_start : list label :=
  [CallStart; AtBody 0 Yes; AtBody 0 Yes; AtPromise (0, false) No; AtPromise (0, false) Yes;
   AtPromise (0, false) Yes; AtBody 0 Yes; AtStarter 0].
Definition demo_close : list label := [CallClose; AtCloser 0 Yes; AtCloser 0 Yes; AtCloser 0 Yes; AtCloser 0 Yes].

(** A start that is deferred while nothing listens, closed in its sleep. *)
Definition demo_deferred : list label :=
  [CallStart; AtBody 0 Yes; AtBody 0 Yes; AtPromise (0, false) Yes; AtPromise (0, false) No;
   AtPromise (0, true) No; CallClose].

Lemma one_runner_and_none_once_closed_witness :
  exists s, world_steps false new_world (demo_start ++ demo_close) = Some s /\
    Closed (Ok tt) ∈ w_closers s /\ w_runners s = [false] /\ (forall k, w_runners s !! k <> Some true).
Proof.
  eexists. split; [vm_compute; reflexivity|]. split; [left|]. split; [reflexivity|].
  eapply (fun H1 H2 => proj1 (proj2 (proj2 (one_runner_and_none_once_closed false (demo_start ++ demo_close) _ H1)) H2 [] _ eq_refl));
    [vm_compute; reflexivity|left].
Defined.

Lemma closing_ends_witness :
  exists s, world_steps false new_world demo_deferred = Some s /\ left s = 12 /\
    forall ls' s', Forall (fun l => is_answer l = true) ls' -> world_steps false s ls' = Some s' -> length ls' <= 12.
Proof.
  eexists. split; [vm_compute; reflexivity|]. split; [reflexivity|]. intros ls' s' H1 H2.
  destruct (closing_ends false demo_deferred _ ltac:(vm_compute; reflexivity) eq_refl ls' s' H1 H2) as [H _].
  exact (Nat.le_trans _ _ _ (Nat.le_add_r _ _) H).
Defined.

(** A start whose runner fails while close waits for it: close fails too, with the
    utils held. *)
Lemma failing_start_breaks_close :
  exists s, world_steps false new_world
    [CallStart; AtBody 0 Yes; AtBody 0 Yes; AtPromise (0, false) No; CallClose; AtPromise (0, false) Fails;
     AtPromise (0, false) Yes; AtBody 0 Yes; AtStarter 0; AtCloser 0 Yes] = Some s /\
    w_closers s = [Closed (Err tt)] /\ w_workerUtils s = Some 0 /\ w_utils s = [true].
Proof. eexists. split; [vm_compute; reflexivity|]. by split_and!. Qed.

(** The world whose queue failed to close keeps its pool, and closing it again does
    nothing. *)
Lemma failed_close_is_final own e q :
  closeWorld own (Err e) false = (Err e, true, [ListenerClosed]) /\ closeWorld own q true = (Ok tt, true, []).
Proof. done. Qed.

(** A start that is tried again forgets the utils of the one that failed. *)
Lemma retried_start_leaks_utils :
  exists s, world_steps false new_world
    ([CallStart; AtBody 0 Yes; AtBody 0 Fails; AtStarter 0; CallStart; AtBody 1 Yes; AtBody 1 Yes; AtPromise (0, false) No;
      AtPromise (0, false) Yes; AtPromise (0, false) Yes; AtBody 1 Yes] ++ demo_close) = Some s /\
    w_closers s = [Closed (Ok tt)] /\ w_utils s = [true; false].
Proof. eexists. split; [vm_compute; reflexivity|]. by split_and!. Qed.
