(* ===== verification/SweepsProps.v ===== *)
(** Timer sweeps never overlap, move deliveries only to a task that is
    registered, and none begins once the dispatcher stops
    (src/dispatcher/runner.ts). *)
From S2P Require Import Prelude Sweeps.

Definition in_flight (x : sweep) : bool := match x with SweepDone => false | _ => true end.
Definition is_moved (e : sweep_effect) : bool := match e with DeliveriesMoved _ => true | _ => false end.

(** Deliveries are moved behind the registration, which there is once at most. *)
Fixpoint registered_first (registered : bool) (es : list sweep_effect) : option bool :=
  match es with
  | [] => Some registered
  | TaskRegistered :: es => if registered then None else registered_first true es
  | DeliveriesMoved _ :: es => if registered then registered_first true es else None
  | QueuesCollected :: es => registered_first registered es
  end.

Lemma registered_first_app es e b b' : registered_first b es = Some b' -> registered_first b (es ++ e) = registered_first b' e.
Proof.
  revert b. induction es as [|x es IH]; intros b H; cbn in *; [by simplify_eq|]. destruct x, b; try done; by apply IH.
Qed.

Record swept (s : sweeper) : Prop := Swept {
  sw_one : forall i x, sp_sweeps s !! i = Some x -> in_flight x = true ->
    sp_sweeping s = true /\ forall j y, sp_sweeps s !! j = Some y -> in_flight y = true -> j = i;
  sw_registered : registered_first false (sp_effects s) = Some (sp_timerTaskRegistered s);
  sw_place : forall i x, sp_sweeps s !! i = Some x -> in_flight x = true ->
    match x with Registering => sp_timerTaskRegistered s = false | _ => sp_timerTaskRegistered s = true end
}.

Lemma swept_begin s : swept s -> (sp_sweeping s = false -> forall i x, sp_sweeps s !! i = Some x -> in_flight x = false) -> swept (begin_sweep s).
Proof.
  intros Hs Hn. unfold begin_sweep. destruct (sp_sweeping s) eqn:E; [done|]. specialize (Hn eq_refl). destruct Hs as [I1 I2 I3].
  assert (Hnew : forall i x, (sp_sweeps s ++ [if sp_timerTaskRegistered s then Moving else Registering]) !! i = Some x -> in_flight x = true ->
            i = length (sp_sweeps s) /\ x = if sp_timerTaskRegistered s then Moving else Registering).
  { intros i x Hi Hx. apply lookup_app_Some in Hi as [Hi|[Hle Hi]]; [by rewrite (Hn i x Hi) in Hx|].
    destruct (i - length (sp_sweeps s)) eqn:El; [|done]. injection Hi as <-. split; [lia|done]. }
  split; cbn; [|done|].
  - intros i x Hi Hx. split; [done|]. intros j y Hj Hy. apply Hnew in Hi as [-> _], Hj as [-> _]; done.
  - intros i x Hi Hx. apply Hnew in Hi as [_ ->]; [|done]. by destruct (sp_timerTaskRegistered s) eqn:Et.
Qed.

(** The sweep that was in flight goes on, or ends. *)
Lemma swept_on s i x y r es : sp_sweeps s !! i = Some x -> in_flight x = true -> in_flight y = true ->
  registered_first (sp_timerTaskRegistered s) es = Some r ->
  match y with Registering => r = false | _ => r = true end -> swept s -> swept (sweep_goes_on i y r es s).
Proof.
  intros Hi Hx Hy Hr Hp [I1 I2 I3]. destruct (I1 i x Hi Hx) as [Hs Hone].
  assert (Hall : forall j z, <[i:=y]> (sp_sweeps s) !! j = Some z -> in_flight z = true -> j = i /\ z = y).
  { intros j z Hj Hz. apply list_lookup_insert_Some in Hj as [(<- & <- & _)|[Hne Hj]]; [done|]. by rewrite (Hone j z Hj Hz) in Hne. }
  split; cbn.
  - intros j z Hj Hz. apply Hall in Hj as [-> _]; [|done]. split; [done|]. intros k u Hk Hu. by apply Hall in Hk as [-> _].
  - by rewrite (registered_first_app _ _ _ _ I2).
  - intros j z Hj Hz. by apply Hall in Hj as [_ ->].
Qed.

Lemma swept_end s i x es : sp_sweeps s !! i = Some x -> in_flight x = true ->
  registered_first (sp_timerTaskRegistered s) es = Some (sp_timerTaskRegistered s) -> swept s -> swept (end_sweep i es s).
Proof.
  intros Hi Hx Hr [I1 I2 I3]. destruct (I1 i x Hi Hx) as [Hs Hone].
  assert (Hnone : forall j z, <[i:=SweepDone]> (sp_sweeps s) !! j = Some z -> in_flight z = true -> False).
  { intros j z Hj Hz. apply list_lookup_insert_Some in Hj as [(_ & <- & _)|[Hne Hj]]; [done|]. by rewrite (Hone j z Hj Hz) in Hne. }
  split; cbn; [|by rewrite (registered_first_app _ _ _ _ I2)|]; intros j z Hj Hz; by destruct (Hnone j z Hj Hz).
Qed.

(** A flag that is down means that nothing is in flight. *)
Lemma swept_idle s : swept s -> sp_sweeping s = false -> forall i x, sp_sweeps s !! i = Some x -> in_flight x = false.
Proof. intros [I1 _ _] Hs i x Hi. destruct (in_flight x) eqn:E; [|done]. destruct (I1 i x Hi E) as [H _]. congruence. Qed.

Lemma swept_step s e s' : swept s -> sweeper_step s e = Some s' -> swept s'.
Proof.
  intros Hs H. destruct e as [ok| |i answer| |j ok]; cbn in H.
  - destruct (sp_cleared s); [done|]. simplify_eq. destruct Hs as [I1 I2 I3]. split; cbn; [done| |done].
    rewrite (registered_first_app _ _ _ _ I2). by destruct ok.
  - destruct (sp_cleared s); [done|]. simplify_eq. apply swept_begin; [done|]. by apply swept_idle.
  - unfold sweep_answered in H. destruct (sp_sweeps s !! i) as [x|] eqn:Hi; [|done]. pose proof (sw_place s Hs i x Hi) as Hp.
    destruct x, answer as [moved|]; simplify_eq; try specialize (Hp eq_refl).
    + eapply swept_on; try done. by rewrite Hp.
    + by eapply swept_end.
    + case_match; [eapply swept_on|eapply swept_end]; try done; cbn; by rewrite Hp.
    + by eapply swept_end.
    + by eapply swept_end.
    + by eapply swept_end.
  - simplify_eq. by destruct Hs.
  - unfold stop_answered in H. destruct (sp_stops s !! j) as [[]|]; simplify_eq; by destruct Hs.
Qed.

Lemma swept_started : swept started_sweeper.
Proof. apply swept_begin; [by split|]. by intros _ i x Hi. Qed.

(** The sweeps begun do not change in number once the intervals are cleared. *)
Lemma cleared_step s e s' : sweeper_step s e = Some s' -> sp_cleared s = true -> sp_cleared s' = true /\ length (sp_sweeps s') = length (sp_sweeps s).
Proof.
  intros H Hc. destruct e as [ok| |i answer| |j ok]; cbn in H; try rewrite Hc in H; simplify_eq; try done.
  - unfold sweep_answered in H. destruct (sp_sweeps s !! i) as [[]|], answer; simplify_eq; try case_match; cbn; by rewrite length_insert.
  - unfold stop_answered in H. destruct (sp_stops s !! j) as [[]|]; by simplify_eq.
Qed.

(** Whatever fires and fails, no two timer sweeps of a dispatcher are ever under
    way together, deliveries are moved only to a timer task that an earlier sweep
    has registered, which happens once, and no sweep begins once stop is called. *)
Theorem sweeps_never_overlap es s : sweeper_steps started_sweeper es = Some s ->
  (forall i j x y, sp_sweeps s !! i = Some x -> sp_sweeps s !! j = Some y -> in_flight x = true -> in_flight y = true -> i = j) /\
  is_Some (registered_first false (sp_effects s)) /\
  (sp_cleared s = true -> forall es' s', sweeper_steps s es' = Some s' -> length (sp_sweeps s') = length (sp_sweeps s)).
Proof.
  intros H. assert (Hs : swept s).
  { revert H. pose proof swept_started as H0. revert H0. generalize started_sweeper as s0. induction es as [|e es IH]; intros s0 H0 H; cbn in H; [by simplify_eq|].
    destruct (sweeper_step s0 e) as [s1|] eqn:E; [|done]. eapply IH; [|exact H]. by eapply swept_step. }
  split_and!.
  - intros i j x y Hi Hj Hx Hy. destruct (sw_one s Hs i x Hi Hx) as [_ Hone]. symmetry. by eapply Hone.
  - rewrite (sw_registered s Hs). by eexists.
  - clear Hs H. intros Hc es'. revert s Hc. induction es' as [|e es' IH]; intros s Hc s' H; cbn in H; [by simplify_eq|].
    destruct (sweeper_step s e) as [s1|] eqn:E; [|done]. destruct (cleared_step s e s1 E Hc) as [Hc1 <-]. by apply IH.
Qed.

Lemma sweeps_never_overlap_witness :
  let es := [SweepFired; SweepAnswered 0 (Some 0); GcFired false; SweepAnswered 0 (Some 3); SweepFired;
             SweepAnswered 0 None; SweepFired; StopAsked; SweepAnswered 1 (Some 0); StopAnswered 0 false; StopAnswered 0 true] in
  exists s, sweeper_steps started_sweeper es = Some s /\ length (sp_sweeps s) = 2 /\
    sp_stops s = [StopReturned (Err tt)] /\ is_Some (registered_first false (sp_effects s)).
Proof.
  eexists. split; [vm_compute; reflexivity|]. split; [reflexivity|]. split; [reflexivity|].
  apply (sweeps_never_overlap [SweepFired; SweepAnswered 0 (Some 0); GcFired false; SweepAnswered 0 (Some 3); SweepFired;
    SweepAnswered 0 None; SweepFired; StopAsked; SweepAnswered 1 (Some 0); StopAnswered 0 false; StopAnswered 0 true]).
  vm_compute. reflexivity.
Defined.
